(** * kongctl: the [apply] reconciliation pipeline

    A shallow embedding of [internal/cli] (the [apply] command and the
    helpers of [route.go] and [service.go]), of the Admin API client of
    [internal/kong] and of the plan model of [internal/apply].

    Conventions.
    - Go [int] is [Z]: the code only compares and copies these numbers.
    - Go [string] is a byte string.  [strings.ToUpper], [strings.ToLower]
      and [strings.TrimSpace] are given by their action on ASCII letters
      and ASCII white space.
    - [*bool] is [option bool]; a nil slice and an empty slice are both
      [[]] (the code only takes [len] and ranges over them).
    - [map[string][]string] is [gmap string (list string)].
    - The text of a field diff is kept as the list of the lines it is
      made of, see [DiffLine]. *)

From Stdlib Require Import ZArith Ascii List Lia Permutation DecimalString.
From Stdlib Require String.
From stdpp Require Import gmap strings list fin_maps sorting.

Open Scope Z_scope.

(** ** Byte strings: the functions of package [strings] the code uses *)

Definition byteIn (lo hi : N) (c : ascii) : bool :=
  ((lo <=? N_of_ascii c) && (N_of_ascii c <=? hi))%N.

Definition upperByte (c : ascii) : ascii :=
  if byteIn 97 122 c then ascii_of_N (N_of_ascii c - 32) else c.

Definition lowerByte (c : ascii) : ascii :=
  if byteIn 65 90 c then ascii_of_N (N_of_ascii c + 32) else c.

Fixpoint mapBytes (f : ascii -> ascii) (s : string) : string :=
  match s with
  | EmptyString => EmptyString
  | String c r => String (f c) (mapBytes f r)
  end.

Definition ToUpper : string -> string := mapBytes upperByte.
Definition ToLower : string -> string := mapBytes lowerByte.

(** '\t', '\n', '\v', '\f', '\r' and ' '. *)
Definition isSpace (c : ascii) : bool :=
  byteIn 9 13 c || (N_of_ascii c =? 32)%N.

Fixpoint trimLeft (p : ascii -> bool) (s : string) : string :=
  match s with
  | EmptyString => EmptyString
  | String c r => if p c then trimLeft p r else s
  end.

Fixpoint trimRight (p : ascii -> bool) (s : string) : string :=
  match s with
  | EmptyString => EmptyString
  | String c r =>
      match trimRight p r with
      | EmptyString => if p c then EmptyString else String c EmptyString
      | r' => String c r'
      end
  end.

Definition TrimSpace (s : string) : string := trimRight isSpace (trimLeft isSpace s).

Fixpoint Join (xs : list string) (sep : string) : string :=
  match xs with
  | [] => ""
  | [x] => x
  | x :: r => x +:+ sep +:+ Join r sep
  end.

Definition streq (a b : string) : bool := bool_decide (a = b).

(** [sort.Strings]: ascending byte-wise order. *)
Fixpoint insertSorted (x : string) (l : list string) : list string :=
  match l with
  | [] => [x]
  | y :: r => if String.leb x y then x :: l else y :: insertSorted x r
  end.

Definition sortStrings (l : list string) : list string :=
  foldr insertSorted [] l.

(** [fmt.Sprintf("%d", n)]. *)
Definition itoa (n : Z) : string := NilZero.string_of_int (Z.to_int n).

(** ** package kong: the resources of the Admin API *)

Record Upstream := mkUpstream { up_ID : string; up_Name : string }.

Record Target := mkTarget { tg_ID : string; tg_Target : string; tg_Weight : Z }.

Record Service := mkService {
  svc_ID : string;
  svc_Name : string;
  svc_URL : string;
  svc_Protocol : string;
  svc_Host : string;
  svc_Port : Z;
  svc_Path : string;
  svc_Retries : Z;
  svc_ConnectTimeout : Z;
  svc_ReadTimeout : Z;
  svc_WriteTimeout : Z
}.

(** The anonymous struct of [Route.Service]. *)
Record ServiceRef := mkServiceRef { ref_ID : string; ref_Name : string }.

Record Route := mkRoute {
  rt_ID : string;
  rt_Name : string;
  rt_Hosts : list string;
  rt_Paths : list string;
  rt_Methods : list string;
  rt_Protocols : list string;
  rt_PreserveHost : option bool;
  rt_RegexPriority : Z;
  rt_HTTPSRedirectStatusCode : Z;
  rt_RequestBuffering : option bool;
  rt_ResponseBuffering : option bool;
  rt_Headers : gmap string (list string);
  rt_Snis : list string;
  rt_Tags : list string;
  rt_PathHandling : string;
  rt_StripPath : option bool;
  rt_Service : ServiceRef
}.

(** ** package cli: the desired-state document of [apply] *)

Record applyTarget := mkApplyTarget { at_Target : string; at_Weight : Z }.

Record applyUpstream := mkApplyUpstream {
  au_Name : string;
  au_Targets : list applyTarget
}.

Record applyService := mkApplyService {
  as_Name : string;
  as_URL : string;
  as_Upstream : string;
  as_Protocol : string;
  as_Port : Z;
  as_Path : string;
  as_Retries : Z;
  as_ConnectTimeout : Z;
  as_ReadTimeout : Z;
  as_WriteTimeout : Z;
  as_Targets : list applyTarget
}.

Record routeBackend := mkRouteBackend {
  rb_Protocol : string;
  rb_Port : Z;
  rb_Path : string;
  rb_Targets : list applyTarget
}.

Record applyRoute := mkApplyRoute {
  ar_Name : string;
  ar_Service : string;
  ar_Hosts : list string;
  ar_Paths : list string;
  ar_Methods : list string;
  ar_StripPath : option bool;
  ar_PathHandling : string;
  ar_Protocols : list string;
  ar_PreserveHost : option bool;
  ar_RegexPriority : Z;
  ar_HTTPSRedirectStatusCode : Z;
  ar_RequestBuffering : option bool;
  ar_ResponseBuffering : option bool;
  ar_Headers : gmap string (list string);
  ar_Snis : list string;
  ar_Tags : list string;
  ar_ServiceName : string;
  ar_UpstreamName : string;
  ar_Backend : routeBackend
}.

Record applySpec := mkApplySpec {
  Upstreams : list applyUpstream;
  Services : list applyService;
  Routes : list applyRoute
}.

Record autoRouteInfo := mkAutoRouteInfo {
  ai_RouteName : string;
  ai_ServiceName : string;
  ai_UpstreamName : string;
  ai_Targets : list applyTarget
}.

(** [r.Service = svcName] at the end of the shorthand block. *)
Definition setService (r : applyRoute) (svc : string) : applyRoute :=
  mkApplyRoute (ar_Name r) svc (ar_Hosts r) (ar_Paths r) (ar_Methods r)
    (ar_StripPath r) (ar_PathHandling r) (ar_Protocols r) (ar_PreserveHost r)
    (ar_RegexPriority r) (ar_HTTPSRedirectStatusCode r) (ar_RequestBuffering r)
    (ar_ResponseBuffering r) (ar_Headers r) (ar_Snis r) (ar_Tags r)
    (ar_ServiceName r) (ar_UpstreamName r) (ar_Backend r).

(** ** package apply: the plan *)

(** One line of diff text.  [Scalar f old new] is ["f: old -> new\n"],
    [Same f] is ["f: (unchanged)\n"], [Head f] is ["f:\n"], [Minus x] is
    ["- x\n"] and [Plus x] is ["+ x\n"]. *)
Inductive Val := VStr (s : string) | VInt (n : Z) | VBool (b : bool).

Inductive DiffLine :=
| Scalar (field : string) (old new : Val)
| Same (field : string)
| Head (field : string)
| Minus (item : string)
| Plus (item : string).

Record Change := mkChange {
  Kind : string;
  Name : string;
  Action : string;
  Diff : list DiffLine
}.

Record Plan := mkPlan { Items : list Change }.

(** ** route.go: helpers shared with [apply] *)

Definition toUpper (xs : list string) : list string := map ToUpper xs.

Definition isAlnum (c : ascii) : bool :=
  byteIn 65 90 c || byteIn 97 122 c || byteIn 48 57 c.

(** [nonWord.ReplaceAllString(p, "-")] for [nonWord = [^A-Za-z0-9]+]: every
    maximal run of other bytes becomes one dash. *)
Fixpoint replaceNonWord (inRun : bool) (s : string) : string :=
  match s with
  | EmptyString => EmptyString
  | String c r =>
      if isAlnum c then String c (replaceNonWord false r)
      else if inRun then replaceNonWord true r
      else String "-"%char (replaceNonWord true r)
  end.

Definition isDash (c : ascii) : bool := (N_of_ascii c =? 45)%N.

Definition defaultRouteName (service : string) (paths methods : list string) : string :=
  let p := Join paths "-" in
  let p := replaceNonWord false p in
  let p := trimLeft isDash p in
  let p := trimRight isDash p in
  let m := sortStrings (toUpper methods) in
  let m := if (length m =? 0)%nat then ["ANY"] else m in
  service +:+ "-" +:+ p +:+ "-" +:+ Join m "+".

Definition diffSlice (field : string) (cur want : list string) : list DiffLine :=
  let a : gset string := list_to_set cur in
  let b : gset string := list_to_set want in
  let del := sortStrings (filter (λ x, x ∉ b) (elements a)) in
  let add := sortStrings (filter (λ x, x ∉ a) (elements b)) in
  if (length del =? 0)%nat && (length add =? 0)%nat then [Same field]
  else Head field :: map Minus del ++ map Plus add.

(** ** apply.go: comparison helpers *)

(** [m[x]] on a [map[string]int]: a missing key reads as 0. *)
Definition readCount (m : gmap string Z) (x : string) : Z := default 0 (m !! x).

(** [for _, x := range a { m[x]++ }] *)
Definition countAll (a : list string) : gmap string Z :=
  foldl (λ m x, <[x := readCount m x + 1]> m) ∅ a.

(** [for _, x := range b { if m[x] == 0 { return false }; m[x]-- }];
    [None] is the early [return false]. *)
Fixpoint uncount (b : list string) (m : gmap string Z) : option (gmap string Z) :=
  match b with
  | [] => Some m
  | x :: r =>
      if (readCount m x =? 0)%Z then None
      else uncount r (<[x := readCount m x - 1]> m)
  end.

Definition sliceSetEqual (a b : list string) : bool :=
  if negb (length a =? length b)%nat then false
  else
    match uncount b (countAll a) with
    | None => false
    | Some m => bool_decide (map_Forall (λ _ v, v = 0) m)
    end.

Definition mapStringSliceEqual (a b : gmap string (list string)) : bool :=
  if negb (size a =? size b)%nat then false
  else
    forallb (λ kv, match b !! kv.1 with
                   | None => false
                   | Some vb => sliceSetEqual kv.2 vb
                   end) (map_to_list a).

(** The order of the lines follows Go's map iteration, which is not
    specified; here it is the order of [map_to_list]. *)
Definition diffMapStringSlice (field : string) (cur want : gmap string (list string))
  : list DiffLine :=
  Head field
  :: flat_map (λ kv, match want !! kv.1 with
                     | None => [Minus kv.1]
                     | Some _ => []
                     end) (map_to_list cur)
  ++ flat_map (λ kv, match cur !! kv.1 with
                     | None => [Plus (kv.1 +:+ ": " +:+ Join kv.2 ", ")]
                     | Some vcur =>
                         if negb (sliceSetEqual vcur kv.2)
                         then [Minus (kv.1 +:+ ": " +:+ Join vcur ", ");
                               Plus (kv.1 +:+ ": " +:+ Join kv.2 ", ")]
                         else []
                     end) (map_to_list want).

(** service.go *)
Definition reconstructURL (s : option Service) : string :=
  match s with
  | None => ""
  | Some s =>
      let proto := svc_Protocol s in
      let host := svc_Host s in
      let port := svc_Port s in
      let path := svc_Path s in
      if streq proto "" || streq host "" then ""
      else
        let needPort := (streq proto "http" && negb (port =? 80)%Z)
                        || (streq proto "https" && negb (port =? 443)%Z) in
        let url := proto +:+ "://" +:+ host in
        let url := if needPort && negb (port =? 0)%Z
                   then url +:+ ":" +:+ itoa port else url in
        match path with
        | EmptyString => url
        | String c _ =>
            if (N_of_ascii c =? 47)%N then url +:+ path else url +:+ "/" +:+ path
        end
  end.

(** [x := false; if p != nil { x = *p }] *)
Definition deref (p : option bool) : bool := default false p.

Definition zneq (a b : Z) : bool := negb (a =? b)%Z.
Definition sneq (a b : string) : bool := negb (streq a b).
Definition beq (a b : bool) : bool := Bool.eqb a b.

(** ** Errors and results *)

Inductive Error :=
| ErrParse                          (* the document is in none of the accepted shapes *)
| ErrEmpty                          (* no resource was recognised *)
| ErrNoAdminURL
| ErrUpstreamName                   (* upstreams[].name is empty *)
| ErrServiceName                    (* services[].name is empty *)
| ErrServiceSource (name : string)  (* a service with neither url nor upstream *)
| ErrRouteName                      (* a route with neither name nor service *)
| ErrPathHandling (value : string)  (* path_handling is not v0 or v1 *)
| ErrClientArgs                     (* a client call with an empty name, url or target *)
| ErrTransport                      (* the request got no response *)
| ErrHTTP (code : Z)                (* a response outside 2xx *)
| ErrNotJSON                        (* a 2xx response that is not JSON *)
| ErrJSON                           (* a 2xx response whose JSON does not decode *)
| ErrServiceMissing (name : string) (* the service of a route does not exist *)
| ErrRouteService.                  (* a route without service id *)

(** The taxonomy of the specification. *)
Inductive ErrorClass := ParseError | ValidationError | DependencyError | FetchError.

Definition classOf (e : Error) : ErrorClass :=
  match e with
  | ErrParse | ErrEmpty => ParseError
  | ErrNoAdminURL | ErrUpstreamName | ErrServiceName | ErrServiceSource _
  | ErrRouteName | ErrPathHandling _ | ErrClientArgs => ValidationError
  | ErrServiceMissing _ | ErrRouteService => DependencyError
  | ErrTransport | ErrHTTP _ | ErrNotJSON | ErrJSON => FetchError
  end.

Inductive Res (A : Type) := Ok (a : A) | Err (e : Error).
Arguments Ok {A} a.
Arguments Err {A} e.

Definition isErr {A} (r : Res A) : bool :=
  match r with Ok _ => false | Err _ => true end.

(** ** Normalisation of the document (apply.go, the three [yaml.Unmarshal]) *)

(** What [yaml.Unmarshal(content, &v)] leaves: the value of [v] and
    whether it returned an error. *)
Record Decoded (A : Type) := mkDecoded { dec_value : A; dec_err : bool }.
Arguments mkDecoded {A} dec_value dec_err.
Arguments dec_value {A} d.
Arguments dec_err {A} d.

(** The content of the file, as the three decodings the code tries. *)
Record Content := mkContent {
  asSpec : Decoded applySpec;
  asRoutes : Decoded (list applyRoute);
  asRoute : Decoded applyRoute
}.

Definition nonEmpty {A} (l : list A) : bool := (0 <? length l)%nat.

Definition routeShaped (r : applyRoute) : bool :=
  sneq (ar_Name r) "" || nonEmpty (ar_Paths r) || nonEmpty (ar_Hosts r)
  || nonEmpty (ar_Methods r) || sneq (ar_Service r) ""
  || nonEmpty (rb_Targets (ar_Backend r)) || sneq (rb_Protocol (ar_Backend r)) ""
  || zneq (rb_Port (ar_Backend r)) 0 || sneq (rb_Path (ar_Backend r)) "".

Definition noResources (spec : applySpec) : bool :=
  (length (Upstreams spec) =? 0)%nat && (length (Services spec) =? 0)%nat
  && (length (Routes spec) =? 0)%nat.

Definition withRoutes (spec : applySpec) (routes : list applyRoute) : applySpec :=
  mkApplySpec (Upstreams spec) (Services spec) routes.

Definition normalize (c : Content) : Res applySpec :=
  let spec := dec_value (asSpec c) in
  let errTop := dec_err (asSpec c) in
  if errTop || noResources spec then
    let routes := dec_value (asRoutes c) in
    if negb (dec_err (asRoutes c)) && nonEmpty routes then Ok (withRoutes spec routes)
    else
      let r := dec_value (asRoute c) in
      if negb (dec_err (asRoute c)) && routeShaped r then Ok (withRoutes spec [r])
      else if errTop then Err ErrParse
      else Err ErrEmpty
  else Ok spec.

(** The three shapes of a well-formed file.  A mapping decodes as a
    document and as a route (unknown keys are ignored) but not as a list;
    a sequence decodes as a list of routes only. *)
Definition zeroBackend : routeBackend := mkRouteBackend "" 0 "" [].
Definition zeroRoute : applyRoute :=
  mkApplyRoute "" "" [] [] [] None "" [] None 0 0 None None ∅ [] [] "" "" zeroBackend.
Definition zeroSpec : applySpec := mkApplySpec [] [] [].

Definition ofMapping (spec : applySpec) (r : applyRoute) : Content :=
  mkContent (mkDecoded spec false) (mkDecoded [] true) (mkDecoded r false).

Definition ofSequence (routes : list applyRoute) : Content :=
  mkContent (mkDecoded zeroSpec true) (mkDecoded routes false) (mkDecoded zeroRoute true).

(** ** The Admin API, as the client sees it *)

(** The body of a response, as far as the client tells bodies apart:
    not JSON at all (an HTML page, a wrong content type), empty, JSON
    that does not decode, or the JSON of a resource. *)
Inductive Body (A : Type) := NotJSON | Blank | Malformed | Json (a : A).
Arguments NotJSON {A}.
Arguments Blank {A}.
Arguments Malformed {A}.
Arguments Json {A} a.

(** What [c.client.Do] gives back: no response (connection refused, time
    out), or a status code and a body. *)
Inductive Reply (A : Type) := NoResponse | Http (status : Z) (body : Body A).
Arguments NoResponse {A}.
Arguments Http {A} status body.

(** The [map[string]any] payloads of PATCH: an absent key is [None]. *)
Record ServicePatch := mkServicePatch {
  sp_url : option string;
  sp_protocol : option string;
  sp_host : option string;
  sp_port : option Z;
  sp_path : option string;
  sp_retries : option Z;
  sp_connect_timeout : option Z;
  sp_read_timeout : option Z;
  sp_write_timeout : option Z
}.

Record RoutePatch := mkRoutePatch {
  rp_hosts : list string;
  rp_paths : list string;
  rp_methods : list string;
  rp_protocols : option (list string);
  rp_preserve_host : option bool;
  rp_regex_priority : option Z;
  rp_https_redirect_status_code : option Z;
  rp_request_buffering : option bool;
  rp_response_buffering : option bool;
  rp_headers : option (gmap string (list string));
  rp_snis : option (list string);
  rp_tags : option (list string);
  rp_path_handling : option string;
  rp_strip_path : option bool;
  rp_service_id : option string
}.

(** The ten requests the client sends.  [W] is the state of whatever
    answers them; nothing is assumed about it. *)
Class Admin (W : Type) := {
  getUpstream : string -> W -> Reply Upstream * W;          (* GET /upstreams/{name} *)
  postUpstream : Upstream -> W -> Reply Upstream * W;       (* POST /upstreams *)
  getTargets : string -> W -> Reply (list Target) * W;      (* GET /upstreams/{name}/targets *)
  postTarget : string -> Target -> W -> Reply Target * W;   (* POST /upstreams/{name}/targets *)
  getService : string -> W -> Reply Service * W;            (* GET /services/{name} *)
  postService : Service -> W -> Reply Service * W;          (* POST /services *)
  patchService : string -> ServicePatch -> W -> Reply Service * W; (* PATCH /services/{name} *)
  getRoute : string -> W -> Reply Route * W;                (* GET /routes/{name} *)
  postRoute : Route -> W -> Reply Route * W;                (* POST /routes *)
  patchRoute : string -> RoutePatch -> W -> Reply Route * W (* PATCH /routes/{name} *)
}.

(** *** The log of requests *)

Inductive Call :=
| CGetUpstream (name : string)
| CPostUpstream (u : Upstream)
| CGetTargets (upstream : string)
| CPostTarget (upstream : string) (t : Target)
| CGetService (name : string)
| CPostService (s : Service)
| CPatchService (name : string) (p : ServicePatch)
| CGetRoute (name : string)
| CPostRoute (r : Route)
| CPatchRoute (name : string) (p : RoutePatch).

(** How the client read the response. *)
Inductive Outcome :=
| Failed (e : Error)             (* the client function returns this error *)
| Missing                        (* 404 on a get by name: [ok = false] *)
| Found                          (* the resource came back *)
| Listed (targets : list Target). (* the targets of an upstream came back *)

Record Event := mkEvent { ev_call : Call; ev_outcome : Outcome }.

Definition isPost (c : Call) : bool :=
  match c with
  | CPostUpstream _ | CPostTarget _ _ | CPostService _ | CPostRoute _ => true
  | _ => false
  end.

Definition isPatch (c : Call) : bool :=
  match c with
  | CPatchService _ _ | CPatchRoute _ _ => true
  | _ => false
  end.

Definition isMutating (c : Call) : bool := isPost c || isPatch c.

(** *** What the command prints *)

Inductive Level := LInfo | LSuccess | LWarn.

(** The format strings of [PrintInfo], [PrintSuccess] and [PrintWarn]. *)
Inductive Format :=
| FmtEnsureUpstream | FmtEnsureUpstreamOfService | FmtEnsureUpstreamOfRoute
| FmtEnsureTarget | FmtTargetWeightSkipped
| FmtSyncServiceViaUpstream | FmtServiceDone | FmtAutoServiceDone | FmtServiceSkipped
| FmtExtrasDone | FmtExtrasSkipped
| FmtSyncServiceURL | FmtServiceCreated | FmtServiceUpdated | FmtServiceURLSkipped
| FmtSyncRoute | FmtRouteDone | FmtRouteSkipped
| FmtOverwriteHint | FmtDryRunDone.

Inductive Notice :=
| Print (level : Level) (format : Format) (args : list Val)
| Rendered (p : Plan) (spec : applySpec) (infos : list autoRouteInfo)
           (autoSvc autoUp : gset string) (withDiff : bool).

(** ** The state of one invocation and its monad *)

(** The remote side, the log of the requests sent to it, what was
    printed, and the variables of [RunE] that outlive a loop iteration. *)
Record Env (W : Type) := mkEnv {
  world : W;
  trace : list Event;
  notices : list Notice;
  plan : Plan;
  autoInfos : list autoRouteInfo;
  autoSvcSet : gset string;
  autoUpSet : gset string
}.
Arguments mkEnv {W}.
Arguments world {W}.
Arguments trace {W}.
Arguments notices {W}.
Arguments plan {W}.
Arguments autoInfos {W}.
Arguments autoSvcSet {W}.
Arguments autoUpSet {W}.

Definition initEnv {W} (w : W) : Env W := mkEnv w [] [] (mkPlan []) [] ∅ ∅.

(** A computation runs on the state and either returns a value or stops
    with an error ([return err]); the state reached is kept in both cases. *)
Definition M (W A : Type) : Type := Env W -> Env W * Res A.

Definition ret {W A} (a : A) : M W A := fun e => (e, Ok a).

Definition fail {W A} (x : Error) : M W A := fun e => (e, Err x).

Definition bind {W A B} (c : M W A) (k : A -> M W B) : M W B :=
  fun e => match c e with
           | (e', Ok a) => k a e'
           | (e', Err x) => (e', Err x)
           end.

Notation "'let*' x ':=' c 'in' k" := (bind c (fun x => k))
  (at level 10, x pattern, c at level 100, k at level 200).
Notation "c >> k" := (bind c (fun _ => k))
  (at level 90, right associativity).

Definition when {W} (b : bool) (c : M W unit) : M W unit :=
  if b then c else ret tt.

(** [for _, x := range xs { body }] *)
Fixpoint forEach {W A} (xs : list A) (body : A -> M W unit) : M W unit :=
  match xs with
  | [] => ret tt
  | x :: r => body x >> forEach r body
  end.

Definition print {W} (l : Level) (f : Format) (args : list Val) : M W unit :=
  fun e => (mkEnv (world e) (trace e) (notices e ++ [Print l f args]) (plan e)
                  (autoInfos e) (autoSvcSet e) (autoUpSet e), Ok tt).

Definition PrintInfo {W} := @print W LInfo.
Definition PrintSuccess {W} := @print W LSuccess.
Definition PrintWarn {W} := @print W LWarn.

(** [plan.Items = append(plan.Items, c)] *)
Definition planAppend {W} (c : Change) : M W unit :=
  fun e => (mkEnv (world e) (trace e) (notices e) (mkPlan (Items (plan e) ++ [c]))
                  (autoInfos e) (autoSvcSet e) (autoUpSet e), Ok tt).

(** The three assignments that record a shorthand route. *)
Definition recordAuto {W} (i : autoRouteInfo) : M W unit :=
  fun e => (mkEnv (world e) (trace e) (notices e) (plan e)
                  (autoInfos e ++ [i])
                  ({[ai_ServiceName i]} ∪ autoSvcSet e)
                  ({[ai_UpstreamName i]} ∪ autoUpSet e), Ok tt).

(** One request: send it, log it with the way its response was read. *)
Definition request {W A B} (c : Call) (send : W -> Reply A * W)
    (decode : Reply A -> Res B) (read : Res B -> Outcome) : M W B :=
  fun e =>
    let '(r, w) := send (world e) in
    (mkEnv w (trace e ++ [mkEvent c (read (decode r))]) (notices e) (plan e)
           (autoInfos e) (autoSvcSet e) (autoUpSet e), decode r).

(** ** package kong: the client *)

Section Client.
Context {W : Type} `{Admin W}.

Definition is2xx (status : Z) : bool := (Z.quot status 100 =? 2)%Z.

(** The response handling of [GetUpstream], [GetService] and [GetRoute]
    (the three functions repeat it verbatim). *)
Definition decodeGet {A} (r : Reply A) : Res (option A) :=
  match r with
  | NoResponse => Err ErrTransport
  | Http status body =>
      if (status =? 404)%Z then Ok None
      else if negb (is2xx status) then Err (ErrHTTP status)
      else match body with
           | NotJSON => Err ErrNotJSON
           | Blank | Malformed => Err ErrJSON
           | Json a => Ok (Some a)
           end
  end.

(** The response handling of [ListTargets]: 404 is not singled out. *)
Definition decodeList {A} (r : Reply (list A)) : Res (list A) :=
  match r with
  | NoResponse => Err ErrTransport
  | Http status body =>
      if negb (is2xx status) then Err (ErrHTTP status)
      else match body with
           | NotJSON => Err ErrNotJSON
           | Blank | Malformed => Err ErrJSON
           | Json l => Ok l
           end
  end.

(** [doJSON] with a non-nil [out] that starts as [zero]: an empty body
    leaves [out] as it is. *)
Definition decodeJSON {A} (zero : A) (r : Reply A) : Res A :=
  match r with
  | NoResponse => Err ErrTransport
  | Http status body =>
      if negb (is2xx status) then Err (ErrHTTP status)
      else match body with
           | NotJSON => Err ErrNotJSON
           | Blank => Ok zero
           | Malformed => Err ErrJSON
           | Json a => Ok a
           end
  end.

Definition readGet {A} (r : Res (option A)) : Outcome :=
  match r with
  | Err x => Failed x
  | Ok None => Missing
  | Ok (Some _) => Found
  end.

Definition readList (r : Res (list Target)) : Outcome :=
  match r with
  | Err x => Failed x
  | Ok l => Listed l
  end.

Definition readJSON {A} (r : Res A) : Outcome :=
  match r with
  | Err x => Failed x
  | Ok _ => Found
  end.

Definition zeroUpstream : Upstream := mkUpstream "" "".
Definition zeroTarget : Target := mkTarget "" "" 0.
Definition zeroService : Service := mkService "" "" "" "" "" 0 "" 0 0 0 0.
Definition zeroRef : ServiceRef := mkServiceRef "" "".
Definition zeroKongRoute : Route :=
  mkRoute "" "" [] [] [] [] None 0 0 None None ∅ [] [] "" None zeroRef.

(** *** upstream.go *)

Definition GetUpstream (name : string) : M W (option Upstream) :=
  request (CGetUpstream name) (getUpstream name) decodeGet readGet.

Definition CreateOrUpdateUpstream (name : string) : M W (string * Upstream) :=
  if streq name "" then fail ErrClientArgs
  else
    let* cur := GetUpstream name in
    match cur with
    | None =>
        let payload := mkUpstream "" name in
        let* out := request (CPostUpstream payload) (postUpstream payload)
                            (decodeJSON zeroUpstream) readJSON in
        ret ("create", out)
    | Some _ => ret ("update", mkUpstream "" name)
    end.

(** *** target.go *)

Definition AddTarget (upstreamName target : string) (weight : Z) : M W Target :=
  if streq upstreamName "" || streq target "" then fail ErrClientArgs
  else
    let payload := mkTarget "" target weight in
    request (CPostTarget upstreamName payload) (postTarget upstreamName payload)
            (decodeJSON zeroTarget) readJSON.

Definition ListTargets (upstreamName : string) : M W (list Target) :=
  request (CGetTargets upstreamName) (getTargets upstreamName) decodeList readList.

Definition EnsureTarget (upstreamName target : string) (weight : Z) : M W bool :=
  let* list := ListTargets upstreamName in
  if existsb (λ t, streq (tg_Target t) target
                   && ((tg_Weight t =? weight)%Z || (weight =? 0)%Z)) list
  then ret false
  else AddTarget upstreamName target weight >> ret true.

(** *** service.go *)

Definition GetService (name : string) : M W (option Service) :=
  request (CGetService name) (getService name) decodeGet readGet.

Definition noServicePatch : ServicePatch :=
  mkServicePatch None None None None None None None None None.

Definition CreateOrUpdateService (name url : string) : M W (string * Service) :=
  if streq name "" || streq url "" then fail ErrClientArgs
  else
    let* cur := GetService name in
    match cur with
    | None =>
        let payload := mkService "" name url "" "" 0 "" 0 0 0 0 in
        let* svc := request (CPostService payload) (postService payload)
                            (decodeJSON zeroService) readJSON in
        ret ("create", svc)
    | Some cur =>
        let payload := mkServicePatch (Some url) None None None None None None None None in
        let* svc := request (CPatchService (svc_Name cur) payload)
                            (patchService (svc_Name cur) payload)
                            (decodeJSON zeroService) readJSON in
        ret ("update", svc)
    end.

Definition CreateOrUpdateServiceViaUpstream (name upstreamName protocol : string)
    (port : Z) (path : string) : M W (string * Service) :=
  if streq name "" || streq upstreamName "" then fail ErrClientArgs
  else
    let protocol := if streq protocol "" then "http" else protocol in
    let port := if (port =? 0)%Z
                then (if streq protocol "https" then 443 else 80) else port in
    let* cur := GetService name in
    match cur with
    | None =>
        let payload := mkService "" name "" protocol upstreamName port path 0 0 0 0 in
        let* svc := request (CPostService payload) (postService payload)
                            (decodeJSON zeroService) readJSON in
        ret ("create", svc)
    | Some _ =>
        let payload := mkServicePatch None (Some protocol) (Some upstreamName)
                                      (Some port) (Some path) None None None None in
        let* svc := request (CPatchService name payload) (patchService name payload)
                            (decodeJSON zeroService) readJSON in
        ret ("update", svc)
    end.

(** [if n > 0 { payload[key] = n }] *)
Definition ifPositive (n : Z) : option Z := if (0 <? n)%Z then Some n else None.

Definition UpdateServiceExtras (name : string)
    (retries connectTimeout readTimeout writeTimeout : Z) : M W Service :=
  let payload := mkServicePatch None None None None None
                   (ifPositive retries) (ifPositive connectTimeout)
                   (ifPositive readTimeout) (ifPositive writeTimeout) in
  if negb ((0 <? retries)%Z || (0 <? connectTimeout)%Z
           || (0 <? readTimeout)%Z || (0 <? writeTimeout)%Z)
  then ret zeroService
  else request (CPatchService name payload) (patchService name payload)
               (decodeJSON zeroService) readJSON.

(** *** route.go (package kong) *)

Definition GetRoute (name : string) : M W (option Route) :=
  request (CGetRoute name) (getRoute name) decodeGet readGet.

(** [desired.Service.ID = id] *)
Definition withServiceID (r : Route) (id : string) : Route :=
  mkRoute (rt_ID r) (rt_Name r) (rt_Hosts r) (rt_Paths r) (rt_Methods r)
    (rt_Protocols r) (rt_PreserveHost r) (rt_RegexPriority r)
    (rt_HTTPSRedirectStatusCode r) (rt_RequestBuffering r) (rt_ResponseBuffering r)
    (rt_Headers r) (rt_Snis r) (rt_Tags r) (rt_PathHandling r) (rt_StripPath r)
    (mkServiceRef id (ref_Name (rt_Service r))).

Definition ifNonEmpty {A} (l : list A) : option (list A) :=
  if nonEmpty l then Some l else None.

Definition ifNonZero (n : Z) : option Z := if zneq n 0 then Some n else None.

Definition routePatchOf (desired : Route) : RoutePatch :=
  mkRoutePatch (rt_Hosts desired) (rt_Paths desired) (rt_Methods desired)
    (ifNonEmpty (rt_Protocols desired))
    (rt_PreserveHost desired)
    (ifNonZero (rt_RegexPriority desired))
    (ifNonZero (rt_HTTPSRedirectStatusCode desired))
    (rt_RequestBuffering desired)
    (rt_ResponseBuffering desired)
    (if (0 <? size (rt_Headers desired))%nat then Some (rt_Headers desired) else None)
    (ifNonEmpty (rt_Snis desired))
    (ifNonEmpty (rt_Tags desired))
    (if sneq (rt_PathHandling desired) "" then Some (rt_PathHandling desired) else None)
    (rt_StripPath desired)
    (if sneq (ref_ID (rt_Service desired)) ""
     then Some (ref_ID (rt_Service desired)) else None).

Definition CreateOrUpdateRoute (desired : Route) : M W (string * Route) :=
  if streq (rt_Name desired) "" then fail ErrClientArgs
  else
    let* desired :=
      (if streq (ref_ID (rt_Service desired)) ""
          && sneq (ref_Name (rt_Service desired)) ""
       then
         let* svc := GetService (ref_Name (rt_Service desired)) in
         match svc with
         | None => fail (ErrServiceMissing (ref_Name (rt_Service desired)))
         | Some svc => ret (withServiceID desired (svc_ID svc))
         end
       else ret desired) in
    if streq (ref_ID (rt_Service desired)) "" then fail ErrRouteService
    else
      let* cur := GetRoute (rt_Name desired) in
      match cur with
      | None =>
          let* rt := request (CPostRoute desired) (postRoute desired)
                             (decodeJSON zeroKongRoute) readJSON in
          ret ("create", rt)
      | Some cur =>
          let payload := routePatchOf desired in
          let* rt := request (CPatchRoute (rt_Name cur) payload)
                             (patchRoute (rt_Name cur) payload)
                             (decodeJSON zeroKongRoute) readJSON in
          ret ("update", rt)
      end.

(** ** package cli: [apply] *)

(** The flags of the command (package-level variables in the source). *)
Record Flags := mkFlags {
  dryRun : bool;
  showDiff : bool;
  applyOverwrite : bool;
  adminURL : string
}.

(** The source returns the Chinese words for these. *)
Definition actionCN (a : string) : string :=
  if streq a "create" then "created"
  else if streq a "update" then "updated"
  else "synced".

(** [w := t.Weight; if w == 0 { w = 100 }] *)
Definition weightOf (t : applyTarget) : Z :=
  if (at_Weight t =? 0)%Z then 100 else at_Weight t.

(** [proto := p; if proto == "" { proto = "http" }] *)
Definition protoOf (p : string) : string := if streq p "" then "http" else p.

(** [port := n; if port == 0 { if proto == "https" { port = 443 } else { port = 80 } }] *)
Definition portOf (proto : string) (n : Z) : Z :=
  if (n =? 0)%Z then (if streq proto "https" then 443 else 80) else n.

Definition scalarIf (b : bool) (f : string) (old new : Val) : list DiffLine :=
  if b then [Scalar f old new] else [].

(** *** Services bound to an upstream *)

(** Dry run, lines 336-358: the action and the diff of a service whose
    lookup succeeded ([cur = None] when it does not exist). *)
Definition planServiceViaUpstream (cur : option Service) (s : applyService)
    (proto : string) (port : Z) : Change :=
  match cur with
  | None => mkChange "Service" (as_Name s) "create" []
  | Some cur =>
      let action := "none" in
      let action :=
        if sneq (svc_Host cur) (as_Upstream s) || sneq (svc_Protocol cur) proto
           || zneq (svc_Port cur) port || sneq (svc_Path cur) (as_Path s)
        then "update" else action in
      let action := if (0 <? as_Retries s)%Z && zneq (svc_Retries cur) (as_Retries s)
                    then "update" else action in
      let action := if (0 <? as_ConnectTimeout s)%Z
                       && zneq (svc_ConnectTimeout cur) (as_ConnectTimeout s)
                    then "update" else action in
      let action := if (0 <? as_ReadTimeout s)%Z
                       && zneq (svc_ReadTimeout cur) (as_ReadTimeout s)
                    then "update" else action in
      let action := if (0 <? as_WriteTimeout s)%Z
                       && zneq (svc_WriteTimeout cur) (as_WriteTimeout s)
                    then "update" else action in
      let diff :=
        scalarIf (sneq (svc_Host cur) (as_Upstream s)) "host"
                 (VStr (svc_Host cur)) (VStr (as_Upstream s))
        ++ scalarIf (sneq (svc_Protocol cur) proto) "protocol"
                 (VStr (svc_Protocol cur)) (VStr proto)
        ++ scalarIf (zneq (svc_Port cur) port) "port" (VInt (svc_Port cur)) (VInt port)
        ++ scalarIf (sneq (svc_Path cur) (as_Path s)) "path"
                 (VStr (svc_Path cur)) (VStr (as_Path s))
        ++ scalarIf ((0 <? as_Retries s)%Z && zneq (svc_Retries cur) (as_Retries s))
                 "retries" (VInt (svc_Retries cur)) (VInt (as_Retries s))
        ++ scalarIf ((0 <? as_ConnectTimeout s)%Z
                     && zneq (svc_ConnectTimeout cur) (as_ConnectTimeout s))
                 "connect_timeout" (VInt (svc_ConnectTimeout cur))
                 (VInt (as_ConnectTimeout s))
        ++ scalarIf ((0 <? as_ReadTimeout s)%Z
                     && zneq (svc_ReadTimeout cur) (as_ReadTimeout s))
                 "read_timeout" (VInt (svc_ReadTimeout cur)) (VInt (as_ReadTimeout s))
        ++ scalarIf ((0 <? as_WriteTimeout s)%Z
                     && zneq (svc_WriteTimeout cur) (as_WriteTimeout s))
                 "write_timeout" (VInt (svc_WriteTimeout cur)) (VInt (as_WriteTimeout s)) in
      mkChange "Service" (as_Name s) action diff
  end.

(** Execution, line 376 (and 579 for a shorthand service). *)
Definition coreChanged (cur : Service) (host proto : string) (port : Z) (path : string)
  : bool :=
  sneq (svc_Host cur) host || sneq (svc_Protocol cur) proto
  || zneq (svc_Port cur) port || sneq (svc_Path cur) path.

(** Execution, lines 378-381 (and 442-445 for a service given by URL). *)
Definition extrasChanged (cur : Service) (s : applyService) : bool :=
  ((0 <? as_Retries s)%Z && zneq (svc_Retries cur) (as_Retries s))
  || ((0 <? as_ConnectTimeout s)%Z
      && zneq (svc_ConnectTimeout cur) (as_ConnectTimeout s))
  || ((0 <? as_ReadTimeout s)%Z && zneq (svc_ReadTimeout cur) (as_ReadTimeout s))
  || ((0 <? as_WriteTimeout s)%Z && zneq (svc_WriteTimeout cur) (as_WriteTimeout s)).

(** [s.Retries > 0 || s.ConnectTimeout > 0 || ...] *)
Definition hasExtras (s : applyService) : bool :=
  (0 <? as_Retries s)%Z || (0 <? as_ConnectTimeout s)%Z
  || (0 <? as_ReadTimeout s)%Z || (0 <? as_WriteTimeout s)%Z.

(** Dry run of a shorthand service, lines 551-566. *)
Definition planAutoService (cur : option Service) (svcName upName proto : string)
    (port : Z) (path : string) : Change :=
  match cur with
  | None => mkChange "Service" svcName "create" []
  | Some cur =>
      let action :=
        if sneq (svc_Host cur) upName || sneq (svc_Protocol cur) proto
           || zneq (svc_Port cur) port || sneq (svc_Path cur) path
        then "update" else "none" in
      let diff :=
        scalarIf (sneq (svc_Host cur) upName) "host" (VStr (svc_Host cur)) (VStr upName)
        ++ scalarIf (sneq (svc_Protocol cur) proto) "protocol"
                 (VStr (svc_Protocol cur)) (VStr proto)
        ++ scalarIf (zneq (svc_Port cur) port) "port" (VInt (svc_Port cur)) (VInt port)
        ++ scalarIf (sneq (svc_Path cur) path) "path" (VStr (svc_Path cur)) (VStr path) in
      mkChange "Service" svcName action diff
  end.

(** *** Services given by URL *)

(** Dry run, lines 409-420. *)
Definition planServiceURL (cur : option Service) (s : applyService) : Change :=
  match cur with
  | None => mkChange "Service" (as_Name s) "create" []
  | Some cur =>
      let curURL := reconstructURL (Some cur) in
      let urlDiffers := sneq curURL (as_URL s) in
      let r := (0 <? as_Retries s)%Z && zneq (svc_Retries cur) (as_Retries s) in
      let c := (0 <? as_ConnectTimeout s)%Z
               && zneq (svc_ConnectTimeout cur) (as_ConnectTimeout s) in
      let rd := (0 <? as_ReadTimeout s)%Z
                && zneq (svc_ReadTimeout cur) (as_ReadTimeout s) in
      let w := (0 <? as_WriteTimeout s)%Z
               && zneq (svc_WriteTimeout cur) (as_WriteTimeout s) in
      let action := "none" in
      let action := if urlDiffers then "update" else action in
      let action := if r then "update" else action in
      let action := if c then "update" else action in
      let action := if rd then "update" else action in
      let action := if w then "update" else action in
      let diff :=
        scalarIf urlDiffers "url" (VStr curURL) (VStr (as_URL s))
        ++ scalarIf r "retries" (VInt (svc_Retries cur)) (VInt (as_Retries s))
        ++ scalarIf c "connect_timeout" (VInt (svc_ConnectTimeout cur))
                    (VInt (as_ConnectTimeout s))
        ++ scalarIf rd "read_timeout" (VInt (svc_ReadTimeout cur)) (VInt (as_ReadTimeout s))
        ++ scalarIf w "write_timeout" (VInt (svc_WriteTimeout cur))
                    (VInt (as_WriteTimeout s)) in
      mkChange "Service" (as_Name s) action diff
  end.

(** *** Routes *)

(** [ph := strings.ToLower(strings.TrimSpace(r.PathHandling))] *)
Definition pathHandlingOf (r : applyRoute) : string :=
  ToLower (TrimSpace (ar_PathHandling r)).

(** Lines 604-621.  An optional field is copied when it is set, which
    leaves the zero value otherwise; [strip_path] becomes [true] when the
    document does not give it. *)
Definition desiredRoute (name ph : string) (r : applyRoute) : Route :=
  mkRoute "" name (ar_Hosts r) (ar_Paths r) (toUpper (ar_Methods r))
    (if nonEmpty (ar_Protocols r) then ar_Protocols r else [])
    (match ar_PreserveHost r with Some b => Some b | None => None end)
    (if zneq (ar_RegexPriority r) 0 then ar_RegexPriority r else 0)
    (if zneq (ar_HTTPSRedirectStatusCode r) 0 then ar_HTTPSRedirectStatusCode r else 0)
    (match ar_RequestBuffering r with Some b => Some b | None => None end)
    (match ar_ResponseBuffering r with Some b => Some b | None => None end)
    (if (0 <? size (ar_Headers r))%nat then ar_Headers r else ∅)
    (if nonEmpty (ar_Snis r) then ar_Snis r else [])
    (if nonEmpty (ar_Tags r) then ar_Tags r else [])
    ph
    (match ar_StripPath r with Some b => Some b | None => Some true end)
    (mkServiceRef "" (ar_Service r)).

Definition isSet {A} (p : option A) : bool :=
  match p with Some _ => true | None => false end.

(** Dry run, lines 630-672: the comparisons in the order of the source,
    each with the lines it adds to the diff when it finds a change. *)
Definition routeChecks (cur : Route) (r : applyRoute) (desired : Route)
  : list (bool * list DiffLine) :=
  let curPH := ToLower (rt_PathHandling cur) in
  let desPH := ToLower (rt_PathHandling desired) in
  [ (negb (sliceSetEqual (rt_Hosts cur) (rt_Hosts desired)),
     diffSlice "hosts" (rt_Hosts cur) (rt_Hosts desired));
    (negb (sliceSetEqual (rt_Paths cur) (rt_Paths desired)),
     diffSlice "paths" (rt_Paths cur) (rt_Paths desired));
    (negb (sliceSetEqual (toUpper (rt_Methods cur)) (rt_Methods desired)),
     diffSlice "methods" (rt_Methods cur) (rt_Methods desired));
    (nonEmpty (ar_Protocols r)
     && negb (sliceSetEqual (rt_Protocols cur) (rt_Protocols desired)),
     diffSlice "protocols" (rt_Protocols cur) (rt_Protocols desired));
    (sneq desPH "" && sneq curPH desPH,
     [Scalar "path_handling" (VStr curPH) (VStr desPH)]);
    (isSet (ar_PreserveHost r)
     && negb (beq (deref (rt_PreserveHost cur)) (deref (rt_PreserveHost desired))),
     [Scalar "preserve_host" (VBool (deref (rt_PreserveHost cur)))
             (VBool (deref (rt_PreserveHost desired)))]);
    (zneq (ar_RegexPriority r) 0
     && zneq (rt_RegexPriority cur) (rt_RegexPriority desired),
     [Scalar "regex_priority" (VInt (rt_RegexPriority cur))
             (VInt (rt_RegexPriority desired))]);
    (zneq (ar_HTTPSRedirectStatusCode r) 0
     && zneq (rt_HTTPSRedirectStatusCode cur) (rt_HTTPSRedirectStatusCode desired),
     [Scalar "https_redirect_status_code" (VInt (rt_HTTPSRedirectStatusCode cur))
             (VInt (rt_HTTPSRedirectStatusCode desired))]);
    (isSet (ar_RequestBuffering r)
     && negb (beq (deref (rt_RequestBuffering cur)) (deref (rt_RequestBuffering desired))),
     [Scalar "request_buffering" (VBool (deref (rt_RequestBuffering cur)))
             (VBool (deref (rt_RequestBuffering desired)))]);
    (isSet (ar_ResponseBuffering r)
     && negb (beq (deref (rt_ResponseBuffering cur))
                  (deref (rt_ResponseBuffering desired))),
     [Scalar "response_buffering" (VBool (deref (rt_ResponseBuffering cur)))
             (VBool (deref (rt_ResponseBuffering desired)))]);
    ((0 <? size (ar_Headers r))%nat
     && negb (mapStringSliceEqual (rt_Headers cur) (rt_Headers desired)),
     diffMapStringSlice "headers" (rt_Headers cur) (rt_Headers desired));
    (nonEmpty (ar_Snis r) && negb (sliceSetEqual (rt_Snis cur) (rt_Snis desired)),
     diffSlice "snis" (rt_Snis cur) (rt_Snis desired));
    (nonEmpty (ar_Tags r) && negb (sliceSetEqual (rt_Tags cur) (rt_Tags desired)),
     diffSlice "tags" (rt_Tags cur) (rt_Tags desired));
    (negb (beq (deref (rt_StripPath cur)) (deref (rt_StripPath desired))),
     [Scalar "strip_path" (VBool (deref (rt_StripPath cur)))
             (VBool (deref (rt_StripPath desired)))]);
    (sneq (ref_Name (rt_Service cur)) (ref_Name (rt_Service desired))
     && sneq (ref_Name (rt_Service desired)) "",
     [Scalar "service" (VStr (ref_Name (rt_Service cur)))
             (VStr (ref_Name (rt_Service desired)))]) ].

Definition planRoute (cur : option Route) (r : applyRoute) (desired : Route)
    (name : string) : Change :=
  match cur with
  | None => mkChange "Route" name "create" []
  | Some cur =>
      let checks := routeChecks cur r desired in
      let changed := existsb (λ c : bool * list DiffLine, c.1) checks in
      let diff := flat_map (λ c : bool * list DiffLine, if c.1 then c.2 else []) checks in
      mkChange "Route" name (if changed then "update" else "none") diff
  end.

(** Execution, lines 689-720. *)
Definition routeChanged (cur : Route) (r : applyRoute) (desired : Route) : bool :=
  negb (sliceSetEqual (rt_Hosts cur) (rt_Hosts desired))
  || negb (sliceSetEqual (rt_Paths cur) (rt_Paths desired))
  || negb (sliceSetEqual (toUpper (rt_Methods cur)) (rt_Methods desired))
  || (nonEmpty (ar_Protocols r)
      && negb (sliceSetEqual (rt_Protocols cur) (rt_Protocols desired)))
  || (sneq (ToLower (rt_PathHandling desired)) ""
      && sneq (ToLower (rt_PathHandling cur)) (ToLower (rt_PathHandling desired)))
  || (isSet (ar_PreserveHost r)
      && negb (beq (deref (rt_PreserveHost cur)) (deref (rt_PreserveHost desired))))
  || (zneq (ar_RegexPriority r) 0
      && zneq (rt_RegexPriority cur) (rt_RegexPriority desired))
  || (zneq (ar_HTTPSRedirectStatusCode r) 0
      && zneq (rt_HTTPSRedirectStatusCode cur) (rt_HTTPSRedirectStatusCode desired))
  || (isSet (ar_RequestBuffering r)
      && negb (beq (deref (rt_RequestBuffering cur)) (deref (rt_RequestBuffering desired))))
  || (isSet (ar_ResponseBuffering r)
      && negb (beq (deref (rt_ResponseBuffering cur))
                   (deref (rt_ResponseBuffering desired))))
  || ((0 <? size (ar_Headers r))%nat
      && negb (mapStringSliceEqual (rt_Headers cur) (rt_Headers desired)))
  || (nonEmpty (ar_Snis r) && negb (sliceSetEqual (rt_Snis cur) (rt_Snis desired)))
  || (nonEmpty (ar_Tags r) && negb (sliceSetEqual (rt_Tags cur) (rt_Tags desired)))
  || negb (beq (deref (rt_StripPath cur)) (deref (rt_StripPath desired)))
  || (sneq (ref_Name (rt_Service cur)) (ref_Name (rt_Service desired))
      && sneq (ref_Name (rt_Service desired)) "").

(** *** The blocks of [RunE] *)

(** [if v, err := f(); err == nil { ... } else { ... }]: the error is looked
    at and not returned. *)
Definition attempt {A} (c : M W A) : M W (Res A) :=
  fun e => let '(e', r) := c e in (e', Ok r).

Definition ignore {A} (c : M W A) : M W unit := c >> ret tt.

(** Lines 210-231, repeated at 279-295 and 497-513 with another message. *)
Definition ensureUpstream (fl : Flags) (info : Format) (args : list Val)
    (name : string) : M W unit :=
  (if dryRun fl then
     let* r := attempt (GetUpstream name) in
     match r with
     | Ok cur =>
         planAppend (mkChange "Upstream" name (if isSet cur then "none" else "create") [])
     | Err _ => planAppend (mkChange "Upstream" name "create" [])
     end
   else when (showDiff fl) (PrintInfo info args)) >>
  when (negb (dryRun fl))
    (let* cur := GetUpstream name in
     match cur with
     | None => ignore (CreateOrUpdateUpstream name)
     | Some _ => when (applyOverwrite fl) (ignore (CreateOrUpdateUpstream name))
     end).

(** Lines 233-270, repeated at 298-325 and 515-542. *)
Definition ensureTarget (fl : Flags) (upName : string) (t : applyTarget) : M W unit :=
  let w := weightOf t in
  (if dryRun fl then
     let* r := attempt (ListTargets upName) in
     match r with
     | Ok list =>
         let action :=
           if existsb (λ x, streq (tg_Target x) (at_Target t) && (tg_Weight x =? w)) list
           then "none" else "create" in
         planAppend (mkChange "Target" (upName +:+ "/" +:+ at_Target t) action [])
     | Err _ =>
         planAppend (mkChange "Target" (upName +:+ "/" +:+ at_Target t) "create" [])
     end
   else when (showDiff fl)
          (PrintInfo FmtEnsureTarget [VStr (at_Target t); VInt w; VStr upName])) >>
  when (negb (dryRun fl))
    (let* list := ListTargets upName in
     match find (λ x, streq (tg_Target x) (at_Target t)) list with
     | None => ignore (EnsureTarget upName (at_Target t) w)
     | Some x =>
         if (tg_Weight x =? w) || (w =? 0) then ret tt
         else if applyOverwrite fl then ignore (EnsureTarget upName (at_Target t) w)
         else PrintWarn FmtTargetWeightSkipped [VStr (at_Target t)]
     end).

(** Lines 208-272: one element of [spec.Upstreams]. *)
Definition upstreamStep (fl : Flags) (up : applyUpstream) : M W unit :=
  if streq (au_Name up) "" then fail ErrUpstreamName
  else
    ensureUpstream fl FmtEnsureUpstream [VStr (au_Name up)] (au_Name up) >>
    forEach (au_Targets up) (ensureTarget fl (au_Name up)).

(** Lines 327-400: a service bound to an upstream. *)
Definition syncServiceViaUpstream (fl : Flags) (s : applyService) : M W unit :=
  let proto := protoOf (as_Protocol s) in
  let port := portOf proto (as_Port s) in
  (if dryRun fl then
     let* r := attempt (GetService (as_Name s)) in
     match r with
     | Ok cur => planAppend (planServiceViaUpstream cur s proto port)
     | Err _ => planAppend (mkChange "Service" (as_Name s) "create" [])
     end
   else when (showDiff fl)
          (PrintInfo FmtSyncServiceViaUpstream
             [VStr (as_Name s); VStr (as_Upstream s); VStr proto; VInt port;
              VStr (as_Path s)])) >>
  when (negb (dryRun fl))
    (let* cur := GetService (as_Name s) in
     match cur with
     | None =>
         let* res := CreateOrUpdateServiceViaUpstream (as_Name s) (as_Upstream s)
                       proto port (as_Path s) in
         PrintSuccess FmtServiceDone
           [VStr (actionCN res.1); VStr (as_Name s); VStr (as_Upstream s)] >>
         when (hasExtras s)
           (ignore (UpdateServiceExtras (as_Name s) (as_Retries s)
                      (as_ConnectTimeout s) (as_ReadTimeout s) (as_WriteTimeout s)))
     | Some cur =>
         let changed := coreChanged cur (as_Upstream s) proto port (as_Path s) in
         when changed
           (if applyOverwrite fl then
              let* res := CreateOrUpdateServiceViaUpstream (as_Name s) (as_Upstream s)
                            proto port (as_Path s) in
              PrintSuccess FmtServiceDone
                [VStr (actionCN res.1); VStr (as_Name s); VStr (as_Upstream s)]
            else PrintWarn FmtServiceSkipped [VStr (as_Name s)]) >>
         when (extrasChanged cur s)
           (if applyOverwrite fl then
              UpdateServiceExtras (as_Name s) (as_Retries s) (as_ConnectTimeout s)
                (as_ReadTimeout s) (as_WriteTimeout s) >>
              PrintSuccess FmtExtrasDone [VStr (as_Name s)]
            else PrintWarn FmtExtrasSkipped [VStr (as_Name s)])
     end).

(** Lines 407-468: a service given by URL. *)
Definition syncServiceURL (fl : Flags) (s : applyService) : M W unit :=
  (if dryRun fl then
     let* r := attempt (GetService (as_Name s)) in
     match r with
     | Ok cur => planAppend (planServiceURL cur s)
     | Err _ => planAppend (mkChange "Service" (as_Name s) "create" [])
     end
   else when (showDiff fl)
          (PrintInfo FmtSyncServiceURL [VStr (as_Name s); VStr (as_URL s)])) >>
  when (negb (dryRun fl))
    (let* cur := GetService (as_Name s) in
     match cur with
     | None =>
         let* res := CreateOrUpdateService (as_Name s) (as_URL s) in
         (if streq res.1 "create"
          then PrintSuccess FmtServiceCreated [VStr (as_Name s)]
          else PrintSuccess FmtServiceUpdated [VStr (as_Name s)]) >>
         when (hasExtras s)
           (ignore (UpdateServiceExtras (as_Name s) (as_Retries s)
                      (as_ConnectTimeout s) (as_ReadTimeout s) (as_WriteTimeout s)))
     | Some cur =>
         let curURL := reconstructURL (Some cur) in
         when (sneq curURL (as_URL s))
           (if applyOverwrite fl then
              let* res := CreateOrUpdateService (as_Name s) (as_URL s) in
              if streq res.1 "create"
              then PrintSuccess FmtServiceCreated [VStr (as_Name s)]
              else PrintSuccess FmtServiceUpdated [VStr (as_Name s)]
            else PrintWarn FmtServiceURLSkipped [VStr (as_Name s)]) >>
         when (extrasChanged cur s)
           (if applyOverwrite fl then
              UpdateServiceExtras (as_Name s) (as_Retries s) (as_ConnectTimeout s)
                (as_ReadTimeout s) (as_WriteTimeout s) >>
              PrintSuccess FmtExtrasDone [VStr (as_Name s)]
            else PrintWarn FmtExtrasSkipped [VStr (as_Name s)])
     end).

(** Lines 275-469: one element of [spec.Services]. *)
Definition serviceStep (fl : Flags) (s : applyService) : M W unit :=
  if streq (as_Name s) "" then fail ErrServiceName
  else if sneq (as_Upstream s) "" then
    ensureUpstream fl FmtEnsureUpstreamOfService
      [VStr (as_Upstream s); VStr (as_Name s)] (as_Upstream s) >>
    forEach (as_Targets s) (ensureTarget fl (as_Upstream s)) >>
    syncServiceViaUpstream fl s
  else if streq (as_URL s) "" then fail (ErrServiceSource (as_Name s))
  else syncServiceURL fl s.

(** Lines 546-590: the service of a shorthand route. *)
Definition syncAutoService (fl : Flags) (svcName upName proto : string) (port : Z)
    (path : string) : M W unit :=
  (if dryRun fl then
     let* r := attempt (GetService svcName) in
     match r with
     | Ok cur => planAppend (planAutoService cur svcName upName proto port path)
     | Err _ => planAppend (mkChange "Service" svcName "create" [])
     end
   else when (showDiff fl)
          (PrintInfo FmtSyncServiceViaUpstream
             [VStr svcName; VStr upName; VStr proto; VInt port; VStr path])) >>
  when (negb (dryRun fl))
    (let* cur := GetService svcName in
     match cur with
     | None =>
         let* res := CreateOrUpdateServiceViaUpstream svcName upName proto port path in
         PrintSuccess FmtAutoServiceDone [VStr (actionCN res.1); VStr svcName; VStr upName]
     | Some cur =>
         when (coreChanged cur upName proto port path)
           (if applyOverwrite fl then
              let* res := CreateOrUpdateServiceViaUpstream svcName upName proto port path in
              PrintSuccess FmtAutoServiceDone
                [VStr (actionCN res.1); VStr svcName; VStr upName]
            else PrintWarn FmtServiceSkipped [VStr svcName])
     end).

(** [svcName := r.ServiceName; if svcName == "" { svcName = name + "-service" }] *)
Definition autoServiceName (r : applyRoute) (name : string) : string :=
  if streq (ar_ServiceName r) "" then name +:+ "-service" else ar_ServiceName r.

Definition autoUpstreamName (r : applyRoute) (name : string) : string :=
  if streq (ar_UpstreamName r) "" then name +:+ "-upstream" else ar_UpstreamName r.

(** Lines 484-594: a route without [service].  Returns the route with its
    [service] set. *)
Definition shorthand (fl : Flags) (r : applyRoute) (name : string) : M W applyRoute :=
  if streq name "" then fail ErrRouteName
  else
    let svcName := autoServiceName r name in
    let upName := autoUpstreamName r name in
    recordAuto (mkAutoRouteInfo name svcName upName (rb_Targets (ar_Backend r))) >>
    ensureUpstream fl FmtEnsureUpstreamOfRoute [VStr upName; VStr name] upName >>
    forEach (rb_Targets (ar_Backend r)) (ensureTarget fl upName) >>
    (let proto := protoOf (rb_Protocol (ar_Backend r)) in
     let port := portOf proto (rb_Port (ar_Backend r)) in
     let path := rb_Path (ar_Backend r) in
     syncAutoService fl svcName upName proto port path) >>
    ret (setService r svcName).

(** Lines 623-731. *)
Definition syncRoute (fl : Flags) (r : applyRoute) (desired : Route) (name : string)
  : M W unit :=
  (if dryRun fl then
     let* res := attempt (GetRoute name) in
     match res with
     | Ok cur => planAppend (planRoute cur r desired name)
     | Err _ => planAppend (mkChange "Route" name "create" [])
     end
   else when (showDiff fl)
          (PrintInfo FmtSyncRoute [VStr name; VStr (ar_Service r)])) >>
  when (negb (dryRun fl))
    (let* cur := GetRoute name in
     match cur with
     | None =>
         let* res := CreateOrUpdateRoute desired in
         PrintSuccess FmtRouteDone [VStr (actionCN res.1); VStr name; VStr (ar_Service r)]
     | Some cur =>
         when (routeChanged cur r desired)
           (if applyOverwrite fl then
              let* res := CreateOrUpdateRoute desired in
              PrintSuccess FmtRouteDone
                [VStr (actionCN res.1); VStr name; VStr (ar_Service r)]
            else PrintWarn FmtRouteSkipped [VStr name])
     end).

(** Lines 477-732: one element of [spec.Routes]. *)
Definition routeStep (fl : Flags) (r : applyRoute) : M W unit :=
  let name := ar_Name r in
  let name := if streq name "" && sneq (ar_Service r) ""
              then defaultRouteName (ar_Service r) (ar_Paths r) (ar_Methods r)
              else name in
  let* r := (if streq (ar_Service r) "" then shorthand fl r name else ret r) in
  let name := if streq name ""
              then defaultRouteName (ar_Service r) (ar_Paths r) (ar_Methods r)
              else name in
  let ph := pathHandlingOf r in
  if sneq ph "" && sneq ph "v0" && sneq ph "v1"
  then fail (ErrPathHandling (ar_PathHandling r))
  else syncRoute fl r (desiredRoute name ph r) name.

(** [printHierPlan(cmd, plan, spec, autoInfos, autoSvcSet, autoUpSet, showDiff)]:
    the call is recorded with its arguments. *)
Definition printHierPlan (spec : applySpec) (withDiff : bool) : M W unit :=
  fun e => (mkEnv (world e) (trace e)
                  (notices e ++ [Rendered (plan e) spec (autoInfos e) (autoSvcSet e)
                                          (autoUpSet e) withDiff])
                  (plan e) (autoInfos e) (autoSvcSet e) (autoUpSet e), Ok tt).

(** The three loops and the end of [RunE], from line 207 on. *)
Definition reconcile (fl : Flags) (spec : applySpec) : M W unit :=
  forEach (Upstreams spec) (upstreamStep fl) >>
  forEach (Services spec) (serviceStep fl) >>
  forEach (Routes spec) (routeStep fl) >>
  when (dryRun fl)
    (printHierPlan spec (showDiff fl) >>
     when (negb (applyOverwrite fl)) (PrintInfo FmtOverwriteHint []) >>
     print LInfo FmtDryRunDone []).

(** [RunE], from the content of the file on. *)
Definition RunE (fl : Flags) (content : Content) : M W unit :=
  match normalize content with
  | Err x => fail x
  | Ok spec =>
      if streq (adminURL fl) "" then fail ErrNoAdminURL
      else reconcile fl spec
  end.

End Client.

(** ** A reference Admin API

    A server that keeps what it is sent, answers every request and never
    fails on its own: resources are found by name, POST adds a resource
    (409 when the name is taken, 404 when the upstream of a target does not
    exist), PATCH overwrites the fields of the payload.  The id of a
    resource is derived from its name.  It is used where a claim needs a
    remote side that remembers what was created. *)

Record Store := mkStore {
  st_upstreams : list Upstream;
  st_targets : list (string * Target);
  st_services : list Service;
  st_routes : list Route
}.

Definition emptyStore : Store := mkStore [] [] [] [].

Definition findUpstream (st : Store) (name : string) : option Upstream :=
  find (λ u, streq (up_Name u) name) (st_upstreams st).

Definition findService (st : Store) (name : string) : option Service :=
  find (λ s, streq (svc_Name s) name) (st_services st).

Definition findRoute (st : Store) (name : string) : option Route :=
  find (λ r, streq (rt_Name r) name) (st_routes st).

Definition targetsOf (st : Store) (upstream : string) : list Target :=
  map snd (filter (λ p, p.1 = upstream) (st_targets st)).

Definition idOf (name : string) : string := "id-" +:+ name.

Definition replyGet {A} (x : option A) : Reply A :=
  match x with
  | Some a => Http 200 (Json a)
  | None => Http 404 Blank
  end.

Definition orElse {A} (new old : option A) : option A :=
  match new with Some _ => new | None => old end.

Definition patchedService (p : ServicePatch) (s : Service) : Service :=
  mkService (svc_ID s) (svc_Name s)
    (default (svc_URL s) (sp_url p))
    (default (svc_Protocol s) (sp_protocol p))
    (default (svc_Host s) (sp_host p))
    (default (svc_Port s) (sp_port p))
    (default (svc_Path s) (sp_path p))
    (default (svc_Retries s) (sp_retries p))
    (default (svc_ConnectTimeout s) (sp_connect_timeout p))
    (default (svc_ReadTimeout s) (sp_read_timeout p))
    (default (svc_WriteTimeout s) (sp_write_timeout p)).

Definition patchedRoute (st : Store) (p : RoutePatch) (r : Route) : Route :=
  mkRoute (rt_ID r) (rt_Name r) (rp_hosts p) (rp_paths p) (rp_methods p)
    (default (rt_Protocols r) (rp_protocols p))
    (orElse (rp_preserve_host p) (rt_PreserveHost r))
    (default (rt_RegexPriority r) (rp_regex_priority p))
    (default (rt_HTTPSRedirectStatusCode r) (rp_https_redirect_status_code p))
    (orElse (rp_request_buffering p) (rt_RequestBuffering r))
    (orElse (rp_response_buffering p) (rt_ResponseBuffering r))
    (default (rt_Headers r) (rp_headers p))
    (default (rt_Snis r) (rp_snis p))
    (default (rt_Tags r) (rp_tags p))
    (default (rt_PathHandling r) (rp_path_handling p))
    (orElse (rp_strip_path p) (rt_StripPath r))
    (match rp_service_id p with
     | None => rt_Service r
     | Some id =>
         mkServiceRef id
           (match find (λ s, streq (svc_ID s) id) (st_services st) with
            | Some s => svc_Name s
            | None => ""
            end)
     end).

(** Replace the first element that satisfies [p]. *)
Fixpoint replaceFirst {A} (p : A -> bool) (new : A) (l : list A) : list A :=
  match l with
  | [] => []
  | x :: r => if p x then new :: r else x :: replaceFirst p new r
  end.

Definition storePostUpstream (u : Upstream) (st : Store) : Reply Upstream * Store :=
  match findUpstream st (up_Name u) with
  | Some _ => (Http 409 Blank, st)
  | None =>
      let u' := mkUpstream (idOf (up_Name u)) (up_Name u) in
      (Http 201 (Json u'),
       mkStore (st_upstreams st ++ [u']) (st_targets st) (st_services st) (st_routes st))
  end.

Definition storeGetTargets (upstream : string) (st : Store) : Reply (list Target) * Store :=
  match findUpstream st upstream with
  | Some _ => (Http 200 (Json (targetsOf st upstream)), st)
  | None => (Http 404 Blank, st)
  end.

(** A target that is posted again replaces the one with that address. *)
Definition storePostTarget (upstream : string) (t : Target) (st : Store)
  : Reply Target * Store :=
  match findUpstream st upstream with
  | None => (Http 404 Blank, st)
  | Some _ =>
      let t' := mkTarget (idOf (upstream +:+ "/" +:+ tg_Target t)) (tg_Target t)
                         (tg_Weight t) in
      let same := λ p : string * Target,
                    streq p.1 upstream && streq (tg_Target p.2) (tg_Target t) in
      (Http 201 (Json t'),
       mkStore (st_upstreams st)
               (if existsb same (st_targets st)
                then replaceFirst same (upstream, t') (st_targets st)
                else st_targets st ++ [(upstream, t')])
               (st_services st) (st_routes st))
  end.

Definition storePostService (s : Service) (st : Store) : Reply Service * Store :=
  match findService st (svc_Name s) with
  | Some _ => (Http 409 Blank, st)
  | None =>
      let s' := mkService (idOf (svc_Name s)) (svc_Name s) (svc_URL s) (svc_Protocol s)
                  (svc_Host s) (svc_Port s) (svc_Path s) (svc_Retries s)
                  (svc_ConnectTimeout s) (svc_ReadTimeout s) (svc_WriteTimeout s) in
      (Http 201 (Json s'),
       mkStore (st_upstreams st) (st_targets st) (st_services st ++ [s']) (st_routes st))
  end.

Definition storePatchService (name : string) (p : ServicePatch) (st : Store)
  : Reply Service * Store :=
  match findService st name with
  | None => (Http 404 Blank, st)
  | Some s =>
      let s' := patchedService p s in
      (Http 200 (Json s'),
       mkStore (st_upstreams st) (st_targets st)
               (replaceFirst (λ x, streq (svc_Name x) name) s' (st_services st))
               (st_routes st))
  end.

Definition storePostRoute (r : Route) (st : Store) : Reply Route * Store :=
  match findRoute st (rt_Name r) with
  | Some _ => (Http 409 Blank, st)
  | None =>
      let r' := mkRoute (idOf (rt_Name r)) (rt_Name r) (rt_Hosts r) (rt_Paths r)
                  (rt_Methods r) (rt_Protocols r) (rt_PreserveHost r) (rt_RegexPriority r)
                  (rt_HTTPSRedirectStatusCode r) (rt_RequestBuffering r)
                  (rt_ResponseBuffering r) (rt_Headers r) (rt_Snis r) (rt_Tags r)
                  (rt_PathHandling r) (rt_StripPath r) (rt_Service r) in
      (Http 201 (Json r'),
       mkStore (st_upstreams st) (st_targets st) (st_services st) (st_routes st ++ [r']))
  end.

Definition storePatchRoute (name : string) (p : RoutePatch) (st : Store)
  : Reply Route * Store :=
  match findRoute st name with
  | None => (Http 404 Blank, st)
  | Some r =>
      let r' := patchedRoute st p r in
      (Http 200 (Json r'),
       mkStore (st_upstreams st) (st_targets st) (st_services st)
               (replaceFirst (λ x, streq (rt_Name x) name) r' (st_routes st)))
  end.

#[export] Instance storeAdmin : Admin Store := {|
  getUpstream name st := (replyGet (findUpstream st name), st);
  postUpstream := storePostUpstream;
  getTargets := storeGetTargets;
  postTarget := storePostTarget;
  getService name st := (replyGet (findService st name), st);
  postService := storePostService;
  patchService := storePatchService;
  getRoute name st := (replyGet (findRoute st name), st);
  postRoute := storePostRoute;
  patchRoute := storePatchRoute
|}.

(** ** Vocabulary of the properties *)

(** The three shapes of a document, as [normalize] tests them. *)
Definition fullDocument (c : Content) : bool :=
  negb (dec_err (asSpec c)) && negb (noResources (dec_value (asSpec c))).

Definition routeList (c : Content) : bool :=
  negb (dec_err (asRoutes c)) && nonEmpty (dec_value (asRoutes c)).

Definition singleRoute (c : Content) : bool :=
  negb (dec_err (asRoute c)) && routeShaped (dec_value (asRoute c)).

(** The route of the specification's shorthand example. *)
Definition demoRoute : applyRoute :=
  mkApplyRoute "demo" "" [] ["/demo"] [] None "" [] None 0 0 None None ∅ [] [] "" ""
    (mkRouteBackend "" 0 "" [mkApplyTarget "a:80" 0]).

(** The number of occurrences of [x] in [l]. *)
Fixpoint occ (x : string) (l : list string) : Z :=
  match l with
  | [] => 0
  | y :: r => (if streq y x then 1 else 0) + occ x r
  end.

(** *** Remote resources that differ in one field *)

Definition withRetries (v : Z) (s : Service) : Service :=
  mkService (svc_ID s) (svc_Name s) (svc_URL s) (svc_Protocol s) (svc_Host s)
    (svc_Port s) (svc_Path s) v (svc_ConnectTimeout s) (svc_ReadTimeout s)
    (svc_WriteTimeout s).

Definition withConnectTimeout (v : Z) (s : Service) : Service :=
  mkService (svc_ID s) (svc_Name s) (svc_URL s) (svc_Protocol s) (svc_Host s)
    (svc_Port s) (svc_Path s) (svc_Retries s) v (svc_ReadTimeout s)
    (svc_WriteTimeout s).

Definition withReadTimeout (v : Z) (s : Service) : Service :=
  mkService (svc_ID s) (svc_Name s) (svc_URL s) (svc_Protocol s) (svc_Host s)
    (svc_Port s) (svc_Path s) (svc_Retries s) (svc_ConnectTimeout s) v
    (svc_WriteTimeout s).

Definition withWriteTimeout (v : Z) (s : Service) : Service :=
  mkService (svc_ID s) (svc_Name s) (svc_URL s) (svc_Protocol s) (svc_Host s)
    (svc_Port s) (svc_Path s) (svc_Retries s) (svc_ConnectTimeout s)
    (svc_ReadTimeout s) v.

Definition withPathHandling (v : string) (r : Route) : Route :=
  mkRoute (rt_ID r) (rt_Name r) (rt_Hosts r) (rt_Paths r) (rt_Methods r)
    (rt_Protocols r) (rt_PreserveHost r) (rt_RegexPriority r)
    (rt_HTTPSRedirectStatusCode r) (rt_RequestBuffering r) (rt_ResponseBuffering r)
    (rt_Headers r) (rt_Snis r) (rt_Tags r) v (rt_StripPath r) (rt_Service r).

Definition withPreserveHost (v : option bool) (r : Route) : Route :=
  mkRoute (rt_ID r) (rt_Name r) (rt_Hosts r) (rt_Paths r) (rt_Methods r)
    (rt_Protocols r) v (rt_RegexPriority r)
    (rt_HTTPSRedirectStatusCode r) (rt_RequestBuffering r) (rt_ResponseBuffering r)
    (rt_Headers r) (rt_Snis r) (rt_Tags r) (rt_PathHandling r) (rt_StripPath r)
    (rt_Service r).

Definition withRegexPriority (v : Z) (r : Route) : Route :=
  mkRoute (rt_ID r) (rt_Name r) (rt_Hosts r) (rt_Paths r) (rt_Methods r)
    (rt_Protocols r) (rt_PreserveHost r) v
    (rt_HTTPSRedirectStatusCode r) (rt_RequestBuffering r) (rt_ResponseBuffering r)
    (rt_Headers r) (rt_Snis r) (rt_Tags r) (rt_PathHandling r) (rt_StripPath r)
    (rt_Service r).

Definition withHTTPSRedirect (v : Z) (r : Route) : Route :=
  mkRoute (rt_ID r) (rt_Name r) (rt_Hosts r) (rt_Paths r) (rt_Methods r)
    (rt_Protocols r) (rt_PreserveHost r) (rt_RegexPriority r)
    v (rt_RequestBuffering r) (rt_ResponseBuffering r)
    (rt_Headers r) (rt_Snis r) (rt_Tags r) (rt_PathHandling r) (rt_StripPath r)
    (rt_Service r).

Definition withRequestBuffering (v : option bool) (r : Route) : Route :=
  mkRoute (rt_ID r) (rt_Name r) (rt_Hosts r) (rt_Paths r) (rt_Methods r)
    (rt_Protocols r) (rt_PreserveHost r) (rt_RegexPriority r)
    (rt_HTTPSRedirectStatusCode r) v (rt_ResponseBuffering r)
    (rt_Headers r) (rt_Snis r) (rt_Tags r) (rt_PathHandling r) (rt_StripPath r)
    (rt_Service r).

Definition withResponseBuffering (v : option bool) (r : Route) : Route :=
  mkRoute (rt_ID r) (rt_Name r) (rt_Hosts r) (rt_Paths r) (rt_Methods r)
    (rt_Protocols r) (rt_PreserveHost r) (rt_RegexPriority r)
    (rt_HTTPSRedirectStatusCode r) (rt_RequestBuffering r) v
    (rt_Headers r) (rt_Snis r) (rt_Tags r) (rt_PathHandling r) (rt_StripPath r)
    (rt_Service r).

Definition withStripPath (v : option bool) (r : Route) : Route :=
  mkRoute (rt_ID r) (rt_Name r) (rt_Hosts r) (rt_Paths r) (rt_Methods r)
    (rt_Protocols r) (rt_PreserveHost r) (rt_RegexPriority r)
    (rt_HTTPSRedirectStatusCode r) (rt_RequestBuffering r) (rt_ResponseBuffering r)
    (rt_Headers r) (rt_Snis r) (rt_Tags r) (rt_PathHandling r) v (rt_Service r).

(** The verdict on a service bound to an upstream and on a route, with the
    defaults the blocks compute before they compare. *)
Definition serviceVerdict (cur : Service) (s : applyService) : Change :=
  planServiceViaUpstream (Some cur) s (protoOf (as_Protocol s))
    (portOf (protoOf (as_Protocol s)) (as_Port s)).

Definition routeVerdict (cur : Route) (r : applyRoute) (name : string) : Change :=
  planRoute (Some cur) r (desiredRoute name (pathHandlingOf r) r) name.

(** *** Examples *)

(** A service that only names its upstream, and two remote states of it
    that differ in the protocol alone. *)
Definition bareService : applyService :=
  mkApplyService "svc" "" "up" "" 0 "" 0 0 0 0 [].

Definition remoteHttp : Service :=
  mkService "id-svc" "svc" "" "http" "up" 80 "" 5 0 0 0.

Definition remoteHttps : Service :=
  mkService "id-svc" "svc" "" "https" "up" 80 "" 5 0 0 0.

(** A route that lists a host twice, and the remote route with that host. *)
Definition twiceRoute : applyRoute :=
  mkApplyRoute "r" "svc" ["a.com"; "a.com"] [] [] (Some true) "" [] None 0 0 None None
    ∅ [] [] "" "" zeroBackend.

Definition onceRemote : Route :=
  mkRoute "id-r" "r" ["a.com"] [] [] [] None 0 0 None None ∅ [] [] "" (Some true)
    (mkServiceRef "id-svc" "svc").

(** *** What a computation adds to the log *)

(** [c] only appends to the log, and what it appends, together with its
    result, satisfies [Φ]. *)
Definition emits {W A} (Φ : list Event -> Res A -> Prop) (c : M W A) : Prop :=
  forall e, exists new, trace (c e).1 = trace e ++ new /\ Φ new (c e).2.

Definition errorOf {A} (r : Res A) : option Error :=
  match r with Ok _ => None | Err x => Some x end.

(** A property of the appended events and of the error, if any, the
    computation stopped with. *)
Definition lift {A} (P : list Event -> option Error -> Prop)
  : list Event -> Res A -> Prop :=
  λ new r, P new (errorOf r).

(** Properties that pass through sequencing: they hold of a computation
    that does nothing, and of a successful run followed by another run. *)
Class Sequential (P : list Event -> option Error -> Prop) : Prop := {
  seq_nil : P [] None;
  seq_app : forall n1 n2 o, P n1 None -> P n2 o -> P (n1 ++ n2) o
}.

(** No request of the list changes the remote state. *)
Definition onlyLookups (new : list Event) : Prop :=
  Forall (λ ev, isMutating (ev_call ev) = false) new.

Definition isFailed (o : Outcome) : bool :=
  match o with Failed _ => true | _ => false end.

(** A request that failed is the last one, and the run failed. *)
Definition failureIsFinal (new : list Event) (o : option Error) : Prop :=
  forall pre ev post,
    new = pre ++ ev :: post -> isFailed (ev_outcome ev) = true ->
    post = [] /\ o <> None.

(** The lookup [lk] reported that the resource created by [c] does not
    exist. *)
Definition reportsAbsent (lk : Event) (c : Call) : Prop :=
  match c, ev_call lk, ev_outcome lk with
  | CPostUpstream u, CGetUpstream n, Missing => n = up_Name u
  | CPostTarget up t, CGetTargets up', Listed l =>
      up' = up /\ Forall (λ x, tg_Target x <> tg_Target t) l
  | CPostService s, CGetService n, Missing => n = svc_Name s
  | CPostRoute r, CGetRoute n, Missing => n = rt_Name r
  | _, _, _ => False
  end.

(** Every POST comes after a lookup that reported its resource absent,
    with at most one further lookup in between. *)
Definition createsVerified (new : list Event) : Prop :=
  forall pre ev post,
    new = pre ++ ev :: post -> isPost (ev_call ev) = true ->
    exists pre' lk mid,
      pre = pre' ++ lk :: mid /\ reportsAbsent lk (ev_call ev)
      /\ (length mid <= 1)%nat /\ onlyLookups mid.

(** [onlyLookups], as a property of a run. *)
Definition looksUpOnly (new : list Event) (o : option Error) : Prop := onlyLookups new.

(** A run that sends lookups only and that stops, if it does, on the
    document and not on what the remote side answered. *)
Definition dryRunSafe (new : list Event) (o : option Error) : Prop :=
  onlyLookups new
  /\ forall x, o = Some x -> classOf x = ParseError \/ classOf x = ValidationError.

(** What a dry run prints when it succeeds: the plan it assembled goes to
    the renderer, followed by the closing lines. *)
Definition dryRunEpilogue {W} (fl : Flags) (spec : applySpec) (e : Env W) : list Notice :=
  [Rendered (plan e) spec (autoInfos e) (autoSvcSet e) (autoUpSet e) (showDiff fl)]
  ++ (if applyOverwrite fl then [] else [Print LInfo FmtOverwriteHint []])
  ++ [Print LInfo FmtDryRunDone []].

Definition dryFlags (withDiff overwrite : bool) (url : string) : Flags :=
  mkFlags true withDiff overwrite url.

Definition execFlags (withDiff overwrite : bool) (url : string) : Flags :=
  mkFlags false withDiff overwrite url.

Definition localhost : string := "http://localhost:8001".

(** *** A remote side that is down

    Every request gets the same status and a body that is not JSON. *)
Record Outage := mkOutage { out_status : Z }.

#[export] Instance outageAdmin : Admin Outage := {|
  getUpstream _ w := (Http (out_status w) NotJSON, w);
  postUpstream _ w := (Http (out_status w) NotJSON, w);
  getTargets _ w := (Http (out_status w) NotJSON, w);
  postTarget _ _ w := (Http (out_status w) NotJSON, w);
  getService _ w := (Http (out_status w) NotJSON, w);
  postService _ w := (Http (out_status w) NotJSON, w);
  patchService _ _ w := (Http (out_status w) NotJSON, w);
  getRoute _ w := (Http (out_status w) NotJSON, w);
  postRoute _ w := (Http (out_status w) NotJSON, w);
  patchRoute _ _ w := (Http (out_status w) NotJSON, w)
|}.

(** The part of [reconcile] that comes before a route: the upstreams, the
    services and the routes [pre] listed before it. *)
Definition reconcileBefore {W} `{Admin W} (fl : Flags) (spec : applySpec)
    (pre : list applyRoute) : M W unit :=
  forEach (Upstreams spec) (upstreamStep fl) >>
  forEach (Services spec) (serviceStep fl) >>
  forEach pre (routeStep fl).

(** A route with paths only, and a document that lists it after a route of
    an existing service. *)
Definition namelessRoute : applyRoute :=
  mkApplyRoute "" "" [] ["/x"] [] None "" [] None 0 0 None None ∅ [] [] "" "" zeroBackend.

Definition plainRoute : applyRoute :=
  mkApplyRoute "r1" "svcX" [] ["/p"] ["GET"] None "" [] None 0 0 None None ∅ [] [] "" ""
    zeroBackend.

Definition storeWithSvcX : Store :=
  mkStore [] [] [mkService "id-svcX" "svcX" "" "http" "backend" 80 "" 0 0 0 0] [].

(** [createsVerified], as a property of a run. *)
Definition verifiesCreates (new : list Event) (o : option Error) : Prop :=
  createsVerified new.

(** No request of the list is a POST. *)
Definition noPost (new : list Event) : Prop :=
  Forall (λ ev, isPost (ev_call ev) = false) new.

(** *** Steps of the state *)

Definition logEvent {W} (e : Env W) (ev : Event) : Env W :=
  mkEnv (world e) (trace e ++ [ev]) (notices e) (plan e) (autoInfos e)
        (autoSvcSet e) (autoUpSet e).

Definition setWorld {W} (w : W) (e : Env W) : Env W :=
  mkEnv w (trace e) (notices e) (plan e) (autoInfos e) (autoSvcSet e) (autoUpSet e).

Definition addNotice {W} (e : Env W) (n : Notice) : Env W :=
  mkEnv (world e) (trace e) (notices e ++ [n]) (plan e) (autoInfos e)
        (autoSvcSet e) (autoUpSet e).

(** *** The resources of the reference store *)

Inductive Resource :=
| RUpstream (name : string)
| RTarget (upstream address : string)
| RService (name : string)
| RRoute (name : string).

(** The resource a mutating request writes. *)
Definition touched (c : Call) : option Resource :=
  match c with
  | CPostUpstream u => Some (RUpstream (up_Name u))
  | CPostTarget up t => Some (RTarget up (tg_Target t))
  | CPostService s => Some (RService (svc_Name s))
  | CPatchService n _ => Some (RService n)
  | CPostRoute r => Some (RRoute (rt_Name r))
  | CPatchRoute n _ => Some (RRoute n)
  | _ => None
  end.

Definition presentIn (w : Store) (r : Resource) : bool :=
  match r with
  | RUpstream n => existsb (λ u, streq (up_Name u) n) (st_upstreams w)
  | RTarget up a =>
      existsb (λ p, streq p.1 up && streq (tg_Target p.2) a) (st_targets w)
  | RService n => existsb (λ s, streq (svc_Name s) n) (st_services w)
  | RRoute n => existsb (λ r, streq (rt_Name r) n) (st_routes w)
  end.

(** [w'] has every resource of [w]. *)
Definition extends (w w' : Store) : Prop :=
  forall r, presentIn w r = true -> presentIn w' r = true.

(** A mutating request is careful in [w] when the resource it writes does
    not exist in [w]. *)
Definition writesAbsent (w : Store) (ev : Event) : Prop :=
  forall r, touched (ev_call ev) = Some r -> presentIn w r = false.

(** A resource that a POST created exists in [w]. *)
Definition createdIn (w : Store) (ev : Event) : Prop :=
  forall r, isPost (ev_call ev) = true -> ev_outcome ev = Found ->
            touched (ev_call ev) = Some r -> presentIn w r = true.

(** [c] keeps every resource, writes only resources that did not exist
    when it started, and what it created exists when it ends. *)
Definition careful {A} (c : M Store A) : Prop :=
  forall e, exists new,
    trace (c e).1 = trace e ++ new
    /\ extends (world e) (world (c e).1)
    /\ Forall (writesAbsent (world e)) new
    /\ Forall (createdIn (world (c e).1)) new.

(** The payloads of the requests for a service bound to an upstream. *)
Definition servicePayload (name up proto : string) (port : Z) (path : string) : Service :=
  mkService "" name "" (protoOf proto) up (portOf (protoOf proto) port) path 0 0 0 0.

Definition corePatch (up proto : string) (port : Z) (path : string) : ServicePatch :=
  mkServicePatch None (Some (protoOf proto)) (Some up)
    (Some (portOf (protoOf proto) port)) (Some path) None None None None.

Definition extrasPatch (s : applyService) : ServicePatch :=
  mkServicePatch None None None None None
    (ifPositive (as_Retries s)) (ifPositive (as_ConnectTimeout s))
    (ifPositive (as_ReadTimeout s)) (ifPositive (as_WriteTimeout s)).

Definition urlPatch (url : string) : ServicePatch :=
  mkServicePatch (Some url) None None None None None None None None.

(** [e], after [n] was printed when [b] holds. *)
Definition noticeIf {W} (b : bool) (n : Notice) (e : Env W) : Env W :=
  if b then addNotice e n else e.


(** *** Two runs in a row *)

Definition sameResource (a b : Resource) : bool :=
  match a, b with
  | RUpstream n, RUpstream m => streq n m
  | RTarget u x, RTarget v y => streq u v && streq x y
  | RService n, RService m => streq n m
  | RRoute n, RRoute m => streq n m
  | _, _ => false
  end.

(** The request of [ev] writes [r]. *)
Definition writes (r : Resource) (ev : Event) : bool :=
  match touched (ev_call ev) with
  | Some x => sameResource x r
  | None => false
  end.

Definition isFound (o : Outcome) : bool :=
  match o with Found => true | _ => false end.

(** [ev] is a POST of [r] that the remote side accepted. *)
Definition creates (r : Resource) (ev : Event) : bool :=
  isPost (ev_call ev) && isFound (ev_outcome ev) && writes r ev.

Definition createdBy (new : list Event) (r : Resource) : bool := existsb (creates r) new.

Definition writtenBy (new : list Event) (r : Resource) : bool := existsb (writes r) new.

(** The store after the first run of the example document. *)
Definition afterDemo : Env Store :=
  (RunE (execFlags false false localhost) (ofSequence [demoRoute]) (initEnv emptyStore)).1.


(** The stored target with the address [a] under [up]. *)
Definition targetAt (w : Store) (up a : string) : option Target :=
  find (λ x, streq (tg_Target x) a) (targetsOf w up).

(** *** The [strip_path] of the requests for a route *)

(** A request that writes a route gives [strip_path] the value [v]. *)
Definition sendsStripPath (v : option bool) (c : Call) : Prop :=
  match c with
  | CPostRoute d => rt_StripPath d = v
  | CPatchRoute _ p => rp_strip_path p = v
  | _ => True
  end.

Definition stripPathSent (v : option bool) (new : list Event) (o : option Error) : Prop :=
  Forall (λ ev, sendsStripPath v (ev_call ev)) new.

(** [strip_path] as the document gives it, [true] when it does not. *)
Definition stripPathOf (r : applyRoute) : option bool :=
  match ar_StripPath r with Some b => Some b | None => Some true end.

(** A remote route for the example document whose [strip_path] is off. *)
Definition demoRemote : Route :=
  mkRoute "id-demo" "demo" [] ["/demo"] [] [] None 0 0 None None ∅ [] [] "" (Some false)
    (mkServiceRef "id-demo-service" "demo-service").

(** *** Updates and [--overwrite] *)

(** The requests of a log that change the remote state. *)
Definition mutations (new : list Event) : list Call :=
  List.filter isMutating (map ev_call new).

Definition isWarning (n : Notice) : bool :=
  match n with Print LWarn _ _ => true | _ => false end.

(** The lines printed with [PrintWarn]. *)
Definition warnings (ns : list Notice) : list Notice := List.filter isWarning ns.

(** The two comparisons of a service bound to an upstream, with the
    defaults of the block. *)
Definition coreDiffers (cur : Service) (s : applyService) : bool :=
  coreChanged cur (as_Upstream s) (protoOf (as_Protocol s))
    (portOf (protoOf (as_Protocol s)) (as_Port s)) (as_Path s).

(** What the block of such a service prints without [--overwrite], and
    what it sends with it. *)
Definition serviceSkips (cur : Service) (s : applyService) : list Notice :=
  (if coreDiffers cur s then [Print LWarn FmtServiceSkipped [VStr (as_Name s)]] else [])
  ++ (if extrasChanged cur s then [Print LWarn FmtExtrasSkipped [VStr (as_Name s)]]
      else []).

Definition servicePatches (cur : Service) (s : applyService) : list Call :=
  (if coreDiffers cur s
   then [CPatchService (as_Name s)
           (corePatch (as_Upstream s) (protoOf (as_Protocol s))
              (portOf (protoOf (as_Protocol s)) (as_Port s)) (as_Path s))]
   else [])
  ++ (if extrasChanged cur s then [CPatchService (as_Name s) (extrasPatch s)] else []).

(** A service that declares its retries, on a store whose service differs
    in the protocol and in the retries. *)
Definition retryingService : applyService :=
  mkApplyService "svc" "" "up" "" 0 "" 3 0 0 0 [].

Definition storeWithSvc : Store :=
  mkStore [mkUpstream "id-up" "up"] [] [remoteHttps] [].

Definition retryingDocument : Content :=
  ofMapping (mkApplySpec [] [retryingService] []) zeroRoute.

(** A route of a service that the store does not have, on a store that has
    the route. *)
Definition strayRoute : applyRoute :=
  mkApplyRoute "demo" "other" [] ["/demo"] [] None "" [] None 0 0 None None ∅ [] [] "" ""
    zeroBackend.

Definition storeWithRoute : Store := mkStore [] [] [] [demoRemote].

(** The same for a service given by URL and for the service of a
    shorthand route. *)
Definition urlDiffers (cur : Service) (s : applyService) : bool :=
  sneq (reconstructURL (Some cur)) (as_URL s).

Definition urlSkips (cur : Service) (s : applyService) : list Notice :=
  (if urlDiffers cur s then [Print LWarn FmtServiceURLSkipped [VStr (as_Name s)]] else [])
  ++ (if extrasChanged cur s then [Print LWarn FmtExtrasSkipped [VStr (as_Name s)]]
      else []).

Definition urlPatches (cur : Service) (s : applyService) : list Call :=
  (if urlDiffers cur s then [CPatchService (as_Name s) (urlPatch (as_URL s))] else [])
  ++ (if extrasChanged cur s then [CPatchService (as_Name s) (extrasPatch s)] else []).

(** The block ended well, left the store as it was, sent no request that
    changes it, and printed the warnings [lines]. *)
Definition skipped (e : Env Store) (out : Env Store * Res unit) (lines : list Notice)
  : Prop :=
  out.2 = Ok tt /\ world out.1 = world e
  /\ mutations (trace out.1) = mutations (trace e)
  /\ warnings (notices out.1) = warnings (notices e) ++ lines.

(** The block ended well, the requests it sent that change the store are
    [calls], and it printed no warning. *)
Definition patched (e : Env Store) (out : Env Store * Res unit) (calls : list Call)
  : Prop :=
  out.2 = Ok tt
  /\ mutations (trace out.1) = mutations (trace e) ++ calls
  /\ warnings (notices out.1) = warnings (notices e).

(** A service given by URL that declares its retries; on [storeWithSvc] it
    differs in the URL and in the retries. *)
Definition urlService : applyService :=
  mkApplyService "svc" "http://up:8080" "" "" 0 "" 3 0 0 0 [].

(** The example route with its service set, on a store that has the route
    with [strip_path] off and the service. *)
Definition demoWithService : applyRoute := setService demoRoute "demo-service".

Definition storeWithDemo : Store :=
  mkStore [] []
    [mkService "id-demo-service" "demo-service" "" "http" "demo-upstream" 80 "" 0 0 0 0]
    [demoRemote].

(** *** The shape of a generated route name *)

(** Every byte of [s] is an ASCII letter, a digit or a dash. *)
Fixpoint wordOrDash (s : string) : bool :=
  match s with
  | EmptyString => true
  | String c r => (isAlnum c || isDash c) && wordOrDash r
  end.

Definition startsWithDash (s : string) : bool :=
  match s with String c _ => isDash c | EmptyString => false end.

Fixpoint endsWithDash (s : string) : bool :=
  match s with
  | EmptyString => false
  | String c EmptyString => isDash c
  | String _ r => endsWithDash r
  end.

(** [s] has two dashes in a row. *)
Fixpoint doubleDash (s : string) : bool :=
  match s with
  | String c (String d _ as r) => (isDash c && isDash d) || doubleDash r
  | _ => false
  end.

(** A route with another name, and with another service reference. *)
Definition withName (n : string) (r : Route) : Route :=
  mkRoute (rt_ID r) n (rt_Hosts r) (rt_Paths r) (rt_Methods r) (rt_Protocols r)
    (rt_PreserveHost r) (rt_RegexPriority r) (rt_HTTPSRedirectStatusCode r)
    (rt_RequestBuffering r) (rt_ResponseBuffering r) (rt_Headers r) (rt_Snis r)
    (rt_Tags r) (rt_PathHandling r) (rt_StripPath r) (rt_Service r).

Definition withServiceRef (s : ServiceRef) (r : Route) : Route :=
  mkRoute (rt_ID r) (rt_Name r) (rt_Hosts r) (rt_Paths r) (rt_Methods r) (rt_Protocols r)
    (rt_PreserveHost r) (rt_RegexPriority r) (rt_HTTPSRedirectStatusCode r)
    (rt_RequestBuffering r) (rt_ResponseBuffering r) (rt_Headers r) (rt_Snis r)
    (rt_Tags r) (rt_PathHandling r) (rt_StripPath r) s.

(** [EnsureTarget]'s test on one listed target. *)
Definition sameTarget (target : string) (weight : Z) (t : Target) : bool :=
  streq (tg_Target t) target && ((tg_Weight t =? weight)%Z || (weight =? 0)%Z).

(** A store whose upstream has the target [a:80] with the weight 50. *)
Definition storeWithTarget : Store :=
  mkStore [mkUpstream "id-up" "up"] [("up", mkTarget "id-up/a:80" "a:80" 50)] [] [].

(** ** package cli: the commands [route sync], [service sync] and [target add]

    A command is run on the state of an invocation; what it prints with
    [cmd.Print], [cmd.Printf] and the [Print*] helpers is collected in the
    order it is printed.  The flags are the package variables the command
    reads. *)

Inductive CmdError :=
| ErrRouteFlags                       (* --service and --paths are required *)
| ErrServiceFlags                     (* --name and --url are required *)
| ErrTargetFlags                      (* --upstream and --target are required *)
| ErrBadURL                           (* url.Parse rejected --url *)
| ErrPathHandlingFlag (value : string)
| ErrUpstreamFlag                     (* --name is required *)
| ErrOf (x : Error).                  (* the admin URL check, and the client's errors *)

(** The format strings of the three commands. *)
Inductive CmdFormat :=
| FmtDiffNewRoute | FmtDiffHeader | FmtPathHandlingChange | FmtPathHandlingSame
| FmtDryRunRoute | FmtRouteSynced
| FmtDiffService | FmtPlusService | FmtPlusUpstream | FmtPlusTarget
| FmtMinusHost | FmtPlusHost | FmtMinusProtocol | FmtPlusProtocol
| FmtMinusPort | FmtPlusPort | FmtMinusPath | FmtPlusPath
| FmtDryRunUpstreamService | FmtServiceBound
| FmtDiffNewService | FmtPlusName | FmtPlusURL | FmtDiffNoChange | FmtMinusURL
| FmtDryRunService | FmtSvcCreated | FmtSvcUpdated | FmtSvcSynced
| FmtTargetAdded | FmtUpstreamCreated | FmtUpstreamUpdated.

Inductive Output :=
| Say (l : Level) (f : CmdFormat) (args : list Val)   (* PrintInfo, PrintSuccess *)
| Text (f : CmdFormat) (args : list Val)              (* cmd.Printf *)
| Lines (d : list DiffLine).                          (* cmd.Print(diffSlice(...)) *)

(** The state a command ends in, what it printed, and the error it
    returned, if any. *)
Record Ran (W : Type) := mkRan {
  ran_env : Env W;
  ran_out : list Output;
  ran_err : option CmdError
}.
Arguments mkRan {W} _ _ _.
Arguments ran_env {W} _.
Arguments ran_out {W} _.
Arguments ran_err {W} _.

Record RouteSyncFlags := mkRouteSyncFlags {
  rs_service : string;
  rs_name : string;
  rs_paths : list string;
  rs_methods : list string;
  rs_hosts : list string;
  rs_pathHandling : string;
  rs_dryRun : bool;
  rs_showDiff : bool;
  rs_adminURL : string
}.

(** What [url.Parse] makes of [--url], as far as [service sync] reads it:
    [pu_Port] is [strconv.Atoi(u.Port())], 0 when the URL has no port or
    one that is not a number. *)
Record ParsedURL := mkParsedURL {
  pu_Scheme : string;
  pu_Hostname : string;
  pu_Port : Z;
  pu_EscapedPath : string
}.

Record ServiceSyncFlags := mkServiceSyncFlags {
  ss_name : string;
  ss_url : string;
  ss_parsed : option ParsedURL;      (* [None]: [url.Parse] returned an error *)
  ss_path : string;
  ss_dryRun : bool;
  ss_showDiff : bool;
  ss_autoUpstream : bool;
  ss_upstream : string;
  ss_weight : Z;
  ss_adminURL : string
}.

Record TargetAddFlags := mkTargetAddFlags {
  ta_upstream : string;
  ta_target : string;
  ta_weight : Z;
  ta_adminURL : string
}.

(** [if targetWeight <= 0 { return 100 }; return targetWeight] *)
Definition targetWeightIfSet (targetWeight : Z) : Z :=
  if (targetWeight <=? 0)%Z then 100 else targetWeight.

(** [strings.HasPrefix(s, "/")] *)
Definition hasSlashPrefix (s : string) : bool :=
  match s with String c _ => (N_of_ascii c =? 47)%N | EmptyString => false end.

Record UpstreamSyncFlags := mkUpstreamSyncFlags {
  us_name : string;
  us_adminURL : string
}.

Section Commands.
Context {W : Type} `{Admin W}.

(** route.go, lines 43-115. *)
Definition routeSyncCmd (fl : RouteSyncFlags) (e : Env W) : Ran W :=
  if streq (rs_service fl) "" || (length (rs_paths fl) =? 0)%nat
  then mkRan e [] (Some ErrRouteFlags)
  else if streq (rs_adminURL fl) "" then mkRan e [] (Some (ErrOf ErrNoAdminURL))
  else
    let name := if streq (rs_name fl) ""
                then defaultRouteName (rs_service fl) (rs_paths fl) (rs_methods fl)
                else rs_name fl in
    let ph := ToLower (TrimSpace (rs_pathHandling fl)) in
    if sneq ph "" && sneq ph "v0" && sneq ph "v1"
    then mkRan e [] (Some (ErrPathHandlingFlag (rs_pathHandling fl)))
    else
      let desired :=
        mkRoute "" name (rs_hosts fl) (rs_paths fl) (toUpper (rs_methods fl)) []
                None 0 0 None None ∅ [] [] ph (Some true)
                (mkServiceRef "" (rs_service fl)) in
      let '(e1, r) := GetRoute name e in
      match r with
      | Err x => mkRan e1 [] (Some (ErrOf x))
      | Ok cur =>
          let out :=
            if rs_showDiff fl then
              match cur with
              | None => [Say LInfo FmtDiffNewRoute [VStr name]]
              | Some cur =>
                  [Say LInfo FmtDiffHeader [];
                   Lines (diffSlice "hosts" (rt_Hosts cur) (rt_Hosts desired));
                   Lines (diffSlice "paths" (rt_Paths cur) (rt_Paths desired));
                   Lines (diffSlice "methods" (rt_Methods cur) (rt_Methods desired))]
                  ++ (if sneq ph "" then
                        let curPH := ToLower (rt_PathHandling cur) in
                        if sneq curPH ph
                        then [Text FmtPathHandlingChange [VStr curPH; VStr ph]]
                        else [Text FmtPathHandlingSame []]
                      else [])
              end
            else [] in
          if rs_showDiff fl && rs_dryRun fl
          then mkRan e1 (out ++ [Say LInfo FmtDryRunRoute
                                     [VStr name; VStr (rs_service fl)]]) None
          else
            let '(e2, r2) := CreateOrUpdateRoute desired e1 in
            match r2 with
            | Err x => mkRan e2 out (Some (ErrOf x))
            | Ok res =>
                mkRan e2 (out ++ [Say LSuccess FmtRouteSynced
                                      [VStr (actionCN res.1); VStr name;
                                       VStr (rs_service fl)]]) None
            end
      end.

(** service.go of package cli, lines 46-154. *)
Definition serviceSyncCmd (fl : ServiceSyncFlags) (e : Env W) : Ran W :=
  if streq (ss_name fl) "" || streq (ss_url fl) ""
  then mkRan e [] (Some ErrServiceFlags)
  else if streq (ss_adminURL fl) "" then mkRan e [] (Some (ErrOf ErrNoAdminURL))
  else
    match ss_parsed fl with
    | None => mkRan e [] (Some ErrBadURL)
    | Some u =>
        let proto := pu_Scheme u in
        let host := pu_Hostname u in
        let port := pu_Port u in
        let port := if (port =? 0)%Z
                    then (if streq proto "https" then 443 else 80) else port in
        let path := pu_EscapedPath u in
        let path := if sneq (ss_path fl) ""
                    then (if hasSlashPrefix (ss_path fl) then ss_path fl
                          else "/" +:+ ss_path fl)
                    else path in
        let upName := if streq (ss_upstream fl) ""
                      then ss_name fl +:+ "-upstream" else ss_upstream fl in
        let target := host +:+ ":" +:+ itoa port in
        let '(e1, r) := GetService (ss_name fl) e in
        match r with
        | Err x => mkRan e1 [] (Some (ErrOf x))
        | Ok cur =>
            if ss_autoUpstream fl then
              let out :=
                if ss_showDiff fl then
                  Say LInfo FmtDiffService []
                  :: match cur with
                     | None =>
                         [Text FmtPlusService
                               [VStr (ss_name fl); VStr upName; VInt port; VStr path;
                                VStr proto];
                          Text FmtPlusUpstream [VStr upName];
                          Text FmtPlusTarget
                               [VStr target; VInt (targetWeightIfSet (ss_weight fl))]]
                     | Some cur =>
                         [Text FmtMinusHost [VStr (svc_Host cur)];
                          Text FmtPlusHost [VStr upName];
                          Text FmtMinusProtocol [VStr (svc_Protocol cur)];
                          Text FmtPlusProtocol [VStr proto];
                          Text FmtMinusPort [VInt (svc_Port cur)];
                          Text FmtPlusPort [VInt port]]
                         ++ (if sneq (TrimSpace (svc_Path cur)) (TrimSpace path)
                             then [Text FmtMinusPath [VStr (svc_Path cur)];
                                   Text FmtPlusPath [VStr path]]
                             else [])
                     end
                else [] in
              if ss_showDiff fl && ss_dryRun fl
              then mkRan e1 (out ++ [Say LInfo FmtDryRunUpstreamService
                                         [VStr (ss_name fl); VStr upName; VStr target]])
                         None
              else
                let '(e2, r2) := CreateOrUpdateUpstream upName e1 in
                match r2 with
                | Err x => mkRan e2 out (Some (ErrOf x))
                | Ok _ =>
                    let '(e3, r3) :=
                      EnsureTarget upName target (targetWeightIfSet (ss_weight fl)) e2 in
                    match r3 with
                    | Err x => mkRan e3 out (Some (ErrOf x))
                    | Ok _ =>
                        let '(e4, r4) :=
                          CreateOrUpdateServiceViaUpstream (ss_name fl) upName proto
                            port path e3 in
                        match r4 with
                        | Err x => mkRan e4 out (Some (ErrOf x))
                        | Ok res =>
                            mkRan e4
                              (out ++ [Say LSuccess FmtServiceBound
                                           [VStr (actionCN res.1); VStr (ss_name fl);
                                            VStr upName; VStr target]])
                              None
                        end
                    end
                end
            else
              let out :=
                if ss_showDiff fl then
                  match cur with
                  | None =>
                      [Say LInfo FmtDiffNewService [];
                       Text FmtPlusName [VStr (ss_name fl)];
                       Text FmtPlusURL [VStr (ss_url fl)]]
                  | Some cur =>
                      let curURL := reconstructURL (Some cur) in
                      if streq curURL (ss_url fl) then [Say LInfo FmtDiffNoChange []]
                      else [Say LInfo FmtDiffHeader [];
                            Text FmtMinusURL [VStr curURL];
                            Text FmtPlusURL [VStr (ss_url fl)]]
                  end
                else [] in
              if ss_showDiff fl && ss_dryRun fl
              then mkRan e1 (out ++ [Say LInfo FmtDryRunService
                                         [VStr (ss_name fl); VStr (ss_url fl)]]) None
              else
                let '(e2, r2) := CreateOrUpdateService (ss_name fl) (ss_url fl) e1 in
                match r2 with
                | Err x => mkRan e2 out (Some (ErrOf x))
                | Ok res =>
                    mkRan e2
                      (out ++ [Say LSuccess
                                   (if streq res.1 "create" then FmtSvcCreated
                                    else if streq res.1 "update" then FmtSvcUpdated
                                    else FmtSvcSynced)
                                   [VStr (ss_name fl); VStr (ss_url fl)]])
                      None
                end
        end
    end.

(** target.go of package cli, lines 29-49. *)
Definition targetAddCmd (fl : TargetAddFlags) (e : Env W) : Ran W :=
  if streq (ta_upstream fl) "" || streq (ta_target fl) ""
  then mkRan e [] (Some ErrTargetFlags)
  else
    let weight := if (ta_weight fl =? 0)%Z then 100 else ta_weight fl in
    if streq (ta_adminURL fl) "" then mkRan e [] (Some (ErrOf ErrNoAdminURL))
    else
      let '(e1, r) := AddTarget (ta_upstream fl) (ta_target fl) weight e in
      match r with
      | Err x => mkRan e1 [] (Some (ErrOf x))
      | Ok _ =>
          mkRan e1 [Say LSuccess FmtTargetAdded
                        [VStr (ta_target fl); VInt weight; VStr (ta_upstream fl)]] None
      end.

(** upstream.go of package cli, lines 27-46. *)
Definition upstreamSyncCmd (fl : UpstreamSyncFlags) (e : Env W) : Ran W :=
  if streq (us_name fl) "" then mkRan e [] (Some ErrUpstreamFlag)
  else if streq (us_adminURL fl) "" then mkRan e [] (Some (ErrOf ErrNoAdminURL))
  else
    let '(e1, r) := CreateOrUpdateUpstream (us_name fl) e in
    match r with
    | Err x => mkRan e1 [] (Some (ErrOf x))
    | Ok res =>
        mkRan e1 [Say LSuccess
                      (if streq res.1 "create" then FmtUpstreamCreated
                       else FmtUpstreamUpdated)
                      [VStr (us_name fl)]] None
    end.

End Commands.

(** The flags of [route sync] and [service sync] with [--dry-run] and
    [--diff] set to the given values. *)
Definition routeSyncWith (dry diff : bool) (fl : RouteSyncFlags) : RouteSyncFlags :=
  mkRouteSyncFlags (rs_service fl) (rs_name fl) (rs_paths fl) (rs_methods fl)
    (rs_hosts fl) (rs_pathHandling fl) dry diff (rs_adminURL fl).

Definition serviceSyncWith (dry diff : bool) (fl : ServiceSyncFlags) : ServiceSyncFlags :=
  mkServiceSyncFlags (ss_name fl) (ss_url fl) (ss_parsed fl) (ss_path fl) dry diff
    (ss_autoUpstream fl) (ss_upstream fl) (ss_weight fl) (ss_adminURL fl).

(** The route that [route sync] asks for. *)
Definition routeSyncName (fl : RouteSyncFlags) : string :=
  if streq (rs_name fl) ""
  then defaultRouteName (rs_service fl) (rs_paths fl) (rs_methods fl)
  else rs_name fl.

Definition routeSyncDesired (fl : RouteSyncFlags) : Route :=
  mkRoute "" (routeSyncName fl) (rs_hosts fl) (rs_paths fl) (toUpper (rs_methods fl)) []
          None 0 0 None None ∅ [] [] (ToLower (TrimSpace (rs_pathHandling fl)))
          (Some true) (mkServiceRef "" (rs_service fl)).

(** The flags pass the checks that come before the first request. *)
Definition routeSyncValid (fl : RouteSyncFlags) : bool :=
  sneq (rs_service fl) "" && negb (length (rs_paths fl) =? 0)%nat
  && sneq (rs_adminURL fl) ""
  && (let ph := ToLower (TrimSpace (rs_pathHandling fl)) in
      streq ph "" || streq ph "v0" || streq ph "v1").

(** [route sync --service demo-service --paths /demo --dry-run], without
    [--diff]. *)
Definition demoRouteSync : RouteSyncFlags :=
  mkRouteSyncFlags "demo-service" "demo" ["/demo"] [] [] "" true false localhost.

(** A store with the service of the example and no route, and one whose
    route is what [route sync] asks for. *)
Definition storeWithDemoService : Store :=
  mkStore [] []
    [mkService "id-demo-service" "demo-service" "" "http" "demo-upstream" 80 "" 0 0 0 0]
    [].

Definition storeInSync : Store :=
  mkStore [] []
    [mkService "id-demo-service" "demo-service" "" "http" "demo-upstream" 80 "" 0 0 0 0]
    [mkRoute "id-demo" "demo" [] ["/demo"] [] [] None 0 0 None None ∅ [] [] ""
       (Some true) (mkServiceRef "id-demo-service" "demo-service")].

(** ** package cli: [export], the conversion of the remote resources

    The command lists the upstreams with their targets, the services and
    the routes, converts each into the entry of a document that [apply]
    reads, and sorts the three lists by name.  The conversions are the
    bodies of its three loops. *)

(** Lines 259-262: a target without an address is skipped. *)
Definition exportTargets (ats : list Target) : list applyTarget :=
  flat_map (λ t, if streq (TrimSpace (tg_Target t)) "" then []
                 else [mkApplyTarget (tg_Target t) (tg_Weight t)]) ats.




(** A store whose upstream has the target [a:80] with the weight 0. *)
Definition storeWithIdleTarget : Store :=
  mkStore [mkUpstream "id-up" "up"] [("up", mkTarget "id-up/a:80" "a:80" 0)] [] [].

(** The values [service sync] computes from its flags, lines 64-82. *)
Definition serviceSyncPort (u : ParsedURL) : Z :=
  if (pu_Port u =? 0)%Z then (if streq (pu_Scheme u) "https" then 443 else 80)
  else pu_Port u.

Definition serviceSyncPath (fl : ServiceSyncFlags) (u : ParsedURL) : string :=
  if sneq (ss_path fl) ""
  then (if hasSlashPrefix (ss_path fl) then ss_path fl else "/" +:+ ss_path fl)
  else pu_EscapedPath u.

Definition serviceSyncUpstream (fl : ServiceSyncFlags) : string :=
  if streq (ss_upstream fl) "" then ss_name fl +:+ "-upstream" else ss_upstream fl.

Definition serviceSyncTarget (u : ParsedURL) : string :=
  pu_Hostname u +:+ ":" +:+ itoa (serviceSyncPort u).

(** The service that [CreateOrUpdateService] posts. *)
Definition urlPayload (name url : string) : Service :=
  mkService "" name url "" "" 0 "" 0 0 0 0.

(** [service sync] of a service given by URL, with [--diff], and with
    [--auto-upstream]; [target add] with the default weight. *)
Definition demoServiceSync : ServiceSyncFlags :=
  mkServiceSyncFlags "svcX" "http://backend" (Some (mkParsedURL "http" "backend" 0 ""))
    "" false true false "" 0 localhost.

Definition demoAutoSync : ServiceSyncFlags :=
  mkServiceSyncFlags "user" "http://user-svc:8080"
    (Some (mkParsedURL "http" "user-svc" 8080 "")) "" false false true "" 0 localhost.

Definition demoTargetAdd : TargetAddFlags := mkTargetAddFlags "up" "a:80" 0 localhost.

(** The weight [target add] sends: [if tgtWeight == 0 { tgtWeight = 100 }]. *)
Definition targetAddWeight (fl : TargetAddFlags) : Z :=
  if (ta_weight fl =? 0)%Z then 100 else ta_weight fl.

(** ** package cli: [init]

    The command reads its three flags, two environment variables
    ([os.Getenv], empty when unset), the home directory, and asks
    [probeAdminURL] about candidate addresses; it writes
    [~/.kongctl/config.yaml].  [ih_probe u] is the answer of
    [probeAdminURL(ctx, u, flagToken)] when the command asks about [u];
    [ih_writable] says that [os.WriteFile] returns no error. *)

Record InitFlags := mkInitFlags {
  in_adminURL : string;
  in_token : string;
  in_workspace : string
}.

Record InitHost := mkInitHost {
  ih_KONGCTL_ADMIN_URL : string;
  ih_KONG_ADMIN_URL : string;
  ih_probe : string -> bool;
  ih_home : option string;
  ih_writable : bool
}.

(** The file [config.yaml] in the directory [.kongctl] of [cf_home], with
    the lines [admin_url: ...], [token: ...] and [workspace: ...]. *)
Record ConfigFile := mkConfigFile {
  cf_home : string;
  cf_admin_url : string;
  cf_token : string;
  cf_workspace : string
}.

Inductive InitError :=
| ErrUnreachable (disp : string)     (* the address of --admin-url does not answer *)
| ErrNotDetected                     (* no address answers and none was given *)
| ErrHomeDir                         (* os.UserHomeDir failed *)
| ErrWriteFile.                      (* os.WriteFile failed *)

Inductive InitLine :=
| SayFallback (detected : string)    (* PrintWarn: the given address does not answer *)
| SayVerified (detected : string)    (* PrintInfo *)
| SayDetected (detected : string)    (* PrintInfo *)
| SayWritten (home : string).        (* PrintSuccess, with the path of the file *)

Record InitRan := mkInitRan {
  ir_out : list InitLine;
  ir_config : option ConfigFile;
  ir_err : option InitError
}.

(** The closure [add], line 40. *)
Definition addCandidate (candidates : list string) (u : string) : list string :=
  if streq u "" then candidates
  else if existsb (λ x, streq x u) candidates then candidates
  else candidates ++ [u].

Definition commonAdminURLs : list string :=
  ["http://localhost:8001"; "https://localhost:8444"; "http://127.0.0.1:8001";
   "http://host.docker.internal:8001"; "http://kong:8001"].

(** Lines 41-49. *)
Definition initCandidates (fl : InitFlags) (h : InitHost) : list string :=
  foldl addCandidate []
    ([in_adminURL fl; ih_KONGCTL_ADMIN_URL h; ih_KONG_ADMIN_URL h] ++ commonAdminURLs).

(** Lines 52-63: [detected] after the loop, empty when no candidate
    answers. *)
Fixpoint detectFrom (probe : string -> bool) (candidates : list string) : string :=
  match candidates with
  | [] => ""
  | u :: rest =>
      if streq u "" then detectFrom probe rest
      else if probe u then u
      else detectFrom probe rest
  end.

(** [strings.HasPrefix(s, "http://") || strings.HasPrefix(s, "https://")] *)
Definition hasScheme (s : string) : bool :=
  String.prefix "http://" s || String.prefix "https://" s.

(** init.go, lines 38-96. *)
Definition initCmd (fl : InitFlags) (h : InitHost) : InitRan :=
  let candidates := initCandidates fl h in
  let provided := in_adminURL fl in
  let detected := detectFrom (ih_probe h) candidates in
  if streq detected "" then
    if sneq provided "" then
      let disp := if negb (hasScheme provided) then "http://" +:+ provided else provided in
      mkInitRan [] None (Some (ErrUnreachable disp))
    else mkInitRan [] None (Some ErrNotDetected)
  else
    let out :=
      if sneq (in_adminURL fl) "" && sneq detected (in_adminURL fl)
      then [SayFallback detected]
      else if sneq (in_adminURL fl) "" then [SayVerified detected]
      else [SayDetected detected] in
    match ih_home h with
    | None => mkInitRan out None (Some ErrHomeDir)
    | Some home =>
        if ih_writable h
        then mkInitRan (out ++ [SayWritten home])
               (Some (mkConfigFile home detected (in_token fl) (in_workspace fl))) None
        else mkInitRan out None (Some ErrWriteFile)
    end.

(** ** The shapes of a document, in the words of the specification

    Stated on the decoded content and its fields, not through the tests
    of [normalize]: a full document decodes as a document and has an
    upstream, a service or a route; a route list decodes as a list that is
    not empty; a single route decodes as a route that has one of the
    fields name, paths, hosts, methods, service or backend (any field of
    the backend counts). *)

Definition carriesResources (spec : applySpec) : Prop :=
  Upstreams spec <> [] \/ Services spec <> [] \/ Routes spec <> [].

Definition hasRouteField (r : applyRoute) : Prop :=
  ar_Name r <> "" \/ ar_Paths r <> [] \/ ar_Hosts r <> [] \/ ar_Methods r <> []
  \/ ar_Service r <> ""
  \/ rb_Targets (ar_Backend r) <> [] \/ rb_Protocol (ar_Backend r) <> ""
  \/ rb_Port (ar_Backend r) <> 0 \/ rb_Path (ar_Backend r) <> "".

Definition isFullDocument (c : Content) : Prop :=
  dec_err (asSpec c) = false /\ carriesResources (dec_value (asSpec c)).

Definition isRouteList (c : Content) : Prop :=
  dec_err (asRoutes c) = false /\ dec_value (asRoutes c) <> [].

Definition isSingleRoute (c : Content) : Prop :=
  dec_err (asRoute c) = false /\ hasRouteField (dec_value (asRoute c)).

(** A mapping whose only key is [strip_path]: it is a route of no shape. *)
Definition onlyStripPath : applyRoute :=
  mkApplyRoute "" "" [] [] [] (Some false) "" [] None 0 0 None None ∅ [] [] "" ""
    zeroBackend.

(** A mapping whose only key is [backend.port]. *)
Definition onlyBackendPort : applyRoute :=
  mkApplyRoute "" "" [] [] [] None "" [] None 0 0 None None ∅ [] [] "" ""
    (mkRouteBackend "" 8080 "" []).

(** * Properties *)

(** ** Normalisation *)

Lemma normalize_full (c : Content) :
  fullDocument c = true -> normalize c = Ok (dec_value (asSpec c)).
Proof.
  unfold fullDocument, normalize. intros Hf.
  apply andb_prop in Hf as [He Hn].
  apply negb_true_iff in He, Hn. now rewrite He, Hn.
Qed.

Lemma normalize_not_full (c : Content) :
  fullDocument c = false ->
  normalize c =
    if routeList c then Ok (withRoutes (dec_value (asSpec c)) (dec_value (asRoutes c)))
    else if singleRoute c
         then Ok (withRoutes (dec_value (asSpec c)) [dec_value (asRoute c)])
         else if dec_err (asSpec c) then Err ErrParse else Err ErrEmpty.
Proof.
  unfold fullDocument, normalize, routeList, singleRoute. intros Hf.
  destruct (dec_err (asSpec c)); simpl in *; [reflexivity|].
  apply negb_false_iff in Hf. now rewrite Hf.
Qed.

(** The cases of [normalize], by the tests it makes. *)
Lemma normalize_cases (c : Content) :
  (fullDocument c = true -> normalize c = Ok (dec_value (asSpec c)))
  /\ (fullDocument c = false -> routeList c = true ->
      normalize c = Ok (withRoutes (dec_value (asSpec c)) (dec_value (asRoutes c))))
  /\ (fullDocument c = false -> routeList c = false -> singleRoute c = true ->
      normalize c = Ok (withRoutes (dec_value (asSpec c)) [dec_value (asRoute c)]))
  /\ ((exists e, normalize c = Err e)
      <-> fullDocument c = false /\ routeList c = false /\ singleRoute c = false)
  /\ (forall e, normalize c = Err e -> classOf e = ParseError)
  /\ (forall d, normalize c = Ok d -> noResources d = false).
Proof.
  split; [|split; [|split; [|split; [split|split]]]].
  - apply normalize_full.
  - intros Hf Hl. rewrite normalize_not_full by assumption. now rewrite Hl.
  - intros Hf Hl Ho. rewrite normalize_not_full by assumption. now rewrite Hl, Ho.
  - intros [e He]. destruct (fullDocument c) eqn:Hf.
    + rewrite normalize_full in He by assumption. discriminate.
    + rewrite normalize_not_full in He by assumption.
      destruct (routeList c); [discriminate|].
      destruct (singleRoute c); [discriminate | auto].
  - intros (Hf & Hl & Ho). rewrite normalize_not_full by assumption.
    rewrite Hl, Ho. destruct (dec_err (asSpec c)); eauto.
  - intros e He. destruct (fullDocument c) eqn:Hf.
    + rewrite normalize_full in He by assumption. discriminate.
    + rewrite normalize_not_full in He by assumption.
      destruct (routeList c); [discriminate|].
      destruct (singleRoute c); [discriminate|].
      destruct (dec_err (asSpec c)); inversion He; reflexivity.
  - intros d Hd. destruct (fullDocument c) eqn:Hf.
    + rewrite normalize_full in Hd by assumption. inversion Hd; subst.
      unfold fullDocument in Hf. apply andb_prop in Hf as [_ Hf].
      now apply negb_true_iff in Hf.
    + rewrite normalize_not_full in Hd by assumption.
      destruct (routeList c) eqn:Hl.
      * inversion Hd; subst. unfold routeList in Hl.
        apply andb_prop in Hl as [_ Hl]. unfold noResources, withRoutes; simpl.
        unfold nonEmpty in Hl. apply Nat.ltb_lt in Hl.
        destruct (dec_value (asRoutes c)); simpl in *; [lia|].
        now rewrite !andb_false_r.
      * destruct (singleRoute c); [|destruct (dec_err (asSpec c)); discriminate].
        inversion Hd; subst. unfold noResources, withRoutes; simpl.
        now rewrite !andb_false_r.
Qed.

(** ** [sliceSetEqual] *)

Lemma streq_true (a b : string) : streq a b = true <-> a = b.
Proof. unfold streq. apply bool_decide_eq_true. Qed.

Lemma streq_false (a b : string) : streq a b = false <-> a <> b.
Proof. unfold streq. apply bool_decide_eq_false. Qed.

Lemma streq_refl (a : string) : streq a a = true.
Proof. now apply streq_true. Qed.

Lemma occ_nonneg (x : string) (l : list string) : 0 <= occ x l.
Proof. induction l as [|y r IH]; simpl; [lia|]. destruct (streq y x); lia. Qed.

Lemma occ_count_occ (x : string) (l : list string) :
  occ x l = Z.of_nat (count_occ String.string_dec l x).
Proof.
  induction l as [|y r IH]; simpl; [reflexivity|].
  destruct (String.string_dec y x) as [->|Hne].
  - rewrite streq_refl. lia.
  - apply streq_false in Hne. rewrite Hne. lia.
Qed.

Lemma occ_Permutation (a b : list string) :
  (forall x, occ x a = occ x b) <-> Permutation a b.
Proof.
  rewrite (Permutation_count_occ String.string_dec). split; intros Hc x.
  - specialize (Hc x). rewrite !occ_count_occ in Hc. lia.
  - rewrite !occ_count_occ. now rewrite Hc.
Qed.

Lemma readCount_insert (m : gmap string Z) (x y : string) (v : Z) :
  readCount (<[x:=v]> m) y = if streq x y then v else readCount m y.
Proof.
  unfold readCount. destruct (streq x y) eqn:E.
  - apply streq_true in E as ->. now rewrite lookup_insert_eq.
  - apply streq_false in E. now rewrite lookup_insert_ne.
Qed.

Lemma countAll_from (a : list string) (m : gmap string Z) (x : string) :
  readCount (foldl (λ m x, <[x := readCount m x + 1]> m) m a) x
  = readCount m x + occ x a.
Proof.
  revert m. induction a as [|y r IH]; intros m; simpl; [lia|].
  rewrite IH, readCount_insert. destruct (streq y x) eqn:E; [|lia].
  apply streq_true in E as ->. lia.
Qed.

Lemma countAll_read (a : list string) (x : string) :
  readCount (countAll a) x = occ x a.
Proof. unfold countAll. rewrite countAll_from. reflexivity. Qed.

Lemma uncount_Some (b : list string) (m m' : gmap string Z) :
  uncount b m = Some m' -> forall x, readCount m' x = readCount m x - occ x b.
Proof.
  revert m. induction b as [|y r IH]; intros m; simpl.
  - intros [= <-] x. lia.
  - destruct (readCount m y =? 0) eqn:E; [discriminate|].
    intros Hu x. rewrite (IH _ Hu x), readCount_insert.
    destruct (streq y x) eqn:Ex; [|lia].
    apply streq_true in Ex as ->. lia.
Qed.

Lemma uncount_None (b : list string) (m : gmap string Z) :
  (forall x, 0 <= readCount m x) -> uncount b m = None ->
  exists x, readCount m x < occ x b.
Proof.
  revert m. induction b as [|y r IH]; intros m Hpos; simpl; [discriminate|].
  destruct (readCount m y =? 0) eqn:E.
  - intros _. exists y. apply Z.eqb_eq in E. rewrite E, streq_refl.
    pose proof (occ_nonneg y r). lia.
  - apply Z.eqb_neq in E. intros Hu.
    destruct (IH (<[y := readCount m y - 1]> m)) as [x Hx]; [|assumption|].
    + intros x. rewrite readCount_insert. pose proof (Hpos x). pose proof (Hpos y).
      destruct (streq y x); lia.
    + exists x. rewrite readCount_insert in Hx.
      destruct (streq y x) eqn:Ex; [|lia].
      apply streq_true in Ex as ->. lia.
Qed.

(** What [sliceSetEqual] decides: the two slices have the same elements
    with the same multiplicities. *)
Lemma sliceSetEqual_occ (a b : list string) :
  sliceSetEqual a b = true <-> forall x, occ x a = occ x b.
Proof.
  unfold sliceSetEqual. split.
  - destruct (length a =? length b)%nat; simpl; [|discriminate].
    destruct (uncount b (countAll a)) as [m|] eqn:Hu; [|discriminate].
    intros Hz%bool_decide_eq_true x.
    pose proof (uncount_Some _ _ _ Hu x) as Hx. rewrite countAll_read in Hx.
    unfold readCount in Hx at 1. destruct (m !! x) as [v|] eqn:Hv; simpl in Hx.
    + specialize (Hz x v Hv). simpl in Hz. lia.
    + lia.
  - intros Hocc.
    assert (Hlen : length a = length b)
      by (apply Permutation_length, occ_Permutation, Hocc).
    rewrite Hlen, Nat.eqb_refl. simpl.
    destruct (uncount b (countAll a)) as [m|] eqn:Hu.
    + apply bool_decide_eq_true. intros x v Hv. simpl.
      pose proof (uncount_Some _ _ _ Hu x) as Hx. rewrite countAll_read in Hx.
      unfold readCount in Hx at 1. rewrite Hv in Hx. simpl in Hx.
      rewrite Hocc in Hx. lia.
    + apply uncount_None in Hu as [x Hx].
      * rewrite countAll_read, Hocc in Hx. lia.
      * intros x. rewrite countAll_read. apply occ_nonneg.
Qed.

Lemma sliceSetEqual_Permutation (a b : list string) :
  sliceSetEqual a b = true <-> Permutation a b.
Proof. rewrite sliceSetEqual_occ. apply occ_Permutation. Qed.


(** C5.  [sliceSetEqual] is independent of the order of the elements but
    not of their multiplicity: a desired host list that repeats a host
    differs from the remote list that has it once, so the route is planned
    as an update although the two lists are the same set and [diffSlice],
    which does compare sets, finds nothing to report.  Methods are
    upper-cased first: desired [get, post] against remote [GET] reports
    the addition of POST. *)
Theorem C5_duplicates_count :
  sliceSetEqual ["a.com"; "a.com"] ["a.com"] = false
  /\ (list_to_set ["a.com"; "a.com"] : gset string) = list_to_set ["a.com"]
  /\ routeVerdict onceRemote twiceRoute "r" = mkChange "Route" "r" "update" [Same "hosts"]
  /\ sliceSetEqual ["b.com"; "a.com"] ["a.com"; "b.com"] = true
  /\ diffSlice "methods" ["GET"] (toUpper ["get"; "post"]) = [Head "methods"; Plus "POST"].
Proof.
  split; [reflexivity|]. split; [set_solver|].
  split; [vm_compute; reflexivity|]. split; reflexivity.
Qed.

(** ** Scalar fields the document leaves unset *)

Ltac unset_service H :=
  unfold serviceVerdict, planServiceViaUpstream, planServiceURL, extrasChanged,
    reconstructURL, withRetries, withConnectTimeout, withReadTimeout, withWriteTimeout;
  cbn [svc_ID svc_Name svc_URL svc_Protocol svc_Host svc_Port svc_Path svc_Retries
       svc_ConnectTimeout svc_ReadTimeout svc_WriteTimeout];
  rewrite (proj2 (Z.ltb_ge _ _) H); cbn [andb orb];
  repeat split; reflexivity.

Lemma unset_retries (cur : Service) (s : applyService) (v : Z) :
  as_Retries s <= 0 ->
  serviceVerdict (withRetries v cur) s = serviceVerdict cur s
  /\ planServiceURL (Some (withRetries v cur)) s = planServiceURL (Some cur) s
  /\ extrasChanged (withRetries v cur) s = extrasChanged cur s.
Proof. intros H. unset_service H. Qed.

Lemma unset_connect_timeout (cur : Service) (s : applyService) (v : Z) :
  as_ConnectTimeout s <= 0 ->
  serviceVerdict (withConnectTimeout v cur) s = serviceVerdict cur s
  /\ planServiceURL (Some (withConnectTimeout v cur)) s = planServiceURL (Some cur) s
  /\ extrasChanged (withConnectTimeout v cur) s = extrasChanged cur s.
Proof. intros H. unset_service H. Qed.

Lemma unset_read_timeout (cur : Service) (s : applyService) (v : Z) :
  as_ReadTimeout s <= 0 ->
  serviceVerdict (withReadTimeout v cur) s = serviceVerdict cur s
  /\ planServiceURL (Some (withReadTimeout v cur)) s = planServiceURL (Some cur) s
  /\ extrasChanged (withReadTimeout v cur) s = extrasChanged cur s.
Proof. intros H. unset_service H. Qed.

Lemma unset_write_timeout (cur : Service) (s : applyService) (v : Z) :
  as_WriteTimeout s <= 0 ->
  serviceVerdict (withWriteTimeout v cur) s = serviceVerdict cur s
  /\ planServiceURL (Some (withWriteTimeout v cur)) s = planServiceURL (Some cur) s
  /\ extrasChanged (withWriteTimeout v cur) s = extrasChanged cur s.
Proof. intros H. unset_service H. Qed.

Ltac unset_route :=
  unfold routeVerdict, planRoute, routeChecks, routeChanged, desiredRoute,
    withPathHandling, withPreserveHost, withRegexPriority, withHTTPSRedirect,
    withRequestBuffering, withResponseBuffering;
  cbn [rt_ID rt_Name rt_Hosts rt_Paths rt_Methods rt_Protocols rt_PreserveHost
       rt_RegexPriority rt_HTTPSRedirectStatusCode rt_RequestBuffering
       rt_ResponseBuffering rt_Headers rt_Snis rt_Tags rt_PathHandling rt_StripPath
       rt_Service].

Lemma unset_path_handling (cur : Route) (r : applyRoute) (name v : string) :
  ar_PathHandling r = "" ->
  routeVerdict (withPathHandling v cur) r name = routeVerdict cur r name
  /\ routeChanged (withPathHandling v cur) r (desiredRoute name (pathHandlingOf r) r)
     = routeChanged cur r (desiredRoute name (pathHandlingOf r) r).
Proof.
  intros H. unset_route. unfold pathHandlingOf. rewrite H.
  change (ToLower (TrimSpace "")) with "".
  change (ToLower "") with "". change (sneq "" "") with false.
  cbn [andb orb existsb flat_map fst snd app]. split; reflexivity.
Qed.

Lemma unset_preserve_host (cur : Route) (r : applyRoute) (name : string) (v : option bool) :
  ar_PreserveHost r = None ->
  routeVerdict (withPreserveHost v cur) r name = routeVerdict cur r name
  /\ routeChanged (withPreserveHost v cur) r (desiredRoute name (pathHandlingOf r) r)
     = routeChanged cur r (desiredRoute name (pathHandlingOf r) r).
Proof.
  intros H. unset_route. rewrite H.
  cbn [isSet andb orb existsb flat_map fst snd app]. split; reflexivity.
Qed.

Lemma unset_regex_priority (cur : Route) (r : applyRoute) (name : string) (v : Z) :
  ar_RegexPriority r = 0 ->
  routeVerdict (withRegexPriority v cur) r name = routeVerdict cur r name
  /\ routeChanged (withRegexPriority v cur) r (desiredRoute name (pathHandlingOf r) r)
     = routeChanged cur r (desiredRoute name (pathHandlingOf r) r).
Proof.
  intros H. unset_route. rewrite H. change (zneq 0 0) with false.
  cbn [andb orb existsb flat_map fst snd app]. split; reflexivity.
Qed.

Lemma unset_https_redirect (cur : Route) (r : applyRoute) (name : string) (v : Z) :
  ar_HTTPSRedirectStatusCode r = 0 ->
  routeVerdict (withHTTPSRedirect v cur) r name = routeVerdict cur r name
  /\ routeChanged (withHTTPSRedirect v cur) r (desiredRoute name (pathHandlingOf r) r)
     = routeChanged cur r (desiredRoute name (pathHandlingOf r) r).
Proof.
  intros H. unset_route. rewrite H. change (zneq 0 0) with false.
  cbn [andb orb existsb flat_map fst snd app]. split; reflexivity.
Qed.

Lemma unset_request_buffering (cur : Route) (r : applyRoute) (name : string)
    (v : option bool) :
  ar_RequestBuffering r = None ->
  routeVerdict (withRequestBuffering v cur) r name = routeVerdict cur r name
  /\ routeChanged (withRequestBuffering v cur) r (desiredRoute name (pathHandlingOf r) r)
     = routeChanged cur r (desiredRoute name (pathHandlingOf r) r).
Proof.
  intros H. unset_route. rewrite H.
  cbn [isSet andb orb existsb flat_map fst snd app]. split; reflexivity.
Qed.

Lemma unset_response_buffering (cur : Route) (r : applyRoute) (name : string)
    (v : option bool) :
  ar_ResponseBuffering r = None ->
  routeVerdict (withResponseBuffering v cur) r name = routeVerdict cur r name
  /\ routeChanged (withResponseBuffering v cur) r (desiredRoute name (pathHandlingOf r) r)
     = routeChanged cur r (desiredRoute name (pathHandlingOf r) r).
Proof.
  intros H. unset_route. rewrite H.
  cbn [isSet andb orb existsb flat_map fst snd app]. split; reflexivity.
Qed.

Lemma sneq_true (a b : string) : a <> b -> sneq a b = true.
Proof. intros Hne. unfold sneq. now rewrite (proj2 (streq_false a b) Hne). Qed.

Lemma zneq_true (a b : Z) : a <> b -> zneq a b = true.
Proof. intros Hne. unfold zneq. now rewrite (proj2 (Z.eqb_neq a b) Hne). Qed.

Lemma update_sticks (b : bool) : (if b then "update" else "update") = "update".
Proof. now destruct b. Qed.

Lemma core_difference_updates (cur : Service) (s : applyService) :
  coreChanged cur (as_Upstream s) (protoOf (as_Protocol s))
    (portOf (protoOf (as_Protocol s)) (as_Port s)) (as_Path s) = true ->
  Action (serviceVerdict cur s) = "update".
Proof.
  unfold coreChanged, serviceVerdict, planServiceViaUpstream. intros ->.
  cbn [Action]. now rewrite !update_sticks.
Qed.

Lemma default_protocol (cur : Service) (s : applyService) :
  as_Protocol s = "" -> svc_Protocol cur <> "http" ->
  Action (serviceVerdict cur s) = "update".
Proof.
  intros Hs Hc. apply core_difference_updates. unfold coreChanged.
  rewrite Hs. change (protoOf "") with "http". rewrite (sneq_true _ _ Hc).
  now rewrite orb_true_r.
Qed.

Lemma default_port (cur : Service) (s : applyService) :
  as_Port s = 0 ->
  svc_Port cur <> (if streq (protoOf (as_Protocol s)) "https" then 443 else 80) ->
  Action (serviceVerdict cur s) = "update".
Proof.
  intros Hs Hc. apply core_difference_updates. unfold coreChanged, portOf.
  rewrite Hs. change (0 =? 0) with true. cbn iota. rewrite (zneq_true _ _ Hc).
  now rewrite orb_true_r.
Qed.

Lemma empty_path_compared (cur : Service) (s : applyService) :
  as_Path s = "" -> svc_Path cur <> "" ->
  Action (serviceVerdict cur s) = "update".
Proof.
  intros Hs Hc. apply core_difference_updates. unfold coreChanged.
  rewrite Hs, (sneq_true _ _ Hc). now rewrite orb_true_r.
Qed.

Lemma default_strip_path (cur : Route) (r : applyRoute) (name : string) :
  ar_StripPath r = None -> deref (rt_StripPath cur) = false ->
  rt_StripPath (desiredRoute name (pathHandlingOf r) r) = Some true
  /\ Action (routeVerdict cur r name) = "update"
  /\ routeChanged cur r (desiredRoute name (pathHandlingOf r) r) = true.
Proof.
  intros Hr Hc. split; [|split].
  - unfold desiredRoute. cbn [rt_StripPath]. now rewrite Hr.
  - unfold routeVerdict, planRoute. cbn [Action].
    match goal with |- (if ?b then _ else _) = _ => assert (Hb : b = true) end.
    { apply existsb_exists.
      exists (true, [Scalar "strip_path" (VBool false) (VBool true)]).
      split; [|reflexivity]. unfold routeChecks, desiredRoute.
      cbn [rt_StripPath]. rewrite Hr, Hc. do 13 right. left. reflexivity. }
    now rewrite Hb.
  - unfold routeChanged, desiredRoute. cbn [rt_StripPath]. rewrite Hr, Hc.
    change (negb (beq false (deref (Some true)))) with true.
    now rewrite orb_true_r.
Qed.

(** C3, as the code has it.  When the document leaves retries, a timeout,
    path_handling, preserve_host, regex_priority, https_redirect_status_code
    or a buffering flag unset, the remote value of that field changes
    neither the action nor the diff of the resource.  Protocol, port and
    path of a service bound to an upstream and strip_path of a route are
    compared all the same: protocol and port after they received their
    defaults (http, 80 or 443), the path as the empty path, strip_path as
    true. *)
Theorem C3_unset_scalars :
  (forall cur s v, as_Retries s <= 0 ->
     serviceVerdict (withRetries v cur) s = serviceVerdict cur s
     /\ planServiceURL (Some (withRetries v cur)) s = planServiceURL (Some cur) s
     /\ extrasChanged (withRetries v cur) s = extrasChanged cur s)
  /\ (forall cur s v, as_ConnectTimeout s <= 0 ->
     serviceVerdict (withConnectTimeout v cur) s = serviceVerdict cur s
     /\ planServiceURL (Some (withConnectTimeout v cur)) s = planServiceURL (Some cur) s
     /\ extrasChanged (withConnectTimeout v cur) s = extrasChanged cur s)
  /\ (forall cur s v, as_ReadTimeout s <= 0 ->
     serviceVerdict (withReadTimeout v cur) s = serviceVerdict cur s
     /\ planServiceURL (Some (withReadTimeout v cur)) s = planServiceURL (Some cur) s
     /\ extrasChanged (withReadTimeout v cur) s = extrasChanged cur s)
  /\ (forall cur s v, as_WriteTimeout s <= 0 ->
     serviceVerdict (withWriteTimeout v cur) s = serviceVerdict cur s
     /\ planServiceURL (Some (withWriteTimeout v cur)) s = planServiceURL (Some cur) s
     /\ extrasChanged (withWriteTimeout v cur) s = extrasChanged cur s)
  /\ (forall cur r name v, ar_PathHandling r = "" ->
     routeVerdict (withPathHandling v cur) r name = routeVerdict cur r name
     /\ routeChanged (withPathHandling v cur) r (desiredRoute name (pathHandlingOf r) r)
        = routeChanged cur r (desiredRoute name (pathHandlingOf r) r))
  /\ (forall cur r name v, ar_PreserveHost r = None ->
     routeVerdict (withPreserveHost v cur) r name = routeVerdict cur r name
     /\ routeChanged (withPreserveHost v cur) r (desiredRoute name (pathHandlingOf r) r)
        = routeChanged cur r (desiredRoute name (pathHandlingOf r) r))
  /\ (forall cur r name v, ar_RegexPriority r = 0 ->
     routeVerdict (withRegexPriority v cur) r name = routeVerdict cur r name
     /\ routeChanged (withRegexPriority v cur) r (desiredRoute name (pathHandlingOf r) r)
        = routeChanged cur r (desiredRoute name (pathHandlingOf r) r))
  /\ (forall cur r name v, ar_HTTPSRedirectStatusCode r = 0 ->
     routeVerdict (withHTTPSRedirect v cur) r name = routeVerdict cur r name
     /\ routeChanged (withHTTPSRedirect v cur) r (desiredRoute name (pathHandlingOf r) r)
        = routeChanged cur r (desiredRoute name (pathHandlingOf r) r))
  /\ (forall cur r name v, ar_RequestBuffering r = None ->
     routeVerdict (withRequestBuffering v cur) r name = routeVerdict cur r name
     /\ routeChanged (withRequestBuffering v cur) r (desiredRoute name (pathHandlingOf r) r)
        = routeChanged cur r (desiredRoute name (pathHandlingOf r) r))
  /\ (forall cur r name v, ar_ResponseBuffering r = None ->
     routeVerdict (withResponseBuffering v cur) r name = routeVerdict cur r name
     /\ routeChanged (withResponseBuffering v cur) r (desiredRoute name (pathHandlingOf r) r)
        = routeChanged cur r (desiredRoute name (pathHandlingOf r) r))
  /\ (forall cur s, as_Protocol s = "" -> svc_Protocol cur <> "http" ->
     Action (serviceVerdict cur s) = "update")
  /\ (forall cur s, as_Port s = 0 ->
     svc_Port cur <> (if streq (protoOf (as_Protocol s)) "https" then 443 else 80) ->
     Action (serviceVerdict cur s) = "update")
  /\ (forall cur s, as_Path s = "" -> svc_Path cur <> "" ->
     Action (serviceVerdict cur s) = "update")
  /\ (forall cur r name, ar_StripPath r = None -> deref (rt_StripPath cur) = false ->
     Action (routeVerdict cur r name) = "update").
Proof.
  repeat match goal with |- _ /\ _ => split end.
  - intros; now apply unset_retries.
  - intros; now apply unset_connect_timeout.
  - intros; now apply unset_read_timeout.
  - intros; now apply unset_write_timeout.
  - intros; now apply unset_path_handling.
  - intros; now apply unset_preserve_host.
  - intros; now apply unset_regex_priority.
  - intros; now apply unset_https_redirect.
  - intros; now apply unset_request_buffering.
  - intros; now apply unset_response_buffering.
  - intros; now apply default_protocol.
  - intros; now apply default_port.
  - intros; now apply empty_path_compared.
  - intros cur r name Hr Hc. now apply (default_strip_path cur r name Hr Hc).
Qed.

Lemma C3_witness :
  as_Retries bareService <= 0
  /\ serviceVerdict (withRetries 9 remoteHttp) bareService
     = serviceVerdict remoteHttp bareService.
Proof.
  split; [vm_compute; discriminate|].
  apply (proj1 C3_unset_scalars remoteHttp bareService 9). vm_compute; discriminate.
Defined.

(** The document leaves the protocol unset, and the remote protocol alone
    decides between no change and an update. *)
Lemma C3_counterexample :
  as_Protocol bareService = ""
  /\ serviceVerdict remoteHttp bareService = mkChange "Service" "svc" "none" []
  /\ serviceVerdict remoteHttps bareService
     = mkChange "Service" "svc" "update" [Scalar "protocol" (VStr "https") (VStr "http")].
Proof. repeat split. Qed.

(** ** Rules for what a computation adds to the log *)

Section EmitsRules.
Context {W : Type} `{Admin W}.

Lemma emits_weaken {A} (Φ Ψ : list Event -> Res A -> Prop) (c : M W A) :
  (forall n r, Φ n r -> Ψ n r) -> emits Φ c -> emits Ψ c.
Proof. intros HΦ Hc e. destruct (Hc e) as (n & Ht & Hn). eauto. Qed.

Lemma emits_ret {A} (Φ : list Event -> Res A -> Prop) (a : A) :
  Φ [] (Ok a) -> emits Φ (ret (W:=W) a).
Proof. intros HΦ e. exists []. simpl. now rewrite app_nil_r. Qed.

Lemma emits_fail {A} (Φ : list Event -> Res A -> Prop) (x : Error) :
  Φ [] (Err x) -> emits Φ (fail (W:=W) x).
Proof. intros HΦ e. exists []. simpl. now rewrite app_nil_r. Qed.

Lemma emits_bind {A B} (Φ1 : list Event -> Res A -> Prop)
    (Φ2 : A -> list Event -> Res B -> Prop) (Φ : list Event -> Res B -> Prop)
    (c : M W A) (k : A -> M W B) :
  emits Φ1 c -> (forall a, emits (Φ2 a) (k a)) ->
  (forall n1 a n2 r, Φ1 n1 (Ok a) -> Φ2 a n2 r -> Φ (n1 ++ n2) r) ->
  (forall n1 x, Φ1 n1 (Err x) -> Φ n1 (Err x)) ->
  emits Φ (bind c k).
Proof.
  intros Hc Hk Hok Herr e. unfold bind.
  destruct (Hc e) as (n1 & Ht1 & Hn1). destruct (c e) as [e1 [a|x]]; simpl in *.
  - destruct (Hk a e1) as (n2 & Ht2 & Hn2). exists (n1 ++ n2). split.
    + now rewrite Ht2, Ht1, app_assoc.
    + eauto.
  - exists n1. eauto.
Qed.

Lemma emits_request {A B} (c : Call) (send : W -> Reply A * W)
    (decode : Reply A -> Res B) (read : Res B -> Outcome) :
  emits (λ new r, new = [mkEvent c (read r)]) (request c send decode read).
Proof.
  intros e. unfold request. destruct (send (world e)) as [r w]. simpl. eauto.
Qed.

Lemma emits_attempt {A} (Φ : list Event -> Res A -> Prop) (c : M W A) :
  emits Φ c -> emits (λ new r, exists r', r = Ok r' /\ Φ new r') (attempt c).
Proof.
  intros Hc e. unfold attempt. destruct (Hc e) as (n & Ht & Hn).
  destruct (c e) as [e1 r]. simpl in *. eauto.
Qed.

Lemma emits_print (l : Level) (f : Format) (args : list Val) :
  emits (λ new r, new = [] /\ r = Ok tt) (print (W:=W) l f args).
Proof. intros e. exists []. simpl. now rewrite app_nil_r. Qed.

Lemma emits_planAppend (ch : Change) :
  emits (λ new r, new = [] /\ r = Ok tt) (planAppend (W:=W) ch).
Proof. intros e. exists []. simpl. now rewrite app_nil_r. Qed.

Lemma emits_recordAuto (i : autoRouteInfo) :
  emits (λ new r, new = [] /\ r = Ok tt) (recordAuto (W:=W) i).
Proof. intros e. exists []. simpl. now rewrite app_nil_r. Qed.

Lemma emits_printHierPlan (spec : applySpec) (d : bool) :
  emits (λ new r, new = [] /\ r = Ok tt) (printHierPlan (W:=W) spec d).
Proof. intros e. exists []. simpl. now rewrite app_nil_r. Qed.

(** *** Properties that pass through sequencing *)

Section Seq.
Context (P : list Event -> option Error -> Prop) `{!Sequential P}.

Lemma seq_ret {A} (a : A) : emits (lift P) (ret (W:=W) a).
Proof. apply emits_ret. unfold lift. apply seq_nil. Qed.

Lemma seq_fail {A} (x : Error) : P [] (Some x) -> emits (lift (A:=A) P) (fail (W:=W) x).
Proof. intros Hx. apply emits_fail. exact Hx. Qed.

Lemma seq_bind {A B} (c : M W A) (k : A -> M W B) :
  emits (lift P) c -> (forall a, emits (lift P) (k a)) -> emits (lift P) (bind c k).
Proof.
  intros Hc Hk. eapply emits_bind; [exact Hc | exact Hk | |].
  - intros n1 a n2 r H1 H2. unfold lift in *. now apply seq_app.
  - intros n1 x H1. exact H1.
Qed.

Lemma seq_silent (c : M W unit) :
  emits (λ new r, new = [] /\ r = Ok tt) c -> emits (lift P) c.
Proof. apply emits_weaken. intros n r [-> ->]. unfold lift. apply seq_nil. Qed.

Lemma seq_when (b : bool) (c : M W unit) :
  emits (lift P) c -> emits (lift P) (when b c).
Proof. intros Hc. destruct b; [exact Hc | apply seq_ret]. Qed.

Lemma seq_ignore {A} (c : M W A) : emits (lift P) c -> emits (lift P) (ignore c).
Proof. intros Hc. apply seq_bind; [exact Hc | intros; apply seq_ret]. Qed.

Lemma seq_forEach {A} (xs : list A) (body : A -> M W unit) :
  (forall x, emits (lift P) (body x)) -> emits (lift P) (forEach xs body).
Proof.
  intros Hb. induction xs as [|x r IH]; simpl; [apply seq_ret|].
  apply seq_bind; [apply Hb | intros _; exact IH].
Qed.

Lemma seq_request {A B} (c : Call) (send : W -> Reply A * W)
    (decode : Reply A -> Res B) (read : Res B -> Outcome) :
  (forall r, P [mkEvent c (read r)] (errorOf r)) ->
  emits (lift P) (request c send decode read).
Proof.
  intros Hp. eapply emits_weaken; [|apply emits_request].
  intros n r ->. apply Hp.
Qed.

End Seq.
End EmitsRules.

(** ** Dry run *)

#[export] Instance looksUpOnly_sequential : Sequential looksUpOnly.
Proof.
  split; unfold looksUpOnly, onlyLookups.
  - constructor.
  - intros n1 n2 _ H1 H2. now apply Forall_app.
Qed.

#[export] Instance dryRunSafe_sequential : Sequential dryRunSafe.
Proof.
  split; unfold dryRunSafe, onlyLookups.
  - split; [constructor | discriminate].
  - intros n1 n2 o [H1 _] [H2 Hx]. split; [now apply Forall_app | exact Hx].
Qed.

Ltac seq_step P :=
  lazymatch goal with
  | |- emits (lift _) (bind _ _) => apply (seq_bind P); [|intros ?]
  | |- emits (lift _) (ret _) => apply (seq_ret P)
  | |- emits (lift _) (fail _) => apply (seq_fail P)
  | |- emits (lift _) (when _ _) => apply (seq_when P)
  | |- emits (lift _) (ignore _) => apply (seq_ignore P)
  | |- emits (lift _) (forEach _ _) => apply (seq_forEach P); intros ?
  | |- emits (lift _) (print _ _ _) => apply (seq_silent P), emits_print
  | |- emits (lift _) (PrintInfo _ _) => apply (seq_silent P), emits_print
  | |- emits (lift _) (PrintWarn _ _) => apply (seq_silent P), emits_print
  | |- emits (lift _) (PrintSuccess _ _) => apply (seq_silent P), emits_print
  | |- emits (lift _) (planAppend _) => apply (seq_silent P), emits_planAppend
  | |- emits (lift _) (recordAuto _) => apply (seq_silent P), emits_recordAuto
  | |- emits (lift _) (printHierPlan _ _) => apply (seq_silent P), emits_printHierPlan
  | |- emits (lift _) (if ?b then _ else _) => destruct b
  | |- emits (lift _) (match ?x with _ => _ end) => destruct x
  | |- emits (lift _) (let _ := _ in _) => cbv zeta
  end.

Lemma normalize_error (c : Content) (x : Error) :
  normalize c = Err x -> classOf x = ParseError.
Proof.
  intros He. destruct (fullDocument c) eqn:Hf.
  - rewrite normalize_full in He by assumption. discriminate.
  - rewrite normalize_not_full in He by assumption.
    destruct (routeList c); [discriminate|].
    destruct (singleRoute c); [discriminate|].
    destruct (dec_err (asSpec c)); inversion He; reflexivity.
Qed.

Section DryRun.
Context {W : Type} `{Admin W}.

Lemma lookup_one (c : Call) (out : Outcome) (o : option Error) :
  isMutating c = false -> looksUpOnly [mkEvent c out] o.
Proof. intros Hc. repeat constructor. exact Hc. Qed.

Lemma GetUpstream_looks_up (name : string) :
  emits (lift looksUpOnly) (GetUpstream (W:=W) name).
Proof. apply (seq_request looksUpOnly). intros r. now apply lookup_one. Qed.

Lemma ListTargets_looks_up (name : string) :
  emits (lift looksUpOnly) (ListTargets (W:=W) name).
Proof. apply (seq_request looksUpOnly). intros r. now apply lookup_one. Qed.

Lemma GetService_looks_up (name : string) :
  emits (lift looksUpOnly) (GetService (W:=W) name).
Proof. apply (seq_request looksUpOnly). intros r. now apply lookup_one. Qed.

Lemma GetRoute_looks_up (name : string) :
  emits (lift looksUpOnly) (GetRoute (W:=W) name).
Proof. apply (seq_request looksUpOnly). intros r. now apply lookup_one. Qed.

(** An error that is looked at and not returned does not stop the run. *)
Lemma attempt_safe {A} (c : M W A) :
  emits (lift looksUpOnly) c -> emits (lift dryRunSafe) (attempt c).
Proof.
  intros Hc. eapply emits_weaken; [|apply emits_attempt, Hc].
  intros n r (r' & -> & Hn). split; [exact Hn | discriminate].
Qed.

Lemma validation_safe (x : Error) :
  classOf x = ValidationError -> dryRunSafe [] (Some x).
Proof. intros Hx. split; [constructor|]. intros y [= <-]. now right. Qed.

Ltac dry_step :=
  first
    [ apply attempt_safe
    | apply GetUpstream_looks_up
    | apply ListTargets_looks_up
    | apply GetService_looks_up
    | apply GetRoute_looks_up
    | apply validation_safe; reflexivity
    | seq_step dryRunSafe ].

Variables (withDiff overwrite : bool) (url : string).
Local Abbreviation fl := (dryFlags withDiff overwrite url).

Lemma dry_ensureUpstream (info : Format) (args : list Val) (name : string) :
  emits (lift dryRunSafe) (ensureUpstream (W:=W) fl info args name).
Proof. unfold ensureUpstream. cbn [dryRun dryFlags negb when]. repeat dry_step. Qed.

Lemma dry_ensureTarget (up : string) (t : applyTarget) :
  emits (lift dryRunSafe) (ensureTarget (W:=W) fl up t).
Proof. unfold ensureTarget. cbn [dryRun dryFlags negb when]. repeat dry_step. Qed.

Lemma dry_upstreamStep (up : applyUpstream) :
  emits (lift dryRunSafe) (upstreamStep (W:=W) fl up).
Proof.
  unfold upstreamStep.
  repeat first [apply dry_ensureUpstream | apply dry_ensureTarget | dry_step].
Qed.

Lemma dry_serviceStep (s : applyService) :
  emits (lift dryRunSafe) (serviceStep (W:=W) fl s).
Proof.
  unfold serviceStep, syncServiceViaUpstream, syncServiceURL.
  cbn [dryRun dryFlags negb when].
  repeat first [apply dry_ensureUpstream | apply dry_ensureTarget | dry_step].
Qed.

Lemma dry_routeStep (r : applyRoute) :
  emits (lift dryRunSafe) (routeStep (W:=W) fl r).
Proof.
  unfold routeStep, shorthand, syncAutoService, syncRoute.
  cbn [dryRun dryFlags negb when].
  repeat first [apply dry_ensureUpstream | apply dry_ensureTarget | dry_step].
Qed.

Lemma dry_reconcile (spec : applySpec) :
  emits (lift dryRunSafe) (reconcile (W:=W) fl spec).
Proof.
  unfold reconcile.
  repeat first [apply dry_upstreamStep | apply dry_serviceStep | apply dry_routeStep
               | dry_step].
Qed.

Lemma dry_RunE (content : Content) :
  emits (lift dryRunSafe) (RunE (W:=W) fl content).
Proof.
  unfold RunE. destruct (normalize content) as [spec|x] eqn:Hn.
  - repeat first [apply dry_reconcile | dry_step].
  - apply (seq_fail dryRunSafe). split; [constructor|].
    intros y [= <-]. left. now apply (normalize_error content).
Qed.

End DryRun.

Lemma dry_run_epilogue {W : Type} `{Admin W} (withDiff overwrite : bool) (url : string)
    (spec : applySpec) (e : Env W) :
  (reconcile (dryFlags withDiff overwrite url) spec e).2 = Ok tt ->
  exists before,
    notices (reconcile (dryFlags withDiff overwrite url) spec e).1
    = before ++ dryRunEpilogue (dryFlags withDiff overwrite url) spec
                  (reconcile (dryFlags withDiff overwrite url) spec e).1.
Proof.
  unfold reconcile, bind.
  destruct (forEach (Upstreams spec) _ e) as [e1 [[]|x]]; [|discriminate].
  destruct (forEach (Services spec) _ e1) as [e2 [[]|x]]; [|discriminate].
  destruct (forEach (Routes spec) _ e2) as [e3 [[]|x]]; [|discriminate].
  intros _. exists (notices e3). unfold dryRunEpilogue.
  destruct overwrite; simpl; now rewrite <- ?app_assoc.
Qed.

(** C6.  Whatever the document and whatever the remote side answers, a
    dry run sends no POST and no PATCH: every request it adds to the log
    is a lookup.  When it succeeds, the plan it assembled is handed to the
    renderer, which is the last thing it does before its closing lines. *)
Theorem C6_dry_run_sends_only_lookups {W : Type} `{Admin W}
    (withDiff overwrite : bool) (url : string) (content : Content) (e : Env W) :
  let fl := dryFlags withDiff overwrite url in
  (exists new, trace (RunE fl content e).1 = trace e ++ new /\ onlyLookups new)
  /\ ((RunE fl content e).2 = Ok tt ->
      exists spec before,
        normalize content = Ok spec
        /\ notices (RunE fl content e).1
           = before ++ dryRunEpilogue fl spec (RunE fl content e).1).
Proof.
  intros fl. split.
  - destruct (dry_RunE withDiff overwrite url content e) as (new & Ht & Hn & _). eauto.
  - unfold RunE. destruct (normalize content) as [spec|x]; [|discriminate].
    destruct (streq (adminURL fl) ""); [discriminate|].
    intros Hok. destruct (dry_run_epilogue withDiff overwrite url spec e Hok) as [b Hb].
    eauto.
Qed.

Lemma C6_witness :
  (RunE (dryFlags true false localhost) (ofSequence [demoRoute]) (initEnv emptyStore)).2
  = Ok tt
  /\ exists spec before,
       normalize (ofSequence [demoRoute]) = Ok spec
       /\ notices (RunE (dryFlags true false localhost) (ofSequence [demoRoute])
                        (initEnv emptyStore)).1
          = before ++ dryRunEpilogue (dryFlags true false localhost) spec
                        (RunE (dryFlags true false localhost) (ofSequence [demoRoute])
                              (initEnv emptyStore)).1.
Proof.
  split; [vm_compute; reflexivity|].
  apply (proj2 (C6_dry_run_sends_only_lookups true false localhost
                  (ofSequence [demoRoute]) (initEnv emptyStore))).
  vm_compute. reflexivity.
Defined.

(** ** Execution: a failed request stops the run *)

#[export] Instance failureIsFinal_sequential : Sequential failureIsFinal.
Proof.
  split; unfold failureIsFinal.
  - intros pre ev post Heq. now destruct pre.
  - intros n1 n2 o H1 H2 pre ev post Heq Hf.
    apply app_eq_app in Heq as [l [[-> Hl]|[-> ->]]].
    + destruct l as [|ev' l'].
      * simpl in Hl. subst n2. now apply (H2 [] ev post).
      * simpl in Hl. injection Hl as <- _.
        destruct (H1 pre ev l' eq_refl Hf) as [_ Hn]. now contradiction Hn.
    + now apply (H2 l ev post).
Qed.

Lemma final_fail (x : Error) : failureIsFinal [] (Some x).
Proof. intros pre ev post Heq. now destruct pre. Qed.

Lemma final_one {B} (c : Call) (read : Res B -> Outcome) (r : Res B) :
  (isFailed (read r) = true -> errorOf r <> None) ->
  failureIsFinal [mkEvent c (read r)] (errorOf r).
Proof.
  intros Hr pre ev post Heq Hf. destruct pre as [|? [|? ?]]; try discriminate.
  injection Heq as <- <-. split; [reflexivity | now apply Hr].
Qed.

Section Execution.
Context {W : Type} `{Admin W}.

Lemma request_final {A B} (c : Call) (send : W -> Reply A * W)
    (decode : Reply A -> Res B) (read : Res B -> Outcome) :
  (forall r, isFailed (read r) = true -> errorOf r <> None) ->
  emits (lift failureIsFinal) (request c send decode read).
Proof. intros Hr. apply (seq_request failureIsFinal). intros r. apply final_one, Hr. Qed.

Lemma readGet_failed {A} (r : Res (option A)) :
  isFailed (readGet r) = true -> errorOf r <> None.
Proof. destruct r as [[a|]|x]; simpl; congruence. Qed.

Lemma readList_failed (r : Res (list Target)) :
  isFailed (readList r) = true -> errorOf r <> None.
Proof. destruct r as [l|x]; simpl; congruence. Qed.

Lemma readJSON_failed {A} (r : Res A) :
  isFailed (readJSON r) = true -> errorOf r <> None.
Proof. destruct r as [a|x]; simpl; congruence. Qed.

Ltac exec_step :=
  first
    [ apply final_fail
    | apply request_final;
      first [apply readGet_failed | apply readList_failed | apply readJSON_failed]
    | seq_step failureIsFinal ].

Ltac exec_unfold :=
  unfold ensureUpstream, ensureTarget, syncServiceViaUpstream, syncServiceURL,
    syncAutoService, syncRoute, CreateOrUpdateUpstream, GetUpstream, EnsureTarget,
    ListTargets, AddTarget, GetService, CreateOrUpdateService,
    CreateOrUpdateServiceViaUpstream, UpdateServiceExtras, GetRoute,
    CreateOrUpdateRoute;
  cbn [dryRun execFlags negb when].

Variables (withDiff overwrite : bool) (url : string).
Local Abbreviation fl := (execFlags withDiff overwrite url).

Lemma exec_ensureUpstream (info : Format) (args : list Val) (name : string) :
  emits (lift failureIsFinal) (ensureUpstream (W:=W) fl info args name).
Proof. exec_unfold. repeat exec_step. Qed.

Lemma exec_ensureTarget (up : string) (t : applyTarget) :
  emits (lift failureIsFinal) (ensureTarget (W:=W) fl up t).
Proof. exec_unfold. repeat exec_step. Qed.

Lemma exec_upstreamStep (up : applyUpstream) :
  emits (lift failureIsFinal) (upstreamStep (W:=W) fl up).
Proof.
  unfold upstreamStep.
  repeat first [apply exec_ensureUpstream | apply exec_ensureTarget | exec_step].
Qed.

Lemma exec_syncServiceViaUpstream (s : applyService) :
  emits (lift failureIsFinal) (syncServiceViaUpstream (W:=W) fl s).
Proof. exec_unfold. repeat exec_step. Qed.

Lemma exec_syncServiceURL (s : applyService) :
  emits (lift failureIsFinal) (syncServiceURL (W:=W) fl s).
Proof. exec_unfold. repeat exec_step. Qed.

Lemma exec_serviceStep (s : applyService) :
  emits (lift failureIsFinal) (serviceStep (W:=W) fl s).
Proof.
  unfold serviceStep.
  repeat first [apply exec_ensureUpstream | apply exec_ensureTarget
               | apply exec_syncServiceViaUpstream | apply exec_syncServiceURL
               | exec_step].
Qed.

Lemma exec_syncAutoService (svc up proto : string) (port : Z) (path : string) :
  emits (lift failureIsFinal) (syncAutoService (W:=W) fl svc up proto port path).
Proof. exec_unfold. repeat exec_step. Qed.

Lemma exec_syncRoute (r : applyRoute) (desired : Route) (name : string) :
  emits (lift failureIsFinal) (syncRoute (W:=W) fl r desired name).
Proof. exec_unfold. repeat exec_step. Qed.

Lemma exec_routeStep (r : applyRoute) :
  emits (lift failureIsFinal) (routeStep (W:=W) fl r).
Proof.
  unfold routeStep, shorthand.
  repeat first [apply exec_ensureUpstream | apply exec_ensureTarget
               | apply exec_syncAutoService | apply exec_syncRoute | exec_step].
Qed.

Lemma exec_RunE (content : Content) :
  emits (lift failureIsFinal) (RunE (W:=W) fl content).
Proof.
  unfold RunE, reconcile.
  repeat first [apply exec_upstreamStep | apply exec_serviceStep | apply exec_routeStep
               | exec_step].
Qed.

End Execution.

(** In a dry run a lookup that fails is planned as a creation. *)
Lemma dry_failed_lookup_plans_create {W : Type} `{Admin W}
    (withDiff overwrite : bool) (url : string) (e : Env W) (x : Error) :
  let fl := dryFlags withDiff overwrite url in
  (forall info args name,
     (GetUpstream name e).2 = Err x ->
     ensureUpstream fl info args name e
     = planAppend (mkChange "Upstream" name "create" []) (GetUpstream name e).1)
  /\ (forall s,
     (GetService (as_Name s) e).2 = Err x ->
     syncServiceViaUpstream fl s e
     = planAppend (mkChange "Service" (as_Name s) "create" []) (GetService (as_Name s) e).1)
  /\ (forall s,
     (GetService (as_Name s) e).2 = Err x ->
     syncServiceURL fl s e
     = planAppend (mkChange "Service" (as_Name s) "create" []) (GetService (as_Name s) e).1)
  /\ (forall svc up proto port path,
     (GetService svc e).2 = Err x ->
     syncAutoService fl svc up proto port path e
     = planAppend (mkChange "Service" svc "create" []) (GetService svc e).1)
  /\ (forall r desired name,
     (GetRoute name e).2 = Err x ->
     syncRoute fl r desired name e
     = planAppend (mkChange "Route" name "create" []) (GetRoute name e).1).
Proof.
  intros fl. repeat match goal with |- _ /\ _ => split end; intros.
  - unfold ensureUpstream, bind, attempt. cbn [dryRun fl dryFlags negb when].
    destruct (GetUpstream name e) as [e1 r]. simpl in *. subst r. reflexivity.
  - unfold syncServiceViaUpstream, bind, attempt. cbn [dryRun fl dryFlags negb when].
    destruct (GetService (as_Name s) e) as [e1 r]. simpl in *. subst r. reflexivity.
  - unfold syncServiceURL, bind, attempt. cbn [dryRun fl dryFlags negb when].
    destruct (GetService (as_Name s) e) as [e1 r]. simpl in *. subst r. reflexivity.
  - unfold syncAutoService, bind, attempt. cbn [dryRun fl dryFlags negb when].
    destruct (GetService svc e) as [e1 r]. simpl in *. subst r. reflexivity.
  - unfold syncRoute, bind, attempt. cbn [dryRun fl dryFlags negb when].
    destruct (GetRoute name e) as [e1 res]. simpl in *. subst res. reflexivity.
Qed.

(** C7, as the code has it.  A lookup by name that is answered 404 finds
    the resource absent and is no error; no response, or a status that is
    neither 404 nor 2xx, is an error of the lookup.  In an executing run
    every request that fails is the last request of the run, and the run
    fails.  In a dry run no answer of the remote side stops the run: it
    fails on the document only, and a lookup that failed, of an upstream,
    of a route or of a service in any of its three forms, is planned as a
    creation. *)
Theorem C7_lookup_failures {W : Type} `{Admin W}
    (withDiff overwrite : bool) (url : string) (content : Content) (e : Env W) :
  (forall name,
     (GetUpstream name e).2 = decodeGet (getUpstream name (world e)).1
     /\ (GetService name e).2 = decodeGet (getService name (world e)).1
     /\ (GetRoute name e).2 = decodeGet (getRoute name (world e)).1)
  /\ (forall A (b : Body A), decodeGet (Http 404 b) = Ok None)
  /\ (forall A (b : Body A) status,
        status <> 404 -> is2xx status = false ->
        decodeGet (Http status b) = Err (ErrHTTP status))
  /\ (forall A, decodeGet (A:=A) NoResponse = Err ErrTransport)
  /\ (forall pre ev post,
        trace (RunE (execFlags withDiff overwrite url) content e).1
        = trace e ++ pre ++ ev :: post ->
        isFailed (ev_outcome ev) = true ->
        post = [] /\ exists x, (RunE (execFlags withDiff overwrite url) content e).2 = Err x)
  /\ (forall x, (RunE (dryFlags withDiff overwrite url) content e).2 = Err x ->
        classOf x = ParseError \/ classOf x = ValidationError)
  /\ (forall x name info args,
        (GetUpstream name e).2 = Err x ->
        ensureUpstream (dryFlags withDiff overwrite url) info args name e
        = planAppend (mkChange "Upstream" name "create" []) (GetUpstream name e).1)
  /\ (forall x r desired name,
        (GetRoute name e).2 = Err x ->
        syncRoute (dryFlags withDiff overwrite url) r desired name e
        = planAppend (mkChange "Route" name "create" []) (GetRoute name e).1)
  /\ (forall x s,
        (GetService (as_Name s) e).2 = Err x ->
        syncServiceViaUpstream (dryFlags withDiff overwrite url) s e
        = planAppend (mkChange "Service" (as_Name s) "create" [])
            (GetService (as_Name s) e).1)
  /\ (forall x s,
        (GetService (as_Name s) e).2 = Err x ->
        syncServiceURL (dryFlags withDiff overwrite url) s e
        = planAppend (mkChange "Service" (as_Name s) "create" [])
            (GetService (as_Name s) e).1)
  /\ (forall x svc up proto port path,
        (GetService svc e).2 = Err x ->
        syncAutoService (dryFlags withDiff overwrite url) svc up proto port path e
        = planAppend (mkChange "Service" svc "create" []) (GetService svc e).1).
Proof.
  repeat match goal with |- _ /\ _ => split end.
  - intros name. unfold GetUpstream, GetService, GetRoute, request.
    destruct (getUpstream name (world e)), (getService name (world e)),
      (getRoute name (world e)). auto.
  - reflexivity.
  - intros A b status H404 H2xx. unfold decodeGet.
    rewrite (proj2 (Z.eqb_neq _ _) H404), H2xx. reflexivity.
  - reflexivity.
  - intros pre ev post Ht Hf.
    destruct (exec_RunE withDiff overwrite url content e) as (new & Hn & Hfin).
    rewrite Hn in Ht. apply app_inv_head in Ht. subst new.
    destruct (Hfin pre ev post eq_refl Hf) as [Hp Ho]. split; [exact Hp|].
    destruct (RunE _ content e).2 as [[]|x]; [now contradiction Ho | eauto].
  - intros x Hx.
    destruct (dry_RunE withDiff overwrite url content e) as (new & _ & _ & Hc).
    apply Hc. now rewrite Hx.
  - intros x name info args Hx.
    now apply (proj1 (dry_failed_lookup_plans_create withDiff overwrite url e x)).
  - intros x r desired name Hx.
    now apply (dry_failed_lookup_plans_create withDiff overwrite url e x).
  - intros x s Hx.
    destruct (dry_failed_lookup_plans_create withDiff overwrite url e x)
      as (_ & Hs & _).
    now apply Hs.
  - intros x s Hx.
    destruct (dry_failed_lookup_plans_create withDiff overwrite url e x)
      as (_ & _ & Hs & _).
    now apply Hs.
  - intros x svc up proto port path Hx.
    destruct (dry_failed_lookup_plans_create withDiff overwrite url e x)
      as (_ & _ & _ & Hs & _).
    now apply Hs.
Qed.

(** The remote side answers 500 to everything: the dry run sends its four
    lookups all the same, plans four creations and succeeds. *)
Lemma C7_counterexample :
  let out := RunE (dryFlags false false localhost) (ofSequence [demoRoute])
                  (initEnv (mkOutage 500)) in
  out.2 = Ok tt
  /\ map ev_outcome (trace out.1)
     = [Failed (ErrHTTP 500); Failed (ErrHTTP 500); Failed (ErrHTTP 500);
        Failed (ErrHTTP 500)]
  /\ map Action (Items (plan out.1)) = ["create"; "create"; "create"; "create"].
Proof. vm_compute. repeat split. Qed.

Lemma C7_witness :
  let out := RunE (execFlags false false localhost) (ofSequence [demoRoute])
                  (initEnv (mkOutage 500)) in
  trace out.1 = [] ++ [] ++ [mkEvent (CGetUpstream "demo-upstream") (Failed (ErrHTTP 500))]
  /\ exists x, out.2 = Err x.
Proof.
  intros out. split; [vm_compute; reflexivity|].
  apply (proj1 (proj2 (proj2 (proj2 (proj2
           (C7_lookup_failures false false localhost (ofSequence [demoRoute])
              (initEnv (mkOutage 500))))))) []
           (mkEvent (CGetUpstream "demo-upstream") (Failed (ErrHTTP 500))) []);
    vm_compute; reflexivity.
Defined.

(** ** A route without name and without service *)

Lemma forEach_app {W A} (pre post : list A) (x : A) (body : A -> M W unit) (e : Env W) :
  forEach (pre ++ x :: post) body e
  = (forEach pre body >> body x >> forEach post body) e.
Proof.
  revert e. induction pre as [|y pre IH]; intros e; simpl.
  - reflexivity.
  - unfold bind in *. destruct (body y e) as [e1 [[]|err]]; [apply IH | reflexivity].
Qed.

Lemma nameless_route_fails {W} `{Admin W} (fl : Flags) (r : applyRoute) (e : Env W) :
  ar_Name r = "" -> ar_Service r = "" -> routeStep fl r e = (e, Err ErrRouteName).
Proof. intros Hn Hs. unfold routeStep, shorthand. rewrite Hn, Hs. reflexivity. Qed.

Lemma reconcile_stops_at_nameless {W} `{Admin W} (fl : Flags) (spec : applySpec)
    (pre post : list applyRoute) (r : applyRoute) (e : Env W) :
  Routes spec = pre ++ r :: post -> ar_Name r = "" -> ar_Service r = "" ->
  reconcile fl spec e
  = ((reconcileBefore fl spec pre e).1,
     match (reconcileBefore fl spec pre e).2 with
     | Ok _ => Err ErrRouteName
     | Err x => Err x
     end).
Proof.
  intros Hr Hn Hs. unfold reconcile, reconcileBefore. rewrite Hr. unfold bind.
  destruct (forEach (Upstreams spec) _ e) as [e1 [[]|x]]; [|reflexivity].
  destruct (forEach (Services spec) _ e1) as [e2 [[]|x]]; [|reflexivity].
  rewrite forEach_app. unfold bind.
  destruct (forEach pre _ e2) as [e3 [[]|x]]; [|reflexivity].
  now rewrite nameless_route_fails.
Qed.

(** C8, as the code has it.  A document with a route that has neither a
    service nor a name always fails.  The run stops when it reaches that
    route, with a validation error unless something failed before, and
    sends nothing for it or for what follows; what precedes the route in
    the order upstreams, services, routes has been processed by then.  When
    nothing precedes it, no request is sent at all. *)
Theorem C8_nameless_route {W : Type} `{Admin W} (fl : Flags) (content : Content)
    (spec : applySpec) (pre post : list applyRoute) (r : applyRoute) (e : Env W) :
  normalize content = Ok spec -> adminURL fl <> "" ->
  Routes spec = pre ++ r :: post -> ar_Name r = "" -> ar_Service r = "" ->
  (RunE fl content e).1 = (reconcileBefore fl spec pre e).1
  /\ (RunE fl content e).2
     = match (reconcileBefore fl spec pre e).2 with
       | Ok _ => Err ErrRouteName
       | Err x => Err x
       end
  /\ classOf ErrRouteName = ValidationError
  /\ (Upstreams spec = [] -> Services spec = [] -> pre = [] ->
      RunE fl content e = (e, Err ErrRouteName)).
Proof.
  intros Hc Hu Hr Hn Hs. unfold RunE. rewrite Hc.
  rewrite (proj2 (streq_false _ _) Hu).
  rewrite (reconcile_stops_at_nameless fl spec pre post r e Hr Hn Hs).
  repeat split. intros Hups Hsvcs Hpre. unfold reconcileBefore.
  rewrite Hups, Hsvcs, Hpre. reflexivity.
Qed.

Lemma C8_witness :
  (RunE (execFlags false false localhost) (ofSequence [plainRoute; namelessRoute])
        (initEnv storeWithSvcX)).2 = Err ErrRouteName.
Proof.
  pose proof (C8_nameless_route (execFlags false false localhost)
                (ofSequence [plainRoute; namelessRoute])
                (mkApplySpec [] [] [plainRoute; namelessRoute])
                [plainRoute] [] namelessRoute (initEnv storeWithSvcX)
                eq_refl ltac:(discriminate) eq_refl eq_refl eq_refl) as (_ & Hres & _).
  rewrite Hres. vm_compute. reflexivity.
Defined.

(** The nameless route comes second: the run fails with the validation
    error after it has created the first route. *)
Lemma C8_counterexample :
  (RunE (execFlags false false localhost) (ofSequence [plainRoute; namelessRoute])
        (initEnv storeWithSvcX)).2 = Err ErrRouteName
  /\ map (λ ev, isPost (ev_call ev))
         (trace (RunE (execFlags false false localhost)
                      (ofSequence [plainRoute; namelessRoute])
                      (initEnv storeWithSvcX)).1)
     = [false; false; false; true]
  /\ map rt_Name
         (st_routes (world (RunE (execFlags false false localhost)
                                 (ofSequence [plainRoute; namelessRoute])
                                 (initEnv storeWithSvcX)).1))
     = ["r1"].
Proof. vm_compute. repeat split. Qed.

(** ** A creation follows a lookup that found nothing *)

#[export] Instance verifiesCreates_sequential : Sequential verifiesCreates.
Proof.
  split; unfold verifiesCreates, createsVerified.
  - intros pre ev post Heq. now destruct pre.
  - intros n1 n2 _ H1 H2 pre ev post Heq Hp.
    apply app_eq_app in Heq as [l [[-> Hl]|[-> ->]]].
    + destruct l as [|ev' l'].
      * simpl in Hl. subst n2.
        destruct (H2 [] ev post eq_refl Hp) as (pre' & lk & mid & Hpre & _).
        now destruct pre'.
      * simpl in Hl. injection Hl as <- _. now apply (H1 pre ev l').
    + destruct (H2 l ev post eq_refl Hp) as (pre' & lk & mid & -> & Hlk & Hlen & Hmid).
      exists (n1 ++ pre'), lk, mid. now rewrite <- app_assoc.
Qed.

Lemma verified_lookups (new : list Event) : onlyLookups new -> createsVerified new.
Proof.
  intros Hl pre ev post -> Hp. apply Forall_app in Hl as [_ Hl].
  apply Forall_cons_iff in Hl as [Hev _]. unfold isMutating in Hev.
  rewrite Hp in Hev. discriminate.
Qed.

Lemma reportsAbsent_lookup (lk : Event) (c : Call) :
  reportsAbsent lk c -> isMutating (ev_call lk) = false.
Proof. unfold reportsAbsent. destruct c, (ev_call lk); simpl; tauto. Qed.

Lemma verified_pair (lk : Event) (c : Call) (o : Outcome) :
  reportsAbsent lk c -> createsVerified [lk; mkEvent c o].
Proof.
  intros Hlk pre ev post Heq Hp.
  destruct pre as [|a [|b [|? ?]]]; try discriminate; simpl in Heq.
  - injection Heq as <- _. apply reportsAbsent_lookup in Hlk.
    unfold isMutating in Hlk. rewrite Hp in Hlk. discriminate.
  - injection Heq as <- <- _. exists [], lk, []. repeat split; auto. constructor.
Qed.

Lemma verified_triple (lk mid : Event) (c : Call) (o : Outcome) :
  reportsAbsent lk c -> isMutating (ev_call mid) = false ->
  createsVerified [lk; mid; mkEvent c o].
Proof.
  intros Hlk Hmid pre ev post Heq Hp.
  destruct pre as [|a [|b [|d [|? ?]]]]; try discriminate; simpl in Heq.
  - injection Heq as <- _. apply reportsAbsent_lookup in Hlk.
    unfold isMutating in Hlk. rewrite Hp in Hlk. discriminate.
  - injection Heq as _ <- _. unfold isMutating in Hmid. rewrite Hp in Hmid. discriminate.
  - injection Heq as <- <- <- _. exists [], lk, [mid].
    repeat split; auto. repeat constructor. exact Hmid.
Qed.

Lemma find_none_all (addr : string) (l : list Target) :
  find (λ x, streq (tg_Target x) addr) l = None ->
  Forall (λ x, tg_Target x <> addr) l.
Proof.
  induction l as [|t l IH]; simpl; [constructor|].
  destruct (streq (tg_Target t) addr) eqn:E; [discriminate|].
  intros Hf. constructor; [now apply streq_false | now apply IH].
Qed.

Lemma verified_noPost (new : list Event) : noPost new -> createsVerified new.
Proof.
  intros Hl pre ev post -> Hp. apply Forall_app in Hl as [_ Hl].
  apply Forall_cons_iff in Hl as [Hev _]. rewrite Hp in Hev. discriminate.
Qed.

Section Creates.
Context {W : Type} `{Admin W}.

(** A lookup by name, then a POST only where it found nothing. *)
Lemma lookup_then_create {A B} (c1 cpost : Call) (lookup : M W (option A))
    (k : option A -> M W B) :
  emits (λ new r, new = [mkEvent c1 (readGet r)]) lookup ->
  isPost c1 = false ->
  reportsAbsent (mkEvent c1 Missing) cpost ->
  (forall a, emits (λ new _, noPost new) (k (Some a))) ->
  emits (λ new _, noPost new \/ exists o, new = [mkEvent cpost o]) (k None) ->
  emits (lift verifiesCreates) (bind lookup k).
Proof.
  intros Hlk Hc1 Habs Hsome Hnone.
  eapply emits_bind with
    (Φ2 := λ a new r, match a with
                      | Some _ => noPost new
                      | None => noPost new \/ exists o, new = [mkEvent cpost o]
                      end).
  - exact Hlk.
  - intros [a|]; [apply Hsome | apply Hnone].
  - intros n1 a n2 r -> Hn2. unfold lift, verifiesCreates.
    destruct a as [a|].
    + apply verified_noPost. constructor; [exact Hc1 | exact Hn2].
    + destruct Hn2 as [Hn2 | [o ->]].
      * apply verified_noPost. constructor; [exact Hc1 | exact Hn2].
      * simpl. now apply verified_pair.
  - intros n1 x ->. unfold lift, verifiesCreates. apply verified_noPost.
    repeat constructor. exact Hc1.
Qed.

Lemma request_then_ret {A B C} (c : Call) (send : W -> Reply A * W)
    (decode : Reply A -> Res B) (read : Res B -> Outcome) (f : B -> C) :
  emits (λ new _, exists o, new = [mkEvent c o])
        (bind (request c send decode read) (λ x, ret (f x))).
Proof.
  eapply emits_bind with (Φ2 := λ _ new _, new = []).
  - apply emits_request.
  - intros a. now apply emits_ret.
  - intros n1 a n2 r -> ->. eauto.
  - intros n1 x ->. eauto.
Qed.

Lemma request_noPost {A B} (c : Call) (send : W -> Reply A * W)
    (decode : Reply A -> Res B) (read : Res B -> Outcome) :
  isPost c = false -> emits (λ new _, noPost new) (request c send decode read).
Proof.
  intros Hc. eapply emits_weaken; [|apply emits_request].
  intros n r ->. repeat constructor. exact Hc.
Qed.

Lemma CreateOrUpdateUpstream_verifies (name : string) :
  emits (lift verifiesCreates) (CreateOrUpdateUpstream (W:=W) name).
Proof.
  unfold CreateOrUpdateUpstream. destruct (streq name "").
  - apply emits_fail. apply verified_noPost. constructor.
  - eapply lookup_then_create with (cpost := CPostUpstream (mkUpstream "" name)).
    + apply emits_request.
    + reflexivity.
    + reflexivity.
    + intros a. apply emits_ret. constructor.
    + eapply emits_weaken; [|apply request_then_ret]. intros n r Hn. now right.
Qed.

Lemma CreateOrUpdateService_verifies (name url : string) :
  emits (lift verifiesCreates) (CreateOrUpdateService (W:=W) name url).
Proof.
  unfold CreateOrUpdateService. destruct (_ || _).
  - apply emits_fail. apply verified_noPost. constructor.
  - eapply lookup_then_create
      with (cpost := CPostService (mkService "" name url "" "" 0 "" 0 0 0 0)).
    + apply emits_request.
    + reflexivity.
    + reflexivity.
    + intros a. eapply emits_weaken; [|apply request_then_ret].
      intros n r [o ->]. repeat constructor.
    + eapply emits_weaken; [|apply request_then_ret]. intros n r Hn. now right.
Qed.

Lemma CreateOrUpdateServiceViaUpstream_verifies (name up proto : string) (port : Z)
    (path : string) :
  emits (lift verifiesCreates)
        (CreateOrUpdateServiceViaUpstream (W:=W) name up proto port path).
Proof.
  unfold CreateOrUpdateServiceViaUpstream. destruct (_ || _).
  - apply emits_fail. apply verified_noPost. constructor.
  - cbv zeta.
    eapply lookup_then_create with (c1 := CGetService name).
    + apply emits_request.
    + reflexivity.
    + shelve.
    + intros a. eapply emits_weaken; [|apply request_then_ret].
      intros n r [o ->]. repeat constructor.
    + eapply emits_weaken; [|apply request_then_ret]. intros n r Hn. right. exact Hn.
    Unshelve. reflexivity.
Qed.

Lemma request_verifies {A B} (c : Call) (send : W -> Reply A * W)
    (decode : Reply A -> Res B) (read : Res B -> Outcome) :
  isPost c = false -> emits (lift verifiesCreates) (request c send decode read).
Proof.
  intros Hc. eapply emits_weaken; [|apply (request_noPost c send decode read Hc)].
  intros n r Hn. now apply verified_noPost.
Qed.

Lemma CreateOrUpdateRoute_verifies (desired : Route) :
  emits (lift verifiesCreates) (CreateOrUpdateRoute (W:=W) desired).
Proof.
  unfold CreateOrUpdateRoute. destruct (streq (rt_Name desired) "").
  - apply emits_fail. apply verified_noPost. constructor.
  - apply (seq_bind verifiesCreates).
    + destruct (_ && _); [|apply (seq_ret verifiesCreates)].
      apply (seq_bind verifiesCreates).
      * unfold GetService. now apply request_verifies.
      * intros [svc|]; [apply (seq_ret verifiesCreates)|].
        apply emits_fail. apply verified_noPost. constructor.
    + intros d. destruct (streq (ref_ID (rt_Service d)) "").
      * apply emits_fail. apply verified_noPost. constructor.
      * eapply lookup_then_create with (cpost := CPostRoute d).
        -- apply emits_request.
        -- reflexivity.
        -- reflexivity.
        -- intros a. eapply emits_weaken; [|apply request_then_ret].
           intros n r [o ->]. repeat constructor.
        -- eapply emits_weaken; [|apply request_then_ret]. intros n r Hn. now right.
Qed.

(** [EnsureTarget] lists the targets and then, at most, posts one. *)
Lemma EnsureTarget_shape (up target : string) (weight : Z) :
  emits (λ new _,
           exists o1, new = [mkEvent (CGetTargets up) o1]
           \/ exists o2,
                new = [mkEvent (CGetTargets up) o1;
                       mkEvent (CPostTarget up (mkTarget "" target weight)) o2])
        (EnsureTarget (W:=W) up target weight).
Proof.
  unfold EnsureTarget, ListTargets.
  eapply emits_bind with
    (Φ2 := λ _ new _,
       new = [] \/ exists o2, new = [mkEvent (CPostTarget up (mkTarget "" target weight)) o2]).
  - apply emits_request.
  - intros l. destruct (existsb _ l).
    + apply emits_ret. now left.
    + unfold AddTarget. destruct (_ || _).
      * eapply emits_bind with (Φ2 := λ _ new _, new = []).
        -- apply emits_fail with (Φ := λ new _, new = []). reflexivity.
        -- intros a. now apply emits_ret.
        -- intros n1 a n2 r -> ->. now left.
        -- intros n1 x ->. now left.
      * eapply emits_weaken; [|apply request_then_ret].
        intros n r [o ->]. right. eauto.
  - intros n1 a n2 r -> [->|[o2 ->]]; eexists; [left | right; eexists]; reflexivity.
  - intros n1 x ->. eexists. left. reflexivity.
Qed.

Lemma ensureTarget_verifies (withDiff : bool) (url up : string) (t : applyTarget) :
  emits (lift verifiesCreates) (ensureTarget (W:=W) (execFlags withDiff false url) up t).
Proof.
  unfold ensureTarget. cbn [dryRun execFlags negb when showDiff applyOverwrite].
  apply (seq_bind verifiesCreates).
  - destruct withDiff; [apply (seq_silent verifiesCreates), emits_print
                       | apply (seq_ret verifiesCreates)].
  - intros _.
    eapply emits_bind with
      (Φ1 := λ new r, new = [mkEvent (CGetTargets up) (readList r)])
      (Φ2 := λ l new _,
         match find (λ x, streq (tg_Target x) (at_Target t)) l with
         | Some _ => new = []
         | None =>
             exists o1, new = [mkEvent (CGetTargets up) o1]
             \/ exists o2,
                  new = [mkEvent (CGetTargets up) o1;
                         mkEvent (CPostTarget up (mkTarget "" (at_Target t) (weightOf t)))
                                 o2]
         end).
    + apply emits_request.
    + intros l. destruct (find _ l) as [x|].
      * destruct (_ || _); [now apply emits_ret|].
        eapply emits_weaken; [|apply emits_print]. now intros n r [-> _].
      * unfold ignore. eapply emits_bind with (Φ2 := λ _ new _, new = []).
        -- apply EnsureTarget_shape.
        -- intros a. now apply emits_ret.
        -- intros n1 a n2 r Hn1 ->. now rewrite app_nil_r.
        -- intros n1 x Hn1. exact Hn1.
    + intros n1 l n2 r -> Hn2. unfold lift, verifiesCreates. simpl.
      destruct (find _ l) as [x|] eqn:Hf.
      * subst n2. apply verified_noPost. repeat constructor.
      * destruct Hn2 as [o1 [->|[o2 ->]]].
        -- apply verified_noPost. repeat constructor.
        -- apply verified_triple; [|reflexivity].
           split; [reflexivity | now apply find_none_all].
    + intros n1 x ->. unfold lift, verifiesCreates. apply verified_noPost.
      repeat constructor.
Qed.

Ltac create_step :=
  first
    [ apply CreateOrUpdateUpstream_verifies
    | apply CreateOrUpdateService_verifies
    | apply CreateOrUpdateServiceViaUpstream_verifies
    | apply CreateOrUpdateRoute_verifies
    | apply ensureTarget_verifies
    | apply request_verifies; reflexivity
    | apply verified_noPost; constructor
    | seq_step verifiesCreates ].

Ltac create_unfold :=
  unfold ensureUpstream, syncServiceViaUpstream, syncServiceURL, syncAutoService,
    syncRoute, GetUpstream, GetService, UpdateServiceExtras, GetRoute;
  cbn [dryRun execFlags negb when].

Variables (withDiff : bool) (url : string).
Local Abbreviation fl := (execFlags withDiff false url).

Lemma upstreamStep_verifies (up : applyUpstream) :
  emits (lift verifiesCreates) (upstreamStep (W:=W) fl up).
Proof. unfold upstreamStep. create_unfold. repeat create_step. Qed.

Lemma serviceStep_verifies (s : applyService) :
  emits (lift verifiesCreates) (serviceStep (W:=W) fl s).
Proof. unfold serviceStep. create_unfold. repeat create_step. Qed.

Lemma routeStep_verifies (r : applyRoute) :
  emits (lift verifiesCreates) (routeStep (W:=W) fl r).
Proof. unfold routeStep, shorthand. create_unfold. repeat create_step. Qed.

Lemma RunE_verifies (content : Content) :
  emits (lift verifiesCreates) (RunE (W:=W) fl content).
Proof.
  unfold RunE, reconcile.
  repeat first [apply upstreamStep_verifies | apply serviceStep_verifies
               | apply routeStep_verifies | create_step].
Qed.

End Creates.

(** ** The client on the reference store *)

Lemma bind_ok {W A B} (c : M W A) (k : A -> M W B) (e e1 : Env W) (a : A) :
  c e = (e1, Ok a) -> bind c k e = k a e1.
Proof. intros Hc. unfold bind. now rewrite Hc. Qed.

Lemma bind_err {W A B} (c : M W A) (k : A -> M W B) (e e1 : Env W) (x : Error) :
  c e = (e1, Err x) -> bind c k e = (e1, Err x).
Proof. intros Hc. unfold bind. now rewrite Hc. Qed.

Lemma decodeGet_replyGet {A} (x : option A) : decodeGet (replyGet x) = Ok x.
Proof. now destruct x. Qed.

Lemma store_GetUpstream (name : string) (e : Env Store) :
  GetUpstream name e
  = (logEvent e (mkEvent (CGetUpstream name)
                         (readGet (Ok (findUpstream (world e) name)))),
     Ok (findUpstream (world e) name)).
Proof.
  unfold GetUpstream, request. cbn [getUpstream storeAdmin].
  now rewrite decodeGet_replyGet.
Qed.

Lemma store_GetService (name : string) (e : Env Store) :
  GetService name e
  = (logEvent e (mkEvent (CGetService name)
                         (readGet (Ok (findService (world e) name)))),
     Ok (findService (world e) name)).
Proof.
  unfold GetService, request. cbn [getService storeAdmin].
  now rewrite decodeGet_replyGet.
Qed.

Lemma store_GetRoute (name : string) (e : Env Store) :
  GetRoute name e
  = (logEvent e (mkEvent (CGetRoute name)
                         (readGet (Ok (findRoute (world e) name)))),
     Ok (findRoute (world e) name)).
Proof.
  unfold GetRoute, request. cbn [getRoute storeAdmin].
  now rewrite decodeGet_replyGet.
Qed.

Lemma store_ListTargets (up : string) (e : Env Store) :
  ListTargets up e
  = match findUpstream (world e) up with
    | Some _ =>
        (logEvent e (mkEvent (CGetTargets up) (Listed (targetsOf (world e) up))),
         Ok (targetsOf (world e) up))
    | None =>
        (logEvent e (mkEvent (CGetTargets up) (Failed (ErrHTTP 404))), Err (ErrHTTP 404))
    end.
Proof.
  unfold ListTargets, request. cbn [getTargets storeAdmin]. unfold storeGetTargets.
  now destruct (findUpstream (world e) up).
Qed.

(** The requests that write, on the reference store. *)
Lemma store_post_upstream (u : Upstream) (e : Env Store) :
  findUpstream (world e) (up_Name u) = None ->
  request (CPostUpstream u) (postUpstream u) (decodeJSON zeroUpstream) readJSON e
  = (setWorld (storePostUpstream u (world e)).2
              (logEvent e (mkEvent (CPostUpstream u) Found)),
     Ok (mkUpstream (idOf (up_Name u)) (up_Name u))).
Proof.
  intros Hf. unfold request. cbn [postUpstream storeAdmin]. unfold storePostUpstream.
  now rewrite Hf.
Qed.

Lemma store_post_target (up : string) (t : Target) (x : Upstream) (e : Env Store) :
  findUpstream (world e) up = Some x ->
  request (CPostTarget up t) (postTarget up t) (decodeJSON zeroTarget) readJSON e
  = (setWorld (storePostTarget up t (world e)).2
              (logEvent e (mkEvent (CPostTarget up t) Found)),
     Ok (mkTarget (idOf (up +:+ "/" +:+ tg_Target t)) (tg_Target t) (tg_Weight t))).
Proof.
  intros Hf. unfold request. cbn [postTarget storeAdmin]. unfold storePostTarget.
  now rewrite Hf.
Qed.

Lemma store_post_service (s : Service) (e : Env Store) :
  findService (world e) (svc_Name s) = None ->
  exists s',
    request (CPostService s) (postService s) (decodeJSON zeroService) readJSON e
    = (setWorld (storePostService s (world e)).2
                (logEvent e (mkEvent (CPostService s) Found)), Ok s').
Proof.
  intros Hf. unfold request. cbn [postService storeAdmin]. unfold storePostService.
  rewrite Hf. eexists. reflexivity.
Qed.

Lemma store_patch_service (name : string) (p : ServicePatch) (s : Service)
    (e : Env Store) :
  findService (world e) name = Some s ->
  request (CPatchService name p) (patchService name p) (decodeJSON zeroService) readJSON e
  = (setWorld (storePatchService name p (world e)).2
              (logEvent e (mkEvent (CPatchService name p) Found)),
     Ok (patchedService p s)).
Proof.
  intros Hf. unfold request. cbn [patchService storeAdmin]. unfold storePatchService.
  now rewrite Hf.
Qed.

Lemma store_post_route (r : Route) (e : Env Store) :
  findRoute (world e) (rt_Name r) = None ->
  exists r',
    request (CPostRoute r) (postRoute r) (decodeJSON zeroKongRoute) readJSON e
    = (setWorld (storePostRoute r (world e)).2
                (logEvent e (mkEvent (CPostRoute r) Found)), Ok r').
Proof.
  intros Hf. unfold request. cbn [postRoute storeAdmin]. unfold storePostRoute.
  rewrite Hf. eexists. reflexivity.
Qed.

Lemma store_patch_route (name : string) (p : RoutePatch) (r : Route) (e : Env Store) :
  findRoute (world e) name = Some r ->
  request (CPatchRoute name p) (patchRoute name p) (decodeJSON zeroKongRoute) readJSON e
  = (setWorld (storePatchRoute name p (world e)).2
              (logEvent e (mkEvent (CPatchRoute name p) Found)),
     Ok (patchedRoute (world e) p r)).
Proof.
  intros Hf. unfold request. cbn [patchRoute storeAdmin]. unfold storePatchRoute.
  now rewrite Hf.
Qed.

(** *** What the reference store holds *)

Lemma isSet_find {A} (q : A -> bool) (l : list A) : isSet (find q l) = existsb q l.
Proof. induction l as [|x l IH]; simpl; [reflexivity|]. now destruct (q x). Qed.

Lemma find_None_existsb {A} (q : A -> bool) (l : list A) :
  find q l = None <-> existsb q l = false.
Proof. rewrite <- isSet_find. destruct (find q l); simpl; split; congruence. Qed.

Lemma find_Some_existsb {A} (q : A -> bool) (l : list A) (x : A) :
  find q l = Some x -> existsb q l = true.
Proof. intros Hf. rewrite <- isSet_find. now rewrite Hf. Qed.

Lemma existsb_replaceFirst {A} (p q : A -> bool) (new : A) (l : list A) :
  (forall x, p x = true -> q x = q new) ->
  existsb q (replaceFirst p new l) = existsb q l.
Proof.
  intros Hpq. induction l as [|x l IH]; simpl; [reflexivity|].
  destruct (p x) eqn:Hp; simpl.
  - now rewrite (Hpq x Hp).
  - now rewrite IH.
Qed.

Lemma present_upstream (w : Store) (n : string) :
  presentIn w (RUpstream n) = isSet (findUpstream w n).
Proof. unfold findUpstream. now rewrite isSet_find. Qed.

Lemma present_service (w : Store) (n : string) :
  presentIn w (RService n) = isSet (findService w n).
Proof. unfold findService. now rewrite isSet_find. Qed.

Lemma present_route (w : Store) (n : string) :
  presentIn w (RRoute n) = isSet (findRoute w n).
Proof. unfold findRoute. now rewrite isSet_find. Qed.

Lemma present_target (w : Store) (up a : string) :
  presentIn w (RTarget up a)
  = isSet (find (λ t, streq (tg_Target t) a) (targetsOf w up)).
Proof.
  rewrite isSet_find. unfold targetsOf. simpl.
  induction (st_targets w) as [|[u t] l IH]; simpl; [reflexivity|].
  rewrite IH. unfold filter; simpl. fold (filter (λ p : string * Target, p.1 = up) l).
  destruct (decide (u = up)) as [->|Hne]; simpl.
  - now rewrite streq_refl.
  - now rewrite (proj2 (streq_false u up) Hne).
Qed.

Lemma extends_refl (w : Store) : extends w w.
Proof. now intros r. Qed.

Lemma extends_trans (w1 w2 w3 : Store) : extends w1 w2 -> extends w2 w3 -> extends w1 w3.
Proof. intros H12 H23 r Hr. now apply H23, H12. Qed.

Lemma absent_before (w w' : Store) (r : Resource) :
  extends w w' -> presentIn w' r = false -> presentIn w r = false.
Proof.
  intros Hext Hr. destruct (presentIn w r) eqn:Hp; [|reflexivity].
  apply Hext in Hp. congruence.
Qed.

Lemma extends_postUpstream (u : Upstream) (w : Store) :
  extends w (storePostUpstream u w).2
  /\ presentIn (storePostUpstream u w).2 (RUpstream (up_Name u)) = true.
Proof.
  unfold storePostUpstream. destruct (findUpstream w (up_Name u)) eqn:Hf; cbn [snd].
  - split; [apply extends_refl|]. rewrite present_upstream. now rewrite Hf.
  - split.
    + intros [n|up a|n|n]; simpl; try tauto. rewrite existsb_app. intros ->. reflexivity.
    + simpl. rewrite existsb_app. simpl. rewrite streq_refl. now rewrite !orb_true_r.
Qed.

Lemma extends_postService (s : Service) (w : Store) :
  extends w (storePostService s w).2
  /\ presentIn (storePostService s w).2 (RService (svc_Name s)) = true.
Proof.
  unfold storePostService. destruct (findService w (svc_Name s)) eqn:Hf; cbn [snd].
  - split; [apply extends_refl|]. rewrite present_service. now rewrite Hf.
  - split.
    + intros [n|up a|n|n]; simpl; try tauto. rewrite existsb_app. intros ->. reflexivity.
    + simpl. rewrite existsb_app. simpl. rewrite streq_refl. now rewrite !orb_true_r.
Qed.

Lemma extends_postRoute (r : Route) (w : Store) :
  extends w (storePostRoute r w).2
  /\ presentIn (storePostRoute r w).2 (RRoute (rt_Name r)) = true.
Proof.
  unfold storePostRoute. destruct (findRoute w (rt_Name r)) eqn:Hf; cbn [snd].
  - split; [apply extends_refl|]. rewrite present_route. now rewrite Hf.
  - split.
    + intros [n|up a|n|n]; simpl; try tauto. rewrite existsb_app. intros ->. reflexivity.
    + simpl. rewrite existsb_app. simpl. rewrite streq_refl. now rewrite !orb_true_r.
Qed.

Lemma find_key {A} (q : A -> bool) (l : list A) (x : A) : find q l = Some x -> q x = true.
Proof.
  induction l as [|y l IH]; simpl; [discriminate|].
  destruct (q y) eqn:Hq; [now intros [= <-] | exact IH].
Qed.

Lemma extends_patchService (name : string) (p : ServicePatch) (w : Store) :
  extends w (storePatchService name p w).2.
Proof.
  unfold storePatchService. destruct (findService w name) as [s|] eqn:Hf; simpl;
    [|apply extends_refl].
  intros [n|up a|n|n]; simpl; try tauto.
  rewrite existsb_replaceFirst; [tauto|].
  intros x Hx. simpl. apply find_key in Hf. simpl in Hf.
  apply streq_true in Hx, Hf. now rewrite Hx, Hf.
Qed.

Lemma extends_patchRoute (name : string) (p : RoutePatch) (w : Store) :
  extends w (storePatchRoute name p w).2.
Proof.
  unfold storePatchRoute. destruct (findRoute w name) as [r|] eqn:Hf; simpl;
    [|apply extends_refl].
  intros [n|up a|n|n]; simpl; try tauto.
  rewrite existsb_replaceFirst; [tauto|].
  intros x Hx. simpl. apply find_key in Hf. simpl in Hf.
  apply streq_true in Hx, Hf. now rewrite Hx, Hf.
Qed.

Lemma extends_postTarget (up : string) (t : Target) (w : Store) :
  extends w (storePostTarget up t w).2
  /\ (isSet (findUpstream w up) = true ->
      presentIn (storePostTarget up t w).2 (RTarget up (tg_Target t)) = true).
Proof.
  unfold storePostTarget. destruct (findUpstream w up) as [u|] eqn:Hf; simpl;
    [|split; [apply extends_refl | discriminate]].
  destruct (existsb _ (st_targets w)) eqn:Hex.
  - split.
    + intros [n|up' a|n|n]; simpl; try tauto.
      rewrite existsb_replaceFirst; [tauto|].
      intros [u' t'] Hx. simpl in *. apply andb_prop in Hx as [H1 H2].
      apply streq_true in H1, H2. now rewrite H1, H2.
    + intros _. simpl. rewrite existsb_replaceFirst.
      * exact Hex.
      * intros [u' t'] Hx. simpl in *. apply andb_prop in Hx as [H1 H2].
        apply streq_true in H1, H2. now rewrite H1, H2, !streq_refl.
  - split.
    + intros [n|up' a|n|n]; simpl; try tauto. rewrite existsb_app. intros ->. reflexivity.
    + intros _. simpl. rewrite existsb_app. simpl. rewrite !streq_refl.
      now rewrite !orb_true_r.
Qed.

(** *** The blocks of [RunE] on the reference store, override disabled *)

Ltac env_simpl :=
  cbn beta iota zeta delta
      [fst snd world trace notices plan autoInfos autoSvcSet autoUpSet logEvent setWorld
       addNotice readGet readJSON readList isSet up_Name svc_Name rt_Name tg_Target
       tg_Weight].

Ltac store_unfold :=
  unfold ensureUpstream, ensureTarget, syncServiceViaUpstream, syncServiceURL,
    syncAutoService, syncRoute, CreateOrUpdateUpstream, EnsureTarget, AddTarget,
    CreateOrUpdateService, CreateOrUpdateServiceViaUpstream, UpdateServiceExtras,
    CreateOrUpdateRoute, ignore, when, PrintInfo, PrintWarn, PrintSuccess;
  unfold print, ret, fail, bind;
  cbn [dryRun showDiff applyOverwrite execFlags negb].

Ltac store_step :=
  first [ rewrite store_GetUpstream | rewrite store_GetService | rewrite store_GetRoute
        | rewrite store_ListTargets ]; env_simpl.

(** [e], after the line that is printed under [--diff]. *)
Lemma store_ensureUpstream (wd : bool) (url : string) (info : Format) (args : list Val)
    (name : string) (e : Env Store) :
  ensureUpstream (execFlags wd false url) info args name e
  = let e0 := if wd then addNotice e (Print LInfo info args) else e in
    match findUpstream (world e) name with
    | Some _ => (logEvent e0 (mkEvent (CGetUpstream name) Found), Ok tt)
    | None =>
        if streq name ""
        then (logEvent e0 (mkEvent (CGetUpstream name) Missing), Err ErrClientArgs)
        else (setWorld (storePostUpstream (mkUpstream "" name) (world e)).2
                (logEvent (logEvent (logEvent e0 (mkEvent (CGetUpstream name) Missing))
                                    (mkEvent (CGetUpstream name) Missing))
                          (mkEvent (CPostUpstream (mkUpstream "" name)) Found)),
              Ok tt)
    end.
Proof.
  store_unfold.
  destruct wd; env_simpl; store_step;
    (destruct (findUpstream (world e) name) eqn:Hf; env_simpl; [reflexivity|]);
    (destruct (streq name ""); env_simpl; [reflexivity|]);
    store_step; rewrite Hf; env_simpl;
    rewrite store_post_upstream by exact Hf; reflexivity.
Qed.

Lemma find_none_existsb_weight (addr : string) (w : Z) (l : list Target) :
  find (λ x, streq (tg_Target x) addr) l = None ->
  existsb (λ t, streq (tg_Target t) addr && ((tg_Weight t =? w) || (w =? 0))) l = false.
Proof.
  induction l as [|t l IH]; simpl; [reflexivity|].
  destruct (streq (tg_Target t) addr); [discriminate | exact IH].
Qed.

Lemma store_ensureTarget (wd : bool) (url up : string) (t : applyTarget) (e : Env Store) :
  ensureTarget (execFlags wd false url) up t e
  = let w := weightOf t in
    let e0 := if wd
              then addNotice e (Print LInfo FmtEnsureTarget
                                      [VStr (at_Target t); VInt w; VStr up])
              else e in
    match findUpstream (world e) up with
    | None => (logEvent e0 (mkEvent (CGetTargets up) (Failed (ErrHTTP 404))),
               Err (ErrHTTP 404))
    | Some _ =>
        let l := targetsOf (world e) up in
        let e1 := logEvent e0 (mkEvent (CGetTargets up) (Listed l)) in
        match find (λ x, streq (tg_Target x) (at_Target t)) l with
        | Some x =>
            if (tg_Weight x =? w) || (w =? 0) then (e1, Ok tt)
            else (addNotice e1 (Print LWarn FmtTargetWeightSkipped [VStr (at_Target t)]),
                  Ok tt)
        | None =>
            let e2 := logEvent e1 (mkEvent (CGetTargets up) (Listed l)) in
            if streq up "" || streq (at_Target t) "" then (e2, Err ErrClientArgs)
            else (setWorld (storePostTarget up (mkTarget "" (at_Target t) w) (world e)).2
                    (logEvent e2 (mkEvent (CPostTarget up (mkTarget "" (at_Target t) w))
                                          Found)),
                  Ok tt)
        end
    end.
Proof.
  store_unfold.
  destruct wd; env_simpl; store_step;
    (destruct (findUpstream (world e) up) as [u|] eqn:Hu; env_simpl; [|reflexivity]);
    (destruct (find _ (targetsOf (world e) up)) as [x|] eqn:Hf; env_simpl;
     [destruct (_ || _); reflexivity|]);
    store_step; rewrite Hu; env_simpl;
    rewrite (find_none_existsb_weight _ _ _ Hf);
    (destruct (_ || _); env_simpl; [reflexivity|]);
    rewrite (store_post_target _ _ u) by exact Hu; reflexivity.
Qed.

Lemma find_snoc_none {A} (q : A -> bool) (l : list A) (x : A) :
  find q l = None -> find q (l ++ [x]) = if q x then Some x else None.
Proof.
  induction l as [|y l IH]; simpl; [reflexivity|].
  destruct (q y); [discriminate | exact IH].
Qed.

Lemma found_after_post_service (s : Service) (w : Store) :
  findService w (svc_Name s) = None ->
  exists s', findService (storePostService s w).2 (svc_Name s) = Some s'
             /\ svc_Name s' = svc_Name s /\ svc_ID s' = idOf (svc_Name s)
             /\ svc_Protocol s' = svc_Protocol s /\ svc_Host s' = svc_Host s
             /\ svc_Port s' = svc_Port s /\ svc_Path s' = svc_Path s.
Proof.
  intros Hf. unfold storePostService. rewrite Hf. cbn [snd].
  unfold findService in *. cbn [st_services]. rewrite (find_snoc_none _ _ _ Hf).
  cbn [svc_Name]. rewrite streq_refl. eexists. split; [reflexivity|]. repeat split.
Qed.

Lemma store_syncServiceViaUpstream_present (wd : bool) (url : string) (s : applyService)
    (cur : Service) (e : Env Store) :
  findService (world e) (as_Name s) = Some cur ->
  let proto := protoOf (as_Protocol s) in
  let port := portOf proto (as_Port s) in
  syncServiceViaUpstream (execFlags wd false url) s e
  = (noticeIf (extrasChanged cur s) (Print LWarn FmtExtrasSkipped [VStr (as_Name s)])
       (noticeIf (coreChanged cur (as_Upstream s) proto port (as_Path s))
          (Print LWarn FmtServiceSkipped [VStr (as_Name s)])
          (logEvent
             (noticeIf wd
                (Print LInfo FmtSyncServiceViaUpstream
                   [VStr (as_Name s); VStr (as_Upstream s); VStr proto; VInt port;
                    VStr (as_Path s)]) e)
             (mkEvent (CGetService (as_Name s)) Found))),
     Ok tt).
Proof.
  intros Hf proto port. store_unfold. fold proto. fold port.
  destruct wd; env_simpl; store_step; rewrite Hf; env_simpl;
    destruct (coreChanged cur _ _ _ _), (extrasChanged cur s); reflexivity.
Qed.

Lemma world_noticeIf {W} (b : bool) (n : Notice) (e : Env W) :
  world (noticeIf b n e) = world e.
Proof. now destruct b. Qed.

Lemma trace_noticeIf {W} (b : bool) (n : Notice) (e : Env W) :
  trace (noticeIf b n e) = trace e.
Proof. now destruct b. Qed.

(** Under [--diff] a block first prints a line and then does what it does
    without. *)
Lemma syncServiceViaUpstream_diff {W} `{Admin W} (wd ow : bool) (url : string)
    (s : applyService) (e : Env W) :
  syncServiceViaUpstream (execFlags wd ow url) s e
  = syncServiceViaUpstream (execFlags false ow url) s
      (noticeIf wd
         (Print LInfo FmtSyncServiceViaUpstream
            [VStr (as_Name s); VStr (as_Upstream s); VStr (protoOf (as_Protocol s));
             VInt (portOf (protoOf (as_Protocol s)) (as_Port s)); VStr (as_Path s)]) e).
Proof. destruct wd; reflexivity. Qed.

Lemma syncServiceURL_diff {W} `{Admin W} (wd ow : bool) (url : string)
    (s : applyService) (e : Env W) :
  syncServiceURL (execFlags wd ow url) s e
  = syncServiceURL (execFlags false ow url) s
      (noticeIf wd (Print LInfo FmtSyncServiceURL [VStr (as_Name s); VStr (as_URL s)]) e).
Proof. destruct wd; reflexivity. Qed.

Lemma syncAutoService_diff {W} `{Admin W} (wd ow : bool) (url svc up proto : string)
    (port : Z) (path : string) (e : Env W) :
  syncAutoService (execFlags wd ow url) svc up proto port path e
  = syncAutoService (execFlags false ow url) svc up proto port path
      (noticeIf wd
         (Print LInfo FmtSyncServiceViaUpstream
            [VStr svc; VStr up; VStr proto; VInt port; VStr path]) e).
Proof. destruct wd; reflexivity. Qed.

Lemma syncRoute_diff {W} `{Admin W} (wd ow : bool) (url : string) (r : applyRoute)
    (desired : Route) (name : string) (e : Env W) :
  syncRoute (execFlags wd ow url) r desired name e
  = syncRoute (execFlags false ow url) r desired name
      (noticeIf wd (Print LInfo FmtSyncRoute [VStr name; VStr (ar_Service r)]) e).
Proof. destruct wd; reflexivity. Qed.

Lemma store_syncServiceViaUpstream_absent (url : string) (s : applyService)
    (e : Env Store) :
  findService (world e) (as_Name s) = None ->
  let proto := protoOf (as_Protocol s) in
  let port := portOf proto (as_Port s) in
  let payload := servicePayload (as_Name s) (as_Upstream s) proto port (as_Path s) in
  let e1 := logEvent e (mkEvent (CGetService (as_Name s)) Missing) in
  let w1 := (storePostService payload (world e)).2 in
  let e2 := addNotice
              (setWorld w1
                 (logEvent (logEvent e1 (mkEvent (CGetService (as_Name s)) Missing))
                           (mkEvent (CPostService payload) Found)))
              (Print LSuccess FmtServiceDone
                     [VStr "created"; VStr (as_Name s); VStr (as_Upstream s)]) in
  syncServiceViaUpstream (execFlags false false url) s e
  = if streq (as_Name s) "" || streq (as_Upstream s) "" then (e1, Err ErrClientArgs)
    else if hasExtras s
         then (setWorld (storePatchService (as_Name s) (extrasPatch s) w1).2
                 (logEvent e2 (mkEvent (CPatchService (as_Name s) (extrasPatch s)) Found)),
               Ok tt)
         else (e2, Ok tt).
Proof.
  intros Hf proto port payload e1 w1 e2.
  destruct (found_after_post_service payload (world e) Hf) as (s' & Hs' & _).
  store_unfold. fold proto. fold port. env_simpl. store_step. rewrite Hf. env_simpl.
  destruct (_ || _); env_simpl; [reflexivity|].
  store_step. rewrite Hf. env_simpl.
  fold (protoOf proto). fold (portOf (protoOf proto) port).
  fold (servicePayload (as_Name s) (as_Upstream s) proto port (as_Path s)). fold payload.
  match goal with |- context [request _ _ _ _ ?env] =>
    destruct (store_post_service payload env Hf) as [s2 Hpost] end.
  rewrite Hpost. env_simpl. change (actionCN "create") with "created".
  destruct (hasExtras s) eqn:He; [|reflexivity].
  unfold hasExtras in He. rewrite He. cbn [negb]. fold (extrasPatch s).
  erewrite store_patch_service by exact Hs'. reflexivity.
Qed.

Lemma store_syncAutoService_present (url svc up proto : string) (port : Z)
    (path : string) (cur : Service) (e : Env Store) :
  findService (world e) svc = Some cur ->
  syncAutoService (execFlags false false url) svc up proto port path e
  = (noticeIf (coreChanged cur up proto port path)
       (Print LWarn FmtServiceSkipped [VStr svc])
       (logEvent e (mkEvent (CGetService svc) Found)),
     Ok tt).
Proof.
  intros Hf. store_unfold. env_simpl. store_step. rewrite Hf. env_simpl.
  destruct (coreChanged cur _ _ _ _); reflexivity.
Qed.

Lemma store_syncAutoService_absent (url svc up proto : string) (port : Z)
    (path : string) (e : Env Store) :
  findService (world e) svc = None ->
  let payload := servicePayload svc up proto port path in
  let e1 := logEvent e (mkEvent (CGetService svc) Missing) in
  syncAutoService (execFlags false false url) svc up proto port path e
  = if streq svc "" || streq up "" then (e1, Err ErrClientArgs)
    else (addNotice
            (setWorld (storePostService payload (world e)).2
               (logEvent (logEvent e1 (mkEvent (CGetService svc) Missing))
                         (mkEvent (CPostService payload) Found)))
            (Print LSuccess FmtAutoServiceDone [VStr "created"; VStr svc; VStr up]),
          Ok tt).
Proof.
  intros Hf payload e1.
  store_unfold. env_simpl. store_step. rewrite Hf. env_simpl.
  destruct (_ || _); env_simpl; [reflexivity|].
  store_step. rewrite Hf. env_simpl.
  fold (protoOf proto). fold (portOf (protoOf proto) port).
  fold (servicePayload svc up proto port path). fold payload.
  match goal with |- context [request _ _ _ _ ?env] =>
    destruct (store_post_service payload env Hf) as [s2 Hpost] end.
  rewrite Hpost. reflexivity.
Qed.

Lemma store_syncServiceURL_present (url : string) (s : applyService) (cur : Service)
    (e : Env Store) :
  findService (world e) (as_Name s) = Some cur ->
  syncServiceURL (execFlags false false url) s e
  = (noticeIf (extrasChanged cur s) (Print LWarn FmtExtrasSkipped [VStr (as_Name s)])
       (noticeIf (sneq (reconstructURL (Some cur)) (as_URL s))
          (Print LWarn FmtServiceURLSkipped [VStr (as_Name s)])
          (logEvent e (mkEvent (CGetService (as_Name s)) Found))),
     Ok tt).
Proof.
  intros Hf. store_unfold. env_simpl. store_step. rewrite Hf. env_simpl.
  destruct (sneq _ _), (extrasChanged cur s); reflexivity.
Qed.

Lemma store_syncServiceURL_absent (url : string) (s : applyService) (e : Env Store) :
  findService (world e) (as_Name s) = None ->
  let payload := mkService "" (as_Name s) (as_URL s) "" "" 0 "" 0 0 0 0 in
  let e1 := logEvent e (mkEvent (CGetService (as_Name s)) Missing) in
  let w1 := (storePostService payload (world e)).2 in
  let e2 := addNotice
              (setWorld w1
                 (logEvent (logEvent e1 (mkEvent (CGetService (as_Name s)) Missing))
                           (mkEvent (CPostService payload) Found)))
              (Print LSuccess FmtServiceCreated [VStr (as_Name s)]) in
  syncServiceURL (execFlags false false url) s e
  = if streq (as_Name s) "" || streq (as_URL s) "" then (e1, Err ErrClientArgs)
    else if hasExtras s
         then (setWorld (storePatchService (as_Name s) (extrasPatch s) w1).2
                 (logEvent e2 (mkEvent (CPatchService (as_Name s) (extrasPatch s)) Found)),
               Ok tt)
         else (e2, Ok tt).
Proof.
  intros Hf payload e1 w1 e2.
  destruct (found_after_post_service payload (world e) Hf) as (s' & Hs' & _).
  store_unfold. env_simpl. store_step. rewrite Hf. env_simpl.
  destruct (_ || _); env_simpl; [reflexivity|].
  store_step. rewrite Hf. env_simpl. fold payload.
  match goal with |- context [request _ _ _ _ ?env] =>
    destruct (store_post_service payload env Hf) as [s2 Hpost] end.
  rewrite Hpost. env_simpl. change (streq "create" "create") with true. cbn iota.
  destruct (hasExtras s) eqn:He; [|reflexivity].
  unfold hasExtras in He. rewrite He. cbn [negb]. fold (extrasPatch s).
  erewrite store_patch_service by exact Hs'. reflexivity.
Qed.

Lemma store_syncRoute_present (url : string) (r : applyRoute) (desired cur : Route)
    (name : string) (e : Env Store) :
  findRoute (world e) name = Some cur ->
  syncRoute (execFlags false false url) r desired name e
  = (noticeIf (routeChanged cur r desired) (Print LWarn FmtRouteSkipped [VStr name])
       (logEvent e (mkEvent (CGetRoute name) Found)),
     Ok tt).
Proof.
  intros Hf. store_unfold. env_simpl. store_step. rewrite Hf. env_simpl.
  destruct (routeChanged cur r desired); reflexivity.
Qed.

Lemma store_syncRoute_absent (ow : bool) (url : string) (r : applyRoute) (desired : Route)
    (name : string) (e : Env Store) :
  findRoute (world e) name = None -> rt_Name desired = name ->
  ref_ID (rt_Service desired) = "" ->
  let svcName := ref_Name (rt_Service desired) in
  let e1 := logEvent e (mkEvent (CGetRoute name) Missing) in
  syncRoute (execFlags false ow url) r desired name e
  = if streq name "" then (e1, Err ErrClientArgs)
    else if sneq svcName "" then
      match findService (world e) svcName with
      | None => (logEvent e1 (mkEvent (CGetService svcName) Missing),
                 Err (ErrServiceMissing svcName))
      | Some svc =>
          let e2 := logEvent e1 (mkEvent (CGetService svcName) Found) in
          if streq (svc_ID svc) "" then (e2, Err ErrRouteService)
          else
            let d := withServiceID desired (svc_ID svc) in
            (addNotice
               (setWorld (storePostRoute d (world e)).2
                  (logEvent (logEvent e2 (mkEvent (CGetRoute name) Missing))
                            (mkEvent (CPostRoute d) Found)))
               (Print LSuccess FmtRouteDone
                      [VStr "created"; VStr name; VStr (ar_Service r)]),
             Ok tt)
      end
    else (e1, Err ErrRouteService).
Proof.
  intros Hf Hn Hid svcName e1.
  store_unfold. env_simpl. store_step. rewrite Hf. env_simpl.
  rewrite Hn, Hid. change (streq "" "") with true. cbn [andb].
  destruct (streq name ""); env_simpl; [reflexivity|].
  fold svcName. destruct (sneq svcName ""); env_simpl.
  - store_step. destruct (findService (world e) svcName) as [svc|]; env_simpl;
      [|reflexivity].
    cbn [withServiceID rt_Service ref_ID rt_Name].
    destruct (streq (svc_ID svc) ""); env_simpl; [reflexivity|].
    store_step. rewrite Hn, Hf. env_simpl.
    match goal with |- context [request (CPostRoute ?d) _ _ _ ?env] =>
      destruct (store_post_route d env) as [r' Hpost] end.
    { change (findRoute (world e) (rt_Name desired) = None). now rewrite Hn. }
    rewrite Hpost. reflexivity.
  - rewrite Hid. change (streq "" "") with true. reflexivity.
Qed.

(** ** A run writes only what did not exist *)

Lemma writesAbsent_lookup (w : Store) (c : Call) (o : Outcome) :
  touched c = None -> writesAbsent w (mkEvent c o).
Proof. intros Hc r. simpl. congruence. Qed.

Lemma writesAbsent_before (w w' : Store) (ev : Event) :
  extends w w' -> writesAbsent w' ev -> writesAbsent w ev.
Proof. intros Hext Hw r Hr. eapply absent_before; eauto. Qed.

Lemma createdIn_notPost (w : Store) (c : Call) (o : Outcome) :
  isPost c = false -> createdIn w (mkEvent c o).
Proof. intros Hc r. simpl. congruence. Qed.

Lemma createdIn_after (w w' : Store) (ev : Event) :
  extends w w' -> createdIn w ev -> createdIn w' ev.
Proof. intros Hext Hc r H1 H2 H3. apply Hext. now apply Hc. Qed.

Lemma careful_ret {A} (a : A) : careful (ret a).
Proof.
  intros e. exists []. simpl. rewrite app_nil_r.
  repeat split; [apply extends_refl | constructor | constructor].
Qed.

Lemma careful_fail {A} (x : Error) : careful (fail (A:=A) x).
Proof.
  intros e. exists []. simpl. rewrite app_nil_r.
  repeat split; [apply extends_refl | constructor | constructor].
Qed.

Lemma careful_bind {A B} (c : M Store A) (k : A -> M Store B) :
  careful c -> (forall a, careful (k a)) -> careful (bind c k).
Proof.
  intros Hc Hk e. unfold bind.
  destruct (Hc e) as (n1 & Ht1 & He1 & Hw1 & Hc1).
  destruct (c e) as [e1 [a|x]]; simpl in *; [|exists n1; auto].
  destruct (Hk a e1) as (n2 & Ht2 & He2 & Hw2 & Hc2).
  exists (n1 ++ n2). split; [now rewrite Ht2, Ht1, app_assoc|].
  split; [eapply extends_trans; eauto|]. split; apply Forall_app; split; auto.
  - eapply Forall_impl; [exact Hw2|]. intros ev. now apply writesAbsent_before.
  - eapply Forall_impl; [exact Hc1|]. intros ev. now apply createdIn_after.
Qed.

Lemma careful_quiet {A} (c : M Store A) :
  (forall e, world (c e).1 = world e /\ trace (c e).1 = trace e) -> careful c.
Proof.
  intros Hq e. destruct (Hq e) as [Hw Ht]. exists []. rewrite Ht, Hw, app_nil_r.
  repeat split; [apply extends_refl | constructor | constructor].
Qed.

Lemma careful_when (b : bool) (c : M Store unit) : careful c -> careful (when b c).
Proof. intros Hc. destruct b; [exact Hc | apply careful_ret]. Qed.

Lemma careful_forEach {A} (xs : list A) (body : A -> M Store unit) :
  (forall x, careful (body x)) -> careful (forEach xs body).
Proof.
  intros Hb. induction xs as [|x r IH]; simpl; [apply careful_ret|].
  apply careful_bind; [apply Hb | intros _; exact IH].
Qed.

Ltac careful_facts :=
  repeat match goal with
    | |- Forall _ [] => constructor
    | |- Forall _ (_ :: _) => constructor
    | |- writesAbsent _ _ => apply writesAbsent_lookup; reflexivity
    | |- createdIn _ _ => apply createdIn_notPost; reflexivity
    end.

Ltac env_norm :=
  env_simpl; repeat progress (rewrite ?trace_noticeIf, ?world_noticeIf; env_simpl).

Ltac careful_case new :=
  exists new; split;
  [ env_norm; rewrite <- ?app_assoc; reflexivity | env_norm ].

Lemma careful_ensureUpstream (wd : bool) (url : string) (info : Format)
    (args : list Val) (name : string) :
  careful (ensureUpstream (execFlags wd false url) info args name).
Proof.
  intros e. rewrite store_ensureUpstream. cbv zeta.
  fold (noticeIf wd (Print LInfo info args) e).
  destruct (findUpstream (world e) name) as [u|] eqn:Hf;
    [|destruct (streq name "")].
  - careful_case [mkEvent (CGetUpstream name) Found].
    split; [apply extends_refl | split; careful_facts].
  - careful_case [mkEvent (CGetUpstream name) Missing].
    split; [apply extends_refl | split; careful_facts].
  - careful_case [mkEvent (CGetUpstream name) Missing; mkEvent (CGetUpstream name) Missing;
                  mkEvent (CPostUpstream (mkUpstream "" name)) Found].
    destruct (extends_postUpstream (mkUpstream "" name) (world e)) as [Hext Hp].
    split; [exact Hext | split; careful_facts].
    + intros r [= <-]. rewrite present_upstream. now rewrite Hf.
    + intros r _ _ [= <-]. exact Hp.
Qed.

Lemma careful_ensureTarget (wd : bool) (url up : string) (t : applyTarget) :
  careful (ensureTarget (execFlags wd false url) up t).
Proof.
  intros e. rewrite store_ensureTarget. cbv zeta.
  fold (noticeIf wd (Print LInfo FmtEnsureTarget
                           [VStr (at_Target t); VInt (weightOf t); VStr up]) e).
  destruct (findUpstream (world e) up) as [u|] eqn:Hu.
  - destruct (find _ (targetsOf (world e) up)) as [x|] eqn:Hf.
    + destruct (_ || _).
      * careful_case [mkEvent (CGetTargets up) (Listed (targetsOf (world e) up))].
        split; [apply extends_refl | split; careful_facts].
      * careful_case [mkEvent (CGetTargets up) (Listed (targetsOf (world e) up))].
        split; [apply extends_refl | split; careful_facts].
    + destruct (_ || _).
      * careful_case [mkEvent (CGetTargets up) (Listed (targetsOf (world e) up));
                      mkEvent (CGetTargets up) (Listed (targetsOf (world e) up))].
        split; [apply extends_refl | split; careful_facts].
      * careful_case [mkEvent (CGetTargets up) (Listed (targetsOf (world e) up));
                      mkEvent (CGetTargets up) (Listed (targetsOf (world e) up));
                      mkEvent (CPostTarget up (mkTarget "" (at_Target t) (weightOf t)))
                              Found].
        destruct (extends_postTarget up (mkTarget "" (at_Target t) (weightOf t))
                    (world e)) as [Hext Hp].
        split; [exact Hext | split; careful_facts].
        -- intros r [= <-]. rewrite present_target. cbn [tg_Target]. now rewrite Hf.
        -- intros r _ _ [= <-]. apply Hp. now rewrite Hu.
  - careful_case [mkEvent (CGetTargets up) (Failed (ErrHTTP 404))].
    split; [apply extends_refl | split; careful_facts].
Qed.

Lemma created_service_facts (payload : Service) (p : ServicePatch) (w : Store) :
  findService w (svc_Name payload) = None ->
  let w1 := (storePostService payload w).2 in
  let w2 := (storePatchService (svc_Name payload) p w1).2 in
  presentIn w (RService (svc_Name payload)) = false
  /\ extends w w1 /\ presentIn w1 (RService (svc_Name payload)) = true
  /\ extends w w2 /\ presentIn w2 (RService (svc_Name payload)) = true.
Proof.
  intros Hf w1 w2.
  destruct (extends_postService payload w) as [Hext Hp].
  pose proof (extends_patchService (svc_Name payload) p w1) as Hext2.
  rewrite present_service, Hf.
  split; [reflexivity|]. split; [exact Hext|]. split; [exact Hp|].
  split; [eapply extends_trans; eauto | now apply Hext2].
Qed.

Lemma careful_syncServiceViaUpstream (wd : bool) (url : string) (s : applyService) :
  careful (syncServiceViaUpstream (execFlags wd false url) s).
Proof.
  intros e. destruct (findService (world e) (as_Name s)) as [cur|] eqn:Hf.
  - rewrite (store_syncServiceViaUpstream_present wd url s cur e Hf). cbv zeta.
    careful_case [mkEvent (CGetService (as_Name s)) Found].
    split; [apply extends_refl | split; careful_facts].
  - rewrite syncServiceViaUpstream_diff.
    set (e0 := noticeIf wd _ e).
    assert (Hw : world e0 = world e) by apply world_noticeIf.
    assert (Ht : trace e0 = trace e) by apply trace_noticeIf.
    rewrite <- Hw in Hf. rewrite store_syncServiceViaUpstream_absent by exact Hf.
    cbv zeta. rewrite <- Hw, <- Ht.
    set (payload := servicePayload _ _ _ _ _) in *.
    destruct (created_service_facts payload (extrasPatch s) (world e0) Hf)
      as (Ha & He1 & Hp1 & He2 & Hp2).
    destruct (_ || _); [|destruct (hasExtras s)].
    + careful_case [mkEvent (CGetService (as_Name s)) Missing].
      split; [apply extends_refl | split; careful_facts].
    + careful_case [mkEvent (CGetService (as_Name s)) Missing;
                    mkEvent (CGetService (as_Name s)) Missing;
                    mkEvent (CPostService payload) Found;
                    mkEvent (CPatchService (as_Name s) (extrasPatch s)) Found].
      split; [exact He2 | split; careful_facts].
      * intros r [= <-]. exact Ha.
      * intros r [= <-]. exact Ha.
      * intros r _ _ [= <-]. exact Hp2.
    + careful_case [mkEvent (CGetService (as_Name s)) Missing;
                    mkEvent (CGetService (as_Name s)) Missing;
                    mkEvent (CPostService payload) Found].
      split; [exact He1 | split; careful_facts].
      * intros r [= <-]. exact Ha.
      * intros r _ _ [= <-]. exact Hp1.
Qed.

Lemma careful_syncServiceURL (wd : bool) (url : string) (s : applyService) :
  careful (syncServiceURL (execFlags wd false url) s).
Proof.
  intros e. rewrite syncServiceURL_diff.
  set (e0 := noticeIf wd _ e).
  assert (Hw : world e0 = world e) by apply world_noticeIf.
  assert (Ht : trace e0 = trace e) by apply trace_noticeIf.
  rewrite <- Hw, <- Ht.
  destruct (findService (world e0) (as_Name s)) as [cur|] eqn:Hf.
  - rewrite (store_syncServiceURL_present url s cur e0 Hf).
    careful_case [mkEvent (CGetService (as_Name s)) Found].
    split; [apply extends_refl | split; careful_facts].
  - rewrite store_syncServiceURL_absent by exact Hf. cbv zeta.
    set (payload := mkService _ _ _ _ _ _ _ _ _ _ _) in *.
    destruct (created_service_facts payload (extrasPatch s) (world e0) Hf)
      as (Ha & He1 & Hp1 & He2 & Hp2).
    destruct (_ || _); [|destruct (hasExtras s)].
    + careful_case [mkEvent (CGetService (as_Name s)) Missing].
      split; [apply extends_refl | split; careful_facts].
    + careful_case [mkEvent (CGetService (as_Name s)) Missing;
                    mkEvent (CGetService (as_Name s)) Missing;
                    mkEvent (CPostService payload) Found;
                    mkEvent (CPatchService (as_Name s) (extrasPatch s)) Found].
      split; [exact He2 | split; careful_facts].
      * intros r [= <-]. exact Ha.
      * intros r [= <-]. exact Ha.
      * intros r _ _ [= <-]. exact Hp2.
    + careful_case [mkEvent (CGetService (as_Name s)) Missing;
                    mkEvent (CGetService (as_Name s)) Missing;
                    mkEvent (CPostService payload) Found].
      split; [exact He1 | split; careful_facts].
      * intros r [= <-]. exact Ha.
      * intros r _ _ [= <-]. exact Hp1.
Qed.

Lemma careful_syncAutoService (wd : bool) (url svc up proto : string) (port : Z)
    (path : string) :
  careful (syncAutoService (execFlags wd false url) svc up proto port path).
Proof.
  intros e. rewrite syncAutoService_diff.
  set (e0 := noticeIf wd _ e).
  assert (Hw : world e0 = world e) by apply world_noticeIf.
  assert (Ht : trace e0 = trace e) by apply trace_noticeIf.
  rewrite <- Hw, <- Ht.
  destruct (findService (world e0) svc) as [cur|] eqn:Hf.
  - rewrite (store_syncAutoService_present url svc up proto port path cur e0 Hf).
    careful_case [mkEvent (CGetService svc) Found].
    split; [apply extends_refl | split; careful_facts].
  - rewrite store_syncAutoService_absent by exact Hf. cbv zeta.
    set (payload := servicePayload _ _ _ _ _) in *.
    destruct (created_service_facts payload noServicePatch (world e0) Hf)
      as (Ha & He1 & Hp1 & _).
    destruct (_ || _).
    + careful_case [mkEvent (CGetService svc) Missing].
      split; [apply extends_refl | split; careful_facts].
    + careful_case [mkEvent (CGetService svc) Missing; mkEvent (CGetService svc) Missing;
                    mkEvent (CPostService payload) Found].
      split; [exact He1 | split; careful_facts].
      * intros r [= <-]. exact Ha.
      * intros r _ _ [= <-]. exact Hp1.
Qed.

Lemma careful_syncRoute (wd : bool) (url : string) (r : applyRoute) (desired : Route)
    (name : string) :
  rt_Name desired = name -> ref_ID (rt_Service desired) = "" ->
  careful (syncRoute (execFlags wd false url) r desired name).
Proof.
  intros Hn Hid e. rewrite syncRoute_diff.
  set (e0 := noticeIf wd _ e).
  assert (Hw : world e0 = world e) by apply world_noticeIf.
  assert (Ht : trace e0 = trace e) by apply trace_noticeIf.
  rewrite <- Hw, <- Ht.
  destruct (findRoute (world e0) name) as [cur|] eqn:Hf.
  - rewrite (store_syncRoute_present url r desired cur name e0 Hf).
    careful_case [mkEvent (CGetRoute name) Found].
    split; [apply extends_refl | split; careful_facts].
  - rewrite (store_syncRoute_absent false url r desired name e0 Hf Hn Hid). cbv zeta.
    set (svcName := ref_Name (rt_Service desired)).
    destruct (streq name ""); [|destruct (sneq svcName "")].
    + careful_case [mkEvent (CGetRoute name) Missing].
      split; [apply extends_refl | split; careful_facts].
    + destruct (findService (world e0) svcName) as [svc|];
        [destruct (streq (svc_ID svc) "")|].
      * careful_case [mkEvent (CGetRoute name) Missing;
                      mkEvent (CGetService svcName) Found].
        split; [apply extends_refl | split; careful_facts].
      * set (d := withServiceID desired (svc_ID svc)).
        careful_case [mkEvent (CGetRoute name) Missing;
                      mkEvent (CGetService svcName) Found;
                      mkEvent (CGetRoute name) Missing;
                      mkEvent (CPostRoute d) Found].
        destruct (extends_postRoute d (world e0)) as [Hext Hp].
        split; [exact Hext | split; careful_facts].
        -- intros x [= <-].
           change (presentIn (world e0) (RRoute (rt_Name desired)) = false).
           rewrite Hn, present_route. now rewrite Hf.
        -- intros x _ _ [= <-]. exact Hp.
      * careful_case [mkEvent (CGetRoute name) Missing;
                      mkEvent (CGetService svcName) Missing].
        split; [apply extends_refl | split; careful_facts].
    + careful_case [mkEvent (CGetRoute name) Missing].
      split; [apply extends_refl | split; careful_facts].
Qed.

Lemma careful_recordAuto (i : autoRouteInfo) : careful (recordAuto i).
Proof. apply careful_quiet. intros e. split; reflexivity. Qed.

Lemma careful_upstreamStep (wd : bool) (url : string) (up : applyUpstream) :
  careful (upstreamStep (execFlags wd false url) up).
Proof.
  unfold upstreamStep. destruct (streq (au_Name up) ""); [apply careful_fail|].
  apply careful_bind; [apply careful_ensureUpstream | intros _].
  apply careful_forEach. intros t. apply careful_ensureTarget.
Qed.

Lemma careful_serviceStep (wd : bool) (url : string) (s : applyService) :
  careful (serviceStep (execFlags wd false url) s).
Proof.
  unfold serviceStep. destruct (streq (as_Name s) ""); [apply careful_fail|].
  destruct (sneq (as_Upstream s) "").
  - apply careful_bind; [apply careful_ensureUpstream | intros _].
    apply careful_bind; [|intros _; apply careful_syncServiceViaUpstream].
    apply careful_forEach. intros t. apply careful_ensureTarget.
  - destruct (streq (as_URL s) ""); [apply careful_fail | apply careful_syncServiceURL].
Qed.

Lemma careful_shorthand (wd : bool) (url : string) (r : applyRoute) (name : string) :
  careful (shorthand (execFlags wd false url) r name).
Proof.
  unfold shorthand. destruct (streq name ""); [apply careful_fail|].
  apply careful_bind; [apply careful_recordAuto | intros _].
  apply careful_bind; [apply careful_ensureUpstream | intros _].
  apply careful_bind; [apply careful_forEach; intros t; apply careful_ensureTarget|].
  intros _. apply careful_bind; [apply careful_syncAutoService | intros _].
  apply careful_ret.
Qed.

Lemma careful_routeStep (wd : bool) (url : string) (r : applyRoute) :
  careful (routeStep (execFlags wd false url) r).
Proof.
  unfold routeStep. apply careful_bind.
  - destruct (streq (ar_Service r) ""); [apply careful_shorthand | apply careful_ret].
  - intros r'. destruct (_ && _); [apply careful_fail|].
    apply careful_syncRoute; reflexivity.
Qed.

Lemma careful_RunE (wd : bool) (url : string) (content : Content) :
  careful (RunE (execFlags wd false url) content).
Proof.
  unfold RunE. destruct (normalize content) as [spec|x]; [|apply careful_fail].
  destruct (streq _ ""); [apply careful_fail|]. unfold reconcile.
  apply careful_bind; [apply careful_forEach, careful_upstreamStep | intros _].
  apply careful_bind; [apply careful_forEach, careful_serviceStep | intros _].
  apply careful_bind; [apply careful_forEach, careful_routeStep | intros _].
  apply careful_ret.
Qed.

Lemma sameResource_eq (a b : Resource) : sameResource a b = true -> a = b.
Proof.
  destruct a, b; simpl; try discriminate; rewrite ?andb_true_iff;
    intros H; repeat match goal with H : _ /\ _ |- _ => destruct H end;
    repeat match goal with H : streq _ _ = true |- _ => apply streq_true in H end;
    congruence.
Qed.

Lemma createdBy_present (w : Store) (new : list Event) (r : Resource) :
  Forall (createdIn w) new -> createdBy new r = true -> presentIn w r = true.
Proof.
  intros Hall Hc. apply existsb_exists in Hc as (ev & Hin & Hev).
  rewrite List.Forall_forall in Hall. specialize (Hall ev Hin).
  unfold creates, writes in Hev. apply andb_true_iff in Hev as [Hev Hw].
  apply andb_true_iff in Hev as [Hp Hf].
  destruct (touched (ev_call ev)) as [x|] eqn:Ht; [|discriminate].
  apply sameResource_eq in Hw as ->. apply Hall; auto.
  destruct (ev_outcome ev); try discriminate. reflexivity.
Qed.

Lemma writtenBy_absent (w : Store) (new : list Event) (r : Resource) :
  Forall (writesAbsent w) new -> writtenBy new r = true -> presentIn w r = false.
Proof.
  intros Hall Hc. apply existsb_exists in Hc as (ev & Hin & Hev).
  rewrite List.Forall_forall in Hall. specialize (Hall ev Hin).
  unfold writes in Hev.
  destruct (touched (ev_call ev)) as [x|] eqn:Ht; [|discriminate].
  apply sameResource_eq in Hev as ->. now apply Hall.
Qed.

(** What an executing run without [--overwrite] adds to the log of the
    reference store: every create is verified, every write is to a
    resource that did not exist, and what was created exists afterwards. *)
Lemma run_on_store (wd : bool) (url : string) (content : Content) (e : Env Store) :
  let out := (RunE (execFlags wd false url) content e).1 in
  exists new,
    trace out = trace e ++ new
    /\ createsVerified new
    /\ extends (world e) (world out)
    /\ (forall r, writtenBy new r = true -> presentIn (world e) r = false)
    /\ (forall r, createdBy new r = true -> presentIn (world out) r = true).
Proof.
  intros out. subst out.
  destruct (careful_RunE wd url content e) as (new & Ht & Hext & Hw & Hc).
  destruct (RunE_verifies wd url content e) as (new' & Ht' & Hv).
  rewrite Ht in Ht'. apply app_inv_head in Ht' as <-.
  exists new. split; [exact Ht|]. split; [exact Hv|]. split; [exact Hext|]. split.
  - intros r. now apply writtenBy_absent.
  - intros r. now apply createdBy_present.
Qed.

(** C4: the same document is applied twice to the reference store, without
    [--overwrite], the second run starting from the store the first one
    left.  Every resource the first run created exists when it ends, and
    the second run sends no create and no patch for it; the second run
    writes nothing that existed when it started.  In both runs every
    create follows a lookup that reported the resource absent. *)
Theorem C4_second_run_creates_nothing_again (withDiff withDiff' : bool) (url : string)
    (content : Content) (e e' : Env Store) :
  let first := (RunE (execFlags withDiff false url) content e).1 in
  let second := (RunE (execFlags withDiff' false url) content e').1 in
  world e' = world first ->
  exists new1 new2,
    trace first = trace e ++ new1
    /\ trace second = trace e' ++ new2
    /\ createsVerified new1 /\ createsVerified new2
    /\ (forall r, createdBy new1 r = true ->
                  presentIn (world first) r = true /\ writtenBy new2 r = false)
    /\ (forall r, writtenBy new2 r = true -> presentIn (world first) r = false)
    /\ extends (world first) (world second).
Proof.
  intros first second Hw.
  destruct (run_on_store withDiff url content e) as (new1 & Ht1 & Hv1 & _ & _ & Hc1).
  destruct (run_on_store withDiff' url content e') as (new2 & Ht2 & Hv2 & He2 & Hw2 & _).
  fold first in Ht1, Hc1. fold second in Ht2, He2. rewrite Hw in Hw2, He2.
  exists new1, new2. repeat match goal with |- _ /\ _ => split end; auto.
  intros r Hr. split; [now apply Hc1|].
  destruct (writtenBy new2 r) eqn:Hwr; [|reflexivity].
  specialize (Hc1 r Hr). rewrite (Hw2 r Hwr) in Hc1. discriminate.
Qed.

Lemma C4_witness :
  world afterDemo = world afterDemo
  /\ exists new1 new2,
       trace afterDemo = trace (initEnv emptyStore) ++ new1
       /\ trace (RunE (execFlags false false localhost) (ofSequence [demoRoute])
                      afterDemo).1
          = trace afterDemo ++ new2
       /\ createsVerified new1 /\ createsVerified new2
       /\ (forall r, createdBy new1 r = true ->
                     presentIn (world afterDemo) r = true /\ writtenBy new2 r = false)
       /\ (forall r, writtenBy new2 r = true -> presentIn (world afterDemo) r = false)
       /\ extends (world afterDemo)
            (world (RunE (execFlags false false localhost) (ofSequence [demoRoute])
                         afterDemo).1).
Proof.
  split; [reflexivity|].
  apply (C4_second_run_creates_nothing_again false false localhost
           (ofSequence [demoRoute]) (initEnv emptyStore) afterDemo).
  reflexivity.
Defined.

(** The example document, applied twice: the first run creates the
    upstream, the target, the service and the route; the second run sends
    four lookups and nothing else, and prints nothing. *)
Lemma demo_applied_twice :
  map (λ ev, isPost (ev_call ev)) (trace afterDemo)
  = [false; false; true; false; false; true; false; false; true;
     false; false; false; true]
  /\ (let out := RunE (execFlags false false localhost) (ofSequence [demoRoute])
                      (initEnv (world afterDemo)) in
      map ev_call (trace out.1)
      = [CGetUpstream "demo-upstream"; CGetTargets "demo-upstream";
         CGetService "demo-service"; CGetRoute "demo"]
      /\ out.2 = Ok tt /\ notices out.1 = [] /\ world out.1 = world afterDemo).
Proof. vm_compute. repeat split. Qed.

(** ** The resources of a shorthand route *)




Lemma targetsOf_snoc (w : Store) (up : string) (t : Target) :
  targetsOf (mkStore (st_upstreams w) (st_targets w ++ [(up, t)]) (st_services w)
                     (st_routes w)) up
  = targetsOf w up ++ [t].
Proof.
  unfold targetsOf. cbn [st_targets]. rewrite filter_app, map_app. f_equal.
  rewrite filter_cons_True by reflexivity. reflexivity.
Qed.










(** ** [strip_path] defaults to [true] *)

#[export] Instance stripPathSent_sequential (v : option bool) :
  Sequential (stripPathSent v).
Proof.
  split; unfold stripPathSent.
  - constructor.
  - intros n1 n2 _ H1 H2. now apply Forall_app.
Qed.

Section StripPath.
Context {W : Type} `{Admin W}.

Lemma request_strip {A B} (v : option bool) (c : Call) (send : W -> Reply A * W)
    (decode : Reply A -> Res B) (read : Res B -> Outcome) :
  sendsStripPath v c -> emits (lift (stripPathSent v)) (request c send decode read).
Proof.
  intros Hc. apply (seq_request (stripPathSent v)). intros r.
  constructor; [exact Hc | constructor].
Qed.

Ltac strip_step v :=
  first [ apply request_strip; exact I
        | apply (seq_fail (stripPathSent v)); constructor
        | seq_step (stripPathSent v) ].

(** The part of [CreateOrUpdateRoute] that follows the lookup of the
    service. *)
Lemma createOrPatch_strip (d : Route) :
  emits (lift (stripPathSent (rt_StripPath d)))
    (if streq (ref_ID (rt_Service d)) "" then fail (W:=W) ErrRouteService
     else
       let* cur := GetRoute (rt_Name d) in
       match cur with
       | None =>
           let* rt := request (CPostRoute d) (postRoute d)
                              (decodeJSON zeroKongRoute) readJSON in
           ret ("create", rt)
       | Some cur =>
           let payload := routePatchOf d in
           let* rt := request (CPatchRoute (rt_Name cur) payload)
                              (patchRoute (rt_Name cur) payload)
                              (decodeJSON zeroKongRoute) readJSON in
           ret ("update", rt)
       end).
Proof.
  unfold GetRoute.
  repeat first [ apply request_strip; reflexivity | strip_step (rt_StripPath d) ].
Qed.

Lemma CreateOrUpdateRoute_strip (desired : Route) :
  emits (lift (stripPathSent (rt_StripPath desired))) (CreateOrUpdateRoute (W:=W) desired).
Proof.
  unfold CreateOrUpdateRoute.
  destruct (streq (rt_Name desired) ""); [strip_step (rt_StripPath desired)|].
  eapply emits_bind with
    (Φ1 := λ new r, stripPathSent (rt_StripPath desired) new None
                    /\ forall d, r = Ok d -> rt_StripPath d = rt_StripPath desired)
    (Φ2 := λ d, lift (stripPathSent (rt_StripPath d))).
  - destruct (_ && _).
    + eapply emits_bind with
        (Φ1 := lift (stripPathSent (rt_StripPath desired)))
        (Φ2 := λ _ new r, new = []
                          /\ forall d, r = Ok d -> rt_StripPath d = rt_StripPath desired).
      * unfold GetService. strip_step (rt_StripPath desired).
      * intros [svc|]; [apply emits_ret | apply emits_fail];
          (split; [reflexivity|]); [now intros d [= <-] | discriminate].
      * intros n1 a n2 r H1 [-> H2]. rewrite app_nil_r. split; [exact H1 | exact H2].
      * intros n1 x H1. split; [exact H1 | discriminate].
    + apply emits_ret. split; [constructor | now intros d [= <-]].
  - intros d. apply createOrPatch_strip.
  - intros n1 d n2 r [H1 Hd] H2. unfold lift, stripPathSent in *.
    rewrite (Hd d eq_refl) in H2. now apply Forall_app.
  - intros n1 x [H1 _]. exact H1.
Qed.

Lemma attempt_strip {A} (v : option bool) (c : M W A) :
  emits (lift (stripPathSent v)) c -> emits (lift (stripPathSent v)) (attempt c).
Proof.
  intros Hc. eapply emits_weaken; [|apply emits_attempt, Hc].
  intros n r (r' & -> & Hn). exact Hn.
Qed.

Lemma syncRoute_strip (fl : Flags) (r : applyRoute) (desired : Route) (name : string) :
  emits (lift (stripPathSent (rt_StripPath desired))) (syncRoute (W:=W) fl r desired name).
Proof.
  unfold syncRoute, GetRoute.
  repeat first [ apply CreateOrUpdateRoute_strip | apply attempt_strip
               | strip_step (rt_StripPath desired) ].
Qed.

End StripPath.

Section StripPathOfARoute.
Context {W : Type} `{Admin W}.
Variables (v : option bool) (fl : Flags).

Ltac quiet_step :=
  first [ apply request_strip; exact I
        | apply attempt_strip
        | apply (seq_fail (stripPathSent v)); constructor
        | seq_step (stripPathSent v) ].

Ltac quiet_unfold :=
  unfold ensureUpstream, ensureTarget, syncAutoService, CreateOrUpdateUpstream,
    GetUpstream, EnsureTarget, ListTargets, AddTarget, GetService,
    CreateOrUpdateServiceViaUpstream.

Lemma ensureUpstream_strip (info : Format) (args : list Val) (name : string) :
  emits (lift (stripPathSent v)) (ensureUpstream (W:=W) fl info args name).
Proof. quiet_unfold. repeat quiet_step. Qed.

Lemma ensureTarget_strip (up : string) (t : applyTarget) :
  emits (lift (stripPathSent v)) (ensureTarget (W:=W) fl up t).
Proof. quiet_unfold. repeat quiet_step. Qed.

Lemma syncAutoService_strip (svc up proto : string) (port : Z) (path : string) :
  emits (lift (stripPathSent v)) (syncAutoService (W:=W) fl svc up proto port path).
Proof. quiet_unfold. repeat quiet_step. Qed.

(** Sequencing, with what is known of the value the run returns. *)
Lemma strip_bind {A B} (Q : B -> Prop) (c : M W A) (k : A -> M W B) :
  emits (lift (stripPathSent v)) c ->
  (forall a, emits (λ new res, stripPathSent v new (errorOf res)
                               /\ forall b, res = Ok b -> Q b) (k a)) ->
  emits (λ new res, stripPathSent v new (errorOf res) /\ forall b, res = Ok b -> Q b)
        (bind c k).
Proof.
  intros Hc Hk. eapply emits_bind; [exact Hc | exact Hk | |].
  - intros n1 a n2 res H1 [H2 HQ]. split; [|exact HQ].
    unfold lift, stripPathSent in *. now apply Forall_app.
  - intros n1 x H1. split; [exact H1 | discriminate].
Qed.

(** The shorthand block sends no request for a route, and the route it
    returns has the [strip_path] of the route it was given. *)
Lemma shorthand_strip (r : applyRoute) (name : string) :
  emits (λ new res, stripPathSent v new (errorOf res)
                    /\ forall r', res = Ok r' -> ar_StripPath r' = ar_StripPath r)
        (shorthand (W:=W) fl r name).
Proof.
  unfold shorthand. destruct (streq name "").
  { apply emits_fail. split; [constructor | discriminate]. }
  apply strip_bind; [apply (seq_silent (stripPathSent v)), emits_recordAuto | intros _].
  apply strip_bind; [apply ensureUpstream_strip | intros _].
  apply strip_bind; [|intros _].
  { apply (seq_forEach (stripPathSent v)). intros t. apply ensureTarget_strip. }
  apply strip_bind; [apply syncAutoService_strip | intros _].
  apply emits_ret. split; [constructor | now intros r' [= <-]].
Qed.

End StripPathOfARoute.

Lemma routeStep_strip {W} `{Admin W} (fl : Flags) (r : applyRoute) :
  emits (lift (stripPathSent (stripPathOf r))) (routeStep (W:=W) fl r).
Proof.
  unfold routeStep. cbv zeta.
  eapply emits_bind with
    (Φ1 := λ new res, stripPathSent (stripPathOf r) new (errorOf res)
                      /\ forall r', res = Ok r' -> ar_StripPath r' = ar_StripPath r)
    (Φ2 := λ r', lift (stripPathSent (stripPathOf r'))).
  - destruct (streq (ar_Service r) ""); [apply shorthand_strip|].
    apply emits_ret. split; [constructor | now intros r' [= <-]].
  - intros r'. destruct (_ && _).
    + apply (seq_fail (stripPathSent (stripPathOf r'))). constructor.
    + apply (syncRoute_strip fl r' (desiredRoute _ (pathHandlingOf r') r')).
  - intros n1 r' n2 res [H1 Hr] H2. unfold lift, stripPathSent, stripPathOf in *.
    rewrite (Hr r' eq_refl) in H2. now apply Forall_app.
  - intros n1 x [H1 _]. exact H1.
Qed.

(** A remote route that would be in sync if its [strip_path] were on is
    planned as an update whose only difference is [strip_path]. *)
Lemma strip_path_alone (cur : Route) (r : applyRoute) (name : string) :
  ar_StripPath r = None -> deref (rt_StripPath cur) = false ->
  Action (routeVerdict (withStripPath (Some true) cur) r name) = "none" ->
  routeVerdict cur r name
  = mkChange "Route" name "update" [Scalar "strip_path" (VBool false) (VBool true)].
Proof.
  intros Hr Hc Hnone.
  unfold routeVerdict, planRoute in Hnone. cbn [Action] in Hnone.
  match type of Hnone with (if ?b then _ else _) = _ =>
    destruct b eqn:Hall; [discriminate|] end.
  clear Hnone. unfold routeChecks, withStripPath, desiredRoute in Hall.
  cbn [existsb fst rt_Hosts rt_Paths rt_Methods rt_Protocols rt_PreserveHost
       rt_RegexPriority rt_HTTPSRedirectStatusCode rt_RequestBuffering
       rt_ResponseBuffering rt_Headers rt_Snis rt_Tags rt_PathHandling rt_StripPath
       rt_Service ref_Name] in Hall.
  repeat match type of Hall with
         | _ || _ = false => apply orb_false_iff in Hall as [? Hall]
         end.
  unfold routeVerdict, planRoute, routeChecks, desiredRoute.
  cbn [existsb flat_map fst snd rt_Hosts rt_Paths rt_Methods rt_Protocols rt_PreserveHost
       rt_RegexPriority rt_HTTPSRedirectStatusCode rt_RequestBuffering
       rt_ResponseBuffering rt_Headers rt_Snis rt_Tags rt_PathHandling rt_StripPath
       rt_Service ref_Name].
  rewrite Hr, Hc. clear Hc.
  repeat match goal with Hb : ?b = false |- _ => rewrite Hb; clear Hb end.
  reflexivity.
Qed.

(** The route of the example document, as the reference store holds it
    after the run: [strip_path] is on. *)
Lemma demo_route_strips_path :
  option_map rt_StripPath (findRoute (world afterDemo) "demo") = Some (Some true).
Proof. vm_compute. reflexivity. Qed.

(** ** Updates wait for [--overwrite] *)

Lemma find_replaceFirst {A} (p : A -> bool) (new x : A) (l : list A) :
  find p l = Some x -> p new = true -> find p (replaceFirst p new l) = Some new.
Proof.
  intros Hf Hn. induction l as [|y l IH]; simpl in *; [discriminate|].
  destruct (p y) eqn:Hp; simpl.
  - now rewrite Hn.
  - rewrite Hp. now apply IH.
Qed.

Lemma found_after_patch_service (name : string) (p : ServicePatch) (cur : Service)
    (w : Store) :
  findService w name = Some cur ->
  findService (storePatchService name p w).2 name = Some (patchedService p cur).
Proof.
  intros Hf. unfold storePatchService. rewrite Hf. cbn [snd].
  unfold findService in *. cbn [st_services].
  apply (find_replaceFirst _ _ cur); [exact Hf|].
  cbn [patchedService svc_Name]. exact (find_key _ _ _ Hf).
Qed.

Lemma extrasChanged_hasExtras (cur : Service) (s : applyService) :
  extrasChanged cur s = true -> hasExtras s = true.
Proof.
  unfold extrasChanged, hasExtras.
  destruct (0 <? as_Retries s), (0 <? as_ConnectTimeout s), (0 <? as_ReadTimeout s),
    (0 <? as_WriteTimeout s); simpl; congruence.
Qed.

Lemma store_syncServiceViaUpstream_overwrite (url : string) (s : applyService)
    (cur : Service) (e : Env Store) :
  findService (world e) (as_Name s) = Some cur ->
  as_Name s <> "" -> as_Upstream s <> "" ->
  let name := as_Name s in
  let proto := protoOf (as_Protocol s) in
  let port := portOf proto (as_Port s) in
  let core := corePatch (as_Upstream s) proto port (as_Path s) in
  let e1 := logEvent e (mkEvent (CGetService name) Found) in
  let e2 :=
    if coreChanged cur (as_Upstream s) proto port (as_Path s)
    then addNotice
           (setWorld (storePatchService name core (world e)).2
              (logEvent (logEvent e1 (mkEvent (CGetService name) Found))
                        (mkEvent (CPatchService name core) Found)))
           (Print LSuccess FmtServiceDone [VStr "updated"; VStr name; VStr (as_Upstream s)])
    else e1 in
  let e3 :=
    if extrasChanged cur s
    then addNotice
           (setWorld (storePatchService name (extrasPatch s) (world e2)).2
              (logEvent e2 (mkEvent (CPatchService name (extrasPatch s)) Found)))
           (Print LSuccess FmtExtrasDone [VStr name])
    else e2 in
  syncServiceViaUpstream (execFlags false true url) s e = (e3, Ok tt).
Proof.
  intros Hf Hn Hu name proto port core e1 e2 e3.
  apply streq_false in Hn, Hu.
  store_unfold. fold proto. fold port. env_simpl. store_step. rewrite Hf. env_simpl.
  subst e1 e2 e3.
  assert (Hx : extrasChanged cur s = true ->
               negb ((0 <? as_Retries s) || (0 <? as_ConnectTimeout s)
                     || (0 <? as_ReadTimeout s) || (0 <? as_WriteTimeout s)) = false).
  { intros Hx. apply extrasChanged_hasExtras in Hx. unfold hasExtras in Hx.
    now rewrite Hx. }
  fold (extrasPatch s).
  destruct (coreChanged cur _ _ _ _) eqn:Hcore.
  - rewrite Hn, Hu. cbn [orb]. store_step. rewrite Hf. env_simpl.
    fold (protoOf proto). fold (portOf (protoOf proto) port).
    fold (corePatch (as_Upstream s) proto port (as_Path s)). fold core.
    erewrite store_patch_service by exact Hf. env_simpl.
    change (actionCN "update") with "updated".
    destruct (extrasChanged cur s) eqn:He; [|reflexivity].
    rewrite (Hx eq_refl).
    erewrite store_patch_service
      by (cbn [world setWorld]; apply found_after_patch_service; exact Hf).
    reflexivity.
  - destruct (extrasChanged cur s) eqn:He; [|reflexivity].
    rewrite (Hx eq_refl).
    erewrite store_patch_service by exact Hf. reflexivity.
Qed.

Lemma store_syncRoute_overwrite (url : string) (r : applyRoute) (desired cur : Route)
    (name : string) (e : Env Store) :
  findRoute (world e) name = Some cur -> rt_Name desired = name ->
  ref_ID (rt_Service desired) = "" -> name <> "" ->
  let svcName := ref_Name (rt_Service desired) in
  let e1 := logEvent e (mkEvent (CGetRoute name) Found) in
  syncRoute (execFlags false true url) r desired name e
  = if routeChanged cur r desired then
      if sneq svcName "" then
        match findService (world e) svcName with
        | None => (logEvent e1 (mkEvent (CGetService svcName) Missing),
                   Err (ErrServiceMissing svcName))
        | Some svc =>
            let e2 := logEvent e1 (mkEvent (CGetService svcName) Found) in
            if streq (svc_ID svc) "" then (e2, Err ErrRouteService)
            else
              let p := routePatchOf (withServiceID desired (svc_ID svc)) in
              (addNotice
                 (setWorld (storePatchRoute name p (world e)).2
                    (logEvent (logEvent e2 (mkEvent (CGetRoute name) Found))
                              (mkEvent (CPatchRoute name p) Found)))
                 (Print LSuccess FmtRouteDone
                        [VStr "updated"; VStr name; VStr (ar_Service r)]),
               Ok tt)
        end
      else (e1, Err ErrRouteService)
    else (e1, Ok tt).
Proof.
  intros Hf Hn Hid Hne svcName e1.
  assert (Hcur : rt_Name cur = name).
  { apply find_key in Hf. now apply streq_true in Hf. }
  apply streq_false in Hne.
  store_unfold. env_simpl. store_step. rewrite Hf. env_simpl.
  cbn [applyOverwrite execFlags].
  destruct (routeChanged cur r desired); [|reflexivity].
  rewrite Hn, Hid, Hne. change (streq "" "") with true. cbn [andb].
  fold svcName. destruct (sneq svcName ""); env_simpl.
  - store_step. destruct (findService (world e) svcName) as [svc|]; env_simpl;
      [|reflexivity].
    cbn [withServiceID rt_Service ref_ID rt_Name].
    destruct (streq (svc_ID svc) ""); env_simpl; [reflexivity|].
    store_step. rewrite Hn, Hf. env_simpl. rewrite Hcur.
    erewrite store_patch_route by exact Hf. reflexivity.
  - rewrite Hid. change (streq "" "") with true. reflexivity.
Qed.

(** The plan and the executing branch agree on what an update is. *)
Lemma serviceVerdict_action (cur : Service) (s : applyService) :
  Action (serviceVerdict cur s)
  = if coreChanged cur (as_Upstream s) (protoOf (as_Protocol s))
         (portOf (protoOf (as_Protocol s)) (as_Port s)) (as_Path s)
       || extrasChanged cur s
    then "update" else "none".
Proof.
  unfold serviceVerdict, planServiceViaUpstream, coreChanged, extrasChanged.
  cbv zeta. cbn [Action].
  destruct (_ || _ || _ || _);
    destruct (_ && _), (_ && _), (_ && _), (_ && _); reflexivity.
Qed.

Lemma planRoute_action (cur : Route) (r : applyRoute) (desired : Route) (name : string) :
  Action (planRoute (Some cur) r desired name)
  = if routeChanged cur r desired then "update" else "none".
Proof.
  unfold planRoute, routeChecks, routeChanged. cbv zeta.
  cbn [Action existsb fst]. rewrite orb_false_r, !orb_assoc. reflexivity.
Qed.

Lemma store_syncServiceURL_overwrite (url : string) (s : applyService) (cur : Service)
    (e : Env Store) :
  findService (world e) (as_Name s) = Some cur ->
  as_Name s <> "" -> as_URL s <> "" ->
  let name := as_Name s in
  let e1 := logEvent e (mkEvent (CGetService name) Found) in
  let e2 :=
    if sneq (reconstructURL (Some cur)) (as_URL s)
    then addNotice
           (setWorld (storePatchService name (urlPatch (as_URL s)) (world e)).2
              (logEvent (logEvent e1 (mkEvent (CGetService name) Found))
                        (mkEvent (CPatchService name (urlPatch (as_URL s))) Found)))
           (Print LSuccess FmtServiceUpdated [VStr name])
    else e1 in
  let e3 :=
    if extrasChanged cur s
    then addNotice
           (setWorld (storePatchService name (extrasPatch s) (world e2)).2
              (logEvent e2 (mkEvent (CPatchService name (extrasPatch s)) Found)))
           (Print LSuccess FmtExtrasDone [VStr name])
    else e2 in
  syncServiceURL (execFlags false true url) s e = (e3, Ok tt).
Proof.
  intros Hf Hn Hu name e1 e2 e3.
  assert (Hcur : svc_Name cur = as_Name s).
  { apply find_key in Hf. now apply streq_true in Hf. }
  apply streq_false in Hn, Hu.
  store_unfold. env_simpl. store_step. rewrite Hf. env_simpl.
  cbn [applyOverwrite execFlags]. subst e1 e2 e3.
  assert (Hx : extrasChanged cur s = true ->
               negb ((0 <? as_Retries s) || (0 <? as_ConnectTimeout s)
                     || (0 <? as_ReadTimeout s) || (0 <? as_WriteTimeout s)) = false).
  { intros Hx. apply extrasChanged_hasExtras in Hx. unfold hasExtras in Hx.
    now rewrite Hx. }
  fold (extrasPatch s).
  destruct (sneq (reconstructURL (Some cur)) (as_URL s)) eqn:Hurl.
  - rewrite Hn, Hu. cbn [orb]. store_step. rewrite Hf. env_simpl. rewrite Hcur.
    fold (urlPatch (as_URL s)).
    erewrite store_patch_service by exact Hf. env_simpl.
    change (streq "update" "create") with false. cbv iota.
    destruct (extrasChanged cur s) eqn:He; [|reflexivity].
    rewrite (Hx eq_refl).
    erewrite store_patch_service
      by (cbn [world setWorld]; apply found_after_patch_service; exact Hf).
    reflexivity.
  - destruct (extrasChanged cur s) eqn:He; [|reflexivity].
    rewrite (Hx eq_refl).
    erewrite store_patch_service by exact Hf. reflexivity.
Qed.

Lemma store_syncAutoService_overwrite (url svc up proto : string) (port : Z)
    (path : string) (cur : Service) (e : Env Store) :
  findService (world e) svc = Some cur -> svc <> "" -> up <> "" ->
  let e1 := logEvent e (mkEvent (CGetService svc) Found) in
  syncAutoService (execFlags false true url) svc up proto port path e
  = (if coreChanged cur up proto port path
     then addNotice
            (setWorld (storePatchService svc (corePatch up proto port path) (world e)).2
               (logEvent (logEvent e1 (mkEvent (CGetService svc) Found))
                  (mkEvent (CPatchService svc (corePatch up proto port path)) Found)))
            (Print LSuccess FmtAutoServiceDone [VStr "updated"; VStr svc; VStr up])
     else e1,
     Ok tt).
Proof.
  intros Hf Hn Hu e1. apply streq_false in Hn, Hu.
  store_unfold. env_simpl. store_step. rewrite Hf. env_simpl.
  cbn [applyOverwrite execFlags]. subst e1.
  destruct (coreChanged cur _ _ _ _) eqn:Hcore; [|reflexivity].
  rewrite Hn, Hu. cbn [orb]. store_step. rewrite Hf. env_simpl.
  fold (protoOf proto). fold (portOf (protoOf proto) port).
  fold (corePatch up proto port path).
  erewrite store_patch_service by exact Hf. reflexivity.
Qed.

Lemma notices_noticeIf {W} (b : bool) (n : Notice) (e : Env W) :
  notices (noticeIf b n e) = notices e ++ (if b then [n] else []).
Proof. destruct b; simpl; [reflexivity | now rewrite app_nil_r]. Qed.

Lemma mutations_app (l1 l2 : list Event) :
  mutations (l1 ++ l2) = mutations l1 ++ mutations l2.
Proof. unfold mutations. now rewrite map_app, List.filter_app. Qed.

Lemma warnings_app (l1 l2 : list Notice) :
  warnings (l1 ++ l2) = warnings l1 ++ warnings l2.
Proof. unfold warnings. now rewrite List.filter_app. Qed.

Lemma warnings_diff_line (wd : bool) (f : Format) (args : list Val) :
  warnings (if wd then [Print LInfo f args] else []) = [].
Proof. now destruct wd. Qed.

Ltac obs_norm :=
  env_norm;
  repeat progress
    (rewrite ?notices_noticeIf, ?mutations_app, ?warnings_app, ?warnings_diff_line;
     env_norm);
  cbn [mutations warnings List.filter map isMutating isPost isPatch isWarning ev_call
       app orb];
  rewrite <- ?app_assoc, ?app_nil_r.

(** A service that exists, bound to an upstream. *)
Lemma service_gating (wd : bool) (url : string) (s : applyService) (cur : Service)
    (e : Env Store) :
  findService (world e) (as_Name s) = Some cur ->
  as_Name s <> "" -> as_Upstream s <> "" ->
  (let out := syncServiceViaUpstream (execFlags wd false url) s e in
   out.2 = Ok tt /\ world out.1 = world e
   /\ mutations (trace out.1) = mutations (trace e)
   /\ warnings (notices out.1) = warnings (notices e) ++ serviceSkips cur s)
  /\ (let out := syncServiceViaUpstream (execFlags wd true url) s e in
      out.2 = Ok tt
      /\ mutations (trace out.1) = mutations (trace e) ++ servicePatches cur s
      /\ warnings (notices out.1) = warnings (notices e)).
Proof.
  intros Hf Hn Hu. split; cbv zeta.
  - rewrite (store_syncServiceViaUpstream_present wd url s cur e Hf). cbv zeta.
    cbn [fst snd]. fold (coreDiffers cur s).
    split; [reflexivity|]. split; [now env_norm|]. split.
    + obs_norm. reflexivity.
    + unfold serviceSkips.
      destruct (coreDiffers cur s), (extrasChanged cur s); obs_norm; reflexivity.
  - rewrite syncServiceViaUpstream_diff.
    set (e0 := noticeIf wd _ e).
    assert (Hw : world e0 = world e) by apply world_noticeIf.
    assert (Ht : trace e0 = trace e) by apply trace_noticeIf.
    assert (Hno : warnings (notices e0) = warnings (notices e)).
    { unfold e0. rewrite notices_noticeIf, warnings_app, warnings_diff_line.
      apply app_nil_r. }
    rewrite <- Hw in Hf. rewrite <- Ht, <- Hno.
    rewrite (store_syncServiceViaUpstream_overwrite url s cur e0 Hf Hn Hu). cbv zeta.
    cbn [fst snd]. fold (coreDiffers cur s). unfold servicePatches.
    split; [reflexivity|].
    destruct (coreDiffers cur s), (extrasChanged cur s); obs_norm; split; reflexivity.
Qed.

(** A route that exists and differs. *)
Lemma route_gating (wd : bool) (url : string) (r : applyRoute) (name ph : string)
    (cur : Route) (e : Env Store) :
  let desired := desiredRoute name ph r in
  findRoute (world e) name = Some cur -> name <> "" -> ar_Service r <> "" ->
  routeChanged cur r desired = true ->
  (let out := syncRoute (execFlags wd false url) r desired name e in
   out.2 = Ok tt /\ world out.1 = world e
   /\ mutations (trace out.1) = mutations (trace e)
   /\ warnings (notices out.1)
      = warnings (notices e) ++ [Print LWarn FmtRouteSkipped [VStr name]])
  /\ (forall svc,
        findService (world e) (ar_Service r) = Some svc -> svc_ID svc <> "" ->
        let out := syncRoute (execFlags wd true url) r desired name e in
        out.2 = Ok tt
        /\ mutations (trace out.1)
           = mutations (trace e)
             ++ [CPatchRoute name (routePatchOf (withServiceID desired (svc_ID svc)))]
        /\ warnings (notices out.1) = warnings (notices e))
  /\ (findService (world e) (ar_Service r) = None ->
      let out := syncRoute (execFlags wd true url) r desired name e in
      out.2 = Err (ErrServiceMissing (ar_Service r))
      /\ world out.1 = world e
      /\ mutations (trace out.1) = mutations (trace e)).
Proof.
  intros desired Hf Hn Hs Hch.
  assert (Hsn : sneq (ref_Name (rt_Service desired)) "" = true).
  { apply sneq_true. exact Hs. }
  split; [|split]; cbv zeta.
  - rewrite syncRoute_diff.
    set (e0 := noticeIf wd _ e).
    assert (Hw : world e0 = world e) by apply world_noticeIf.
    rewrite <- Hw in Hf.
    rewrite (store_syncRoute_present url r desired cur name e0 Hf), Hch.
    cbn [fst snd]. unfold e0.
    split; [reflexivity|]. split; [now env_norm|]. split; obs_norm; reflexivity.
  - intros svc Hsvc Hid. rewrite syncRoute_diff.
    set (e0 := noticeIf wd _ e).
    assert (Hw : world e0 = world e) by apply world_noticeIf.
    rewrite <- Hw in Hf, Hsvc.
    rewrite (store_syncRoute_overwrite url r desired cur name e0 Hf eq_refl eq_refl Hn).
    cbv zeta. rewrite Hch, Hsn.
    change (ref_Name (rt_Service desired)) with (ar_Service r). rewrite Hsvc.
    rewrite (proj2 (streq_false _ _) Hid). cbn [fst snd]. unfold e0.
    split; [reflexivity|]. split; obs_norm; reflexivity.
  - intros Hsvc. rewrite syncRoute_diff.
    set (e0 := noticeIf wd _ e).
    assert (Hw : world e0 = world e) by apply world_noticeIf.
    rewrite <- Hw in Hf, Hsvc.
    rewrite (store_syncRoute_overwrite url r desired cur name e0 Hf eq_refl eq_refl Hn).
    cbv zeta. rewrite Hch, Hsn.
    change (ref_Name (rt_Service desired)) with (ar_Service r). rewrite Hsvc.
    cbn [fst snd]. unfold e0.
    split; [reflexivity|]. split; [now env_norm|]. obs_norm. reflexivity.
Qed.

(** A service that exists, given by URL. *)
Lemma url_service_gating (wd : bool) (url : string) (s : applyService) (cur : Service)
    (e : Env Store) :
  findService (world e) (as_Name s) = Some cur ->
  as_Name s <> "" -> as_URL s <> "" ->
  skipped e (syncServiceURL (execFlags wd false url) s e) (urlSkips cur s)
  /\ patched e (syncServiceURL (execFlags wd true url) s e) (urlPatches cur s).
Proof.
  intros Hf Hn Hu. unfold skipped, patched.
  rewrite (syncServiceURL_diff wd false url s e), (syncServiceURL_diff wd true url s e).
  set (e0 := noticeIf wd _ e).
  assert (Hw : world e0 = world e) by apply world_noticeIf.
  assert (Ht : trace e0 = trace e) by apply trace_noticeIf.
  assert (Hno : warnings (notices e0) = warnings (notices e)).
  { unfold e0. rewrite notices_noticeIf, warnings_app, warnings_diff_line.
    apply app_nil_r. }
  rewrite <- Hw in Hf. rewrite <- Ht, <- Hno, <- Hw. split.
  - rewrite (store_syncServiceURL_present url s cur e0 Hf).
    cbn [fst snd]. fold (urlDiffers cur s). unfold urlSkips.
    split; [reflexivity|]. split; [now env_norm|].
    destruct (urlDiffers cur s), (extrasChanged cur s); obs_norm; split; reflexivity.
  - rewrite (store_syncServiceURL_overwrite url s cur e0 Hf Hn Hu). cbv zeta.
    cbn [fst snd]. fold (urlDiffers cur s). unfold urlPatches.
    split; [reflexivity|].
    destruct (urlDiffers cur s), (extrasChanged cur s); obs_norm; split; reflexivity.
Qed.

(** The service of a shorthand route, when it exists. *)
Lemma auto_service_gating (wd : bool) (url svc up proto : string) (port : Z)
    (path : string) (cur : Service) (e : Env Store) :
  findService (world e) svc = Some cur -> svc <> "" -> up <> "" ->
  skipped e (syncAutoService (execFlags wd false url) svc up proto port path e)
    (if coreChanged cur up proto port path
     then [Print LWarn FmtServiceSkipped [VStr svc]] else [])
  /\ patched e (syncAutoService (execFlags wd true url) svc up proto port path e)
       (if coreChanged cur up proto port path
        then [CPatchService svc (corePatch up proto port path)] else []).
Proof.
  intros Hf Hn Hu. unfold skipped, patched.
  rewrite (syncAutoService_diff wd false url svc up proto port path e),
    (syncAutoService_diff wd true url svc up proto port path e).
  set (e0 := noticeIf wd _ e).
  assert (Hw : world e0 = world e) by apply world_noticeIf.
  assert (Ht : trace e0 = trace e) by apply trace_noticeIf.
  assert (Hno : warnings (notices e0) = warnings (notices e)).
  { unfold e0. rewrite notices_noticeIf, warnings_app, warnings_diff_line.
    apply app_nil_r. }
  rewrite <- Hw in Hf. rewrite <- Ht, <- Hno, <- Hw. split.
  - rewrite (store_syncAutoService_present url svc up proto port path cur e0 Hf).
    cbn [fst snd]. split; [reflexivity|]. split; [now env_norm|].
    destruct (coreChanged cur up proto port path); obs_norm; split; reflexivity.
  - rewrite (store_syncAutoService_overwrite url svc up proto port path cur e0 Hf Hn Hu).
    cbv zeta. cbn [fst snd]. split; [reflexivity|].
    destruct (coreChanged cur up proto port path); obs_norm; split; reflexivity.
Qed.

Lemma planServiceURL_action (cur : Service) (s : applyService) :
  Action (planServiceURL (Some cur) s)
  = if urlDiffers cur s || extrasChanged cur s then "update" else "none".
Proof.
  unfold planServiceURL, urlDiffers, extrasChanged. cbv zeta. cbn [Action].
  destruct (sneq _ _); destruct (_ && _), (_ && _), (_ && _), (_ && _); reflexivity.
Qed.

Lemma planAutoService_action (cur : Service) (svc up proto : string) (port : Z)
    (path : string) :
  Action (planAutoService (Some cur) svc up proto port path)
  = if coreChanged cur up proto port path then "update" else "none".
Proof. reflexivity. Qed.

(** * Further properties of the code *)

(** ** [apply]: what [--overwrite] gates *)

(** X1: a service bound to an upstream that exists on the reference store
    (lines 365-400).  Without [--overwrite] the block ends well, leaves the
    store as it was, sends no request that changes it and prints one
    warning for each of the two comparisons that found a difference: the
    core fields (host, protocol, port, path) and the extras (retries and
    timeouts); with [--overwrite] it sends one PATCH for each of them and
    prints no warning.  When both comparisons find a difference there are
    two warnings, and two PATCH requests. *)
Theorem X1_service_update_waits_for_overwrite (withDiff : bool) (url : string)
    (s : applyService) (cur : Service) (e : Env Store) :
  findService (world e) (as_Name s) = Some cur ->
  as_Name s <> "" -> as_Upstream s <> "" ->
  skipped e (syncServiceViaUpstream (execFlags withDiff false url) s e)
    (serviceSkips cur s)
  /\ patched e (syncServiceViaUpstream (execFlags withDiff true url) s e)
       (servicePatches cur s)
  /\ (coreDiffers cur s = true -> extrasChanged cur s = true ->
      length (serviceSkips cur s) = 2%nat /\ length (servicePatches cur s) = 2%nat)
  /\ (coreDiffers cur s = false -> extrasChanged cur s = false ->
      serviceSkips cur s = [] /\ servicePatches cur s = []).
Proof.
  intros Hf Hn Hu.
  destruct (service_gating withDiff url s cur e Hf Hn Hu) as [Hoff Hon].
  split; [exact Hoff|]. split; [exact Hon|].
  unfold serviceSkips, servicePatches. split; intros -> ->; split; reflexivity.
Qed.

Lemma X1_witness :
  skipped (initEnv storeWithSvc)
    (syncServiceViaUpstream (execFlags false false localhost) retryingService
       (initEnv storeWithSvc))
    [Print LWarn FmtServiceSkipped [VStr "svc"]; Print LWarn FmtExtrasSkipped [VStr "svc"]]
  /\ patched (initEnv storeWithSvc)
       (syncServiceViaUpstream (execFlags false true localhost) retryingService
          (initEnv storeWithSvc))
       [CPatchService "svc" (corePatch "up" "http" 80 "");
        CPatchService "svc" (extrasPatch retryingService)].
Proof.
  assert (Hn : as_Name retryingService <> "") by discriminate.
  assert (Hu : as_Upstream retryingService <> "") by discriminate.
  destruct (X1_service_update_waits_for_overwrite false localhost retryingService
              remoteHttps (initEnv storeWithSvc) eq_refl Hn Hu) as (Hoff & Hon & _).
  split; [exact Hoff | exact Hon].
Defined.

(** X2: the same for a service given by URL (lines 427-468): the two
    comparisons are the URL, rebuilt from the remote fields, and the
    extras. *)
Theorem X2_url_service_update_waits_for_overwrite (withDiff : bool) (url : string)
    (s : applyService) (cur : Service) (e : Env Store) :
  findService (world e) (as_Name s) = Some cur ->
  as_Name s <> "" -> as_URL s <> "" ->
  skipped e (syncServiceURL (execFlags withDiff false url) s e) (urlSkips cur s)
  /\ patched e (syncServiceURL (execFlags withDiff true url) s e) (urlPatches cur s)
  /\ (urlDiffers cur s = true -> extrasChanged cur s = true ->
      length (urlSkips cur s) = 2%nat /\ length (urlPatches cur s) = 2%nat)
  /\ (urlDiffers cur s = false -> extrasChanged cur s = false ->
      urlSkips cur s = [] /\ urlPatches cur s = []).
Proof.
  intros Hf Hn Hu.
  destruct (url_service_gating withDiff url s cur e Hf Hn Hu) as [Hoff Hon].
  split; [exact Hoff|]. split; [exact Hon|].
  unfold urlSkips, urlPatches. split; intros -> ->; split; reflexivity.
Qed.

Lemma X2_witness :
  skipped (initEnv storeWithSvc)
    (syncServiceURL (execFlags false false localhost) urlService (initEnv storeWithSvc))
    [Print LWarn FmtServiceURLSkipped [VStr "svc"];
     Print LWarn FmtExtrasSkipped [VStr "svc"]]
  /\ patched (initEnv storeWithSvc)
       (syncServiceURL (execFlags false true localhost) urlService
          (initEnv storeWithSvc))
       [CPatchService "svc" (urlPatch "http://up:8080");
        CPatchService "svc" (extrasPatch urlService)].
Proof.
  assert (Hn : as_Name urlService <> "") by discriminate.
  assert (Hu : as_URL urlService <> "") by discriminate.
  destruct (X2_url_service_update_waits_for_overwrite false localhost urlService
              remoteHttps (initEnv storeWithSvc) eq_refl Hn Hu) as (Hoff & Hon & _).
  split; [exact Hoff | exact Hon].
Defined.

(** X3: the service of a shorthand route, when it exists (lines 573-590):
    one comparison, so at most one warning without [--overwrite] and at
    most one PATCH with it. *)
Theorem X3_shorthand_service_update_waits_for_overwrite (withDiff : bool)
    (url svc up proto : string) (port : Z) (path : string) (cur : Service)
    (e : Env Store) :
  findService (world e) svc = Some cur -> svc <> "" -> up <> "" ->
  skipped e (syncAutoService (execFlags withDiff false url) svc up proto port path e)
    (if coreChanged cur up proto port path
     then [Print LWarn FmtServiceSkipped [VStr svc]] else [])
  /\ patched e (syncAutoService (execFlags withDiff true url) svc up proto port path e)
       (if coreChanged cur up proto port path
        then [CPatchService svc (corePatch up proto port path)] else []).
Proof. intros Hf Hn Hu. now apply auto_service_gating. Qed.

Lemma X3_witness :
  skipped (initEnv storeWithSvc)
    (syncAutoService (execFlags false false localhost) "svc" "up" "http" 80 ""
       (initEnv storeWithSvc))
    [Print LWarn FmtServiceSkipped [VStr "svc"]]
  /\ patched (initEnv storeWithSvc)
       (syncAutoService (execFlags false true localhost) "svc" "up" "http" 80 ""
          (initEnv storeWithSvc))
       [CPatchService "svc" (corePatch "up" "http" 80 "")].
Proof.
  assert (Hn : "svc" <> "") by discriminate.
  assert (Hu : "up" <> "") by discriminate.
  exact (X3_shorthand_service_update_waits_for_overwrite false localhost "svc" "up"
           "http" 80 "" remoteHttps (initEnv storeWithSvc) eq_refl Hn Hu).
Defined.

(** X4: a route that exists on the reference store and differs from the
    document (lines 682-731), its service being on the store.  Without
    [--overwrite] the block ends well, changes nothing and prints the one
    warning of the route; with [--overwrite] it sends exactly one PATCH,
    whose payload carries the id of the service. *)
Theorem X4_route_update_waits_for_overwrite (withDiff : bool) (url : string)
    (r : applyRoute) (name ph : string) (cur : Route) (svc : Service) (e : Env Store) :
  findRoute (world e) name = Some cur -> name <> "" -> ar_Service r <> "" ->
  routeChanged cur r (desiredRoute name ph r) = true ->
  findService (world e) (ar_Service r) = Some svc -> svc_ID svc <> "" ->
  skipped e (syncRoute (execFlags withDiff false url) r (desiredRoute name ph r) name e)
    [Print LWarn FmtRouteSkipped [VStr name]]
  /\ patched e (syncRoute (execFlags withDiff true url) r (desiredRoute name ph r) name e)
       [CPatchRoute name
          (routePatchOf (withServiceID (desiredRoute name ph r) (svc_ID svc)))].
Proof.
  intros Hf Hn Hs Hch Hsvc Hid.
  destruct (route_gating withDiff url r name ph cur e Hf Hn Hs Hch) as (Hoff & Hon & _).
  split; [exact Hoff | exact (Hon svc Hsvc Hid)].
Qed.

Lemma X4_witness :
  skipped (initEnv storeWithDemo)
    (syncRoute (execFlags false false localhost) demoWithService
       (desiredRoute "demo" "" demoWithService) "demo" (initEnv storeWithDemo))
    [Print LWarn FmtRouteSkipped [VStr "demo"]]
  /\ patched (initEnv storeWithDemo)
       (syncRoute (execFlags false true localhost) demoWithService
          (desiredRoute "demo" "" demoWithService) "demo" (initEnv storeWithDemo))
       [CPatchRoute "demo"
          (routePatchOf (withServiceID (desiredRoute "demo" "" demoWithService)
                           "id-demo-service"))].
Proof.
  assert (Hn : "demo" <> "") by discriminate.
  assert (Hs : ar_Service demoWithService <> "") by discriminate.
  assert (Hid : "id-demo-service" <> "") by discriminate.
  exact (X4_route_update_waits_for_overwrite false localhost demoWithService "demo" ""
           demoRemote
           (mkService "id-demo-service" "demo-service" "" "http" "demo-upstream" 80 ""
              0 0 0 0)
           (initEnv storeWithDemo) eq_refl Hn Hs eq_refl eq_refl Hid).
Defined.

(** X5: with [--overwrite], a route that exists and differs is not patched
    when the service it names is not on the remote side: the update looks
    the service up, fails with the error of the missing service and sends
    no request that changes the store (route.go of package kong, lines
    100-110, reached from lines 722-725 of apply). *)
Theorem X5_route_update_needs_its_service (withDiff : bool) (url : string)
    (r : applyRoute) (name ph : string) (cur : Route) (e : Env Store) :
  findRoute (world e) name = Some cur -> name <> "" -> ar_Service r <> "" ->
  routeChanged cur r (desiredRoute name ph r) = true ->
  findService (world e) (ar_Service r) = None ->
  (syncRoute (execFlags withDiff true url) r (desiredRoute name ph r) name e).2
  = Err (ErrServiceMissing (ar_Service r))
  /\ world (syncRoute (execFlags withDiff true url) r (desiredRoute name ph r) name e).1
     = world e
  /\ mutations
       (trace (syncRoute (execFlags withDiff true url) r (desiredRoute name ph r)
                         name e).1)
     = mutations (trace e).
Proof.
  intros Hf Hn Hs Hch Hsvc.
  destruct (route_gating withDiff url r name ph cur e Hf Hn Hs Hch) as (_ & _ & Hmiss).
  exact (Hmiss Hsvc).
Qed.

Lemma X5_witness :
  (syncRoute (execFlags false true localhost) strayRoute
     (desiredRoute "demo" "" strayRoute) "demo" (initEnv storeWithRoute)).2
  = Err (ErrServiceMissing "other")
  /\ world (syncRoute (execFlags false true localhost) strayRoute
              (desiredRoute "demo" "" strayRoute) "demo" (initEnv storeWithRoute)).1
     = storeWithRoute
  /\ mutations
       (trace (syncRoute (execFlags false true localhost) strayRoute
                 (desiredRoute "demo" "" strayRoute) "demo" (initEnv storeWithRoute)).1)
     = [].
Proof.
  assert (Hn : "demo" <> "") by discriminate.
  assert (Hs : ar_Service strayRoute <> "") by discriminate.
  exact (X5_route_update_needs_its_service false localhost strayRoute "demo" ""
           demoRemote (initEnv storeWithRoute) eq_refl Hn Hs eq_refl eq_refl).
Defined.

(** X6: the plan of a dry run and the executing branch agree on what an
    update is.  For a resource that exists, the action of the plan entry
    is [update] exactly when the comparison of the executing branch (core
    fields or extras for a service, the URL or extras for a service given
    by URL, the fifteen comparisons of a route) finds a difference, and
    [none] otherwise. *)
Theorem X6_plan_agrees_with_execution (cur : Service) (s : applyService)
    (svc up proto : string) (port : Z) (path : string)
    (rcur : Route) (r : applyRoute) (desired : Route) (name : string) :
  Action (serviceVerdict cur s)
  = (if coreDiffers cur s || extrasChanged cur s then "update" else "none")
  /\ Action (planServiceURL (Some cur) s)
     = (if urlDiffers cur s || extrasChanged cur s then "update" else "none")
  /\ Action (planAutoService (Some cur) svc up proto port path)
     = (if coreChanged cur up proto port path then "update" else "none")
  /\ Action (planRoute (Some rcur) r desired name)
     = (if routeChanged rcur r desired then "update" else "none").
Proof.
  split; [apply serviceVerdict_action|]. split; [apply planServiceURL_action|].
  split; [apply planAutoService_action | apply planRoute_action].
Qed.

(** ** [sort.Strings] *)

Lemma compare_char_trans (a b c : ascii) :
  (a ?= b)%char <> Gt -> (b ?= c)%char <> Gt -> (a ?= c)%char <> Gt.
Proof.
  unfold Ascii.compare. rewrite !N.compare_gt_iff. lia.
Qed.

Lemma compare_string_trans (s1 : string) :
  forall s2 s3, String.compare s1 s2 <> Gt -> String.compare s2 s3 <> Gt ->
                String.compare s1 s3 <> Gt.
Proof.
  induction s1 as [|c1 r1 IH]; intros [|c2 r2] [|c3 r3]; simpl; try congruence.
  unfold Ascii.compare.
  destruct (N.compare_spec (N_of_ascii c1) (N_of_ascii c2)) as [H12|H12|H12];
    destruct (N.compare_spec (N_of_ascii c2) (N_of_ascii c3)) as [H23|H23|H23];
    destruct (N.compare_spec (N_of_ascii c1) (N_of_ascii c3)) as [H13|H13|H13];
    try congruence; try lia; try (intros; now apply (IH r2 r3)).
Qed.

Lemma leb_trans (a b c : string) :
  String.leb a b = true -> String.leb b c = true -> String.leb a c = true.
Proof.
  unfold String.leb. intros Hab Hbc.
  pose proof (compare_string_trans a b c) as Ht.
  destruct (String.compare a b); try discriminate;
    destruct (String.compare b c); try discriminate;
    destruct (String.compare a c); try reflexivity;
    exfalso; apply Ht; congruence.
Qed.

Lemma insertSorted_Permutation (x : string) (l : list string) :
  Permutation (insertSorted x l) (x :: l).
Proof.
  induction l as [|y r IH]; simpl; [reflexivity|].
  destruct (String.leb x y); [reflexivity|].
  rewrite IH. apply perm_swap.
Qed.

Lemma sortStrings_Permutation (l : list string) : Permutation (sortStrings l) l.
Proof.
  induction l as [|x r IH]; simpl; [reflexivity|].
  rewrite insertSorted_Permutation. now constructor.
Qed.

Lemma insertSorted_sorted (x : string) (l : list string) :
  StronglySorted (λ a b, String.leb a b = true) l ->
  StronglySorted (λ a b, String.leb a b = true) (insertSorted x l).
Proof.
  induction 1 as [|y r Hr IH Hy]; simpl.
  - repeat constructor.
  - destruct (String.leb x y) eqn:Hxy.
    + constructor; [now constructor|]. constructor; [exact Hxy|].
      eapply Forall_impl; [exact Hy|]. intros z Hz. cbv beta in *.
      now apply (leb_trans x y z).
    + constructor; [exact IH|].
      rewrite (insertSorted_Permutation x r). constructor; [|exact Hy].
      destruct (String.leb_total x y) as [H|H]; [congruence | exact H].
Qed.

Lemma sortStrings_sorted (l : list string) :
  StronglySorted (λ a b, String.leb a b = true) (sortStrings l).
Proof.
  induction l as [|x r IH]; simpl; [constructor | now apply insertSorted_sorted].
Qed.

(** The result of sorting depends on the elements only, not on the order
    they come in. *)
Lemma sortStrings_unique (l l' : list string) :
  Permutation l l' -> sortStrings l = sortStrings l'.
Proof.
  intros Hp.
  assert (Ha : AntiSymm eq (λ a b, String.leb a b = true)).
  { intros a b Hab Hba. now apply String.leb_antisym. }
  apply (StronglySorted_unique (λ a b, String.leb a b = true)).
  - apply sortStrings_sorted.
  - apply sortStrings_sorted.
  - now rewrite !sortStrings_Permutation.
Qed.

(** ** The comparison helpers of [apply] and [route sync] *)

(** X7: [sliceSetEqual] decides equality of the two slices as multisets:
    it is true exactly when one is a rearrangement of the other, so it
    ignores the order, counts repetitions, and is symmetric. *)
Theorem X7_sliceSetEqual_is_multiset_equality (a b : list string) :
  (sliceSetEqual a b = true <-> Permutation a b)
  /\ sliceSetEqual a b = sliceSetEqual b a
  /\ (sliceSetEqual a b = true -> forall x, In x a <-> In x b).
Proof.
  split; [apply sliceSetEqual_Permutation|]. split.
  - destruct (sliceSetEqual a b) eqn:Hab, (sliceSetEqual b a) eqn:Hba; try reflexivity.
    + apply sliceSetEqual_Permutation in Hab. symmetry in Hab.
      apply sliceSetEqual_Permutation in Hab. congruence.
    + apply sliceSetEqual_Permutation in Hba. symmetry in Hba.
      apply sliceSetEqual_Permutation in Hba. congruence.
  - intros Hab%sliceSetEqual_Permutation x. split; intros Hx.
    + eapply Permutation_in; eauto.
    + eapply Permutation_in; [symmetry|]; eauto.
Qed.

Lemma diffSlice_same (field : string) (cur want : list string) :
  diffSlice field cur want = [Same field] <-> forall x, In x cur <-> In x want.
Proof.
  unfold diffSlice. cbv zeta.
  set (a := list_to_set cur : gset string). set (b := list_to_set want : gset string).
  assert (Hlen : forall l, (length (sortStrings l) =? 0)%nat = true <-> l = []).
  { intros l. rewrite Nat.eqb_eq, (Permutation_length (sortStrings_Permutation l)).
    destruct l; simpl; split; congruence. }
  assert (Hin : forall x, (In x cur <-> x ∈ a) /\ (In x want <-> x ∈ b)).
  { intros x. unfold a, b. rewrite !elem_of_list_to_set, !list_elem_of_In. tauto. }
  split.
  - intros Hd.
    destruct (length (sortStrings (filter (λ x, x ∉ b) (elements a))) =? 0)%nat eqn:H1;
      [|discriminate].
    destruct (length (sortStrings (filter (λ x, x ∉ a) (elements b))) =? 0)%nat eqn:H2;
      [|discriminate].
    apply Hlen in H1, H2. intros x. destruct (Hin x) as [-> ->]. split; intros Hx.
    + destruct (decide (x ∈ b)) as [|Hn]; [assumption|]. exfalso.
      assert (Hf : x ∈ filter (λ x, x ∉ b) (elements a))
        by (apply list_elem_of_filter; split; [exact Hn | now apply elem_of_elements]).
      rewrite H1 in Hf. now apply elem_of_nil in Hf.
    + destruct (decide (x ∈ a)) as [|Hn]; [assumption|]. exfalso.
      assert (Hf : x ∈ filter (λ x, x ∉ a) (elements b))
        by (apply list_elem_of_filter; split; [exact Hn | now apply elem_of_elements]).
      rewrite H2 in Hf. now apply elem_of_nil in Hf.
  - intros Heq.
    assert (H1 : filter (λ x, x ∉ b) (elements a) = []).
    { apply elem_of_nil_inv. intros x [Hn Hx%elem_of_elements]%list_elem_of_filter.
      apply Hn. apply (Hin x). apply Heq. now apply (Hin x). }
    assert (H2 : filter (λ x, x ∉ a) (elements b) = []).
    { apply elem_of_nil_inv. intros x [Hn Hx%elem_of_elements]%list_elem_of_filter.
      apply Hn. apply (Hin x). apply Heq. now apply (Hin x). }
    rewrite H1, H2. reflexivity.
Qed.

Lemma diffSlice_lines (field : string) (cur want : list string) (x : string) :
  (In (Minus x) (diffSlice field cur want) <-> In x cur /\ ~ In x want)
  /\ (In (Plus x) (diffSlice field cur want) <-> In x want /\ ~ In x cur).
Proof.
  unfold diffSlice. cbv zeta.
  set (a := list_to_set cur : gset string). set (b := list_to_set want : gset string).
  set (del := sortStrings (filter (λ x, x ∉ b) (elements a))).
  set (add := sortStrings (filter (λ x, x ∉ a) (elements b))).
  assert (Hdel : In x del <-> In x cur /\ ~ In x want).
  { unfold del. rewrite <- list_elem_of_In, (sortStrings_Permutation _).
    rewrite list_elem_of_filter, elem_of_elements. unfold a, b.
    rewrite !elem_of_list_to_set, !list_elem_of_In. tauto. }
  assert (Hadd : In x add <-> In x want /\ ~ In x cur).
  { unfold add. rewrite <- list_elem_of_In, (sortStrings_Permutation _).
    rewrite list_elem_of_filter, elem_of_elements. unfold a, b.
    rewrite !elem_of_list_to_set, !list_elem_of_In. tauto. }
  assert (Hm : In (Minus x) (map Minus del ++ map Plus add) <-> In x del).
  { rewrite in_app_iff, !in_map_iff. split.
    - intros [(y & [= ->] & Hy) | (y & [=] & _)]. exact Hy.
    - intros Hx. left. eauto. }
  assert (Hp : In (Plus x) (map Minus del ++ map Plus add) <-> In x add).
  { rewrite in_app_iff, !in_map_iff. split.
    - intros [(y & [=] & _) | (y & [= ->] & Hy)]. exact Hy.
    - intros Hx. right. eauto. }
  destruct (_ && _) eqn:Hz.
  - apply andb_true_iff in Hz as [H1 H2]. apply Nat.eqb_eq in H1, H2.
    destruct del; [|discriminate]. destruct add; [|discriminate].
    simpl in *. split; split; try tauto; intros [[=]|[]].
  - simpl. rewrite <- Hdel, <- Hadd, <- Hm, <- Hp. split; split; try tauto;
      intros [[=]|H]; exact H.
Qed.

(** X8: [diffSlice] compares the two slices as sets.  It reports "no
    change" exactly when they have the same elements; otherwise it lists
    with a minus the elements of the current slice that the wanted one
    lacks, and with a plus those the wanted slice adds, each once.  The
    text depends on the elements only, not on their order or on
    repetitions. *)
Theorem X8_diffSlice_compares_sets (field : string) (cur want : list string) :
  (diffSlice field cur want = [Same field] <-> forall x, In x cur <-> In x want)
  /\ (forall x, In (Minus x) (diffSlice field cur want) <-> In x cur /\ ~ In x want)
  /\ (forall x, In (Plus x) (diffSlice field cur want) <-> In x want /\ ~ In x cur)
  /\ NoDup (diffSlice field cur want)
  /\ (forall cur' want',
        (forall x, In x cur <-> In x cur') -> (forall x, In x want <-> In x want') ->
        diffSlice field cur' want' = diffSlice field cur want).
Proof.
  split; [apply diffSlice_same|].
  split; [intros x; apply diffSlice_lines|].
  split; [intros x; apply diffSlice_lines|]. split.
  - unfold diffSlice. cbv zeta. destruct (_ && _); [repeat constructor; set_solver|].
    set (del := sortStrings _). set (add := sortStrings _).
    assert (Hdel : NoDup del).
    { unfold del. rewrite sortStrings_Permutation. apply NoDup_filter, NoDup_elements. }
    assert (Hadd : NoDup add).
    { unfold add. rewrite sortStrings_Permutation. apply NoDup_filter, NoDup_elements. }
    assert (Hmi : Inj eq eq Minus) by (intros y z [= ->]; reflexivity).
    assert (Hpi : Inj eq eq Plus) by (intros y z [= ->]; reflexivity).
    constructor.
    + rewrite elem_of_app, !list_elem_of_fmap. intros [(y & [=] & _) | (y & [=] & _)].
    + apply NoDup_app. split; [|split].
      * now apply (NoDup_fmap_2 Minus).
      * intros l [y [-> _]]%list_elem_of_fmap [z [[=] _]]%list_elem_of_fmap.
      * now apply (NoDup_fmap_2 Plus).
  - intros cur' want' Hc Hw. unfold diffSlice.
    assert (H1 : (list_to_set cur' : gset string) = list_to_set cur).
    { apply set_eq. intros x. rewrite !elem_of_list_to_set, !list_elem_of_In.
      symmetry. apply Hc. }
    assert (H2 : (list_to_set want' : gset string) = list_to_set want).
    { apply set_eq. intros x. rewrite !elem_of_list_to_set, !list_elem_of_In.
      symmetry. apply Hw. }
    now rewrite H1, H2.
Qed.

Lemma mapStringSliceEqual_spec (a b : gmap string (list string)) :
  mapStringSliceEqual a b = true
  <-> dom a = dom b
      /\ forall k va vb, a !! k = Some va -> b !! k = Some vb -> Permutation va vb.
Proof.
  unfold mapStringSliceEqual. split.
  - destruct (size a =? size b)%nat eqn:Hs; simpl; [|discriminate].
    apply Nat.eqb_eq in Hs. rewrite forallb_forall. intros Hall.
    assert (Hk : forall k va, a !! k = Some va ->
                 exists vb, b !! k = Some vb /\ Permutation va vb).
    { intros k va Hka.
      assert (Hin : In (k, va) (map_to_list a))
        by (apply list_elem_of_In, elem_of_map_to_list, Hka).
      specialize (Hall _ Hin). simpl in Hall.
      destruct (b !! k) as [vb|]; [|discriminate].
      exists vb. split; [reflexivity | now apply sliceSetEqual_Permutation]. }
    split.
    + apply set_subseteq_size_eq.
      * intros k [va Hka]%elem_of_dom. destruct (Hk k va Hka) as (vb & Hkb & _).
        apply elem_of_dom. eauto.
      * rewrite !size_dom. lia.
    + intros k va vb Hka Hkb. destruct (Hk k va Hka) as (vb' & Hkb' & Hp). congruence.
  - intros [Hd Hp].
    assert (Hs : size a = size b).
    { rewrite <- (size_dom (D:=gset string) a), <- (size_dom (D:=gset string) b).
      now rewrite Hd. }
    rewrite Hs, Nat.eqb_refl. simpl. apply forallb_forall.
    intros [k va] Hin%list_elem_of_In%elem_of_map_to_list. simpl.
    assert (Hkb : k ∈ dom b) by (rewrite <- Hd; apply elem_of_dom; eauto).
    apply elem_of_dom in Hkb as [vb Hkb]. rewrite Hkb.
    apply sliceSetEqual_Permutation. eauto.
Qed.

(** X9: [mapStringSliceEqual] is true exactly when the two maps have the
    same keys and, under every key, values that are rearrangements of one
    another; so it is reflexive and symmetric, and the order of the values
    under a key does not matter while their repetitions do. *)
Theorem X9_mapStringSliceEqual_keys_and_values (a b : gmap string (list string)) :
  (mapStringSliceEqual a b = true
   <-> dom a = dom b
       /\ forall k va vb, a !! k = Some va -> b !! k = Some vb -> Permutation va vb)
  /\ mapStringSliceEqual a a = true
  /\ mapStringSliceEqual a b = mapStringSliceEqual b a.
Proof.
  split; [apply mapStringSliceEqual_spec|]. split.
  - apply mapStringSliceEqual_spec. split; [reflexivity|].
    intros k va vb H1 H2. rewrite H1 in H2. now injection H2 as ->.
  - assert (Hsym : forall x y, mapStringSliceEqual x y = true ->
                               mapStringSliceEqual y x = true).
    { intros x y [Hd Hp]%mapStringSliceEqual_spec. apply mapStringSliceEqual_spec.
      split; [now symmetry|]. intros k vy vx Hy Hx. symmetry. eauto. }
    destruct (mapStringSliceEqual a b) eqn:Hab, (mapStringSliceEqual b a) eqn:Hba;
      try reflexivity.
    + apply Hsym in Hab. congruence.
    + apply Hsym in Hba. congruence.
Qed.

Lemma flat_map_nil_iff {A B} (f : A -> list B) (l : list A) :
  flat_map f l = [] <-> forall x, In x l -> f x = [].
Proof.
  induction l as [|y r IH]; simpl; [tauto|]. split.
  - intros [Hy Hr]%app_eq_nil x [<-|Hx]; [exact Hy | now apply IH].
  - intros Hall. rewrite (Hall y) by now left. apply IH. intros x Hx. apply Hall.
    now right.
Qed.

(** X10: the diff of two header maps is empty (the field line alone)
    exactly when [mapStringSliceEqual] finds them equal: the text that
    [--diff] shows and the comparison that decides on an update agree. *)
Theorem X10_header_diff_empty_iff_equal (field : string)
    (cur want : gmap string (list string)) :
  diffMapStringSlice field cur want = [Head field]
  <-> mapStringSliceEqual cur want = true.
Proof.
  unfold diffMapStringSlice. rewrite mapStringSliceEqual_spec. split.
  - intros [= Hd]. apply app_eq_nil in Hd as [H1 H2].
    rewrite flat_map_nil_iff in H1, H2.
    assert (Hcw : forall k v, cur !! k = Some v -> exists v', want !! k = Some v').
    { intros k v Hk.
      assert (Hin : In (k, v) (map_to_list cur))
        by (apply list_elem_of_In, elem_of_map_to_list, Hk).
      specialize (H1 _ Hin). simpl in H1.
      destruct (want !! k) as [v'|]; [eauto | discriminate]. }
    assert (Hwc : forall k v, want !! k = Some v ->
                  exists v', cur !! k = Some v' /\ Permutation v' v).
    { intros k v Hk.
      assert (Hin : In (k, v) (map_to_list want))
        by (apply list_elem_of_In, elem_of_map_to_list, Hk).
      specialize (H2 _ Hin). simpl in H2.
      destruct (cur !! k) as [v'|]; [|discriminate].
      destruct (sliceSetEqual v' v) eqn:He; [|discriminate].
      exists v'. split; [reflexivity | now apply sliceSetEqual_Permutation]. }
    split.
    + apply set_eq. intros k. rewrite !elem_of_dom. split.
      * intros [v Hk]. destruct (Hcw k v Hk) as [v' Hv']. eauto.
      * intros [v Hk]. destruct (Hwc k v Hk) as (v' & Hv' & _). eauto.
    + intros k va vb Hka Hkb. destruct (Hwc k vb Hkb) as (v' & Hv' & Hp). congruence.
  - intros [Hd Hp]. f_equal.
    assert (H1 : flat_map (λ kv : string * list string,
                             match want !! kv.1 with
                             | Some _ => []
                             | None => [Minus kv.1]
                             end) (map_to_list cur) = []).
    { apply flat_map_nil_iff.
      intros [k v] Hin%list_elem_of_In%elem_of_map_to_list. simpl.
      assert (Hk : k ∈ dom want) by (rewrite <- Hd; apply elem_of_dom; eauto).
      apply elem_of_dom in Hk as [v' ->]. reflexivity. }
    rewrite H1. simpl. apply flat_map_nil_iff.
    intros [k v] Hin%list_elem_of_In%elem_of_map_to_list. simpl.
    assert (Hk : k ∈ dom cur) by (rewrite Hd; apply elem_of_dom; eauto).
    apply elem_of_dom in Hk as [v' Hv']. rewrite Hv'.
    assert (He : sliceSetEqual v' v = true)
      by (apply sliceSetEqual_Permutation; eauto).
    now rewrite He.
Qed.

(** ** Generated route names *)

Lemma isAlnum_not_dash (c : ascii) : isAlnum c = true -> isDash c = false.
Proof.
  intros H. destruct (isDash c) eqn:Hd; [|reflexivity].
  unfold isDash in Hd. apply N.eqb_eq in Hd.
  unfold isAlnum, byteIn in H. rewrite Hd in H. discriminate.
Qed.

Lemma doubleDash_tail (c : ascii) (r : string) :
  doubleDash (String c r) = false -> doubleDash r = false.
Proof.
  destruct r as [|d r0]; [reflexivity|]. simpl.
  intros H. now apply orb_false_iff in H as [_ H].
Qed.

Lemma replaceNonWord_shape (s : string) (inRun : bool) :
  wordOrDash (replaceNonWord inRun s) = true
  /\ doubleDash (replaceNonWord inRun s) = false
  /\ (inRun = true -> startsWithDash (replaceNonWord inRun s) = false).
Proof.
  revert inRun. induction s as [|c r IH]; intros inRun; simpl.
  - repeat split.
  - destruct (isAlnum c) eqn:Hc.
    + destruct (IH false) as (H1 & H2 & _). simpl. rewrite Hc, H1. simpl.
      rewrite (isAlnum_not_dash c Hc). split; [reflexivity|]. split; [|reflexivity].
      destruct (replaceNonWord false r); [reflexivity | exact H2].
    + destruct inRun.
      * destruct (IH true) as (H1 & H2 & H3). auto.
      * destruct (IH true) as (H1 & H2 & H3). simpl. rewrite H1.
        split; [reflexivity|]. split; [|discriminate].
        specialize (H3 eq_refl).
        destruct (replaceNonWord true r) as [|d r']; [reflexivity|].
        simpl in H3. rewrite H3. exact H2.
Qed.

Lemma trimLeft_shape (s : string) :
  wordOrDash s = true -> doubleDash s = false ->
  wordOrDash (trimLeft isDash s) = true
  /\ doubleDash (trimLeft isDash s) = false
  /\ startsWithDash (trimLeft isDash s) = false.
Proof.
  induction s as [|c r IH]; [simpl; auto|].
  intros Hw Hd. pose proof (doubleDash_tail c r Hd) as Hdr.
  simpl in Hw. apply andb_true_iff in Hw as [Hc Hr]. simpl trimLeft.
  destruct (isDash c) eqn:Hdc.
  - now apply IH.
  - split; [simpl; now rewrite Hdc, Hc, Hr|]. split; [exact Hd|]. simpl. exact Hdc.
Qed.

Lemma trimRight_prefix (p : ascii -> bool) (s : string) :
  exists rest, s = trimRight p s +:+ rest.
Proof.
  induction s as [|c r [rest IH]]; simpl; [now exists ""|].
  destruct (trimRight p r) as [|d r'] eqn:Ht.
  - destruct (p c).
    + now exists (String c r).
    + exists r. reflexivity.
  - exists rest. change (String c r = String c (String d r' +:+ rest)).
    f_equal. exact IH.
Qed.

Lemma wordOrDash_prefix (a b : string) :
  wordOrDash (a +:+ b) = true -> wordOrDash a = true.
Proof.
  induction a as [|c r IH]; simpl; [reflexivity|].
  intros [Hc Hr]%andb_true_iff. rewrite Hc. simpl. now apply IH.
Qed.

Lemma doubleDash_prefix (a b : string) :
  doubleDash (a +:+ b) = false -> doubleDash a = false.
Proof.
  induction a as [|c r IH]; [reflexivity|].
  intros H. change (String c r +:+ b) with (String c (r +:+ b)) in H.
  pose proof (doubleDash_tail _ _ H) as Hr. specialize (IH Hr).
  destruct r as [|d r0]; [reflexivity|].
  change (String c (String d r0 +:+ b)) with (String c (String d (r0 +:+ b))) in H.
  simpl in H. apply orb_false_iff in H as [Hcd _].
  simpl. simpl in IH. now rewrite Hcd, IH.
Qed.

Lemma startsWithDash_prefix (a b : string) :
  startsWithDash (a +:+ b) = false -> startsWithDash a = false.
Proof. destruct a; [reflexivity | exact id]. Qed.

Lemma trimRight_end (s : string) : endsWithDash (trimRight isDash s) = false.
Proof.
  induction s as [|c r IH]; simpl; [reflexivity|].
  destruct (trimRight isDash r) as [|d r'] eqn:Ht.
  - destruct (isDash c) eqn:Hc; simpl; [reflexivity | exact Hc].
  - exact IH.
Qed.

(** The part of a generated name that comes from the paths. *)
Lemma path_part_shape (paths : list string) :
  let p := trimRight isDash (trimLeft isDash (replaceNonWord false (Join paths "-"))) in
  wordOrDash p = true /\ doubleDash p = false
  /\ startsWithDash p = false /\ endsWithDash p = false.
Proof.
  intros p. subst p.
  destruct (replaceNonWord_shape (Join paths "-") false) as (H1 & H2 & _).
  destruct (trimLeft_shape _ H1 H2) as (H3 & H4 & H5).
  destruct (trimRight_prefix isDash (trimLeft isDash (replaceNonWord false
                                                        (Join paths "-"))))
    as [rest Hrest].
  rewrite Hrest in H3, H4, H5.
  split; [now apply wordOrDash_prefix in H3|].
  split; [now apply doubleDash_prefix in H4|].
  split; [now apply startsWithDash_prefix in H5 | apply trimRight_end].
Qed.

(** X11: the name generated for a route does not depend on the order of
    the methods nor on the case of their letters: two method lists that
    are rearrangements of one another once upper-cased give the same
    name. *)
Theorem X11_route_name_ignores_method_order (service : string)
    (paths methods methods' : list string) :
  Permutation (toUpper methods) (toUpper methods') ->
  defaultRouteName service paths methods = defaultRouteName service paths methods'.
Proof.
  intros Hp. unfold defaultRouteName. now rewrite (sortStrings_unique _ _ Hp).
Qed.

Lemma X11_witness :
  defaultRouteName "user" ["/v1/users"] ["post"; "GET"] = "user-v1-users-GET+POST"
  /\ defaultRouteName "user" ["/v1/users"] ["get"; "Post"]
     = defaultRouteName "user" ["/v1/users"] ["post"; "GET"].
Proof.
  split; [reflexivity|].
  apply (X11_route_name_ignores_method_order "user" ["/v1/users"] ["get"; "Post"]
           ["post"; "GET"]).
  apply perm_swap.
Defined.

(** X12: the shape of a generated name.  It is the service, a dash, the
    part that comes from the paths, a dash, and the methods; the part of
    the paths holds ASCII letters, digits and dashes only, never two
    dashes in a row, and neither starts nor ends with a dash; the methods
    are [ANY] when the route has none, otherwise the upper-cased methods
    in ascending order joined with [+]. *)
Theorem X12_route_name_shape (service : string) (paths methods : list string) :
  exists p m,
    defaultRouteName service paths methods = service +:+ "-" +:+ p +:+ "-" +:+ m
    /\ wordOrDash p = true /\ doubleDash p = false
    /\ startsWithDash p = false /\ endsWithDash p = false
    /\ (methods = [] -> m = "ANY")
    /\ (methods <> [] -> m = Join (sortStrings (toUpper methods)) "+").
Proof.
  exists (trimRight isDash (trimLeft isDash (replaceNonWord false (Join paths "-")))).
  exists (Join (if (length (sortStrings (toUpper methods)) =? 0)%nat
                then ["ANY"] else sortStrings (toUpper methods)) "+").
  split; [reflexivity|].
  destruct (path_part_shape paths) as (H1 & H2 & H3 & H4).
  split; [exact H1|]. split; [exact H2|]. split; [exact H3|]. split; [exact H4|].
  split.
  - intros ->. reflexivity.
  - intros Hne.
    assert (Hlen : length (sortStrings (toUpper methods)) <> 0%nat).
    { rewrite (Permutation_length (sortStrings_Permutation _)). unfold toUpper.
      rewrite length_map. destruct methods; [congruence | discriminate]. }
    apply Nat.eqb_neq in Hlen. now rewrite Hlen.
Qed.

(** ** The client of the Admin API *)

(** X13: the client checks its arguments before it sends anything.  An
    empty name, URL, upstream or target address, and a route that names
    no service, make the call fail with no request sent and nothing else
    changed. *)
Theorem X13_client_checks_arguments_first {W : Type} `{Admin W} (e : Env W)
    (name url up proto path target : string) (port weight : Z) (desired : Route) :
  name <> "" ->
  CreateOrUpdateUpstream "" e = (e, Err ErrClientArgs)
  /\ CreateOrUpdateService "" url e = (e, Err ErrClientArgs)
  /\ CreateOrUpdateService name "" e = (e, Err ErrClientArgs)
  /\ CreateOrUpdateServiceViaUpstream "" up proto port path e = (e, Err ErrClientArgs)
  /\ CreateOrUpdateServiceViaUpstream name "" proto port path e = (e, Err ErrClientArgs)
  /\ AddTarget "" target weight e = (e, Err ErrClientArgs)
  /\ AddTarget up "" weight e = (e, Err ErrClientArgs)
  /\ CreateOrUpdateRoute (withName "" desired) e = (e, Err ErrClientArgs)
  /\ CreateOrUpdateRoute (withName name (withServiceRef zeroRef desired)) e
     = (e, Err ErrRouteService).
Proof.
  intros Hn. split; [reflexivity|]. split; [reflexivity|].
  split.
  { unfold CreateOrUpdateService. now rewrite orb_true_r. }
  split; [reflexivity|]. split.
  { unfold CreateOrUpdateServiceViaUpstream. now rewrite orb_true_r. }
  split; [reflexivity|]. split.
  { unfold AddTarget. now rewrite orb_true_r. }
  split; [reflexivity|].
  unfold CreateOrUpdateRoute. cbn [withName withServiceRef rt_Name rt_Service].
  rewrite (proj2 (streq_false _ _) Hn). reflexivity.
Qed.

Lemma X13_witness :
  CreateOrUpdateService "svc" "" (initEnv emptyStore)
  = (initEnv emptyStore, Err ErrClientArgs)
  /\ CreateOrUpdateRoute (withName "r" (withServiceRef zeroRef onceRemote))
       (initEnv emptyStore)
     = (initEnv emptyStore, Err ErrRouteService).
Proof.
  assert (Hn : "r" <> "") by discriminate.
  destruct (X13_client_checks_arguments_first (initEnv emptyStore) "r" "" "" "" "" ""
              0 0 onceRemote Hn) as (_ & _ & _ & _ & _ & _ & _ & _ & Hr).
  destruct (X13_client_checks_arguments_first (initEnv emptyStore) "svc" "" "" "" "" ""
              0 0 onceRemote) as (_ & _ & Hs & _); [discriminate|].
  split; [exact Hs | exact Hr].
Defined.

(** *** Targets *)

Lemma store_EnsureTarget (up t : string) (w : Z) (e : Env Store) :
  EnsureTarget up t w e
  = match findUpstream (world e) up with
    | None =>
        (logEvent e (mkEvent (CGetTargets up) (Failed (ErrHTTP 404))), Err (ErrHTTP 404))
    | Some _ =>
        let l := targetsOf (world e) up in
        let e1 := logEvent e (mkEvent (CGetTargets up) (Listed l)) in
        if existsb (sameTarget t w) l then (e1, Ok false)
        else if streq up "" || streq t "" then (e1, Err ErrClientArgs)
        else (setWorld (storePostTarget up (mkTarget "" t w) (world e)).2
                (logEvent e1 (mkEvent (CPostTarget up (mkTarget "" t w)) Found)),
              Ok true)
    end.
Proof.
  unfold EnsureTarget, AddTarget, sameTarget. unfold bind, ret, fail.
  rewrite store_ListTargets.
  destruct (findUpstream (world e) up) as [u|] eqn:Hu; [|reflexivity].
  cbv zeta. destruct (existsb _ _); [reflexivity|].
  destruct (_ || _); [reflexivity|].
  erewrite store_post_target by exact Hu. reflexivity.
Qed.

Lemma replaced_target_listed (up : string) (t' : Target) (q : Target -> bool)
    (l : list (string * Target)) :
  q t' = true ->
  existsb (λ p : string * Target, streq p.1 up && streq (tg_Target p.2) (tg_Target t')) l
  = true ->
  existsb q
    (map snd
       (filter (λ p : string * Target, p.1 = up)
          (replaceFirst
             (λ p : string * Target,
                streq p.1 up && streq (tg_Target p.2) (tg_Target t')) (up, t') l)))
  = true.
Proof.
  intros Hq. induction l as [|[u0 t0] r IH]; simpl; [discriminate|].
  destruct (streq u0 up && streq (tg_Target t0) (tg_Target t')) eqn:Hs; simpl.
  - intros _. rewrite filter_cons_True by reflexivity. simpl. now rewrite Hq.
  - intros Hr. specialize (IH Hr).
    destruct (decide (u0 = up)) as [He|He].
    + rewrite filter_cons_True by exact He. simpl. rewrite IH. apply orb_true_r.
    + rewrite filter_cons_False by exact He. exact IH.
Qed.

(** A target that was posted is found by the next [EnsureTarget]. *)
Lemma posted_target_listed (up t : string) (w : Z) (st : Store) (u : Upstream) :
  findUpstream st up = Some u ->
  findUpstream (storePostTarget up (mkTarget "" t w) st).2 up = Some u
  /\ existsb (sameTarget t w) (targetsOf (storePostTarget up (mkTarget "" t w) st).2 up)
     = true.
Proof.
  intros Hu. unfold storePostTarget. rewrite Hu. cbn [snd tg_Target tg_Weight].
  split; [exact Hu|].
  set (t' := mkTarget (idOf (up +:+ "/" +:+ t)) t w).
  assert (Hq : sameTarget t w t' = true).
  { unfold sameTarget, t'. cbn [tg_Target tg_Weight].
    now rewrite streq_refl, Z.eqb_refl. }
  destruct (existsb _ (st_targets st)) eqn:Hex.
  - unfold targetsOf. cbn [st_targets].
    apply (replaced_target_listed up t' (sameTarget t w) (st_targets st) Hq).
    exact Hex.
  - rewrite targetsOf_snoc, existsb_app. simpl. rewrite Hq. now rewrite orb_true_r.
Qed.

(** X14: [EnsureTarget] against the reference store, for an upstream that
    exists.  The call succeeds, and calling it again with the same
    arguments adds nothing: the second call returns [false], sends the
    list request only and leaves the store as the first call left it. *)
Theorem X14_EnsureTarget_twice (up t : string) (w : Z) (e : Env Store) (u : Upstream) :
  findUpstream (world e) up = Some u -> up <> "" -> t <> "" ->
  (exists added, (EnsureTarget up t w e).2 = Ok added)
  /\ (EnsureTarget up t w (EnsureTarget up t w e).1).2 = Ok false
  /\ world (EnsureTarget up t w (EnsureTarget up t w e).1).1
     = world (EnsureTarget up t w e).1
  /\ mutations (trace (EnsureTarget up t w (EnsureTarget up t w e).1).1)
     = mutations (trace (EnsureTarget up t w e).1).
Proof.
  intros Hu Hup Ht. apply streq_false in Hup, Ht.
  rewrite (store_EnsureTarget up t w e), Hu. cbv zeta.
  destruct (existsb (sameTarget t w) (targetsOf (world e) up)) eqn:Hex.
  - cbn [fst snd]. split; [eauto|].
    rewrite store_EnsureTarget. env_simpl. rewrite Hu. cbv zeta. rewrite Hex.
    env_simpl. split; [reflexivity|]. split; [reflexivity|].
    rewrite mutations_app. simpl. now rewrite app_nil_r.
  - rewrite Hup, Ht. cbn [orb fst snd]. split; [eauto|].
    destruct (posted_target_listed up t w (world e) u Hu) as [Hu' Hex'].
    rewrite store_EnsureTarget. env_simpl. rewrite Hu'. cbv zeta. rewrite Hex'.
    env_simpl. split; [reflexivity|]. split; [reflexivity|].
    rewrite !mutations_app. simpl. now rewrite app_nil_r.
Qed.

Lemma X14_witness :
  (EnsureTarget "up" "a:80" 100 (initEnv storeWithSvc)).2 = Ok true
  /\ (EnsureTarget "up" "a:80" 100
        (EnsureTarget "up" "a:80" 100 (initEnv storeWithSvc)).1).2 = Ok false
  /\ world (EnsureTarget "up" "a:80" 100
              (EnsureTarget "up" "a:80" 100 (initEnv storeWithSvc)).1).1
     = world (EnsureTarget "up" "a:80" 100 (initEnv storeWithSvc)).1.
Proof.
  assert (Hup : "up" <> "") by discriminate.
  assert (Ht : "a:80" <> "") by discriminate.
  destruct (X14_EnsureTarget_twice "up" "a:80" 100 (initEnv storeWithSvc)
              (mkUpstream "id-up" "up") eq_refl Hup Ht) as (_ & H2 & H3 & _).
  split; [reflexivity|]. split; [exact H2 | exact H3].
Defined.

(** ** [apply]: targets whose weight differs *)

Lemma store_dry_ensureTarget (wd ow : bool) (url up : string) (t : applyTarget)
    (e : Env Store) (u : Upstream) :
  findUpstream (world e) up = Some u ->
  (ensureTarget (dryFlags wd ow url) up t e).2 = Ok tt
  /\ world (ensureTarget (dryFlags wd ow url) up t e).1 = world e
  /\ mutations (trace (ensureTarget (dryFlags wd ow url) up t e).1) = mutations (trace e)
  /\ Items (plan (ensureTarget (dryFlags wd ow url) up t e).1)
     = Items (plan e)
       ++ [mkChange "Target" (up +:+ "/" +:+ at_Target t)
             (if existsb (λ x, streq (tg_Target x) (at_Target t)
                                && (tg_Weight x =? weightOf t))
                         (targetsOf (world e) up)
              then "none" else "create") []].
Proof.
  intros Hu. unfold ensureTarget. cbn [dryRun dryFlags negb when].
  unfold bind, attempt, planAppend, ret. rewrite store_ListTargets, Hu.
  cbn [fst snd world trace plan Items logEvent].
  split; [reflexivity|]. split; [reflexivity|]. split; [|reflexivity].
  rewrite mutations_app. simpl. now rewrite app_nil_r.
Qed.

Lemma weightOf_nonzero (t : applyTarget) : weightOf t <> 0.
Proof. unfold weightOf. destruct (at_Weight t =? 0) eqn:H; [lia | now apply Z.eqb_neq]. Qed.

(** X15: a target of the document whose address is registered under the
    upstream, with another weight.  The dry run lists it as a target to
    create; the executing run without [--overwrite] creates nothing: it
    prints the warning that the weight differs and leaves the store as it
    is. *)
Theorem X15_target_weight_change_planned_as_create (withDiff overwrite : bool)
    (url up : string) (t : applyTarget) (x : Target) (u : Upstream) (e : Env Store) :
  findUpstream (world e) up = Some u ->
  targetAt (world e) up (at_Target t) = Some x ->
  existsb (λ y, streq (tg_Target y) (at_Target t) && (tg_Weight y =? weightOf t))
          (targetsOf (world e) up) = false ->
  (ensureTarget (dryFlags withDiff overwrite url) up t e).2 = Ok tt
  /\ Items (plan (ensureTarget (dryFlags withDiff overwrite url) up t e).1)
     = Items (plan e) ++ [mkChange "Target" (up +:+ "/" +:+ at_Target t) "create" []]
  /\ mutations (trace (ensureTarget (dryFlags withDiff overwrite url) up t e).1)
     = mutations (trace e)
  /\ skipped e (ensureTarget (execFlags withDiff false url) up t e)
       [Print LWarn FmtTargetWeightSkipped [VStr (at_Target t)]].
Proof.
  intros Hu Hx Hex.
  destruct (store_dry_ensureTarget withDiff overwrite url up t e u Hu)
    as (Hr & _ & Hm & Hp).
  rewrite Hex in Hp. split; [exact Hr|]. split; [exact Hp|]. split; [exact Hm|].
  assert (Hw : (tg_Weight x =? weightOf t) || (weightOf t =? 0) = false).
  { unfold targetAt in Hx. pose proof (find_key _ _ _ Hx) as Hk.
    apply find_some in Hx as [Hin _].
    assert (Hy : streq (tg_Target x) (at_Target t) && (tg_Weight x =? weightOf t) = false).
    { destruct (streq (tg_Target x) (at_Target t) && (tg_Weight x =? weightOf t)) eqn:Hb;
        [|reflexivity].
      assert (He : existsb (λ y, streq (tg_Target y) (at_Target t)
                                  && (tg_Weight y =? weightOf t))
                           (targetsOf (world e) up) = true)
        by (apply existsb_exists; eauto).
      congruence. }
    cbv beta in Hk. rewrite Hk in Hy. simpl in Hy. rewrite Hy.
    apply orb_false_iff. split; [reflexivity|].
    apply Z.eqb_neq, weightOf_nonzero. }
  unfold skipped. rewrite store_ensureTarget. cbv zeta. rewrite Hu.
  unfold targetAt in Hx. rewrite Hx, Hw.
  destruct withDiff; cbn [fst snd]; (split; [reflexivity|]);
    (split; [now env_norm|]); split; obs_norm; reflexivity.
Qed.

Lemma X15_witness :
  Items (plan (ensureTarget (dryFlags false false localhost) "up"
                 (mkApplyTarget "a:80" 0) (initEnv storeWithTarget)).1)
  = [mkChange "Target" "up/a:80" "create" []]
  /\ skipped (initEnv storeWithTarget)
       (ensureTarget (execFlags false false localhost) "up" (mkApplyTarget "a:80" 0)
          (initEnv storeWithTarget))
       [Print LWarn FmtTargetWeightSkipped [VStr "a:80"]].
Proof.
  destruct (X15_target_weight_change_planned_as_create false false localhost "up"
              (mkApplyTarget "a:80" 0) (mkTarget "id-up/a:80" "a:80" 50)
              (mkUpstream "id-up" "up") (initEnv storeWithTarget)
              eq_refl eq_refl eq_refl) as (_ & Hp & _ & Hs).
  split; [exact Hp | exact Hs].
Defined.

(** ** The commands [route sync], [service sync] and [target add] *)

Lemma store_CreateOrUpdateRoute (desired : Route) (svc : Service) (e : Env Store) :
  rt_Name desired <> "" -> ref_ID (rt_Service desired) = "" ->
  ref_Name (rt_Service desired) <> "" ->
  findService (world e) (ref_Name (rt_Service desired)) = Some svc ->
  svc_ID svc <> "" ->
  let name := rt_Name desired in
  let d := withServiceID desired (svc_ID svc) in
  let e1 := logEvent e (mkEvent (CGetService (ref_Name (rt_Service desired))) Found) in
  exists rt,
    CreateOrUpdateRoute desired e
    = match findRoute (world e) name with
      | None =>
          (setWorld (storePostRoute d (world e)).2
             (logEvent (logEvent e1 (mkEvent (CGetRoute name) Missing))
                       (mkEvent (CPostRoute d) Found)),
           Ok ("create", rt))
      | Some cur =>
          (setWorld (storePatchRoute name (routePatchOf d) (world e)).2
             (logEvent (logEvent e1 (mkEvent (CGetRoute name) Found))
                       (mkEvent (CPatchRoute name (routePatchOf d)) Found)),
           Ok ("update", rt))
      end.
Proof.
  intros Hn Hid Hs Hsvc Hsid name d e1.
  apply streq_false in Hn, Hsid.
  unfold CreateOrUpdateRoute. rewrite Hn, Hid.
  change (streq "" "") with true. rewrite (sneq_true _ _ Hs). cbn [andb].
  unfold bind, ret, fail. rewrite store_GetService, Hsvc. env_simpl.
  cbn [withServiceID rt_Service ref_ID rt_Name]. rewrite Hsid.
  rewrite store_GetRoute. env_simpl. fold name.
  destruct (findRoute (world e) name) as [cur|] eqn:Hf; env_simpl.
  - assert (Hcur : rt_Name cur = name).
    { apply find_key in Hf. now apply streq_true in Hf. }
    rewrite Hcur. fold d. erewrite store_patch_route by exact Hf. eexists. reflexivity.
  - fold d.
    match goal with |- context [request (CPostRoute d) _ _ _ ?env] =>
      destruct (store_post_route d env) as [r' Hpost] end.
    { exact Hf. }
    rewrite Hpost. eexists. reflexivity.
Qed.

(** X16: [route sync] looks at [--dry-run] only inside the branch of
    [--diff].  With [--dry-run] and no [--diff] the command does exactly
    what it does without [--dry-run]; with both flags it sends lookups
    only. *)
Theorem X16_route_sync_dry_run_needs_diff {W : Type} `{Admin W} (fl : RouteSyncFlags)
    (e : Env W) :
  routeSyncCmd (routeSyncWith true false fl) e
  = routeSyncCmd (routeSyncWith false false fl) e
  /\ exists new,
       trace (ran_env (routeSyncCmd (routeSyncWith true true fl) e)) = trace e ++ new
       /\ onlyLookups new.
Proof.
  split; [reflexivity|].
  unfold routeSyncCmd. cbn [routeSyncWith rs_service rs_name rs_paths rs_methods rs_hosts
                            rs_pathHandling rs_dryRun rs_showDiff rs_adminURL andb].
  assert (Hnil : exists new, trace e = trace e ++ new /\ onlyLookups new).
  { exists []. split; [now rewrite app_nil_r | constructor]. }
  destruct (_ || _); [exact Hnil|].
  destruct (streq (rs_adminURL fl) ""); [exact Hnil|].
  destruct (_ && _); [exact Hnil|].
  match goal with |- context [GetRoute ?n e] =>
    destruct (emits_request (CGetRoute n) (getRoute n) decodeGet readGet e)
      as (new & Ht & ->);
    fold (GetRoute n) in Ht |- *; destruct (GetRoute n e) as [e1 r] end.
  cbn [fst snd] in Ht. eexists.
  split; [destruct r as [cur|x]; exact Ht | repeat constructor].
Qed.

Lemma app_nonempty (a b : string) : a <> "" -> a +:+ b <> "".
Proof. destruct a; [congruence | discriminate]. Qed.

Lemma routeSyncName_nonempty (fl : RouteSyncFlags) :
  rs_service fl <> "" -> routeSyncName fl <> "".
Proof.
  intros Hs. unfold routeSyncName. destruct (streq (rs_name fl) "") eqn:Hn.
  - unfold defaultRouteName. cbv zeta. now apply app_nonempty.
  - now apply streq_false.
Qed.

(** X17: [route sync] against the reference store, when the flags pass the
    checks, the service exists, and the command is not stopped by
    [--diff --dry-run].  It compares nothing and asks for no
    confirmation: a route that does not exist is created, a route that
    exists is patched, whether or not it differs; the route it sends has
    [strip_path] on and the id of the service. *)
Theorem X17_route_sync_always_writes (fl : RouteSyncFlags) (svc : Service)
    (e : Env Store) :
  routeSyncValid fl = true ->
  rs_showDiff fl && rs_dryRun fl = false ->
  findService (world e) (rs_service fl) = Some svc -> svc_ID svc <> "" ->
  ran_err (routeSyncCmd fl e) = None
  /\ rt_StripPath (withServiceID (routeSyncDesired fl) (svc_ID svc)) = Some true
  /\ ref_ID (rt_Service (withServiceID (routeSyncDesired fl) (svc_ID svc))) = svc_ID svc
  /\ mutations (trace (ran_env (routeSyncCmd fl e)))
     = mutations (trace e)
       ++ [match findRoute (world e) (routeSyncName fl) with
           | None => CPostRoute (withServiceID (routeSyncDesired fl) (svc_ID svc))
           | Some _ =>
               CPatchRoute (routeSyncName fl)
                 (routePatchOf (withServiceID (routeSyncDesired fl) (svc_ID svc)))
           end].
Proof.
  intros Hv Hstop Hsvc Hid.
  unfold routeSyncValid in Hv. cbv zeta in Hv.
  apply andb_true_iff in Hv as [Hv Hph]. apply andb_true_iff in Hv as [Hv Hurl].
  apply andb_true_iff in Hv as [Hs Hp].
  assert (Hs' : rs_service fl <> "").
  { unfold sneq in Hs. apply negb_true_iff in Hs. now apply streq_false. }
  pose proof (routeSyncName_nonempty fl Hs') as Hname.
  split; [|split; [reflexivity|split; [reflexivity|]]];
    unfold routeSyncCmd;
    unfold sneq in Hs, Hurl; apply negb_true_iff in Hs, Hurl, Hp;
    rewrite Hs, Hp, Hurl; cbn [orb];
    fold (routeSyncName fl);
    (assert (Hok : sneq (ToLower (TrimSpace (rs_pathHandling fl))) ""
                   && sneq (ToLower (TrimSpace (rs_pathHandling fl))) "v0"
                   && sneq (ToLower (TrimSpace (rs_pathHandling fl))) "v1" = false)
      by (unfold sneq;
          destruct (streq (ToLower (TrimSpace (rs_pathHandling fl))) ""),
            (streq (ToLower (TrimSpace (rs_pathHandling fl))) "v0"),
            (streq (ToLower (TrimSpace (rs_pathHandling fl))) "v1");
          simpl in *; congruence));
    rewrite Hok; fold (routeSyncDesired fl);
    rewrite store_GetRoute, Hstop;
    (destruct (store_CreateOrUpdateRoute (routeSyncDesired fl) svc
                 (logEvent e (mkEvent (CGetRoute (routeSyncName fl))
                                      (readGet (Ok (findRoute (world e)
                                                      (routeSyncName fl))))))
                 Hname eq_refl Hs' Hsvc Hid) as [rt Heq]);
    cbv zeta in Heq; cbn [routeSyncDesired rt_Name world logEvent] in Heq;
    fold (routeSyncDesired fl) in Heq; rewrite Heq;
    destruct (findRoute (world e) (routeSyncName fl)); cbn [ran_err ran_env];
    try reflexivity; obs_norm; reflexivity.
Qed.

Lemma X17_witness :
  rs_dryRun demoRouteSync = true
  /\ mutations (trace (ran_env (routeSyncCmd demoRouteSync (initEnv storeInSync))))
     = [CPatchRoute "demo"
          (routePatchOf (withServiceID (routeSyncDesired demoRouteSync)
                           "id-demo-service"))]
  /\ mutations (trace (ran_env (routeSyncCmd demoRouteSync
                                  (initEnv storeWithDemoService))))
     = [CPostRoute (withServiceID (routeSyncDesired demoRouteSync) "id-demo-service")].
Proof.
  assert (Hid : "id-demo-service" <> "") by discriminate.
  split; [reflexivity|]. split.
  - exact (proj2 (proj2 (proj2
      (X17_route_sync_always_writes demoRouteSync
         (mkService "id-demo-service" "demo-service" "" "http" "demo-upstream" 80 ""
            0 0 0 0)
         (initEnv storeInSync) eq_refl eq_refl eq_refl Hid)))).
  - exact (proj2 (proj2 (proj2
      (X17_route_sync_always_writes demoRouteSync
         (mkService "id-demo-service" "demo-service" "" "http" "demo-upstream" 80 ""
            0 0 0 0)
         (initEnv storeWithDemoService) eq_refl eq_refl eq_refl Hid)))).
Defined.

(** X18: [service sync] reads [--dry-run] only inside its [--diff]
    branches, as [route sync] does: with [--dry-run] and no [--diff] it
    does what it does without [--dry-run]; with both flags it sends
    lookups only. *)
Theorem X18_service_sync_dry_run_needs_diff {W : Type} `{Admin W}
    (fl : ServiceSyncFlags) (e : Env W) :
  serviceSyncCmd (serviceSyncWith true false fl) e
  = serviceSyncCmd (serviceSyncWith false false fl) e
  /\ exists new,
       trace (ran_env (serviceSyncCmd (serviceSyncWith true true fl) e)) = trace e ++ new
       /\ onlyLookups new.
Proof.
  split; [reflexivity|].
  unfold serviceSyncCmd.
  cbn [serviceSyncWith ss_name ss_url ss_parsed ss_path ss_dryRun ss_showDiff
       ss_autoUpstream ss_upstream ss_weight ss_adminURL andb].
  assert (Hnil : exists new, trace e = trace e ++ new /\ onlyLookups new).
  { exists []. split; [now rewrite app_nil_r | constructor]. }
  destruct (_ || _); [exact Hnil|].
  destruct (streq (ss_adminURL fl) ""); [exact Hnil|].
  destruct (ss_parsed fl) as [u|]; [|exact Hnil]. cbv zeta.
  destruct (emits_request (CGetService (ss_name fl)) (getService (ss_name fl))
              decodeGet readGet e) as (new & Ht & ->).
  fold (GetService (ss_name fl)) in Ht |- *.
  destruct (GetService (ss_name fl) e) as [e1 r]. cbn [fst snd] in Ht.
  eexists.
  split; [destruct r as [cur|x]; [destruct (ss_autoUpstream fl)|]; exact Ht
         | repeat constructor].
Qed.

(** ** [export] followed by [apply] *)




















(** ** Exported targets *)

Lemma store_ensureTarget_same (wd ow : bool) (url up : string) (t : applyTarget)
    (e : Env Store) (u : Upstream) (x : Target) :
  findUpstream (world e) up = Some u ->
  find (λ y, streq (tg_Target y) (at_Target t)) (targetsOf (world e) up) = Some x ->
  tg_Weight x = weightOf t ->
  ensureTarget (execFlags wd ow url) up t e
  = (logEvent (if wd
               then addNotice e (Print LInfo FmtEnsureTarget
                                       [VStr (at_Target t); VInt (weightOf t); VStr up])
               else e)
       (mkEvent (CGetTargets up) (Listed (targetsOf (world e) up))), Ok tt).
Proof.
  intros Hu Hf Hw. store_unfold.
  destruct wd; env_simpl; store_step; rewrite Hu; env_simpl;
    rewrite Hf, Hw, Z.eqb_refl; reflexivity.
Qed.

Lemma store_ensureTarget_overwrite (wd : bool) (url up : string) (t : applyTarget)
    (e : Env Store) (u : Upstream) (x : Target) :
  findUpstream (world e) up = Some u ->
  find (λ y, streq (tg_Target y) (at_Target t)) (targetsOf (world e) up) = Some x ->
  (tg_Weight x =? weightOf t) = false ->
  existsb (sameTarget (at_Target t) (weightOf t)) (targetsOf (world e) up) = false ->
  up <> "" -> at_Target t <> "" ->
  ensureTarget (execFlags wd true url) up t e
  = let l := targetsOf (world e) up in
    let e0 := if wd
              then addNotice e (Print LInfo FmtEnsureTarget
                                      [VStr (at_Target t); VInt (weightOf t); VStr up])
              else e in
    let e2 := logEvent (logEvent e0 (mkEvent (CGetTargets up) (Listed l)))
                (mkEvent (CGetTargets up) (Listed l)) in
    (setWorld (storePostTarget up (mkTarget "" (at_Target t) (weightOf t)) (world e)).2
       (logEvent e2 (mkEvent (CPostTarget up (mkTarget "" (at_Target t) (weightOf t)))
                             Found)),
     Ok tt).
Proof.
  intros Hu Hf Hw Hex Hup Ht.
  assert (H0 : (weightOf t =? 0) = false) by apply Z.eqb_neq, weightOf_nonzero.
  apply streq_false in Hup, Ht.
  unfold ensureTarget, ignore, when, PrintInfo.
  unfold print, ret, bind. cbn [dryRun showDiff applyOverwrite execFlags negb].
  destruct wd; env_simpl; store_step; rewrite Hu; env_simpl;
    rewrite Hf, Hw, H0; cbn [orb];
    rewrite store_EnsureTarget; env_simpl; rewrite Hu; cbv zeta;
    rewrite Hex, Hup, Ht; reflexivity.
Qed.

Lemma existsb_pointwise {A} (f g : A -> bool) (l : list A) :
  (forall x, f x = g x) -> existsb f l = existsb g l.
Proof. intros H. induction l as [|x l IH]; simpl; [reflexivity|]. now rewrite H, IH. Qed.

Lemma TrimSpace_nonempty (s : string) : TrimSpace s <> "" -> s <> "".
Proof. intros H ->. now apply H. Qed.

(** X23: a target that the store lists under an upstream with a weight
    other than zero is exported with its address and weight, and [apply]
    finds the exported target in sync: the dry run plans [none], and the
    execution, with or without [--overwrite], only lists the targets: it
    changes nothing and prints no warning. *)
Theorem X23_exported_target_is_in_sync (withDiff overwrite : bool) (url up : string)
    (x : Target) (u : Upstream) (e : Env Store) :
  findUpstream (world e) up = Some u ->
  targetAt (world e) up (tg_Target x) = Some x ->
  TrimSpace (tg_Target x) <> "" -> tg_Weight x <> 0 ->
  let t := mkApplyTarget (tg_Target x) (tg_Weight x) in
  exportTargets [x] = [t]
  /\ Items (plan (ensureTarget (dryFlags withDiff overwrite url) up t e).1)
     = Items (plan e) ++ [mkChange "Target" (up +:+ "/" +:+ tg_Target x) "none" []]
  /\ skipped e (ensureTarget (execFlags withDiff overwrite url) up t e) [].
Proof.
  intros Hu Hx Hts Hw t.
  assert (Hwt : weightOf t = tg_Weight x).
  { unfold weightOf, t. cbn [at_Weight]. now rewrite (proj2 (Z.eqb_neq _ _) Hw). }
  split.
  { unfold exportTargets. cbn [flat_map app].
    now rewrite (proj2 (streq_false _ _) Hts). }
  split.
  - destruct (store_dry_ensureTarget withDiff overwrite url up t e u Hu)
      as (_ & _ & _ & Hp).
    rewrite Hp. rewrite Hwt.
    assert (Hex : existsb (λ y, streq (tg_Target y) (at_Target t)
                                 && (tg_Weight y =? tg_Weight x))
                          (targetsOf (world e) up) = true).
    { apply existsb_exists. exists x. unfold targetAt in Hx.
      split; [now apply find_some in Hx as [Hin _]|].
      cbn [at_Target t]. now rewrite streq_refl, Z.eqb_refl. }
    now rewrite Hex.
  - unfold skipped.
    rewrite (store_ensureTarget_same withDiff overwrite url up t e u x Hu Hx
               (eq_sym Hwt)).
    destruct withDiff; cbn [fst snd]; (split; [reflexivity|]);
      (split; [now env_norm|]); split; obs_norm; reflexivity.
Qed.

Lemma X23_witness :
  exportTargets [mkTarget "id-up/a:80" "a:80" 50] = [mkApplyTarget "a:80" 50]
  /\ skipped (initEnv storeWithTarget)
       (ensureTarget (execFlags false true localhost) "up" (mkApplyTarget "a:80" 50)
          (initEnv storeWithTarget)) [].
Proof.
  destruct (X23_exported_target_is_in_sync false true localhost "up"
              (mkTarget "id-up/a:80" "a:80" 50) (mkUpstream "id-up" "up")
              (initEnv storeWithTarget) eq_refl eq_refl) as (He & _ & Hs);
    [discriminate | discriminate |].
  split; [exact He | exact Hs].
Defined.

(** X24: a target that the store lists with the weight 0 is exported with
    the weight 0, which [apply] reads as the default weight 100.  The dry
    run plans to create the target, and the execution with [--overwrite]
    posts it with the weight 100, after which the upstream lists the
    address with that weight. *)
Theorem X24_exported_weight_zero_becomes_100 (withDiff : bool) (url up : string)
    (x : Target) (u : Upstream) (e : Env Store) :
  findUpstream (world e) up = Some u -> up <> "" ->
  targetAt (world e) up (tg_Target x) = Some x ->
  TrimSpace (tg_Target x) <> "" -> tg_Weight x = 0 ->
  existsb (sameTarget (tg_Target x) 100) (targetsOf (world e) up) = false ->
  let t := mkApplyTarget (tg_Target x) 0 in
  let out := ensureTarget (execFlags withDiff true url) up t e in
  exportTargets [x] = [t]
  /\ Items (plan (ensureTarget (dryFlags withDiff true url) up t e).1)
     = Items (plan e) ++ [mkChange "Target" (up +:+ "/" +:+ tg_Target x) "create" []]
  /\ patched e out [CPostTarget up (mkTarget "" (tg_Target x) 100)]
  /\ existsb (sameTarget (tg_Target x) 100) (targetsOf (world out.1) up) = true.
Proof.
  intros Hu Hup Hx Hts Hw Hex t out.
  assert (Ht : tg_Target x <> "") by now apply TrimSpace_nonempty.
  assert (Hex' : existsb (λ y, streq (tg_Target y) (at_Target t)
                                && (tg_Weight y =? weightOf t))
                         (targetsOf (world e) up) = false).
  { rewrite <- Hex. apply existsb_pointwise. intros y. unfold sameTarget.
    cbn [at_Target weightOf at_Weight t Z.eqb]. now rewrite orb_false_r. }
  split.
  { unfold exportTargets. cbn [flat_map app].
    now rewrite (proj2 (streq_false _ _) Hts), Hw. }
  split.
  { destruct (store_dry_ensureTarget withDiff true url up t e u Hu) as (_ & _ & _ & Hp).
    rewrite Hp, Hex'. reflexivity. }
  assert (Hout : out
                 = let l := targetsOf (world e) up in
                   let e0 := if withDiff
                             then addNotice e (Print LInfo FmtEnsureTarget
                                                 [VStr (at_Target t); VInt (weightOf t);
                                                  VStr up])
                             else e in
                   let e2 := logEvent (logEvent e0 (mkEvent (CGetTargets up) (Listed l)))
                               (mkEvent (CGetTargets up) (Listed l)) in
                   (setWorld (storePostTarget up (mkTarget "" (at_Target t) (weightOf t))
                                (world e)).2
                      (logEvent e2 (mkEvent (CPostTarget up
                                               (mkTarget "" (at_Target t) (weightOf t)))
                                            Found)),
                    Ok tt)).
  { apply (store_ensureTarget_overwrite withDiff url up t e u x Hu Hx);
      [now rewrite Hw | exact Hex | exact Hup | exact Ht]. }
  rewrite Hout. cbv zeta. change (weightOf t) with 100. change (at_Target t) with (tg_Target x).
  split.
  - unfold patched.
    destruct withDiff; cbn [fst snd]; (split; [reflexivity|]); split; obs_norm;
      reflexivity.
  - cbn [fst world setWorld].
    now destruct (posted_target_listed up (tg_Target x) 100 (world e) u Hu).
Qed.

Lemma X24_witness :
  patched (initEnv storeWithIdleTarget)
    (ensureTarget (execFlags false true localhost) "up" (mkApplyTarget "a:80" 0)
       (initEnv storeWithIdleTarget))
    [CPostTarget "up" (mkTarget "" "a:80" 100)].
Proof.
  destruct (X24_exported_weight_zero_becomes_100 false localhost "up"
              (mkTarget "id-up/a:80" "a:80" 0) (mkUpstream "id-up" "up")
              (initEnv storeWithIdleTarget) eq_refl) as (_ & _ & Hp & _);
    [discriminate | reflexivity | discriminate | reflexivity | reflexivity |].
  exact Hp.
Defined.

(** ** [service sync] and [target add] against the reference store *)

Lemma store_CreateOrUpdateService (name url : string) (e : Env Store) :
  name <> "" -> url <> "" ->
  exists svc,
    CreateOrUpdateService name url e
    = match findService (world e) name with
      | None =>
          (setWorld (storePostService (urlPayload name url) (world e)).2
             (logEvent (logEvent e (mkEvent (CGetService name) Missing))
                (mkEvent (CPostService (urlPayload name url)) Found)),
           Ok ("create", svc))
      | Some _ =>
          (setWorld (storePatchService name (urlPatch url) (world e)).2
             (logEvent (logEvent e (mkEvent (CGetService name) Found))
                (mkEvent (CPatchService name (urlPatch url)) Found)),
           Ok ("update", svc))
      end.
Proof.
  intros Hn Hu. apply streq_false in Hn, Hu.
  unfold CreateOrUpdateService. rewrite Hn, Hu. cbn [orb].
  unfold bind, ret. rewrite store_GetService.
  destruct (findService (world e) name) as [cur|] eqn:Hf; cbn [readGet].
  - pose proof (find_key _ _ _ Hf) as Hk. cbv beta in Hk. apply streq_true in Hk.
    rewrite Hk. fold (urlPatch url).
    erewrite store_patch_service by (env_simpl; exact Hf).
    eexists. reflexivity.
  - fold (urlPayload name url).
    destruct (store_post_service (urlPayload name url)
                (logEvent e (mkEvent (CGetService name) Missing)))
      as [s' Hs]; [exact Hf|].
    rewrite Hs. eexists. reflexivity.
Qed.

Lemma store_CreateOrUpdateServiceViaUpstream (name up proto : string) (port : Z)
    (path : string) (e : Env Store) :
  name <> "" -> up <> "" ->
  exists svc,
    CreateOrUpdateServiceViaUpstream name up proto port path e
    = match findService (world e) name with
      | None =>
          (setWorld (storePostService (servicePayload name up proto port path)
                       (world e)).2
             (logEvent (logEvent e (mkEvent (CGetService name) Missing))
                (mkEvent (CPostService (servicePayload name up proto port path)) Found)),
           Ok ("create", svc))
      | Some _ =>
          (setWorld (storePatchService name (corePatch up proto port path) (world e)).2
             (logEvent (logEvent e (mkEvent (CGetService name) Found))
                (mkEvent (CPatchService name (corePatch up proto port path)) Found)),
           Ok ("update", svc))
      end.
Proof.
  intros Hn Hu. apply streq_false in Hn, Hu.
  unfold CreateOrUpdateServiceViaUpstream. rewrite Hn, Hu. cbn [orb]. cbv zeta.
  fold (protoOf proto). fold (portOf (protoOf proto) port).
  fold (servicePayload name up proto port path). fold (corePatch up proto port path).
  unfold bind, ret. rewrite store_GetService.
  destruct (findService (world e) name) as [cur|] eqn:Hf; cbn [readGet].
  - erewrite store_patch_service by (env_simpl; exact Hf).
    eexists. reflexivity.
  - destruct (store_post_service (servicePayload name up proto port path)
                (logEvent e (mkEvent (CGetService name) Missing)))
      as [s' Hs]; [exact Hf|].
    rewrite Hs. eexists. reflexivity.
Qed.

Lemma store_CreateOrUpdateUpstream (name : string) (e : Env Store) :
  name <> "" ->
  exists r,
    CreateOrUpdateUpstream name e
    = match findUpstream (world e) name with
      | None =>
          (setWorld (storePostUpstream (mkUpstream "" name) (world e)).2
             (logEvent (logEvent e (mkEvent (CGetUpstream name) Missing))
                (mkEvent (CPostUpstream (mkUpstream "" name)) Found)),
           Ok ("create", r))
      | Some _ =>
          (logEvent e (mkEvent (CGetUpstream name) Found), Ok ("update", r))
      end.
Proof.
  intros Hn. apply streq_false in Hn.
  unfold CreateOrUpdateUpstream. rewrite Hn. unfold bind, ret.
  rewrite store_GetUpstream.
  destruct (findUpstream (world e) name) as [cur|] eqn:Hf; cbn [readGet].
  - eexists. reflexivity.
  - rewrite (store_post_upstream (mkUpstream "" name)) by exact Hf.
    eexists. reflexivity.
Qed.

(** X25: [service sync] of a service given by URL, against the reference
    store, when the flags pass the checks and the command is not stopped
    by [--diff --dry-run].  It writes the service whatever it found: a
    service that does not exist is posted, one that exists is patched
    with the URL.  In particular, when [--diff] reports that no field
    changes, the PATCH is sent all the same and the command reports an
    update. *)
Theorem X25_service_sync_always_writes (fl : ServiceSyncFlags) (u : ParsedURL)
    (e : Env Store) :
  ss_name fl <> "" -> ss_url fl <> "" -> ss_adminURL fl <> "" ->
  ss_parsed fl = Some u -> ss_autoUpstream fl = false ->
  ss_showDiff fl && ss_dryRun fl = false ->
  ran_err (serviceSyncCmd fl e) = None
  /\ mutations (trace (ran_env (serviceSyncCmd fl e)))
     = mutations (trace e)
       ++ [match findService (world e) (ss_name fl) with
           | None => CPostService (urlPayload (ss_name fl) (ss_url fl))
           | Some _ => CPatchService (ss_name fl) (urlPatch (ss_url fl))
           end]
  /\ forall cur,
       findService (world e) (ss_name fl) = Some cur ->
       reconstructURL (Some cur) = ss_url fl -> ss_showDiff fl = true ->
       ran_out (serviceSyncCmd fl e)
       = [Say LInfo FmtDiffNoChange [];
          Say LSuccess FmtSvcUpdated [VStr (ss_name fl); VStr (ss_url fl)]].
Proof.
  intros Hn Hu Ha Hp Hauto Hstop.
  destruct (store_CreateOrUpdateService (ss_name fl) (ss_url fl)
              (logEvent e (mkEvent (CGetService (ss_name fl))
                             (readGet (Ok (findService (world e) (ss_name fl))))))
              Hn Hu) as [svc Hc].
  cbn [world logEvent] in Hc.
  assert (Hrun : serviceSyncCmd fl e
                 = let out :=
                     if ss_showDiff fl then
                       match findService (world e) (ss_name fl) with
                       | None =>
                           [Say LInfo FmtDiffNewService [];
                            Text FmtPlusName [VStr (ss_name fl)];
                            Text FmtPlusURL [VStr (ss_url fl)]]
                       | Some cur =>
                           if streq (reconstructURL (Some cur)) (ss_url fl)
                           then [Say LInfo FmtDiffNoChange []]
                           else [Say LInfo FmtDiffHeader [];
                                 Text FmtMinusURL [VStr (reconstructURL (Some cur))];
                                 Text FmtPlusURL [VStr (ss_url fl)]]
                       end
                     else [] in
                   let r := CreateOrUpdateService (ss_name fl) (ss_url fl)
                              (logEvent e (mkEvent (CGetService (ss_name fl))
                                 (readGet (Ok (findService (world e) (ss_name fl)))))) in
                   mkRan r.1
                     (out ++ [Say LSuccess
                                (if isSet (findService (world e) (ss_name fl))
                                 then FmtSvcUpdated else FmtSvcCreated)
                                [VStr (ss_name fl); VStr (ss_url fl)]]) None).
  { unfold serviceSyncCmd.
    rewrite (proj2 (streq_false _ _) Hn), (proj2 (streq_false _ _) Hu),
      (proj2 (streq_false _ _) Ha), Hp, Hauto, Hstop. cbn [orb]. cbv zeta.
    rewrite store_GetService, Hc.
    destruct (findService (world e) (ss_name fl)); reflexivity. }
  rewrite Hrun. cbv zeta. cbn [ran_err ran_env ran_out]. rewrite Hc.
  split; [reflexivity|]. split.
  - destruct (findService (world e) (ss_name fl)); cbn [fst]; obs_norm; reflexivity.
  - intros cur Hf Hr Hd. rewrite Hf, Hr, Hd, streq_refl. reflexivity.
Qed.

Lemma upstream_step (up : string) (e : Env Store) :
  up <> "" ->
  (exists r, (CreateOrUpdateUpstream up e).2 = Ok r)
  /\ mutations (trace (CreateOrUpdateUpstream up e).1)
     = mutations (trace e)
       ++ (if isSet (findUpstream (world e) up) then []
           else [CPostUpstream (mkUpstream "" up)])
  /\ isSet (findUpstream (world (CreateOrUpdateUpstream up e).1) up) = true
  /\ st_targets (world (CreateOrUpdateUpstream up e).1) = st_targets (world e)
  /\ st_services (world (CreateOrUpdateUpstream up e).1) = st_services (world e).
Proof.
  intros Hup. destruct (store_CreateOrUpdateUpstream up e Hup) as [r Hr]. rewrite Hr.
  destruct (findUpstream (world e) up) as [x|] eqn:Hf; cbn [fst snd isSet].
  - split; [eauto|]. split; [obs_norm; reflexivity|]. env_simpl. rewrite Hf.
    repeat split.
  - split; [eauto|]. split; [obs_norm; reflexivity|]. env_simpl.
    unfold storePostUpstream. cbn [up_Name]. rewrite Hf. cbn [snd st_targets st_services].
    split; [|split; reflexivity].
    unfold findUpstream in *. cbn [st_upstreams]. rewrite (find_snoc_none _ _ _ Hf).
    cbn [up_Name]. now rewrite streq_refl.
Qed.

Lemma target_step (up t : string) (w : Z) (e : Env Store) :
  isSet (findUpstream (world e) up) = true -> up <> "" -> t <> "" ->
  (exists b, (EnsureTarget up t w e).2 = Ok b)
  /\ mutations (trace (EnsureTarget up t w e).1)
     = mutations (trace e)
       ++ (if existsb (sameTarget t w) (targetsOf (world e) up) then []
           else [CPostTarget up (mkTarget "" t w)])
  /\ existsb (sameTarget t w) (targetsOf (world (EnsureTarget up t w e).1) up) = true
  /\ st_upstreams (world (EnsureTarget up t w e).1) = st_upstreams (world e)
  /\ st_services (world (EnsureTarget up t w e).1) = st_services (world e).
Proof.
  intros Hu Hup Ht. rewrite store_EnsureTarget.
  destruct (findUpstream (world e) up) as [x|] eqn:Hf; [|discriminate]. cbv zeta.
  destruct (existsb (sameTarget t w) (targetsOf (world e) up)) eqn:Hex; cbn [fst snd].
  - split; [eauto|]. split; [obs_norm; reflexivity|]. env_simpl. rewrite Hex.
    repeat split.
  - rewrite (proj2 (streq_false _ _) Hup), (proj2 (streq_false _ _) Ht). cbn [orb fst snd].
    split; [eauto|]. split; [obs_norm; reflexivity|]. env_simpl.
    destruct (posted_target_listed up t w (world e) x Hf) as [_ Hl].
    split; [exact Hl|].
    unfold storePostTarget. rewrite Hf. split; reflexivity.
Qed.

Lemma service_step (name up proto : string) (port : Z) (path : string) (e : Env Store) :
  name <> "" -> up <> "" ->
  (exists s, (CreateOrUpdateServiceViaUpstream name up proto port path e).2
             = Ok (if isSet (findService (world e) name) then "update" else "create", s))
  /\ mutations (trace (CreateOrUpdateServiceViaUpstream name up proto port path e).1)
     = mutations (trace e)
       ++ [match findService (world e) name with
           | None => CPostService (servicePayload name up proto port path)
           | Some _ => CPatchService name (corePatch up proto port path)
           end]
  /\ isSet (findService
              (world (CreateOrUpdateServiceViaUpstream name up proto port path e).1) name)
     = true
  /\ st_upstreams (world (CreateOrUpdateServiceViaUpstream name up proto port path e).1)
     = st_upstreams (world e)
  /\ st_targets (world (CreateOrUpdateServiceViaUpstream name up proto port path e).1)
     = st_targets (world e).
Proof.
  intros Hn Hup.
  destruct (store_CreateOrUpdateServiceViaUpstream name up proto port path e Hn Hup)
    as [s Hs].
  rewrite Hs.
  destruct (findService (world e) name) as [cur|] eqn:Hf; cbn [fst snd isSet].
  - split; [eauto|]. split; [obs_norm; reflexivity|]. env_simpl.
    rewrite (found_after_patch_service name _ cur (world e) Hf).
    unfold storePatchService. rewrite Hf. repeat split.
  - split; [eauto|]. split; [obs_norm; reflexivity|]. env_simpl.
    destruct (found_after_post_service (servicePayload name up proto port path) (world e))
      as (s' & Hs' & _); [exact Hf|].
    cbn [servicePayload svc_Name] in Hs'. rewrite Hs'.
    unfold storePostService. cbn [servicePayload svc_Name]. rewrite Hf. repeat split.
Qed.

Lemma serviceSyncUpstream_nonempty (fl : ServiceSyncFlags) :
  ss_name fl <> "" -> serviceSyncUpstream fl <> "".
Proof.
  intros Hn. unfold serviceSyncUpstream.
  destruct (streq (ss_upstream fl) "") eqn:Hs; [now apply app_nonempty|].
  now apply streq_false.
Qed.

Lemma serviceSyncTarget_nonempty (u : ParsedURL) : serviceSyncTarget u <> "".
Proof. unfold serviceSyncTarget. destruct (pu_Hostname u); discriminate. Qed.

(** One run of [service sync --auto-upstream], with what holds of the
    store when it ends. *)
Lemma service_sync_auto_run (fl : ServiceSyncFlags) (u : ParsedURL) (e : Env Store) :
  ss_name fl <> "" -> ss_url fl <> "" -> ss_adminURL fl <> "" ->
  ss_parsed fl = Some u -> ss_autoUpstream fl = true ->
  ss_showDiff fl && ss_dryRun fl = false ->
  ran_err (serviceSyncCmd fl e) = None
  /\ mutations (trace (ran_env (serviceSyncCmd fl e)))
     = mutations (trace e)
       ++ (if isSet (findUpstream (world e) (serviceSyncUpstream fl)) then []
           else [CPostUpstream (mkUpstream "" (serviceSyncUpstream fl))])
       ++ (if existsb (sameTarget (serviceSyncTarget u) (targetWeightIfSet (ss_weight fl)))
                      (targetsOf (world e) (serviceSyncUpstream fl))
           then []
           else [CPostTarget (serviceSyncUpstream fl)
                   (mkTarget "" (serviceSyncTarget u) (targetWeightIfSet (ss_weight fl)))])
       ++ [match findService (world e) (ss_name fl) with
           | None =>
               CPostService (servicePayload (ss_name fl) (serviceSyncUpstream fl)
                               (pu_Scheme u) (serviceSyncPort u) (serviceSyncPath fl u))
           | Some _ =>
               CPatchService (ss_name fl)
                 (corePatch (serviceSyncUpstream fl) (pu_Scheme u) (serviceSyncPort u)
                    (serviceSyncPath fl u))
           end]
  /\ isSet (findUpstream (world (ran_env (serviceSyncCmd fl e))) (serviceSyncUpstream fl))
     = true
  /\ existsb (sameTarget (serviceSyncTarget u) (targetWeightIfSet (ss_weight fl)))
       (targetsOf (world (ran_env (serviceSyncCmd fl e))) (serviceSyncUpstream fl)) = true
  /\ isSet (findService (world (ran_env (serviceSyncCmd fl e))) (ss_name fl)) = true.
Proof.
  intros Hn Hurl Ha Hp Hauto Hstop.
  pose proof (serviceSyncUpstream_nonempty fl Hn) as Hup.
  pose proof (serviceSyncTarget_nonempty u) as Htg.
  unfold serviceSyncCmd.
  rewrite (proj2 (streq_false _ _) Hn), (proj2 (streq_false _ _) Hurl),
    (proj2 (streq_false _ _) Ha), Hp, Hauto, Hstop. cbn [orb]. cbv zeta.
  fold (serviceSyncPort u). fold (serviceSyncPath fl u). fold (serviceSyncUpstream fl).
  fold (serviceSyncTarget u).
  set (name := ss_name fl) in *. set (up := serviceSyncUpstream fl) in *.
  set (tgt := serviceSyncTarget u) in *. set (w := targetWeightIfSet (ss_weight fl)).
  set (port := serviceSyncPort u). set (path := serviceSyncPath fl u).
  rewrite store_GetService.
  set (e1 := logEvent e _).
  assert (Hw1 : world e1 = world e) by reflexivity.
  assert (Hm1 : mutations (trace e1) = mutations (trace e)).
  { unfold e1. obs_norm. reflexivity. }
  destruct (upstream_step up e1 Hup) as ([r2 H2] & Hm2 & Hu2 & Ht2 & Hs2).
  destruct (CreateOrUpdateUpstream up e1) as [e2 q2]. cbn [fst snd] in *. subst q2.
  destruct (target_step up tgt w e2 Hu2 Hup Htg) as ([b H3] & Hm3 & Hx3 & Hu3 & Hs3).
  destruct (EnsureTarget up tgt w e2) as [e3 q3]. cbn [fst snd] in *. subst q3.
  destruct (service_step name up (pu_Scheme u) port path e3 Hn Hup)
    as ([s H4] & Hm4 & Hf4 & Hu4 & Ht4).
  destruct (CreateOrUpdateServiceViaUpstream name up (pu_Scheme u) port path e3)
    as [e4 q4].
  cbn [fst snd] in *. subst q4. cbn [ran_err ran_env].
  assert (Hfs : findService (world e3) name = findService (world e) name).
  { unfold findService. now rewrite Hs3, Hs2, Hw1. }
  assert (Hts : targetsOf (world e2) up = targetsOf (world e) up).
  { unfold targetsOf. now rewrite Ht2, Hw1. }
  split; [reflexivity|]. split.
  - rewrite Hm4, Hm3, Hm2, Hm1, Hfs, Hts, Hw1. now rewrite <- !app_assoc.
  - split; [|split; [|exact Hf4]].
    + unfold findUpstream in *. now rewrite Hu4, Hu3.
    + unfold targetsOf in *. now rewrite Ht4.
Qed.

(** X26: [service sync --auto-upstream] against the reference store, when
    the flags pass the checks and the command is not stopped by
    [--diff --dry-run].  The first run creates what is missing, in this
    order: the upstream, the target [host:port] of the URL with the
    weight of the flag (100 when the flag is not positive), and the
    service bound to the upstream; a service that exists is patched.  A
    second run with the same flags finds the upstream and the target and
    sends one request that writes: the PATCH of the service. *)
Theorem X26_service_sync_auto_upstream_twice (fl : ServiceSyncFlags) (u : ParsedURL)
    (e : Env Store) :
  ss_name fl <> "" -> ss_url fl <> "" -> ss_adminURL fl <> "" ->
  ss_parsed fl = Some u -> ss_autoUpstream fl = true ->
  ss_showDiff fl && ss_dryRun fl = false ->
  let up := serviceSyncUpstream fl in
  let target := mkTarget "" (serviceSyncTarget u) (targetWeightIfSet (ss_weight fl)) in
  let out := serviceSyncCmd fl e in
  let again := serviceSyncCmd fl (ran_env out) in
  ran_err out = None
  /\ mutations (trace (ran_env out))
     = mutations (trace e)
       ++ (if isSet (findUpstream (world e) up) then []
           else [CPostUpstream (mkUpstream "" up)])
       ++ (if existsb (sameTarget (tg_Target target) (tg_Weight target))
                      (targetsOf (world e) up)
           then [] else [CPostTarget up target])
       ++ [match findService (world e) (ss_name fl) with
           | None =>
               CPostService (servicePayload (ss_name fl) up (pu_Scheme u)
                               (serviceSyncPort u) (serviceSyncPath fl u))
           | Some _ =>
               CPatchService (ss_name fl)
                 (corePatch up (pu_Scheme u) (serviceSyncPort u) (serviceSyncPath fl u))
           end]
  /\ ran_err again = None
  /\ mutations (trace (ran_env again))
     = mutations (trace (ran_env out))
       ++ [CPatchService (ss_name fl)
             (corePatch up (pu_Scheme u) (serviceSyncPort u) (serviceSyncPath fl u))].
Proof.
  intros Hn Hurl Ha Hp Hauto Hstop up target out again.
  destruct (service_sync_auto_run fl u e Hn Hurl Ha Hp Hauto Hstop)
    as (He & Hm & Hu & Ht & Hs).
  destruct (service_sync_auto_run fl u (ran_env out) Hn Hurl Ha Hp Hauto Hstop)
    as (He2 & Hm2 & _).
  fold out in He, Hm, Hu, Ht, Hs, He2, Hm2. fold again in He2, Hm2.
  split; [exact He|]. split; [exact Hm|]. split; [exact He2|].
  rewrite Hm2. fold up in Hu, Ht |- *. rewrite Hu, Ht.
  destruct (findService (world (ran_env out)) (ss_name fl)); [reflexivity|discriminate].
Qed.

Lemma X25_witness :
  ran_out (serviceSyncCmd demoServiceSync (initEnv storeWithSvcX))
  = [Say LInfo FmtDiffNoChange [];
     Say LSuccess FmtSvcUpdated [VStr "svcX"; VStr "http://backend"]]
  /\ mutations (trace (ran_env (serviceSyncCmd demoServiceSync (initEnv storeWithSvcX))))
     = [CPatchService "svcX" (urlPatch "http://backend")].
Proof.
  destruct (X25_service_sync_always_writes demoServiceSync
              (mkParsedURL "http" "backend" 0 "") (initEnv storeWithSvcX))
    as (_ & Hm & Ho);
    [discriminate | discriminate | discriminate | reflexivity | reflexivity
    | reflexivity |].
  split; [|exact Hm].
  exact (Ho (mkService "id-svcX" "svcX" "" "http" "backend" 80 "" 0 0 0 0)
            eq_refl eq_refl eq_refl).
Defined.

Lemma X26_witness :
  mutations (trace (ran_env (serviceSyncCmd demoAutoSync (initEnv emptyStore))))
  = [CPostUpstream (mkUpstream "" "user-upstream");
     CPostTarget "user-upstream" (mkTarget "" "user-svc:8080" 100);
     CPostService (servicePayload "user" "user-upstream" "http" 8080 "")]
  /\ mutations (trace (ran_env (serviceSyncCmd demoAutoSync
                                  (ran_env (serviceSyncCmd demoAutoSync
                                              (initEnv emptyStore))))))
     = mutations (trace (ran_env (serviceSyncCmd demoAutoSync (initEnv emptyStore))))
       ++ [CPatchService "user" (corePatch "user-upstream" "http" 8080 "")].
Proof.
  destruct (X26_service_sync_auto_upstream_twice demoAutoSync
              (mkParsedURL "http" "user-svc" 8080 "") (initEnv emptyStore))
    as (_ & Hm & _ & Hm2);
    [discriminate | discriminate | discriminate | reflexivity | reflexivity
    | reflexivity |].
  split; [exact Hm | exact Hm2].
Defined.

(** X27: [target add] against the reference store, when the flags pass
    the checks.  It sends one request, the POST of the target, without
    listing the targets first, so a target that is registered already is
    posted again; the weight 0 is sent as 100 and any other weight as it
    is.  When the upstream does not exist the command returns the 404 of
    the POST and prints nothing. *)
Theorem X27_target_add_posts_without_looking (fl : TargetAddFlags) (e : Env Store) :
  ta_upstream fl <> "" -> ta_target fl <> "" -> ta_adminURL fl <> "" ->
  let post := CPostTarget (ta_upstream fl)
                (mkTarget "" (ta_target fl) (targetAddWeight fl)) in
  let out := targetAddCmd fl e in
  map ev_call (trace (ran_env out)) = map ev_call (trace e) ++ [post]
  /\ match findUpstream (world e) (ta_upstream fl) with
     | Some _ =>
         ran_err out = None
         /\ ran_out out
            = [Say LSuccess FmtTargetAdded
                 [VStr (ta_target fl); VInt (targetAddWeight fl); VStr (ta_upstream fl)]]
     | None =>
         ran_err out = Some (ErrOf (ErrHTTP 404)) /\ ran_out out = []
         /\ world (ran_env out) = world e
     end.
Proof.
  intros Hu Ht Ha post out. subst post out. unfold targetAddCmd.
  rewrite (proj2 (streq_false _ _) Hu), (proj2 (streq_false _ _) Ht),
    (proj2 (streq_false _ _) Ha). cbn [orb]. cbv zeta.
  fold (targetAddWeight fl). unfold AddTarget.
  rewrite (proj2 (streq_false _ _) Hu), (proj2 (streq_false _ _) Ht). cbn [orb].
  destruct (findUpstream (world e) (ta_upstream fl)) as [x|] eqn:Hf.
  - rewrite (store_post_target _ _ x) by exact Hf. cbn [ran_env ran_err ran_out].
    env_simpl. rewrite map_app. repeat split.
  - unfold request. cbn [postTarget storeAdmin]. unfold storePostTarget. rewrite Hf.
    cbn [decodeJSON].
    change (negb (is2xx 404)) with true. cbn [ran_env ran_err ran_out]. env_simpl.
    rewrite map_app. repeat split.
Qed.

Lemma X27_witness :
  map ev_call (trace (ran_env (targetAddCmd demoTargetAdd (initEnv storeWithTarget))))
  = [CPostTarget "up" (mkTarget "" "a:80" 100)].
Proof.
  destruct (X27_target_add_posts_without_looking demoTargetAdd (initEnv storeWithTarget))
    as [Hc _]; [discriminate | discriminate | discriminate |].
  exact Hc.
Defined.

(** X28: [upstream sync] against the reference store, with a name and an
    admin URL.  An upstream that does not exist is posted and reported as
    created.  An upstream that exists is reported as updated although no
    request that writes is sent; so a second run with the same flags
    sends the lookup only, leaves the store as it is and reports an
    update. *)
Theorem X28_upstream_sync_twice (fl : UpstreamSyncFlags) (e : Env Store) :
  us_name fl <> "" -> us_adminURL fl <> "" ->
  let found := isSet (findUpstream (world e) (us_name fl)) in
  let out := upstreamSyncCmd fl e in
  let again := upstreamSyncCmd fl (ran_env out) in
  ran_err out = None
  /\ mutations (trace (ran_env out))
     = mutations (trace e)
       ++ (if found then [] else [CPostUpstream (mkUpstream "" (us_name fl))])
  /\ ran_out out
     = [Say LSuccess (if found then FmtUpstreamUpdated else FmtUpstreamCreated)
          [VStr (us_name fl)]]
  /\ ran_err again = None
  /\ mutations (trace (ran_env again)) = mutations (trace (ran_env out))
  /\ world (ran_env again) = world (ran_env out)
  /\ ran_out again = [Say LSuccess FmtUpstreamUpdated [VStr (us_name fl)]].
Proof.
  intros Hn Ha found out again.
  assert (Hrun : forall e0 : Env Store,
             upstreamSyncCmd fl e0
             = mkRan (CreateOrUpdateUpstream (us_name fl) e0).1
                 [Say LSuccess
                    (if isSet (findUpstream (world e0) (us_name fl))
                     then FmtUpstreamUpdated else FmtUpstreamCreated)
                    [VStr (us_name fl)]] None).
  { intros e0. unfold upstreamSyncCmd.
    rewrite (proj2 (streq_false _ _) Hn), (proj2 (streq_false _ _) Ha).
    destruct (store_CreateOrUpdateUpstream (us_name fl) e0 Hn) as [r Hr]. rewrite Hr.
    destruct (findUpstream (world e0) (us_name fl)); reflexivity. }
  destruct (upstream_step (us_name fl) e Hn) as (_ & Hm & Hu & _).
  subst again out. rewrite !Hrun. cbn [ran_err ran_env ran_out].
  split; [reflexivity|]. split; [exact Hm|]. split; [reflexivity|].
  split; [reflexivity|]. rewrite Hu.
  destruct (store_CreateOrUpdateUpstream (us_name fl)
              (CreateOrUpdateUpstream (us_name fl) e).1 Hn) as [r Hr].
  rewrite Hr.
  destruct (findUpstream (world (CreateOrUpdateUpstream (us_name fl) e).1) (us_name fl));
    [|discriminate].
  cbn [fst]. split; [obs_norm; reflexivity|]. split; reflexivity.
Qed.

Lemma X28_witness :
  ran_out (upstreamSyncCmd (mkUpstreamSyncFlags "up" localhost) (initEnv storeWithTarget))
  = [Say LSuccess FmtUpstreamUpdated [VStr "up"]]
  /\ mutations (trace (ran_env (upstreamSyncCmd (mkUpstreamSyncFlags "up" localhost)
                                  (initEnv storeWithTarget)))) = [].
Proof.
  destruct (X28_upstream_sync_twice (mkUpstreamSyncFlags "up" localhost)
              (initEnv storeWithTarget)) as (_ & Hm & Ho & _);
    [discriminate | discriminate |].
  split; [exact Ho | exact Hm].
Defined.

(** ** [init] *)

Lemma addCandidate_spec (acc : list string) (u : string) :
  NoDup acc -> "" ∉ acc ->
  NoDup (addCandidate acc u) /\ ("" ∉ addCandidate acc u)
  /\ (exists rest, addCandidate acc u = acc ++ rest)
  /\ forall x, x ∈ addCandidate acc u <-> x ∈ acc \/ (x <> "" /\ x = u).
Proof.
  intros Hnd Hne. unfold addCandidate.
  destruct (streq u "") eqn:Hu.
  { apply streq_true in Hu. subst u.
    split; [exact Hnd|]. split; [exact Hne|]. split; [exists []; now rewrite app_nil_r|].
    intros x. split; [now left | intros [H|[H1 H2]]; [exact H | congruence]]. }
  apply streq_false in Hu.
  destruct (existsb (λ x, streq x u) acc) eqn:Hex.
  { apply existsb_exists in Hex as (y & Hy & He). apply streq_true in He. subst y.
    apply list_elem_of_In in Hy.
    split; [exact Hnd|]. split; [exact Hne|]. split; [exists []; now rewrite app_nil_r|].
    intros x. split; [now left | intros [H|[_ ->]]; [exact H | exact Hy]]. }
  assert (Hnot : u ∉ acc).
  { intros Hin. apply list_elem_of_In in Hin.
    assert (Ht : existsb (λ x, streq x u) acc = true).
    { apply existsb_exists. exists u. split; [exact Hin | apply streq_refl]. }
    congruence. }
  split.
  { apply NoDup_app. split; [exact Hnd|]. split; [|apply NoDup_singleton].
    intros x Hx Hx'. apply list_elem_of_singleton in Hx'. now subst x. }
  split.
  { intros Hin. apply elem_of_app in Hin as [Hin|Hin]; [now apply Hne|].
    apply list_elem_of_singleton in Hin. congruence. }
  split; [now exists [u]|].
  intros x. rewrite elem_of_app, list_elem_of_singleton.
  split; [intros [H| ->]; [now left | now right] | intros [H|[_ ->]]; [now left | now right]].
Qed.

Lemma candidates_spec (l acc : list string) :
  NoDup acc -> "" ∉ acc ->
  NoDup (foldl addCandidate acc l) /\ ("" ∉ foldl addCandidate acc l)
  /\ (exists rest, foldl addCandidate acc l = acc ++ rest)
  /\ forall x, x ∈ foldl addCandidate acc l <-> x ∈ acc \/ (x <> "" /\ x ∈ l).
Proof.
  revert acc. induction l as [|u l IH]; intros acc Hnd Hne; cbn [foldl].
  { split; [exact Hnd|]. split; [exact Hne|]. split; [exists []; now rewrite app_nil_r|].
    intros x. split; [now left | intros [H|[_ H]]; [exact H | now apply elem_of_nil in H]]. }
  destruct (addCandidate_spec acc u Hnd Hne) as (Hnd1 & Hne1 & [r1 Hr1] & Hin1).
  destruct (IH (addCandidate acc u) Hnd1 Hne1) as (Hnd2 & Hne2 & [r2 Hr2] & Hin2).
  split; [exact Hnd2|]. split; [exact Hne2|].
  split; [exists (r1 ++ r2); now rewrite Hr2, Hr1, app_assoc|].
  intros x. rewrite Hin2, Hin1, elem_of_cons.
  split.
  - intros [[H|[H1 H2]]|[H1 H2]]; [now left | right; split; [exact H1 | now left]
                                   | right; split; [exact H1 | now right]].
  - intros [H|[H1 [H2|H2]]]; [now left; left | left; right; now split | right; now split].
Qed.

Lemma detectFrom_spec (probe : string -> bool) (l : list string) :
  "" ∉ l ->
  (detectFrom probe l = "" /\ Forall (λ u, probe u = false) l)
  \/ exists before after,
       l = before ++ detectFrom probe l :: after
       /\ probe (detectFrom probe l) = true
       /\ Forall (λ u, probe u = false) before.
Proof.
  induction l as [|u l IH]; intros Hne; cbn [detectFrom].
  { left. split; [reflexivity | constructor]. }
  assert (Hu : u <> "") by (intros ->; apply Hne; left).
  assert (Hl : "" ∉ l) by (intros H; apply Hne; now right).
  rewrite (proj2 (streq_false _ _) Hu).
  destruct (probe u) eqn:Hp.
  { right. exists [], l. split; [reflexivity|]. split; [exact Hp | constructor]. }
  destruct (IH Hl) as [[Hd Hall]|(before & after & Heq & Hpd & Hall)].
  - left. split; [exact Hd | now constructor].
  - right. exists (u :: before), after.
    split; [cbn [app]; now rewrite <- Heq|]. split; [exact Hpd | now constructor].
Qed.

(** X29: the addresses [init] tries are pairwise different and not empty
    (so no address is asked twice); they are the non-empty ones among the
    flag, the two environment variables and the five common addresses,
    and the address of the flag comes first.  When [init] writes the
    configuration, the address it writes answered the probe and every
    candidate before it did not; so an address of the flag that answers
    is the one written.  When no candidate answers, [init] fails, prints
    nothing and writes nothing. *)
Theorem X29_init_writes_first_reachable (fl : InitFlags) (h : InitHost) :
  let candidates := initCandidates fl h in
  NoDup candidates /\ ("" ∉ candidates)
  /\ (forall u, u ∈ candidates
                <-> u <> ""
                    /\ u ∈ [in_adminURL fl; ih_KONGCTL_ADMIN_URL h; ih_KONG_ADMIN_URL h]
                           ++ commonAdminURLs)
  /\ (in_adminURL fl <> "" -> exists rest, candidates = in_adminURL fl :: rest)
  /\ (forall c, ir_config (initCmd fl h) = Some c ->
        ir_err (initCmd fl h) = None
        /\ cf_token c = in_token fl /\ cf_workspace c = in_workspace fl
        /\ ih_probe h (cf_admin_url c) = true
        /\ exists before after,
             candidates = before ++ cf_admin_url c :: after
             /\ Forall (λ u, ih_probe h u = false) before)
  /\ (in_adminURL fl <> "" -> ih_probe h (in_adminURL fl) = true ->
      forall c, ir_config (initCmd fl h) = Some c -> cf_admin_url c = in_adminURL fl)
  /\ (Forall (λ u, ih_probe h u = false) candidates ->
      ir_config (initCmd fl h) = None /\ ir_out (initCmd fl h) = []
      /\ ir_err (initCmd fl h) <> None).
Proof.
  intros candidates.
  destruct (candidates_spec
              ([in_adminURL fl; ih_KONGCTL_ADMIN_URL h; ih_KONG_ADMIN_URL h]
                 ++ commonAdminURLs) [] NoDup_nil_2)
    as (Hnd & Hne & _ & Hin); [apply not_elem_of_nil|].
  fold (initCandidates fl h) in Hnd, Hne, Hin. fold candidates in Hnd, Hne, Hin.
  assert (Hfirst : in_adminURL fl <> "" -> exists rest, candidates = in_adminURL fl :: rest).
  { intros Hf.
    assert (Hc : candidates
                 = foldl addCandidate (addCandidate [] (in_adminURL fl))
                     ([ih_KONGCTL_ADMIN_URL h; ih_KONG_ADMIN_URL h] ++ commonAdminURLs))
      by reflexivity.
    assert (Ha : addCandidate [] (in_adminURL fl) = [in_adminURL fl]).
    { unfold addCandidate. now rewrite (proj2 (streq_false _ _) Hf). }
    rewrite Hc, Ha.
    destruct (candidates_spec
                ([ih_KONGCTL_ADMIN_URL h; ih_KONG_ADMIN_URL h] ++ commonAdminURLs)
                [in_adminURL fl]) as (_ & _ & [rest Hr] & _).
    - apply NoDup_singleton.
    - intros H0. apply list_elem_of_singleton in H0. congruence.
    - exists rest. exact Hr. }
  assert (Hcfg : forall c, ir_config (initCmd fl h) = Some c ->
                   ir_err (initCmd fl h) = None
                   /\ cf_token c = in_token fl /\ cf_workspace c = in_workspace fl
                   /\ cf_admin_url c = detectFrom (ih_probe h) candidates
                   /\ detectFrom (ih_probe h) candidates <> "").
  { intros c. unfold initCmd. fold candidates. cbv zeta.
    destruct (streq (detectFrom (ih_probe h) candidates) "") eqn:Hd.
    { destruct (sneq (in_adminURL fl) ""); discriminate. }
    apply streq_false in Hd.
    destruct (ih_home h) as [home|]; [|discriminate].
    destruct (ih_writable h); [|discriminate].
    cbn [ir_config ir_err]. intros [= <-]. repeat split. exact Hd. }
  split; [exact Hnd|]. split; [exact Hne|].
  split; [intros u; rewrite Hin; split;
          [intros [H|H]; [now apply elem_of_nil in H | exact H] | now right]|].
  split; [exact Hfirst|].
  split.
  { intros c Hc. destruct (Hcfg c Hc) as (He & Ht & Hw & Ha & Hd).
    split; [exact He|]. split; [exact Ht|]. split; [exact Hw|]. rewrite Ha.
    destruct (detectFrom_spec (ih_probe h) candidates Hne)
      as [[H0 _]|(before & after & Heq & Hp & Hall)]; [congruence|].
    split; [exact Hp|]. exists before, after. split; [exact Heq | exact Hall]. }
  split.
  { intros Hf Hp c Hc. destruct (Hcfg c Hc) as (_ & _ & _ & Ha & _). rewrite Ha.
    destruct (Hfirst Hf) as [rest Hr]. rewrite Hr. cbn [detectFrom].
    now rewrite (proj2 (streq_false _ _) Hf), Hp. }
  intros Hall.
  assert (Hd : detectFrom (ih_probe h) candidates = "").
  { destruct (detectFrom_spec (ih_probe h) candidates Hne)
      as [[H0 _]|(before & after & Heq & Hp & _)]; [exact H0|].
    rewrite List.Forall_forall in Hall.
    assert (Hi : In (detectFrom (ih_probe h) candidates) candidates).
    { rewrite Heq at 2. apply in_or_app. right. now left. }
    rewrite (Hall _ Hi) in Hp. discriminate. }
  unfold initCmd. fold candidates. cbv zeta. rewrite Hd. cbn [streq].
  rewrite streq_refl.
  destruct (sneq (in_adminURL fl) ""); cbn [ir_config ir_out ir_err];
    (split; [reflexivity|]); (split; [reflexivity|]); discriminate.
Qed.

(** ** The shapes of a document *)

Lemma nonEmpty_iff {A} (l : list A) : nonEmpty l = true <-> l <> [].
Proof. destruct l; cbn; split; congruence. Qed.

Lemma empty_iff {A} (l : list A) : (length l =? 0)%nat = true <-> l = [].
Proof. destruct l; cbn; split; congruence. Qed.

Lemma sneq_iff (a b : string) : sneq a b = true <-> a <> b.
Proof. unfold sneq. rewrite negb_true_iff. apply streq_false. Qed.

Lemma zneq_iff (a b : Z) : zneq a b = true <-> a <> b.
Proof. unfold zneq. rewrite negb_true_iff. apply Z.eqb_neq. Qed.

Lemma noResources_iff (spec : applySpec) :
  noResources spec = false <-> carriesResources spec.
Proof.
  unfold noResources, carriesResources.
  destruct (Upstreams spec), (Services spec), (Routes spec); cbn;
    split; intros Hx; try discriminate; try reflexivity;
    try (destruct Hx as [Hx|[Hx|Hx]]; congruence);
    first [left; discriminate | right; left; discriminate | right; right; discriminate].
Qed.

Lemma routeShaped_iff (r : applyRoute) : routeShaped r = true <-> hasRouteField r.
Proof.
  unfold routeShaped, hasRouteField.
  rewrite !orb_true_iff, !sneq_iff, !nonEmpty_iff, zneq_iff. tauto.
Qed.

Lemma fullDocument_iff (c : Content) : fullDocument c = true <-> isFullDocument c.
Proof.
  unfold fullDocument, isFullDocument.
  rewrite andb_true_iff, !negb_true_iff, noResources_iff. tauto.
Qed.

Lemma routeList_iff (c : Content) : routeList c = true <-> isRouteList c.
Proof.
  unfold routeList, isRouteList.
  rewrite andb_true_iff, negb_true_iff, nonEmpty_iff. tauto.
Qed.

Lemma singleRoute_iff (c : Content) : singleRoute c = true <-> isSingleRoute c.
Proof.
  unfold singleRoute, isSingleRoute.
  rewrite andb_true_iff, negb_true_iff, routeShaped_iff. tauto.
Qed.

Lemma not_true_iff (b : bool) (P : Prop) : (b = true <-> P) -> (b = false <-> ~ P).
Proof.
  destruct b; intros [H1 H2]; split.
  - discriminate.
  - intros H. exfalso. apply H, H1. reflexivity.
  - intros _ HP. apply H2 in HP. discriminate.
  - reflexivity.
Qed.

(** C9.  Normalisation recognises, in this order: a full document (the
    content decodes as a document with an upstream, a service or a
    route), kept as it is; otherwise a list of routes that is not empty,
    which become the routes of the document; otherwise a single mapping
    with one of the fields name, paths, hosts, methods, service or backend
    (targets, protocol, port or path), which becomes its only route.  It
    fails exactly when none of the three applies, always with a parse
    error: the error of the decoder when the content does not decode as a
    document, and the error of the empty document when it decodes as a
    document without resources.  A document it returns has a resource. *)
Theorem C9_normalize_shapes (c : Content) :
  (isFullDocument c -> normalize c = Ok (dec_value (asSpec c)))
  /\ (~ isFullDocument c -> isRouteList c ->
      normalize c = Ok (withRoutes (dec_value (asSpec c)) (dec_value (asRoutes c))))
  /\ (~ isFullDocument c -> ~ isRouteList c -> isSingleRoute c ->
      normalize c = Ok (withRoutes (dec_value (asSpec c)) [dec_value (asRoute c)]))
  /\ ((exists e, normalize c = Err e)
      <-> ~ isFullDocument c /\ ~ isRouteList c /\ ~ isSingleRoute c)
  /\ (~ isFullDocument c -> ~ isRouteList c -> ~ isSingleRoute c ->
      normalize c = if dec_err (asSpec c) then Err ErrParse else Err ErrEmpty)
  /\ (forall e, normalize c = Err e -> classOf e = ParseError)
  /\ (forall d, normalize c = Ok d -> carriesResources d).
Proof.
  pose proof (fullDocument_iff c) as Hf.
  pose proof (routeList_iff c) as Hl.
  pose proof (singleRoute_iff c) as Hs.
  pose proof (not_true_iff _ _ Hf) as Hf'.
  pose proof (not_true_iff _ _ Hl) as Hl'.
  pose proof (not_true_iff _ _ Hs) as Hs'.
  destruct (normalize_cases c) as (H1 & H2 & H3 & H4 & H5 & H6).
  split; [intros H; apply H1, Hf, H|].
  split; [intros Hn H; apply H2; [apply Hf', Hn | apply Hl, H]|].
  split; [intros Hn Hn2 H; apply H3; [apply Hf', Hn | apply Hl', Hn2 | apply Hs, H]|].
  split; [rewrite H4, Hf', Hl', Hs'; reflexivity|].
  split.
  { intros Hn Hn2 Hn3. rewrite normalize_not_full by (apply Hf', Hn).
    rewrite (proj2 Hl' Hn2), (proj2 Hs' Hn3). reflexivity. }
  split; [exact H5|].
  intros d Hd. apply noResources_iff, H6, Hd.
Qed.

(** The three shapes and the two failures, on contents of each kind: a
    document with one route, a list of one route, the mapping of one
    route, a mapping whose only key is a field of the backend; a mapping
    without any of the fields, and a mapping whose only key is
    [strip_path]. *)
Lemma C9_witness :
  normalize (ofMapping (mkApplySpec [] [] [demoRoute]) zeroRoute)
  = Ok (mkApplySpec [] [] [demoRoute])
  /\ normalize (ofSequence [demoRoute]) = Ok (mkApplySpec [] [] [demoRoute])
  /\ normalize (ofMapping zeroSpec demoRoute) = Ok (mkApplySpec [] [] [demoRoute])
  /\ normalize (ofMapping zeroSpec onlyBackendPort)
     = Ok (mkApplySpec [] [] [onlyBackendPort])
  /\ normalize (ofMapping zeroSpec zeroRoute) = Err ErrEmpty
  /\ normalize (ofMapping zeroSpec onlyStripPath) = Err ErrEmpty
  /\ normalize (ofSequence []) = Err ErrParse.
Proof.
  assert (Hnf : forall r, ~ isFullDocument (ofMapping zeroSpec r)).
  { intros r [_ [H|[H|H]]]; now apply H. }
  assert (Hnl : forall s r, ~ isRouteList (ofMapping s r)).
  { intros s r [H _]. discriminate H. }
  assert (Hns : forall l, ~ isFullDocument (ofSequence l)).
  { intros l [H _]. discriminate H. }
  assert (Hno : forall r, ar_Name r = "" -> ar_Paths r = [] -> ar_Hosts r = [] ->
                  ar_Methods r = [] -> ar_Service r = "" -> ar_Backend r = zeroBackend ->
                  ~ isSingleRoute (ofMapping zeroSpec r)).
  { intros r H1 H2 H3 H4 H5 H6 [_ H]. unfold hasRouteField in H. cbn in H.
    rewrite H1, H2, H3, H4, H5, H6 in H. cbn in H.
    repeat (destruct H as [H|H]; [now apply H|]). now apply H. }
  split.
  { apply (proj1 (C9_normalize_shapes (ofMapping (mkApplySpec [] [] [demoRoute]) zeroRoute))).
    split; [reflexivity|]. right. right. discriminate. }
  split.
  { apply (proj1 (proj2 (C9_normalize_shapes (ofSequence [demoRoute]))));
      [apply Hns | split; [reflexivity | discriminate]]. }
  split.
  { apply (proj1 (proj2 (proj2 (C9_normalize_shapes (ofMapping zeroSpec demoRoute)))));
      [apply Hnf | apply Hnl | split; [reflexivity | left; discriminate]]. }
  split.
  { apply (proj1 (proj2 (proj2 (C9_normalize_shapes (ofMapping zeroSpec onlyBackendPort)))));
      [apply Hnf | apply Hnl | split; [reflexivity|]].
    do 7 right. left. discriminate. }
  split.
  { apply (proj1 (proj2 (proj2 (proj2 (proj2
             (C9_normalize_shapes (ofMapping zeroSpec zeroRoute)))))));
      [apply Hnf | apply Hnl | now apply Hno]. }
  split.
  { apply (proj1 (proj2 (proj2 (proj2 (proj2
             (C9_normalize_shapes (ofMapping zeroSpec onlyStripPath)))))));
      [apply Hnf | apply Hnl | now apply Hno]. }
  apply (proj1 (proj2 (proj2 (proj2 (proj2 (C9_normalize_shapes (ofSequence []))))))).
  - apply Hns.
  - intros [_ H]. now apply H.
  - intros [H _]. discriminate H.
Defined.

(** ** The default of [strip_path] *)

(** The step of a route that names itself and its service, on a store that
    has the service and not the route: the route is posted. *)
Lemma store_routeStep_absent (wd ow : bool) (url : string) (r : applyRoute)
    (svc : Service) (e : Env Store) :
  ar_Name r <> "" -> ar_Service r <> "" ->
  pathHandlingOf r = "" \/ pathHandlingOf r = "v0" \/ pathHandlingOf r = "v1" ->
  findRoute (world e) (ar_Name r) = None ->
  findService (world e) (ar_Service r) = Some svc -> svc_ID svc <> "" ->
  let sent := withServiceID (desiredRoute (ar_Name r) (pathHandlingOf r) r) (svc_ID svc) in
  let out := routeStep (execFlags wd ow url) r e in
  out.2 = Ok tt
  /\ mutations (trace out.1) = mutations (trace e) ++ [CPostRoute sent]
  /\ world out.1 = (storePostRoute sent (world e)).2.
Proof.
  intros Hn Hs Hph Hr Hsvc Hid sent out.
  assert (Hok : sneq (pathHandlingOf r) "" && sneq (pathHandlingOf r) "v0"
                && sneq (pathHandlingOf r) "v1" = false).
  { destruct Hph as [-> | [-> | ->]]; reflexivity. }
  assert (Hstep : out
                  = syncRoute (execFlags wd ow url) r
                      (desiredRoute (ar_Name r) (pathHandlingOf r) r) (ar_Name r) e).
  { unfold out, routeStep. cbv zeta.
    rewrite (proj2 (streq_false _ _) Hn), (proj2 (streq_false _ _) Hs). cbn [andb].
    unfold bind at 1. unfold ret at 1. cbv beta iota.
    now rewrite (proj2 (streq_false _ _) Hn), Hok. }
  rewrite Hstep, syncRoute_diff.
  rewrite (store_syncRoute_absent ow url r
             (desiredRoute (ar_Name r) (pathHandlingOf r) r) (ar_Name r));
    [|rewrite world_noticeIf; exact Hr | reflexivity | reflexivity].
  cbv zeta. cbn [desiredRoute rt_Service ref_Name].
  rewrite (proj2 (streq_false _ _) Hn), (sneq_true _ _ Hs), world_noticeIf, Hsvc,
    (proj2 (streq_false _ _) Hid).
  fold sent. cbn [fst snd]. split; [reflexivity|]. split; [|now env_norm].
  obs_norm. reflexivity.
Qed.

(** C10: a route of the document without [strip_path].  The route that is
    compared and sent has [strip_path = true]; whatever the flags and the
    remote side, every request that creates or patches the route carries
    [strip_path = true]; a remote route whose [strip_path] is off (or not
    set) is an update, for the plan and for the execution, and when it
    would be in sync with [strip_path] on, [strip_path] is the only
    difference of the plan.  On the reference store, when the route does
    not exist and its service does, the run posts the desired route, with
    [strip_path = true], and the store then holds the route with
    [strip_path] on. *)
Theorem C10_strip_path_defaults_true {W : Type} `{Admin W} (fl : Flags) (r : applyRoute)
    (cur : Route) (name : string) :
  ar_StripPath r = None ->
  (forall ph, rt_StripPath (desiredRoute name ph r) = Some true)
  /\ emits (lift (stripPathSent (Some true))) (routeStep (W:=W) fl r)
  /\ (deref (rt_StripPath cur) = false ->
      Action (routeVerdict cur r name) = "update"
      /\ routeChanged cur r (desiredRoute name (pathHandlingOf r) r) = true
      /\ (Action (routeVerdict (withStripPath (Some true) cur) r name) = "none" ->
          routeVerdict cur r name
          = mkChange "Route" name "update"
              [Scalar "strip_path" (VBool false) (VBool true)]))
  /\ (forall (withDiff overwrite : bool) (url : string) (svc : Service) (e : Env Store),
        ar_Name r <> "" -> ar_Service r <> "" ->
        pathHandlingOf r = "" \/ pathHandlingOf r = "v0" \/ pathHandlingOf r = "v1" ->
        findRoute (world e) (ar_Name r) = None ->
        findService (world e) (ar_Service r) = Some svc -> svc_ID svc <> "" ->
        let sent :=
          withServiceID (desiredRoute (ar_Name r) (pathHandlingOf r) r) (svc_ID svc) in
        let out := routeStep (execFlags withDiff overwrite url) r e in
        out.2 = Ok tt
        /\ mutations (trace out.1) = mutations (trace e) ++ [CPostRoute sent]
        /\ rt_StripPath sent = Some true
        /\ option_map rt_StripPath (findRoute (world out.1) (ar_Name r))
           = Some (Some true)).
Proof.
  intros Hr. split; [|split; [|split]].
  - intros ph. unfold desiredRoute. cbn [rt_StripPath]. now rewrite Hr.
  - pose proof (routeStep_strip fl r) as Hs. unfold stripPathOf in Hs.
    now rewrite Hr in Hs.
  - intros Hc. destruct (default_strip_path cur r name Hr Hc) as (_ & Ha & Hch).
    split; [exact Ha|]. split; [exact Hch|]. now apply strip_path_alone.
  - intros withDiff overwrite url svc e Hn Hs Hph Hf Hsvc Hid sent out.
    destruct (store_routeStep_absent withDiff overwrite url r svc e Hn Hs Hph Hf Hsvc Hid)
      as (Hok & Hm & Hw).
    fold sent in Hm, Hw. fold out in Hok, Hm, Hw.
    assert (Hsent : rt_StripPath sent = Some true).
    { unfold sent, withServiceID, desiredRoute. cbn [rt_StripPath]. now rewrite Hr. }
    split; [exact Hok|]. split; [exact Hm|]. split; [exact Hsent|].
    rewrite Hw. unfold storePostRoute.
    change (rt_Name sent) with (ar_Name r).
    rewrite Hf. cbn [snd]. unfold findRoute in *. cbn [st_routes].
    rewrite (find_snoc_none _ _ _ Hf). cbn [rt_Name]. rewrite streq_refl.
    cbn [option_map rt_StripPath]. now rewrite Hsent.
Qed.

Lemma C10_witness :
  ar_StripPath (setService demoRoute "demo-service") = None
  /\ rt_StripPath (desiredRoute "demo" "" (setService demoRoute "demo-service")) = Some true
  /\ routeVerdict demoRemote (setService demoRoute "demo-service") "demo"
     = mkChange "Route" "demo" "update" [Scalar "strip_path" (VBool false) (VBool true)]
  /\ (exists new,
        trace (routeStep (execFlags false false localhost) demoRoute
                         (initEnv emptyStore)).1 = [] ++ new
        /\ stripPathSent (Some true) new
             (errorOf (routeStep (execFlags false false localhost) demoRoute
                                 (initEnv emptyStore)).2))
  /\ mutations (trace (routeStep (execFlags false false localhost)
                         (setService demoRoute "demo-service")
                         (initEnv storeWithDemoService)).1)
     = [CPostRoute
          (withServiceID (desiredRoute "demo" "" (setService demoRoute "demo-service"))
             "id-demo-service")]
  /\ option_map rt_StripPath
       (findRoute (world (routeStep (execFlags false false localhost)
                            (setService demoRoute "demo-service")
                            (initEnv storeWithDemoService)).1) "demo")
     = Some (Some true).
Proof.
  split; [reflexivity|].
  destruct (C10_strip_path_defaults_true (execFlags false false localhost)
              (setService demoRoute "demo-service") demoRemote "demo" eq_refl)
    as (Hd & _ & Hv & Hp).
  destruct (C10_strip_path_defaults_true (W:=Store) (execFlags false false localhost)
              demoRoute demoRemote "demo" eq_refl)
    as (_ & Hs & _).
  split; [exact (Hd "")|]. split.
  { destruct (Hv eq_refl) as (_ & _ & Honly). apply Honly. vm_compute. reflexivity. }
  split; [exact (Hs (initEnv emptyStore))|].
  assert (Hn : ar_Name (setService demoRoute "demo-service") <> "") by discriminate.
  assert (Hsv : ar_Service (setService demoRoute "demo-service") <> "") by discriminate.
  assert (Hid : "id-demo-service" <> "") by discriminate.
  destruct (Hp false false localhost
              (mkService "id-demo-service" "demo-service" "" "http" "demo-upstream" 80 ""
                 0 0 0 0)
              (initEnv storeWithDemoService) Hn Hsv (or_introl eq_refl) eq_refl eq_refl Hid)
    as (_ & Hm & _ & Hst).
  split; [exact Hm | exact Hst].
Defined.
